(* ===== verification/_CoqProject ===== *)
-Q . S2P
Prelude.v
GoStrings.v
Slices.v
Json.v
JsonParse.v
JsonFuel.v
JsonRoundTrip.v
JsonUtf8.v
Deployment.v
DeploymentJson.v
NodeRegistry.v
ServiceRegistry.v
Envoy.v
Config.v
Xds.v
ControlPlane.v
Broker.v
NodeChannels.v
NodeDelivery.v
EndedChannels.v
Container.v
DebugManager.v
Orchestrator.v
Reconcile.v
DockerManager.v
Message.v
Broadcast.v
Discovery.v
OrchestratorApp.v
System.v
NodeProgram.v
StateFile.v
Fleet.v
Services.v
DockerServices.v
Convergence.v
Settling.v
Departure.v
FileWatcher.v
ConfigSources.v
ControlPlaneApp.v
StatusManager.v
Connection.v
Startup.v
Mesh.v
Logging.v
