(* ===== verification/Prelude.v ===== *)
(** * CARISMA: a verification development for the CAR-Integrated Service Mesh

    The system connects the computers (nodes) of a car.  One node is the
    central node.  On it runs the control plane, at which every node registers
    and to which every node announces the services it offers; from both it
    generates the configuration of the Envoy proxies.  On every node an
    orchestrator keeps the containers of the node in line with a desired
    deployment configuration, which the central node reads from a file and
    distributes over the control plane, and reports what runs.  A status page
    lists, starts and stops the containers of a node.

    ** The parts and their files

    Shared: [Prelude] (results of Go calls, integers at their width, iteration
    over maps, invariants of step relations, automation), [GoStrings] (the
    packages [strings], [strconv], [net] as far as they are used), [Slices]
    (the interface of [x/exp/slices]), [Json], [JsonParse], [JsonFuel],
    [JsonRoundTrip], [JsonUtf8] ([encoding/json]: writing, reading, that the
    reader's fuel is enough, that written text reads back, that strings that
    were read are well-formed UTF-8).

    - [Deployment], [DeploymentJson]: [pkg/config/deployment.go].
    - [Config], [ConfigSources]: [pkg/config/config.go] and [envoy.go].
    - [NodeRegistry]: [pkg/registry/node_regisry.go] and [errors.go], its
      handlers as functions; [Broker]: [pkg/channel/broker.go] as a transition
      system; [NodeChannels]: concurrent calls of [OpenChannel] on one broker;
      [NodeDelivery]: the progress they make; [EndedChannels]: what is left of
      those that have ended.
    - [ServiceRegistry]: [pkg/registry/service_regisry.go], refining a set of
      endpoints.
    - [Envoy] (API messages and the packages they are handed to), [Xds]
      ([cmd/carisma-control-plane/app/xds]), [ControlPlane] (its goroutines,
      the channels between them and the handlers, and the shared mutex),
      [ControlPlaneApp] ([app.go]: the program around them).
    - [Container]: [pkg/container/container.go], [image.go] and [ParseFQIN];
      [DebugManager], [DockerManager]: the two container managers, instances
      of the class [Container.Manager].
    - [Orchestrator]: [cmd/carisma-orchestrator/app/orchestrator.go] against
      that class; [Reconcile]: what it achieves with a lawful manager (the
      class [LawfulManager], which [DockerManager] discharges for a lawful
      engine); [OrchestratorApp]: [app.go] and [envoy.go] around it, from
      the manager on; [Startup]: the configuration and the choice of the
      manager before; [NodeProgram]: the goroutines of one orchestrator, call
      by call of the manager, up to the deferred calls and the end of the
      program, as a transition system; [StateFile]: the file of the actual
      state in it, with writes that fail.
    - [Fleet]: the programs of all nodes and the node channels as one
      transition system; [Services]: the announcements of a node as messages of
      its session of the service registry, for managers of the class
      [DescribedManager], whose services - but not Envoy - have a descriptor; [Convergence]: both together; [Settling]: that the
      system can always get to where [Convergence] applies; [Departure]: what
      a program that ends leaves behind.
    - [DockerServices]: the manager of [DockerManager] as one of the class
      [DescribedManager], on an engine that behaves as Docker documents
      ([LawfulEngine], [DescribedEngine]) and whose images are not built on
      each other ([UnrelatedImages]).
    - [System]: a desired state from the file of the central node through a
      node and its report back into the file of the actual state and back to
      the node.
    - [Mesh]: the configuration of Envoy from the registration of a node to the
      snapshot that the control plane stores for it.
    - [Message], [Broadcast]: [pkg/udp]; [Discovery]: [discovery.go] of the
      orchestrator, on the results of its reads and in time.
    - [FileWatcher]: [pkg/io/file_watcher.go].
    - [StatusManager]: [cmd/carisma-status-manager/app/app.go], its handlers and
      loops; [Connection]: the goroutines of one connection together.
    - [Logging]: [pkg/logging], [pkg/version] and [cmd/carisma-version].

    ** How code is rendered

    A Go function that returns an error or may panic has a result in
    [outcome]; state is passed explicitly, also through the class [Manager],
    whose state stands for the engine behind a manager as well.  An [int] is a
    [Z] with its conversions written out ([int32], [uint32], [int64]).  A map
    is a [gmap]; a loop over one takes its entries as a list [it] with
    [ranges m it], so theorems hold for every order.  Slices that alias (the
    in-place filter of [process], the map of services shared by reference) are
    modelled with the sharing.  Goroutines, channels and mutexes are step
    relations whose steps are the accesses to shared state, with the
    capacities of the channels; blocking is the absence of a step.  What peers
    answer (a stream, a socket, the file system, the Docker engine) is an
    argument: one result per call, in order.

    Third-party packages are classes with the documented behaviour the sources
    rely on as laws: [SlicesPkg], [AnyPkg], [SnapshotPkg], [ReferencePkg],
    [DockerClient], [GobPkg], and, with the state of the machine that is seen
    through the client, [LawfulEngine] and [DescribedEngine].  Every class has
    an instance, so the laws can hold, and the witnesses compute with it.

    ** What the theorems show

    - Control plane: registration round trip and numbering of the nodes
      ([NodeRegistry], [ControlPlane]); the service registry implements a set
      of endpoints ([ServiceRegistry]); exactly the offered bundles are routed
      ([Xds]); and why no cluster is ever published by the assembled control
      plane and its goroutines end ([Xds], [ControlPlane]).
    - Message relay: the channel of a reader is a bounded queue, so what every
      reader and every node gets and which messages are dropped; that writers
      never wait for readers, and that a message can always reach every node
      ([Broker], [NodeChannels], [NodeDelivery]).
    - Orchestration: the exact calls and announcements of [process],
      convergence with a lawful manager, configurations that never settle, the
      refinement of such a manager by the Docker manager and what a removal
      takes away there, the state of the debug manager ([Orchestrator],
      [Reconcile], [DockerManager], [DebugManager]); the main goroutine stops
      Envoy on every way out of its own, and what a report does to the file of
      the actual state ([OrchestratorApp]); the round of a desired state, and that the report
      of a node does it no harm when it comes back ([System]); that the
      goroutines of a satellite refine the sequential program from the service
      channel to its deferred calls, and what they do to each other on a
      central node ([NodeProgram]); that the file of the actual state stays
      readable as long as no write fails, and what a failed write leads to
      ([StateFile]).
    - The whole system: all satellites, running or ended, replay one sequence
      of messages ([Fleet]); nodes run Envoy, their reports list it, and the
      theorems hold for messages that do; once nothing is on the way each runs what the last message for
      it orders, and the service registry holds exactly its services
      ([Convergence], [Services]) - unless they ran before the node registered;
      a connected satellite whose reader lost nothing can always get there
      without another message ([Settling]); a satellite that leaves takes its
      Envoy away, but its services stay running and registered
      ([Departure]).  On Docker the entries are what the
      descriptors and the port bindings of the containers say
      ([DockerServices]).
    - Start: the program runs as configured and registers where configured
      ([Startup]), but not when it has to discover its central node
      ([OrchestratorApp]); every node's Envoy finds its snapshot ([Mesh]).
    - Formats: round trips of configurations, image names, discovery messages
      and the list on the status page; reading JSON ends with an answer about
      the text, and what was read is well-formed UTF-8 ([DeploymentJson],
      [Container], [Message], [StatusManager], [JsonFuel], [JsonUtf8]).
    - Sources of the configuration and their precedence ([ConfigSources]),
      the broadcast of a central node for every configured delay and the time
      a discovery takes ([Discovery]), watching a file ([FileWatcher]), the
      commands of the status page and the life of the goroutines of a
      connection ([StatusManager], [Connection]).

    Several theorems record behaviour that the sources hardly intend: they are
    stated as what the code does.

    ** Fuel and bounds

    [JsonParse.parse_value] takes twice the length of the text plus two as
    fuel; [JsonFuel] proves that every larger number of calls gives the same
    result.  An activity of [NodeProgram] is given steps; that finitely many
    suffice is [activity_performs_process] (and [activity_finishes]).
    [unquote] and [escape_runes] consume a byte per call and take the length of
    their input.
    [Discovery.discovery_at] takes one unit per packet;
    [discovery_waits_for_silence] proves that one more than the number of
    packets is enough.  All other recursion is structural.  Numbers of nodes
    and installations are bounded only where an identifier is a machine integer
    ([registration_round_trip], [debug_manager_invariant]).

    ** What is not modelled

    - Generated protobuf and gRPC code, beyond the messages and constants the
      program uses.
    - The entry points and embedded web assets; the formatting of log messages
      and the global log level: no state the rest depends on.
    - Sockets, the HTTP server and websockets, fsnotify, the file system, the
      Docker engine: their answers are inputs.
    - The steps of [Fleet] have no time: how often a node reports is not
      stated, and [Settling] says that a satellite can catch up, not that the
      scheduler lets it while reports go on.
    - The context of [Run]: that its goroutines end once it is cancelled are
      steps of [NodeProgram], but not the single calls that fail on the way.
    - The text of Envoy's bootstrap message ([protojson]) is a parameter. *)
From Stdlib Require Export Lia.
From stdpp Require Export base numbers sorting relations strings gmap list.

(** ** The scope of the development's notations and its hint database *)
Declare Scope carisma_scope.
Delimit Scope carisma_scope with carisma.

Create HintDb carisma.
Create Rewrite HintDb carisma_rw.

(** ** Errors, panics and the result of a Go call

    A Go function returns [(value, error)] and may panic.  [outcome A] is the
    value with a nil error, the error (the callers of this program never look
    at the value that accompanies an error), or a run-time panic. *)
Inductive code :=
| FailedPrecondition
| Unavailable
| Canceled.

Inductive num_reason :=
| ErrSyntax
| ErrRange.

Inductive error :=
| EOF
| ErrorNew (msg : string)
| StatusError (c : code) (msg : string)
| StatusErrorOf (c : code) (cause : error) (* message: [cause.Error()] *)
| NumError (num : string) (why : num_reason)
| ErrExternal (tag : string).

Inductive panic :=
| IndexOutOfRange
| SliceOutOfRange
| NilMapAssignment
| NilDereference
| CloseOfClosedChannel
| ExplicitPanic (msg : string).

Inductive outcome (A : Type) :=
| Ret (a : A)
| Fail (e : error)
| Panic (p : panic).
Arguments Ret {A} a.
Arguments Fail {A} e.
Arguments Panic {A} p.

#[export] Instance code_eq_dec : EqDecision code.
Proof. solve_decision. Defined.

#[export] Instance num_reason_eq_dec : EqDecision num_reason.
Proof. solve_decision. Defined.

#[export] Instance error_eq_dec : EqDecision error.
Proof. solve_decision. Defined.

#[export] Instance panic_eq_dec : EqDecision panic.
Proof. solve_decision. Defined.

#[export] Instance outcome_ret : MRet outcome := λ A a, Ret a.

(** [if err != nil { return err }] and the propagation of panics. *)
#[export] Instance outcome_bind : MBind outcome := λ A B f m,
  match m with
  | Ret a => f a
  | Fail e => Fail e
  | Panic p => Panic p
  end.

#[export] Instance outcome_fmap : FMap outcome := λ A B f m,
  match m with
  | Ret a => Ret (f a)
  | Fail e => Fail e
  | Panic p => Panic p
  end.

Definition is_ret {A} (m : outcome A) : bool :=
  match m with Ret _ => true | _ => false end.

Definition is_panic {A} (m : outcome A) : bool :=
  match m with Panic _ => true | _ => false end.

(** [if err != nil] on a value that may carry an error. *)
Definition is_fail {A} (m : outcome A) : bool :=
  match m with Fail _ => true | _ => false end.

(** What a blocking [stream.Recv()] returns: a message, or the error that ends
    the stream ([io.EOF] when the peer closed it). *)
Inductive recv (A : Type) :=
| RecvMsg (a : A)
| RecvErr (e : error).
Arguments RecvMsg {A} a.
Arguments RecvErr {A} e.

(** Lookup of an element by index, which panics out of range. *)
Definition index_or_panic {A} (l : list A) (i : nat) : outcome A :=
  match l !! i with
  | Some a => Ret a
  | None => Panic IndexOutOfRange
  end.

(** [v, _ := f()]: an ignored error leaves the nil value. *)
Definition ignore_error {A} (m : outcome A) : outcome (option A) :=
  match m with
  | Ret a => Ret (Some a)
  | Fail _ => Ret None
  | Panic p => Panic p
  end.

(** [index_or_panic] with the [int] index of the source, which may be
    negative. *)
Definition index_int {A} (l : list A) (i : Z) : outcome A :=
  if decide (0 ≤ i)%Z then index_or_panic l (Z.to_nat i) else Panic IndexOutOfRange.

(** [for _, a := range l] with a loop-carried value and early returns. *)
Fixpoint foldM {A B} (f : B → A → outcome B) (b : B) (l : list A) : outcome B :=
  match l with
  | [] => Ret b
  | a :: l => b ← f b a; foldM f b l
  end.

Section outcome_lemmas.
Context {A B : Type}.
Implicit Types (m : outcome A) (f : A → outcome B).

Lemma bind_Ret_inv m f b :
  m ≫= f = Ret b → ∃ a, m = Ret a ∧ f a = Ret b.
Proof. destruct m; intros H; simplify_eq/=; eauto. Qed.

Lemma bind_Fail_inv m f e :
  m ≫= f = Fail e → m = Fail e ∨ ∃ a, m = Ret a ∧ f a = Fail e.
Proof. destruct m; intros H; simplify_eq/=; eauto. Qed.

Lemma bind_Panic_inv m f p :
  m ≫= f = Panic p → m = Panic p ∨ ∃ a, m = Ret a ∧ f a = Panic p.
Proof. destruct m; intros H; simplify_eq/=; eauto. Qed.

Lemma index_or_panic_Ret (l : list A) i a :
  index_or_panic l i = Ret a ↔ l !! i = Some a.
Proof. unfold index_or_panic. destruct (l !! i); naive_solver. Qed.

Lemma index_or_panic_Panic (l : list A) i p :
  index_or_panic l i = Panic p ↔ p = IndexOutOfRange ∧ length l ≤ i.
Proof.
  rewrite <- lookup_ge_None. unfold index_or_panic.
  destruct (l !! i); split; intros; destruct_and?; by simplify_eq.
Qed.

Lemma index_int_Ret (l : list A) i a :
  index_int l i = Ret a ↔ (0 ≤ i)%Z ∧ l !! Z.to_nat i = Some a.
Proof.
  unfold index_int. case_decide; [rewrite index_or_panic_Ret; tauto |].
  split; [done | lia].
Qed.

End outcome_lemmas.

Section foldM_lemmas.
Context {A B : Type}.

Lemma foldM_app (g : B → A → outcome B) b l1 l2 :
  foldM g b (l1 ++ l2) = foldM g b l1 ≫= λ b, foldM g b l2.
Proof.
  revert b. induction l1 as [| a l1 IH]; intros b; simpl; [done |].
  destruct (g b a); simpl; [apply IH | done | done].
Qed.

(** An invariant of the loop body holds after the loop. *)
Lemma foldM_invariant (g : B → A → outcome B) (I : B → Prop) b l b' :
  (∀ b a b', a ∈ l → I b → g b a = Ret b' → I b') →
  I b → foldM g b l = Ret b' → I b'.
Proof.
  revert b. induction l as [| a l IH]; simpl; intros b Hg Hb H; [by simplify_eq |].
  apply bind_Ret_inv in H as (b1 & H1 & H2).
  eapply (IH b1); [| | done].
  - intros ??? Hin. apply Hg. set_solver.
  - eapply Hg; [| done | done]. set_solver.
Qed.

(** A loop all of whose iterations return, returns. *)
Lemma foldM_total (g : B → A → outcome B) b l :
  (∀ b a, a ∈ l → ∃ b', g b a = Ret b') → ∃ b', foldM g b l = Ret b'.
Proof.
  revert b. induction l as [| a l IH]; simpl; intros b Hg; [eauto |].
  destruct (Hg b a) as [b1 ->]; [set_solver |]. cbn. apply IH. set_solver.
Qed.
End foldM_lemmas.

(** Inversion of a monadic computation that returned, failed or panicked. *)
Ltac outcome_inv :=
  repeat match goal with
  | H : _ ≫= _ = Ret _ |- _ => apply bind_Ret_inv in H as (? & ? & ?)
  | H : index_or_panic _ _ = Ret _ |- _ => apply index_or_panic_Ret in H
  | H : index_or_panic _ _ = Panic _ |- _ =>
      apply index_or_panic_Panic in H as [? ?]
  end; simplify_eq/=.

(** ** Machine integers

    [int] is 64 bits wide on the platforms the program is built for; [int32]
    and [uint32] conversions wrap around. *)
Definition int_min : Z := - 2 ^ 63.
Definition int_max : Z := 2 ^ 63 - 1.
Definition int64 (z : Z) : Z := (z + 2 ^ 63) mod 2 ^ 64 - 2 ^ 63.
Definition int32 (z : Z) : Z := (z + 2 ^ 31) mod 2 ^ 32 - 2 ^ 31.
Definition uint32 (z : Z) : Z := z mod 2 ^ 32.

Definition fits_int (z : Z) : Prop := (int_min ≤ z ≤ int_max)%Z.
Definition fits_int32 (z : Z) : Prop := (- 2 ^ 31 ≤ z < 2 ^ 31)%Z.

#[export] Instance fits_int_dec z : Decision (fits_int z).
Proof. unfold fits_int. apply _. Defined.

#[export] Instance fits_int32_dec z : Decision (fits_int32 z).
Proof. unfold fits_int32. apply _. Defined.

Lemma int32_range z : fits_int32 (int32 z).
Proof.
  unfold fits_int32, int32.
  pose proof (Z.mod_pos_bound (z + 2 ^ 31) (2 ^ 32) ltac:(lia)). lia.
Qed.

Lemma int32_id z : fits_int32 z → int32 z = z.
Proof. unfold fits_int32, int32. intros ?. rewrite Z.mod_small; lia. Qed.

Lemma int32_add_l a b : int32 (int32 a + b) = int32 (a + b).
Proof.
  unfold int32.
  replace ((a + 2 ^ 31) mod 2 ^ 32 - 2 ^ 31 + b + 2 ^ 31)%Z
    with ((a + 2 ^ 31) mod 2 ^ 32 + b)%Z by lia.
  rewrite Z.add_mod_idemp_l by lia. do 2 f_equal. lia.
Qed.

Lemma int32_add_r a b : int32 (a + int32 b) = int32 (a + b).
Proof. rewrite (Z.add_comm a (int32 b)), int32_add_l. f_equal; lia. Qed.

Lemma uint32_range z : (0 ≤ uint32 z < 2 ^ 32)%Z.
Proof. unfold uint32. apply Z.mod_pos_bound. lia. Qed.

Lemma uint32_id z : (0 ≤ z < 2 ^ 32)%Z → uint32 z = z.
Proof. unfold uint32. intros. by rewrite Z.mod_small. Qed.

#[export] Hint Resolve int32_range uint32_range : carisma.
#[export] Hint Rewrite int32_add_l int32_add_r : carisma_rw.

(** ** Iterating over a Go map

    [for k, v := range m] visits every entry once, in an order that differs
    from one execution to the next.  A loop is modelled as a function of the
    list of entries in the order of this execution; [ranges m it] says that
    [it] is such an order. *)
Definition ranges {V} (m : gmap string V) (it : list (string * V)) : Prop :=
  it ≡ₚ map_to_list m.

Section ranges.
Context {V : Type}.
Implicit Types (m : gmap string V) (it : list (string * V)).

Lemma ranges_canonical m : ranges m (map_to_list m).
Proof. by unfold ranges. Qed.

Lemma ranges_elem_of m it k v :
  ranges m it → (k, v) ∈ it ↔ m !! k = Some v.
Proof. unfold ranges. intros ->. apply elem_of_map_to_list. Qed.

Lemma ranges_NoDup m it : ranges m it → NoDup it.*1.
Proof. unfold ranges. intros ->. apply NoDup_fst_map_to_list. Qed.

Lemma ranges_perm m it it' : ranges m it → ranges m it' → it ≡ₚ it'.
Proof. unfold ranges. by intros -> ->. Qed.

Lemma ranges_empty it : ranges ∅ it → it = [].
Proof.
  unfold ranges. rewrite map_to_list_empty. intros H.
  by apply Permutation_nil_r in H.
Qed.

Lemma ranges_nil_inv m : ranges m [] → m = ∅.
Proof. intros H. by apply map_to_list_empty_iff, Permutation_nil_r. Qed.
End ranges.

#[export] Hint Resolve ranges_canonical : carisma.

(** ** Transition systems *)

(** An invariant established initially and preserved by every step holds in
    every reachable state. *)
Lemma rtc_invariant {S : Type} (step : relation S) (I : S → Prop) s s' :
  (∀ x y, I x → step x y → I y) → rtc step s s' → I s → I s'.
Proof. intros Hstep. induction 1; eauto. Qed.

(** Same, for a property of the run that relates its two ends. *)
Lemma rtc_preorder {S : Type} (step R : relation S) s s' :
  PreOrder R → (∀ x y, step x y → R x y) → rtc step s s' → R s s'.
Proof.
  intros HR Hstep. induction 1 as [x | x y z Hxy _ IH]; [reflexivity |].
  etrans; [by apply Hstep | done].
Qed.

(** ** Lists *)
Section list_lemmas.
Context {A B : Type}.

(** [foldl] preserves an invariant. *)
Lemma foldl_invariant (f : B → A → B) (I : B → Prop) l b :
  (∀ b a, a ∈ l → I b → I (f b a)) → I b → I (foldl f b l).
Proof.
  revert b. induction l as [| a l IH]; intros b Hf Hb; [done |].
  simpl. apply IH; [| apply Hf]; set_solver.
Qed.

Lemma NoDup_fst_functional (l : list (A * B)) k x y :
  NoDup l.*1 → (k, x) ∈ l → (k, y) ∈ l → x = y.
Proof.
  induction l as [| [k' z] l IH]; simpl; intros Hnd Hx Hy; [set_solver |].
  apply NoDup_cons in Hnd as [Hk Hnd].
  assert (∀ w, (k, w) ∈ l → k ∈ l.*1) as Hin.
  { intros w Hw. by apply (list_elem_of_fmap_2 fst) in Hw. }
  apply elem_of_cons in Hx as [? | Hx], Hy as [? | Hy]; simplify_eq; [done | | | auto].
  - by destruct Hk; eapply Hin.
  - by destruct Hk; eapply Hin.
Qed.

Lemma foldl_snoc_fold (f : B → A → B) l a b :
  foldl f b (l ++ [a]) = f (foldl f b l) a.
Proof. by rewrite foldl_app. Qed.

End list_lemmas.

(** A decidable closed statement, by evaluation. *)
Ltac decide_vm :=
  lazymatch goal with
  | |- ?P => refine (bool_decide_eq_true_1 P _); vm_compute; reflexivity
  end.
