(* ===== verification/GoStrings.v ===== *)
(** The functions of Go's [strings], [strconv], [net] and [fmt] packages the
    sources use, on byte strings, with the lemmas the components share.

    A Go string is a sequence of bytes; [string] is a sequence of 8-bit
    [ascii], so both have the same values.  Separators and prefixes in the
    sources are ASCII, where searching for a rune is searching for a byte. *)
From S2P Require Import Prelude.
From stdpp Require Import pretty.
From Stdlib Require Export Ascii.

Local Open Scope string_scope.
#[local] Arguments String.append !_ _ / : simpl nomatch.

(** ** Bytes and substrings *)

(** [len(s)] *)
Definition len (s : string) : Z := Z.of_nat (String.length s).

(** [s[i:]] and [s[:i]] for [i <= len(s)]; beyond that Go panics. *)
Fixpoint drop_bytes (i : nat) (s : string) : outcome string :=
  match i, s with
  | 0, _ => Ret s
  | S i, String _ s => drop_bytes i s
  | S _, EmptyString => Panic SliceOutOfRange
  end.

Fixpoint take_bytes (i : nat) (s : string) : outcome string :=
  match i, s with
  | 0, _ => Ret ""
  | S i, String c s => String c <$> take_bytes i s
  | S _, EmptyString => Panic SliceOutOfRange
  end.

Fixpoint has_byte (c : ascii) (s : string) : bool :=
  match s with
  | EmptyString => false
  | String d s => (d =? c)%char || has_byte c s
  end.

(** ** Package strings *)

(** [strings.HasPrefix] *)
Fixpoint HasPrefix (s p : string) {struct p} : bool :=
  match p, s with
  | EmptyString, _ => true
  | String c p, String d s => (d =? c)%char && HasPrefix s p
  | String _ _, EmptyString => false
  end.

(** [strings.HasSuffix]: [len(s) >= len(p) && s[len(s)-len(p):] == p]. *)
Definition HasSuffix (s p : string) : bool :=
  match drop_bytes (String.length s - String.length p) s with
  | Ret t => (String.length p <=? String.length s)%nat && (t =? p)
  | _ => false
  end.

(** [strings.IndexRune(s, c)] for an ASCII rune: the first position, or -1. *)
Fixpoint IndexByte (s : string) (c : ascii) : Z :=
  match s with
  | EmptyString => -1
  | String d s =>
      if (d =? c)%char then 0
      else let i := IndexByte s c in if (i <? 0)%Z then -1 else i + 1
  end.

(** [strings.LastIndex(s, c)] for a one-byte pattern: the last position, or
    -1. *)
Fixpoint LastIndexByte (s : string) (c : ascii) : Z :=
  match s with
  | EmptyString => -1
  | String d s =>
      let i := LastIndexByte s c in
      if (0 <=? i)%Z then i + 1 else if (d =? c)%char then 0 else -1
  end.

(** [strings.Split(s, sep)] for a one-byte separator. *)
Fixpoint Split (s : string) (sep : ascii) : list string :=
  match s with
  | EmptyString => [""]
  | String c s =>
      if (c =? sep)%char then "" :: Split s sep
      else match Split s sep with
           | [] => [String c ""]
           | t :: ts => String c t :: ts
           end
  end.

(** ** Package strconv *)

(** [strconv.Itoa] *)
Definition Itoa (z : Z) : string := pretty z.

(** Value of a decimal digit. *)
Definition digit (c : ascii) : option Z :=
  let n := Z.of_nat (nat_of_ascii c) in
  if decide (48 ≤ n ≤ 57)%Z then Some (n - 48)%Z else None.

(** The loop of [strconv.ParseUint] in base 10 for 64 bits: [num] is the whole
    string, for the error. *)
Fixpoint digits (num : string) (acc : Z) (s : string) : outcome Z :=
  match s with
  | EmptyString => Ret acc
  | String c s =>
      match digit c with
      | None => Fail (NumError num ErrSyntax)
      | Some d =>
          if decide (10 * acc + d < 2 ^ 64)%Z then digits num (10 * acc + d) s
          else Fail (NumError num ErrRange)
      end
  end.

Definition split_sign (s : string) : bool * string :=
  match s with
  | EmptyString => (false, s)
  | String c t =>
      if (c =? "-")%char then (true, t)
      else if (c =? "+")%char then (false, t) else (false, s)
  end.

(** [strconv.Atoi]: an optional sign, at least one digit, nothing else, and a
    value that fits an [int]. *)
Definition Atoi (s : string) : outcome Z :=
  let '(neg, ds) := split_sign s in
  match ds with
  | EmptyString => Fail (NumError s ErrSyntax)
  | _ =>
      n ← digits s 0 ds;
      let z : Z := if neg : bool then (- n)%Z else n in
      if decide (fits_int z) then Ret z else Fail (NumError s ErrRange)
  end.

(** ** Package net *)

(** [net.JoinHostPort]: a host with a colon is bracketed. *)
Definition JoinHostPort (host port : string) : string :=
  if has_byte ":" host then "[" +:+ host +:+ "]:" +:+ port
  else host +:+ ":" +:+ port.

(** ** Lemmas on bytes and concatenation *)

Lemma str_app_assoc (a b c : string) : (a +:+ b) +:+ c = a +:+ (b +:+ c).
Proof. induction a as [| x a IH]; simpl; congruence. Qed.

Lemma str_app_nil_r (a : string) : a +:+ "" = a.
Proof. induction a as [| x a IH]; simpl; congruence. Qed.

Lemma str_length_app (a b : string) :
  String.length (a +:+ b) = (String.length a + String.length b)%nat.
Proof. induction a as [| x a IH]; simpl; congruence. Qed.

Lemma str_app_inj_r (a a' b : string) : a +:+ b = a' +:+ b → a = a'.
Proof.
  revert a'. induction a as [| x a IH]; intros [| y a'] H; simplify_eq/=; try done.
  - apply (f_equal String.length) in H. simpl in H. rewrite str_length_app in H. lia.
  - apply (f_equal String.length) in H. simpl in H. rewrite str_length_app in H. lia.
  - f_equal. by apply IH.
Qed.

Lemma ascii_eqb_eq_true (c d : ascii) : (c =? d)%char = true ↔ c = d.
Proof. apply Ascii.eqb_eq. Qed.

Lemma has_byte_cons c d s : has_byte c (String d s) = (d =? c)%char || has_byte c s.
Proof. done. Qed.

Lemma has_byte_app c a b : has_byte c (a +:+ b) = has_byte c a || has_byte c b.
Proof. induction a as [| x a IH]; simpl; [done |]. by rewrite IH, orb_assoc. Qed.

Lemma drop_bytes_app a b : drop_bytes (String.length a) (a +:+ b) = Ret b.
Proof. induction a as [| x a IH]; simpl; [by destruct b | done]. Qed.

Lemma take_bytes_app a b : take_bytes (String.length a) (a +:+ b) = Ret a.
Proof. induction a as [| x a IH]; simpl; [by destruct b |]. by rewrite IH. Qed.

(** Slicing returns exactly when the bound is within the string. *)
Lemma take_bytes_short i s :
  (String.length s < i)%nat → take_bytes i s = Panic SliceOutOfRange.
Proof.
  revert s. induction i as [| i IH]; intros [| c s] H; simpl in *; try lia; [done |].
  rewrite IH by lia. done.
Qed.

Lemma take_bytes_ok i s :
  (i ≤ String.length s)%nat →
  ∃ a b, s = a +:+ b ∧ String.length a = i ∧ take_bytes i s = Ret a
         ∧ drop_bytes i s = Ret b.
Proof.
  revert s. induction i as [| i IH]; intros s Hs.
  { exists "", s. by destruct s. }
  destruct s as [| c s]; simpl in *; [lia |].
  destruct (IH s ltac:(lia)) as (a & b & -> & <- & Ht & Hd).
  exists (String c a), b. simpl. by rewrite Ht.
Qed.

(** ** HasPrefix, HasSuffix, IndexRune, LastIndex and Split *)

Lemma HasPrefix_spec s p : HasPrefix s p = true ↔ ∃ t, s = p +:+ t.
Proof.
  revert s. induction p as [| c p IH]; intros s; simpl.
  { split; [intros _; by exists s | by intros _]. }
  destruct s as [| d s].
  { split; [done |]. by intros [t [=]]. }
  rewrite andb_true_iff, ascii_eqb_eq_true, IH. split.
  - intros [-> [t ->]]. by exists t.
  - intros [t [= -> ->]]. eauto.
Qed.

Lemma HasSuffix_spec s p : HasSuffix s p = true ↔ ∃ t, s = t +:+ p.
Proof.
  unfold HasSuffix. split.
  - intros H.
    destruct (take_bytes_ok (String.length s - String.length p) s ltac:(lia))
      as (a & b & -> & Ha & _ & Hd).
    rewrite Hd in H. apply andb_true_iff in H as [_ ->%String.eqb_eq]. by exists a.
  - intros [t ->].
    replace (String.length (t +:+ p) - String.length p)%nat with (String.length t)
      by (rewrite str_length_app; lia).
    rewrite drop_bytes_app, String.eqb_refl, andb_true_r.
    apply Nat.leb_le. rewrite str_length_app. lia.
Qed.

Lemma HasSuffix_false s p : HasSuffix s p = false ↔ ∀ t, s ≠ t +:+ p.
Proof.
  rewrite <- not_true_iff_false, HasSuffix_spec. naive_solver.
Qed.

(** Both searches return -1 exactly on strings without the byte, and otherwise
    the first, respectively the last, position of it. *)
Lemma IndexByte_spec s c :
  (IndexByte s c = -1 ∧ has_byte c s = false)%Z
  ∨ ∃ a b, s = a +:+ String c b ∧ has_byte c a = false ∧ IndexByte s c = len a.
Proof.
  unfold len. induction s as [| d s IH]; simpl; [by left |].
  destruct (Ascii.eqb_spec d c) as [-> | Hd].
  { right. by exists "", s. }
  destruct IH as [[-> ->] | (a & b & -> & Ha & ->)]; [by left |].
  right. exists (String d a), b. split_and!; [done | |].
  - simpl. rewrite Ha, orb_false_r. by apply Ascii.eqb_neq.
  - destruct (Z.ltb_spec (Z.of_nat (String.length a)) 0); simpl; lia.
Qed.

Lemma LastIndexByte_spec s c :
  (LastIndexByte s c = -1 ∧ has_byte c s = false)%Z
  ∨ ∃ a b, s = a +:+ String c b ∧ has_byte c b = false ∧ LastIndexByte s c = len a.
Proof.
  unfold len. induction s as [| d s IH]; simpl; [by left |].
  destruct IH as [[-> Hs] | (a & b & -> & Hb & ->)].
  - simpl. rewrite Hs, orb_false_r.
    destruct (Ascii.eqb_spec d c) as [-> | Hd]; [right; by exists "", s | by left].
  - right. exists (String d a), b. split_and!; [done | done |].
    destruct (Z.leb_spec 0 (Z.of_nat (String.length a))); simpl; lia.
Qed.

Lemma Split_app a b c :
  Split (a +:+ String c b) c = (Split a c ++ Split b c)%list.
Proof.
  induction a as [| d a IH]; simpl; [by rewrite Ascii.eqb_refl |].
  destruct (Ascii.eqb_spec d c); rewrite IH; [done |].
  destruct (Split a c) eqn:E; [| done].
  by destruct a as [| e a]; simpl in E; [| destruct (e =? c)%char, (Split a c)].
Qed.

Lemma Split_no_sep s c : has_byte c s = false → Split s c = [s].
Proof.
  induction s as [| d s IH]; simpl; [done |].
  intros [Hd Hs]%orb_false_iff. by rewrite Hd, IH.
Qed.

Lemma Split_not_nil s c : Split s c ≠ [].
Proof. destruct s as [| d s]; simpl; [done |]. by destruct (d =? c)%char, (Split s c). Qed.

Lemma Split_elem_of_no_sep s c t : t ∈ Split s c → has_byte c t = false.
Proof.
  revert t. induction s as [| d s IH]; simpl; intros t.
  { intros ->%list_elem_of_singleton. done. }
  destruct (Ascii.eqb_spec d c) as [-> | Hd].
  - intros [-> | Ht]%elem_of_cons; [done | auto].
  - destruct (Split s c) as [| u us]; intros Ht.
    + apply list_elem_of_singleton in Ht as ->. simpl. rewrite orb_false_r. by apply Ascii.eqb_neq.
    + apply elem_of_cons in Ht as [-> | Ht]; [| apply IH; set_solver].
      simpl. rewrite IH by set_solver. rewrite orb_false_r. by apply Ascii.eqb_neq.
Qed.

(** ** Decimal numbers: Itoa and Atoi are inverse on [int] *)

Lemma digit_pretty d : (d < 10)%N → digit (pretty_N_char d) = Some (Z.of_N d).
Proof.
  intros Hd. destruct d as [| d]; [done |].
  do 4 (destruct d as [d | d |]; try done); lia.
Qed.

Lemma digit_range c d : digit c = Some d → (0 ≤ d < 10)%Z.
Proof. unfold digit. case_decide; intros; simplify_eq; lia. Qed.

(** Reading the digits of [x] in front of [s] accumulates [x]. *)
Lemma digits_pretty num x s :
  (Z.of_N x < 2 ^ 64)%Z →
  digits num 0 (pretty_N_go x s) = digits num (Z.of_N x) s.
Proof.
  revert s. induction (N.lt_wf_0 x) as [x _ IH]; intros s Hx.
  destruct (decide (x = 0)%N) as [-> | Hne]; [done |].
  assert (Hdiv : (x `div` 10 < x)%N) by (apply N.div_lt; lia).
  assert (Hmod := N.mod_lt x 10 ltac:(lia)).
  assert (Hx10 := N.div_mod x 10 ltac:(lia)).
  rewrite pretty_N_go_step by lia. rewrite IH by lia. simpl.
  rewrite digit_pretty by done.
  replace (10 * Z.of_N (x `div` 10) + Z.of_N (x `mod` 10))%Z with (Z.of_N x) by lia.
  by rewrite decide_True by lia.
Qed.

Lemma has_byte_pretty_N_go c x s :
  digit c = None → has_byte c (pretty_N_go x s) = has_byte c s.
Proof.
  intros Hc. revert s. induction (N.lt_wf_0 x) as [x _ IH]; intros s.
  destruct (decide (x = 0)%N) as [-> | Hne]; [done |].
  rewrite pretty_N_go_step by lia.
  rewrite IH by (apply N.div_lt; lia). simpl.
  destruct (Ascii.eqb_spec (pretty_N_char (x `mod` 10)) c) as [<- |]; [| done].
  rewrite digit_pretty in Hc by (apply N.mod_lt; lia). done.
Qed.

Lemma has_byte_Itoa c z :
  digit c = None → c ≠ "-"%char → has_byte c (Itoa z) = false.
Proof.
  intros Hc Hdash.
  assert (Hz : c ≠ "0"%char) by (by intros ->).
  destruct z as [| p | p].
  - change (Itoa 0) with (String "0" ""). rewrite has_byte_cons.
    by apply not_eq_sym, Ascii.eqb_neq in Hz as ->.
  - by apply (has_byte_pretty_N_go c (N.pos p) "").
  - change (Itoa (Z.neg p)) with (String "-" (pretty_N_go (N.pos p) "")).
    rewrite has_byte_cons, has_byte_pretty_N_go by done.
    by apply not_eq_sym, Ascii.eqb_neq in Hdash as ->.
Qed.

Lemma has_byte_Itoa_dash z : (0 ≤ z)%Z → has_byte "-" (Itoa z) = false.
Proof.
  intros Hz. destruct z as [| p | p]; [done | | lia].
  by apply (has_byte_pretty_N_go "-" (N.pos p) "").
Qed.

Lemma split_sign_unsigned s :
  has_byte "-" s = false → has_byte "+" s = false → split_sign s = (false, s).
Proof.
  destruct s as [| c s]; simpl; [done |].
  intros [-> _]%orb_false_iff [-> _]%orb_false_iff. done.
Qed.

Lemma pretty_N_go_length x s :
  (String.length s ≤ String.length (pretty_N_go x s))%nat.
Proof.
  revert s. induction (N.lt_wf_0 x) as [x _ IH]; intros s.
  destruct (decide (x = 0)%N) as [-> | Hne]; [done |].
  rewrite pretty_N_go_step by lia.
  etrans; [| apply IH, N.div_lt; lia]. simpl. lia.
Qed.

Lemma pretty_N_go_pos_cons p : ∃ c t, pretty_N_go (N.pos p) "" = String c t.
Proof.
  assert (H := pretty_N_go_length (N.pos p `div` 10)
    (String (pretty_N_char (N.pos p `mod` 10)) "")).
  rewrite <- pretty_N_go_step in H by lia.
  destruct (pretty_N_go (N.pos p) "") as [| c t]; simpl in H; [lia | eauto].
Qed.

Lemma Atoi_Itoa z : fits_int z → Atoi (Itoa z) = Ret z.
Proof.
  unfold fits_int, int_min, int_max. intros Hz.
  destruct z as [| p | p]; [done | |].
  - destruct (pretty_N_go_pos_cons p) as (c & t & E).
    unfold Atoi. rewrite split_sign_unsigned.
    + change (Itoa (Z.pos p)) with (pretty_N_go (N.pos p) "").
      rewrite E, <- E, digits_pretty by lia. cbn.
      by rewrite decide_True by (unfold fits_int, int_min, int_max; lia).
    + by apply has_byte_Itoa_dash.
    + by apply has_byte_Itoa.
  - destruct (pretty_N_go_pos_cons p) as (c & t & E).
    change (Itoa (Z.neg p)) with (String "-" (pretty_N_go (N.pos p) "")).
    unfold Atoi. cbn [split_sign Ascii.eqb Bool.eqb].
    rewrite E, <- E, digits_pretty by lia. cbn.
    by rewrite decide_True by (unfold fits_int, int_min, int_max; lia).
Qed.

(** Without a sign, [Atoi] never returns a negative number. *)
Lemma digits_nonneg num acc s n :
  (0 ≤ acc)%Z → digits num acc s = Ret n → (0 ≤ n)%Z.
Proof.
  revert acc. induction s as [| c s IH]; simpl; intros acc Hacc Hn; [by simplify_eq |].
  destruct (digit c) as [d |] eqn:Hd; [| done].
  apply digit_range in Hd. case_decide; [| done].
  eapply IH; [| done]. lia.
Qed.

Lemma Atoi_nonneg s n : has_byte "-" s = false → Atoi s = Ret n → (0 ≤ n)%Z.
Proof.
  unfold Atoi, split_sign. intros Hs Hn.
  assert (Hneg : ∀ ds, (match ds with
    | EmptyString => Fail (NumError s ErrSyntax)
    | _ => n ← digits s 0 ds;
           if decide (fits_int n) then Ret n else Fail (NumError s ErrRange)
    end = Ret n) → (0 ≤ n)%Z).
  { intros [| c ds] H; [done |]. apply bind_Ret_inv in H as (m & Hm & H).
    case_decide; simplify_eq. by eapply digits_nonneg. }
  destruct s as [| c s]; [done |]. simpl in Hs.
  apply orb_false_iff in Hs as [Hc _]. rewrite Hc in Hn.
  destruct (c =? "+")%char; [by apply (Hneg s) | by apply (Hneg (String c s))].
Qed.

Lemma Atoi_no_panic s p : Atoi s ≠ Panic p.
Proof.
  assert (Hd : ∀ num acc t, digits num acc t ≠ Panic p).
  { intros num acc t. revert acc. induction t as [| c t IH]; intros acc; simpl; [done |].
    destruct (digit c); [| done]. by case_decide. }
  unfold Atoi. destruct (split_sign s) as [neg [| c ds]]; [done |].
  intros [H | (n & Hn & H)]%bind_Panic_inv; [by apply Hd in H |].
  by case_decide.
Qed.

#[export] Hint Resolve has_byte_Itoa_dash : carisma.
