(* ===== verification/Slices.v ===== *)
(** The interface of the package [golang.org/x/exp/slices], which the sources
    import and which is not part of the repository: its five operations the
    program uses, with their documented behaviour as laws, and an instance
    that shows the laws can hold (and that makes the models executable). *)
From S2P Require Import Prelude.

(** The documentation of [Sort]: "sorts a slice of any ordered type in
    ascending order"; [Compact]: "replaces consecutive runs of equal elements
    with a single copy"; [Index]: "the index of the first occurrence of v in s,
    or -1 if not present"; [Delete]: "removes the elements s[i:j] from s";
    [Contains]: "whether v is present in s". *)
Class SlicesPkg := {
  slices_Sort : list Z → list Z;
  slices_Compact : list Z → list Z;
  slices_Index : list Z → Z → Z;
  slices_Delete : list Z → Z → Z → outcome (list Z);
  slices_Contains : list string → string → bool;

  slices_Sort_perm l : slices_Sort l ≡ₚ l;
  slices_Sort_sorted l : StronglySorted Z.le (slices_Sort l);
  slices_Compact_nil : slices_Compact [] = [];
  slices_Compact_one x : slices_Compact [x] = [x];
  slices_Compact_cons x y l :
    slices_Compact (x :: y :: l) =
      if decide (x = y) then slices_Compact (y :: l)
      else x :: slices_Compact (y :: l);
  slices_Index_absent l v : v ∉ l → slices_Index l v = (-1)%Z;
  slices_Index_first l1 v l2 :
    v ∉ l1 → slices_Index (l1 ++ v :: l2) v = Z.of_nat (length l1);
  slices_Delete_mid l1 l2 l3 :
    slices_Delete (l1 ++ l2 ++ l3) (Z.of_nat (length l1))
      (Z.of_nat (length l1 + length l2)) = Ret (l1 ++ l3);
  slices_Contains_spec l s : slices_Contains l s = true ↔ s ∈ l;
}.

(** ** Strictly sorted lists of ports *)
Abbreviation strictly_sorted := (StronglySorted Z.lt).

Section slices_lemmas.
Context `{SlicesPkg}.

Lemma slices_Compact_elem_of l x : x ∈ slices_Compact l ↔ x ∈ l.
Proof.
  induction l as [| y [| z l] IH].
  - by rewrite slices_Compact_nil.
  - by rewrite slices_Compact_one.
  - rewrite slices_Compact_cons. case_decide as Hd; [subst |]; set_solver.
Qed.

Lemma slices_Compact_sorted l :
  StronglySorted Z.le l → strictly_sorted (slices_Compact l).
Proof.
  induction 1 as [| y l Hl IH Hy].
  { rewrite slices_Compact_nil. constructor. }
  destruct l as [| z l].
  { rewrite slices_Compact_one. repeat constructor. }
  rewrite slices_Compact_cons. case_decide as Hyz; [done |].
  constructor; [done |].
  apply Forall_forall. intros x. rewrite slices_Compact_elem_of. intros Hx.
  apply Forall_cons in Hy as [Hyz' Hy].
  apply StronglySorted_inv in Hl as [_ Hz]. rewrite Forall_forall in Hz.
  apply elem_of_cons in Hx as [-> | Hx]; [lia |]. specialize (Hz _ Hx). lia.
Qed.

(** Sorting and compacting keeps the set of elements and makes the list
    strictly sorted. *)
Lemma slices_normalise_elem_of l x :
  x ∈ slices_Compact (slices_Sort l) ↔ x ∈ l.
Proof. by rewrite slices_Compact_elem_of, slices_Sort_perm. Qed.

Lemma slices_normalise_sorted l :
  strictly_sorted (slices_Compact (slices_Sort l)).
Proof. apply slices_Compact_sorted, slices_Sort_sorted. Qed.

Lemma slices_Index_cases l v :
  (v ∉ l ∧ slices_Index l v = (-1)%Z)
  ∨ (∃ l1 l2, l = l1 ++ v :: l2 ∧ v ∉ l1
              ∧ slices_Index l v = Z.of_nat (length l1)).
Proof.
  destruct (decide (v ∈ l)) as [Hv | Hv].
  - right. apply list_elem_of_split_l in Hv as (l1 & l2 & -> & Hl1).
    exists l1, l2. by rewrite slices_Index_first.
  - left. by rewrite slices_Index_absent.
Qed.

Lemma slices_Delete_one l1 v l2 :
  slices_Delete (l1 ++ v :: l2) (Z.of_nat (length l1)) (Z.of_nat (length l1) + 1)
    = Ret (l1 ++ l2).
Proof.
  rewrite <- (slices_Delete_mid l1 [v] l2). simpl. f_equal. lia.
Qed.

Lemma slices_Contains_false l s : slices_Contains l s = false ↔ s ∉ l.
Proof. rewrite <- not_true_iff_false, slices_Contains_spec. done. Qed.
End slices_lemmas.

Section strictly_sorted.
Implicit Types l : list Z.

Lemma strictly_sorted_NoDup l : strictly_sorted l → NoDup l.
Proof.
  induction 1 as [| x l _ IH Hx]; constructor; [| done].
  intros Hin. rewrite Forall_forall in Hx. specialize (Hx _ Hin). lia.
Qed.

Lemma strictly_sorted_le l : strictly_sorted l → StronglySorted Z.le l.
Proof.
  induction 1 as [| x l _ IH Hx]; constructor; [done |].
  eapply Forall_impl; [done |]. simpl. lia.
Qed.

(** A strictly sorted list is determined by its elements. *)
Lemma strictly_sorted_unique l1 l2 :
  strictly_sorted l1 → strictly_sorted l2 → (∀ x, x ∈ l1 ↔ x ∈ l2) → l1 = l2.
Proof.
  intros H1 H2 Hel. apply (StronglySorted_unique Z.le);
    [by apply strictly_sorted_le.. |].
  apply NoDup_Permutation; auto using strictly_sorted_NoDup.
Qed.

Lemma strictly_sorted_remove l1 v l2 :
  strictly_sorted (l1 ++ v :: l2) →
  strictly_sorted (l1 ++ l2) ∧ v ∉ l1 ++ l2.
Proof.
  intros Hs. split.
  - induction l1 as [| x l1 IH]; simpl in *.
    + by apply StronglySorted_inv in Hs as [? _].
    + apply StronglySorted_inv in Hs as [Hs Hx].
      constructor; [by apply IH |]. rewrite !Forall_app, Forall_cons in *. tauto.
  - apply strictly_sorted_NoDup, NoDup_app in Hs as (_ & Hd & Hv).
    apply NoDup_cons in Hv as [Hv _]. set_solver.
Qed.
End strictly_sorted.

(** ** An implementation of the interface *)
Fixpoint compact (l : list Z) : list Z :=
  match l with
  | x :: (y :: _) as l' => if decide (x = y) then compact l' else x :: compact l'
  | _ => l
  end.

Fixpoint index (l : list Z) (v : Z) : Z :=
  match l with
  | [] => -1
  | x :: l => if decide (x = v) then 0
              else let i := index l v in if (i <? 0)%Z then -1 else i + 1
  end.

Definition delete_range (l : list Z) (i j : Z) : outcome (list Z) :=
  if decide (0 ≤ i ≤ j ∧ j ≤ Z.of_nat (length l))%Z
  then Ret (take (Z.to_nat i) l ++ drop (Z.to_nat j) l)
  else Panic SliceOutOfRange.

#[export, refine] Instance slices_instance : SlicesPkg := {|
  slices_Sort := merge_sort Z.le;
  slices_Compact := compact;
  slices_Index := index;
  slices_Delete := delete_range;
  slices_Contains l s := bool_decide (s ∈ l);
|}.
Proof.
  - intros l. apply merge_sort_Permutation.
  - intros l. apply (StronglySorted_merge_sort Z.le).
  - done.
  - done.
  - done.
  - induction l as [| x l IH]; intros v Hv; [done |]. simpl.
    apply not_elem_of_cons in Hv as [Hx Hv].
    rewrite decide_False by done. by rewrite IH.
  - induction l1 as [| x l1 IH]; intros v l2 Hv; simpl.
    { by rewrite decide_True. }
    apply not_elem_of_cons in Hv as [Hx Hv].
    rewrite decide_False by done. rewrite IH by done.
    destruct (Z.ltb_spec (Z.of_nat (length l1)) 0); lia.
  - intros l1 l2 l3. unfold delete_range.
    rewrite decide_True by (rewrite !length_app; lia).
    rewrite !Nat2Z.id, take_app_length, app_assoc.
    rewrite <- length_app, drop_app_length. done.
  - intros l s. by rewrite bool_decide_eq_true.
Defined.
