(* ===== verification/Json.v ===== *)
(** JSON text as the package [encoding/json] of Go 1.23 writes it: values,
    UTF-8 decoding, string escaping and [json.MarshalIndent] with an empty
    prefix and four spaces. *)
From S2P Require Import Prelude GoStrings.


Local Open Scope string_scope.
#[local] Arguments String.append !_ _ / : simpl nomatch.

(** ** Values *)
Inductive json :=
| JNull
| JBool (b : bool)
| JNumber (literal : string)
| JString (s : string)
| JArray (vs : list json)
| JObject (kvs : list (string * json)).

(** ** UTF-8 *)

Definition byte_val (c : ascii) : Z := Z.of_nat (nat_of_ascii c).
Definition byte_of (z : Z) : ascii := ascii_of_nat (Z.to_nat z).

Definition in_range (lo hi : Z) (c : ascii) : bool :=
  (lo <=? byte_val c)%Z && (byte_val c <=? hi)%Z.

(** [utf8.DecodeRuneInString]: the bytes of the first rune when the string
    starts with a valid encoding (no overlong form, no surrogate, at most
    U+10FFFF), and [None] for [(RuneError, 1)]. *)
Definition decode_rune (s : string) : option (string * string) :=
  match s with
  | String c0 s1 =>
      if in_range 0x00 0x7F c0 then Some (String c0 "", s1)
      else match s1 with
      | String c1 s2 =>
          if in_range 0xC2 0xDF c0 then
            if in_range 0x80 0xBF c1 then Some (String c0 (String c1 ""), s2) else None
          else match s2 with
          | String c2 s3 =>
              let lo := (if (byte_val c0 =? 0xE0)%Z then 0xA0 else 0x80)%Z in
              let hi := (if (byte_val c0 =? 0xED)%Z then 0x9F else 0xBF)%Z in
              if in_range 0xE0 0xEF c0 then
                if in_range lo hi c1 && in_range 0x80 0xBF c2
                then Some (String c0 (String c1 (String c2 "")), s3) else None
              else match s3 with
              | String c3 s4 =>
                  let lo := (if (byte_val c0 =? 0xF0)%Z then 0x90 else 0x80)%Z in
                  let hi := (if (byte_val c0 =? 0xF4)%Z then 0x8F else 0xBF)%Z in
                  if in_range 0xF0 0xF4 c0 && in_range lo hi c1
                     && in_range 0x80 0xBF c2 && in_range 0x80 0xBF c3
                  then Some (String c0 (String c1 (String c2 (String c3 ""))), s4)
                  else None
              | EmptyString => None
              end
          | EmptyString => None
          end
      | EmptyString => None
      end
  | EmptyString => None
  end.

(** ** Encoding of strings *)

Definition hex_digit (n : Z) : ascii :=
  byte_of (if (n <? 10)%Z then 48 + n else 87 + n)%Z.

Definition hex2 (n : Z) : string :=
  String (hex_digit (n / 16)) (String (hex_digit (n mod 16)) "").

(** A byte below 0x80 as [appendString] writes it with HTML escaping. *)
Definition escape_ascii (c : ascii) : string :=
  let n := byte_val c in
  if (n =? 34)%Z then "\" +:+ String c ""
  else if (n =? 92)%Z then "\\"
  else if (n =? 8)%Z then "\b"
  else if (n =? 12)%Z then "\f"
  else if (n =? 10)%Z then "\n"
  else if (n =? 13)%Z then "\r"
  else if (n =? 9)%Z then "\t"
  else if (n <? 32)%Z || (n =? 60)%Z || (n =? 62)%Z || (n =? 38)%Z
       then "\u00" +:+ hex2 n
  else String c "".

(** A rune of more than one byte: U+2028 and U+2029 are escaped. *)
Definition escape_rune (r : string) : string :=
  match r with
  | String c EmptyString => escape_ascii c
  | String c0 (String c1 (String c2 EmptyString)) =>
      if (byte_val c0 =? 0xE2)%Z && (byte_val c1 =? 0x80)%Z
         && ((byte_val c2 =? 0xA8)%Z || (byte_val c2 =? 0xA9)%Z)
      then "\u20" +:+ hex2 (byte_val c2 - 0x80)
      else r
  | _ => r
  end.

(** The loop over the runes of a string; every invalid byte becomes the
    escape of U+FFFD.  [fuel] bounds the number of runes: the number of bytes
    is enough. *)
Fixpoint escape_runes (fuel : nat) (s : string) : string :=
  match fuel, s with
  | S fuel, String _ s' =>
      match decode_rune s with
      | Some (r, s'') => escape_rune r +:+ escape_runes fuel s''
      | None => "\ufffd" +:+ escape_runes fuel s'
      end
  | _, _ => ""
  end.

Definition quote_char : string := String (byte_of 34) "".

Definition encode_string (s : string) : string :=
  quote_char +:+ escape_runes (String.length s) s +:+ quote_char.

(** ** Indented output *)

Fixpoint indent (n : nat) : string :=
  match n with
  | 0 => ""
  | S n => "    " +:+ indent n
  end.

Definition newline (n : nat) : string := String (byte_of 10) (indent n).

(** [a, b, c], every element on a line of its own at depth [n]. *)
Definition join_lines (n : nat) (l : list string) : string :=
  String.concat ("," +:+ newline n) l.

Fixpoint print_indent (n : nat) (v : json) : string :=
  match v with
  | JNull => "null"
  | JBool b => if b then "true" else "false"
  | JNumber l => l
  | JString s => encode_string s
  | JArray [] => "[]"
  | JArray vs =>
      "[" +:+ newline (S n) +:+ join_lines (S n) (map (print_indent (S n)) vs)
      +:+ newline n +:+ "]"
  | JObject [] => "{}"
  | JObject kvs =>
      "{" +:+ newline (S n)
      +:+ join_lines (S n)
            (map (λ kv, encode_string kv.1 +:+ ": " +:+ print_indent (S n) kv.2) kvs)
      +:+ newline n +:+ "}"
  end.

Definition MarshalIndent (v : json) : string := print_indent 0 v.
