(* ===== verification/JsonParse.v ===== *)
(** JSON text as the package [encoding/json] of Go 1.23 reads it: the syntax
    check of [json.Unmarshal], which also yields the value, and the unquoting
    of strings.  What is decoded into which Go type is up to the callers. *)
From S2P Require Import Prelude GoStrings Json.

Local Open Scope string_scope.
#[local] Arguments String.append !_ _ / : simpl nomatch.

(** ** Characters *)

Definition is_char (n : Z) (c : ascii) : bool := (byte_val c =? n)%Z.
Definition is_digit (c : ascii) : bool := in_range 48 57 c.

Definition is_space (c : ascii) : bool :=
  is_char 32 c || is_char 9 c || is_char 13 c || is_char 10 c.

(** The value of a hexadecimal digit. *)
Definition hex_value (c : ascii) : option Z :=
  let n := byte_val c in
  if in_range 48 57 c then Some (n - 48)%Z
  else if in_range 97 102 c then Some (n - 87)%Z
  else if in_range 65 70 c then Some (n - 55)%Z
  else None.

(** [getu4], without the leading [\u]. *)
Definition hex4 (c1 c2 c3 c4 : ascii) : option Z :=
  match hex_value c1, hex_value c2, hex_value c3, hex_value c4 with
  | Some a, Some b, Some c, Some d => Some (((a * 16 + b) * 16 + c) * 16 + d)%Z
  | _, _, _, _ => None
  end.

Fixpoint skip_ws (s : string) : string :=
  match s with
  | String c s' => if is_space c then skip_ws s' else s
  | EmptyString => s
  end.

(** [utf8.EncodeRune] for a code point that is not a surrogate. *)
Definition encode_rune (z : Z) : string :=
  if (z <? 0x80)%Z then String (byte_of z) ""
  else if (z <? 0x800)%Z then
    String (byte_of (0xC0 + z / 64)) (String (byte_of (0x80 + z mod 64)) "")
  else if (z <? 0x10000)%Z then
    String (byte_of (0xE0 + z / 4096))
      (String (byte_of (0x80 + z / 64 mod 64)) (String (byte_of (0x80 + z mod 64)) ""))
  else
    String (byte_of (0xF0 + z / 262144))
      (String (byte_of (0x80 + z / 4096 mod 64))
        (String (byte_of (0x80 + z / 64 mod 64)) (String (byte_of (0x80 + z mod 64)) ""))).

Definition replacement : string := encode_rune 0xFFFD.

(** ** Strings *)

(** The raw bytes of a string up to its closing quote, and what follows it:
    control characters and unknown escapes are syntax errors. *)
Definition simple_escape (c : ascii) : option ascii :=
  if is_char 34 c || is_char 92 c || is_char 47 c then Some c
  else if is_char 98 c then Some (byte_of 8)
  else if is_char 102 c then Some (byte_of 12)
  else if is_char 110 c then Some (byte_of 10)
  else if is_char 114 c then Some (byte_of 13)
  else if is_char 116 c then Some (byte_of 9)
  else None.

Definition prepend (p : string) (r : option (string * string)) : option (string * string) :=
  match r with Some (raw, rest) => Some (p +:+ raw, rest) | None => None end.

Fixpoint scan_string (s : string) : option (string * string) :=
  match s with
  | EmptyString => None
  | String c s1 =>
      if is_char 34 c then Some ("", s1)
      else if is_char 92 c then
        match s1 with
        | String e s2 =>
            if is_char 117 e then
              match s2 with
              | String h1 (String h2 (String h3 (String h4 s6))) =>
                  match hex4 h1 h2 h3 h4 with
                  | Some _ =>
                      prepend (String c (String e (String h1 (String h2
                        (String h3 (String h4 "")))))) (scan_string s6)
                  | None => None
                  end
              | _ => None
              end
            else match simple_escape e with
                 | Some _ => prepend (String c (String e "")) (scan_string s2)
                 | None => None
                 end
        | EmptyString => None
        end
      else if (byte_val c <? 32)%Z then None
      else prepend (String c "") (scan_string s1)
  end.

(** The escape [\uXXXX] at the front of a string. *)
Definition unicode_escape (s : string) : option (Z * string) :=
  match s with
  | String b (String u (String h1 (String h2 (String h3 (String h4 s6))))) =>
      if is_char 92 b && is_char 117 u then
        match hex4 h1 h2 h3 h4 with Some z => Some (z, s6) | None => None end
      else None
  | _ => None
  end.

Definition is_surrogate (z : Z) : bool := (0xD800 <=? z)%Z && (z <? 0xE000)%Z.

(** [utf16.DecodeRune], when the two halves form a pair. *)
Definition surrogate_pair (hi lo : Z) : option Z :=
  if (0xD800 <=? hi)%Z && (hi <? 0xDC00)%Z && (0xDC00 <=? lo)%Z && (lo <? 0xE000)%Z
  then Some ((hi - 0xD800) * 1024 + (lo - 0xDC00) + 0x10000)%Z else None.

(** [unquoteBytes] on the raw bytes: a lone surrogate and an invalid byte
    become U+FFFD.  Every round consumes a byte, so the length of the raw
    string is enough fuel. *)
Fixpoint unquote (fuel : nat) (s : string) : string :=
  match fuel, s with
  | S fuel, String c s1 =>
      match unicode_escape s with
      | Some (z, s6) =>
          if is_surrogate z then
            match unicode_escape s6 with
            | Some (z', s12) =>
                match surrogate_pair z z' with
                | Some r => encode_rune r +:+ unquote fuel s12
                | None => replacement +:+ unquote fuel s6
                end
            | None => replacement +:+ unquote fuel s6
            end
          else encode_rune z +:+ unquote fuel s6
      | None =>
          if is_char 92 c then
            match s1 with
            | String e s2 =>
                match simple_escape e with
                | Some d => String d (unquote fuel s2)
                | None => ""
                end
            | EmptyString => ""
            end
          else
            match decode_rune s with
            | Some (r, s') => r +:+ unquote fuel s'
            | None => replacement +:+ unquote fuel s1
            end
      end
  | _, _ => ""
  end.

(** A string after its opening quote: its contents and what follows. *)
Definition parse_string (s : string) : option (string * string) :=
  match scan_string s with
  | Some (raw, rest) => Some (unquote (String.length raw) raw, rest)
  | None => None
  end.

(** ** Numbers *)

Fixpoint scan_digits (s : string) : string * string :=
  match s with
  | String c s' =>
      if is_digit c then let '(ds, rest) := scan_digits s' in (String c ds, rest) else ("", s)
  | EmptyString => ("", s)
  end.

(** At least one digit. *)
Definition scan_digits1 (s : string) : option (string * string) :=
  match scan_digits s with
  | (EmptyString, _) => None
  | r => Some r
  end.

Definition scan_int (s : string) : option (string * string) :=
  match s with
  | String c s' => if is_char 48 c then Some ("0", s') else scan_digits1 s
  | EmptyString => None
  end.

Definition scan_frac (s : string) : option (string * string) :=
  match s with
  | String c s' => if is_char 46 c then prepend "." (scan_digits1 s') else Some ("", s)
  | EmptyString => Some ("", s)
  end.

Definition scan_exp (s : string) : option (string * string) :=
  match s with
  | String c s' =>
      if is_char 101 c || is_char 69 c then
        match s' with
        | String d s'' =>
            if is_char 43 d || is_char 45 d
            then prepend (String c (String d "")) (scan_digits1 s'')
            else prepend (String c "") (scan_digits1 s')
        | EmptyString => None
        end
      else Some ("", s)
  | EmptyString => Some ("", s)
  end.

Definition scan_unsigned (s : string) : option (string * string) :=
  match scan_int s with
  | Some (i, s) =>
      match scan_frac s with
      | Some (f, s) => prepend (i +:+ f) (scan_exp s)
      | None => None
      end
  | None => None
  end.

Definition scan_number (s : string) : option (string * string) :=
  match s with
  | String c s' => if is_char 45 c then prepend "-" (scan_unsigned s') else scan_unsigned s
  | EmptyString => None
  end.

(** ** Values *)

Definition maxNestingDepth : Z := 10000.

Definition expect (c : Z) (s : string) : option string :=
  match s with
  | String d s' => if is_char c d then Some s' else None
  | EmptyString => None
  end.

Definition literal (word : string) (v : json) (s : string) : option (json * string) :=
  if HasPrefix s word then
    match drop_bytes (String.length word) s with Ret rest => Some (v, rest) | _ => None end
  else None.

(** [fuel] bounds the calls; [depth] is the number of open arrays and objects.
    [parse_elements] and [parse_members] start at the first element. *)
Fixpoint parse_value (fuel : nat) (depth : Z) (s : string) : option (json * string) :=
  match fuel with
  | 0 => None
  | S fuel =>
      match skip_ws s with
      | EmptyString => None
      | String c s' =>
          if is_char 34 c then
            match parse_string s' with
            | Some (str, rest) => Some (JString str, rest)
            | None => None
            end
          else if is_char 91 c then
            if (maxNestingDepth <=? depth)%Z then None
            else match expect 93 (skip_ws s') with
                 | Some rest => Some (JArray [], rest)
                 | None =>
                     match parse_elements fuel (depth + 1) s' with
                     | Some (vs, rest) => Some (JArray vs, rest)
                     | None => None
                     end
                 end
          else if is_char 123 c then
            if (maxNestingDepth <=? depth)%Z then None
            else match expect 125 (skip_ws s') with
                 | Some rest => Some (JObject [], rest)
                 | None =>
                     match parse_members fuel (depth + 1) s' with
                     | Some (kvs, rest) => Some (JObject kvs, rest)
                     | None => None
                     end
                 end
          else if is_char 116 c then literal "true" (JBool true) (String c s')
          else if is_char 102 c then literal "false" (JBool false) (String c s')
          else if is_char 110 c then literal "null" JNull (String c s')
          else match scan_number (String c s') with
               | Some (lit, rest) => Some (JNumber lit, rest)
               | None => None
               end
      end
  end
with parse_elements (fuel : nat) (depth : Z) (s : string) : option (list json * string) :=
  match fuel with
  | 0 => None
  | S fuel =>
      match parse_value fuel depth s with
      | None => None
      | Some (v, rest) =>
          match expect 93 (skip_ws rest), expect 44 (skip_ws rest) with
          | Some rest, _ => Some ([v], rest)
          | None, Some rest =>
              match parse_elements fuel depth rest with
              | Some (vs, rest) => Some (v :: vs, rest)
              | None => None
              end
          | None, None => None
          end
      end
  end
with parse_members (fuel : nat) (depth : Z) (s : string)
    : option (list (string * json) * string) :=
  match fuel with
  | 0 => None
  | S fuel =>
      match expect 34 (skip_ws s) with
      | None => None
      | Some s =>
          match parse_string s with
          | None => None
          | Some (key, s) =>
              match expect 58 (skip_ws s) with
              | None => None
              | Some s =>
                  match parse_value fuel depth s with
                  | None => None
                  | Some (v, rest) =>
                      match expect 125 (skip_ws rest), expect 44 (skip_ws rest) with
                      | Some rest, _ => Some ([(key, v)], rest)
                      | None, Some rest =>
                          match parse_members fuel depth rest with
                          | Some (kvs, rest) => Some ((key, v) :: kvs, rest)
                          | None => None
                          end
                      | None, None => None
                      end
                  end
              end
          end
      end
  end.

(** The whole text must be one value.  Between two calls that consume nothing
    at least one byte is consumed, so the fuel is enough. *)
Definition parse_json (s : string) : option json :=
  match parse_value (2 * String.length s + 2) 0 s with
  | Some (v, rest) => match skip_ws rest with EmptyString => Some v | _ => None end
  | None => None
  end.

Definition SyntaxError : error := ErrExternal "json: SyntaxError".
Definition UnmarshalTypeError : error := ErrExternal "json: UnmarshalTypeError".

(** ** Names of struct fields

    A key selects the field whose name it equals after folding: ASCII letters
    to upper case, and the two other runes that fold to an ASCII letter, U+017F
    (long s) and U+212A (Kelvin sign). *)
Definition to_upper (c : ascii) : ascii :=
  if in_range 97 122 c then byte_of (byte_val c - 32) else c.

Fixpoint fold_name (s : string) : string :=
  match s with
  | EmptyString => ""
  | String c s1 =>
      match s1 with
      | String d s2 =>
          if is_char 0xC5 c && is_char 0xBF d then String (byte_of 83) (fold_name s2)
          else match s2 with
               | String e s3 =>
                   if is_char 0xE2 c && is_char 0x84 d && is_char 0xAA e
                   then String (byte_of 75) (fold_name s3)
                   else String (to_upper c) (fold_name s1)
               | EmptyString => String (to_upper c) (fold_name s1)
               end
      | EmptyString => String (to_upper c) ""
      end
  end.

Definition names_field (field key : string) : bool := fold_name key =? fold_name field.

Definition byte_string (l : list Z) : string :=
  foldr (λ z s, String (byte_of z) s) "" l.

Example parse_escapes :
  parse_json (" [" +:+ quote_char +:+ "a\n\u00e9\ud83d\ude00\ud800x" +:+ quote_char +:+ ", 1.5e-3,{}]")
  = Some (JArray [JString ("a" +:+ byte_string [10; 0xC3; 0xA9; 0xF0; 0x9F; 0x98; 0x80;
                                               0xEF; 0xBF; 0xBD]%Z +:+ "x");
                  JNumber "1.5e-3"; JObject []]).
Proof. vm_compute. reflexivity. Qed.

Example parse_rejects : parse_json "[1,]" = None ∧ parse_json "01" = None ∧ parse_json "{}x" = None.
Proof. by vm_compute. Qed.

Example folding :
  names_field "gRPCPort" "GRPCPort" = true
  ∧ names_field "state" (byte_string [0xC5; 0xBF]%Z +:+ "tate") = true
  ∧ names_field "state" "status" = false.
Proof. by vm_compute. Qed.

(** ** Strings that are valid UTF-8 *)
Inductive utf8 : string → Prop :=
| utf8_nil : utf8 ""
| utf8_rune s r s' : decode_rune s = Some (r, s') → utf8 s' → utf8 s.

Fixpoint is_ascii (s : string) : bool :=
  match s with
  | EmptyString => true
  | String c s => in_range 0 127 c && is_ascii s
  end.

Lemma utf8_ascii s : is_ascii s = true → utf8 s.
Proof.
  induction s as [| c s IH]; simpl; [constructor |].
  intros [Hc Hs]%andb_true_iff. eapply utf8_rune; [| by apply IH].
  cbn [decode_rune]. by rewrite Hc.
Qed.

(** A rune is one ASCII byte or two to four bytes from 0x80 on. *)
Inductive rune : string → Prop :=
| rune_ascii c : (byte_val c < 128)%Z → rune (String c "")
| rune_2 c0 c1 : (128 ≤ byte_val c0)%Z → (128 ≤ byte_val c1)%Z → rune (String c0 (String c1 ""))
| rune_3 c0 c1 c2 :
    (128 ≤ byte_val c0)%Z → (128 ≤ byte_val c1)%Z → (128 ≤ byte_val c2)%Z →
    rune (String c0 (String c1 (String c2 "")))
| rune_4 c0 c1 c2 c3 :
    (128 ≤ byte_val c0)%Z → (128 ≤ byte_val c1)%Z → (128 ≤ byte_val c2)%Z →
    (128 ≤ byte_val c3)%Z → rune (String c0 (String c1 (String c2 (String c3 "")))).

Lemma in_range_true lo hi c :
  in_range lo hi c = true → (lo ≤ byte_val c ≤ hi)%Z.
Proof. unfold in_range. rewrite andb_true_iff, !Z.leb_le. done. Qed.

Ltac ranges_true :=
  repeat match goal with
  | H : (_ && _) = true |- _ => apply andb_true_iff in H as [? ?]
  | H : in_range _ _ _ = true |- _ => apply in_range_true in H
  end.

(** Case analysis on the matches of one hypothesis. *)
Ltac cases_in H :=
  repeat match type of H with
  | context [match ?x with _ => _ end] => destruct x eqn:?; try discriminate H
  end.

Lemma decode_rune_spec s r s' :
  decode_rune s = Some (r, s') → s = r +:+ s' ∧ rune r.
Proof.
  unfold decode_rune. intros H. cases_in H; simplify_eq; ranges_true; (split; [done |]);
    constructor; repeat case_match; lia.
Qed.

(** Decoding looks only at the bytes of the rune. *)
Lemma decode_rune_app r s s' t :
  decode_rune s = Some (r, s') → decode_rune (r +:+ t) = Some (r, t).
Proof.
  unfold decode_rune. intros H. cases_in H; simplify_eq; simpl;
    repeat match goal with
    | H : _ = true |- _ => rewrite H
    | H : _ = false |- _ => rewrite H
    end; done.
Qed.

(** ** Reading back an escaped string *)

Lemma byte_val_range c : (0 ≤ byte_val c < 256)%Z.
Proof. unfold byte_val. pose proof (nat_ascii_bounded c). lia. Qed.

Lemma is_char_high n c : (n < 128)%Z → (128 ≤ byte_val c)%Z → is_char n c = false.
Proof. unfold is_char. intros. apply Z.eqb_neq. lia. Qed.

Lemma prepend_app p q r : prepend (p +:+ q) r = prepend p (prepend q r).
Proof. destruct r as [[raw rest] |]; simpl; [| done]. by rewrite str_app_assoc. Qed.

(** The three forms in which the writer leaves a rune. *)
Inductive escaped : string → string → Prop :=
| escaped_ascii c :
    (byte_val c < 128)%Z → is_char 34 c = false → is_char 92 c = false →
    (byte_val c <? 32)%Z = false → escaped (String c "") (String c "")
| escaped_raw r : rune r → (1 < String.length r)%nat → escaped r r
| escaped_simple c e :
    simple_escape e = Some c → is_char 117 e = false →
    escaped (String c "") (String (byte_of 92) (String e ""))
| escaped_unicode r z h1 h2 h3 h4 :
    hex4 h1 h2 h3 h4 = Some z → is_surrogate z = false → encode_rune z = r →
    escaped r (String (byte_of 92) (String (byte_of 117)
                 (String h1 (String h2 (String h3 (String h4 "")))))).

Lemma escape_ascii_escaped c :
  (byte_val c < 128)%Z → escaped (String c "") (escape_ascii c).
Proof.
  destruct c as [[] [] [] [] [] [] [] []]; intros H;
    try (vm_compute in H; discriminate H);
    first
      [ apply escaped_ascii; [exact H | reflexivity..]
      | eapply escaped_simple; reflexivity
      | eapply escaped_unicode; reflexivity ].
Qed.

Lemma high_byte_eq c n : byte_val c = n → c = byte_of n.
Proof.
  intros <-. unfold byte_of, byte_val. by rewrite Nat2Z.id, ascii_nat_embedding.
Qed.

(** The two runes of three bytes that are written as an escape. *)
Lemma escape_rune_3 c0 c1 c2 :
  escape_rune (String c0 (String c1 (String c2 ""))) = String c0 (String c1 (String c2 ""))
  ∨ c0 = byte_of 0xE2 ∧ c1 = byte_of 0x80 ∧ (c2 = byte_of 0xA8 ∨ c2 = byte_of 0xA9).
Proof.
  cbn [escape_rune].
  destruct ((byte_val c0 =? 0xE2)%Z && (byte_val c1 =? 0x80)%Z
            && ((byte_val c2 =? 0xA8)%Z || (byte_val c2 =? 0xA9)%Z)) eqn:E; [right | by left].
  apply andb_true_iff in E as [[E0%Z.eqb_eq E1%Z.eqb_eq]%andb_true_iff E2].
  apply orb_true_iff in E2 as [E2%Z.eqb_eq | E2%Z.eqb_eq];
    apply high_byte_eq in E0, E1, E2; auto.
Qed.

Lemma escape_rune_escaped r : rune r → escaped r (escape_rune r).
Proof.
  intros Hr. assert (Hr' := Hr).
  destruct Hr' as [c Hc | c0 c1 H0 H1 | c0 c1 c2 H0 H1 H2 | c0 c1 c2 c3 H0 H1 H2 H3].
  - by apply escape_ascii_escaped.
  - apply escaped_raw; [done | simpl; lia].
  - destruct (escape_rune_3 c0 c1 c2) as [-> | (-> & -> & [-> | ->])].
    + apply escaped_raw; [done | simpl; lia].
    + by eapply escaped_unicode.
    + by eapply escaped_unicode.
  - apply escaped_raw; [done | simpl; lia].
Qed.

Lemma scan_high c t :
  (128 ≤ byte_val c)%Z → scan_string (String c t) = prepend (String c "") (scan_string t).
Proof.
  intros Hc. cbn [scan_string]. rewrite !is_char_high by lia.
  assert ((byte_val c <? 32)%Z = false) as -> by (apply Z.ltb_ge; lia). done.
Qed.

Lemma scan_escaped_rune r e t :
  escaped r e → scan_string (e +:+ t) = prepend e (scan_string t).
Proof.
  destruct 1 as [c Hc H34 H92 H32 | r Hr Hl | c e He Hu | r z h1 h2 h3 h4 Hz Hs Hr].
  - simpl. by rewrite H34, H92, H32.
  - destruct Hr as [c Hc | c0 c1 H0 H1 | c0 c1 c2 H0 H1 H2 | c0 c1 c2 c3 H0 H1 H2 H3];
      [simpl in Hl; lia |..]; cbn [String.append]; rewrite !scan_high by done;
      by destruct (scan_string t) as [[] |].
  - cbn [String.append scan_string]. change (is_char 34 (byte_of 92)) with false.
    change (is_char 92 (byte_of 92)) with true. cbn [scan_string].
    by rewrite Hu, He.
  - cbn [String.append scan_string]. change (is_char 34 (byte_of 92)) with false.
    change (is_char 92 (byte_of 92)) with true.
    change (is_char 117 (byte_of 117)) with true. cbv iota. by rewrite Hz.
Qed.

(** Scanning stops at the quote that closes the escaped string. *)
Lemma scan_escaped fuel s t :
  utf8 s →
  scan_string (escape_runes fuel s +:+ String (byte_of 34) t) =
    Some (escape_runes fuel s, t).
Proof.
  intros Hs. revert fuel. induction Hs as [| s r s' Hd _ IH]; intros fuel.
  { by destruct fuel. }
  destruct fuel as [| fuel]; [done |]. destruct (decode_rune_spec _ _ _ Hd) as [_ Hr].
  cbn [escape_runes]. destruct s as [| c u]; [done |]. rewrite Hd.
  rewrite str_app_assoc, (scan_escaped_rune r), IH by by apply escape_rune_escaped.
  done.
Qed.

(** Unquoting undoes the escape of a rune. *)
Lemma unquote_escaped_rune fuel r e t s s' :
  decode_rune s = Some (r, s') → escaped r e →
  unquote (S fuel) (e +:+ t) = r +:+ unquote fuel t.
Proof.
  intros Hd He. assert (Ha := decode_rune_app r s s' t Hd).
  destruct He as [c Hc H34 H92 H32 | r Hr Hl | c e He Hu | r z h1 h2 h3 h4 Hz Hs Hr].
  - cbn [String.append unquote] in *. rewrite H92, Ha.
    assert (unicode_escape (String c t) = None) as ->; [| done].
    unfold unicode_escape. repeat case_match; try done. simplify_eq. by rewrite H92 in *.
  - destruct r as [| c r]; [simpl in Hl; lia |].
    assert (Hc : (128 ≤ byte_val c)%Z) by (inversion Hr; subst; simpl in Hl; done || lia).
    cbn [String.append unquote] in *. rewrite is_char_high, Ha by lia.
    assert (unicode_escape (String c (r +:+ t)) = None) as ->; [| done].
    unfold unicode_escape. repeat case_match; try done. simplify_eq.
    by rewrite (is_char_high 92) in * by lia.
  - cbn [String.append unquote].
    assert (unicode_escape (String (byte_of 92) (String e t)) = None) as ->.
    { unfold unicode_escape. rewrite Hu, andb_false_r. by repeat case_match. }
    change (is_char 92 (byte_of 92)) with true. cbv iota. by rewrite He.
  - cbn [String.append unquote unicode_escape].
    change (is_char 92 (byte_of 92) && is_char 117 (byte_of 117)) with true.
    cbv iota. by rewrite Hz, Hs, Hr.
Qed.

Lemma escaped_not_nil r e : escaped r e → (1 ≤ String.length e)%nat.
Proof. destruct 1; simpl in *; lia. Qed.

Lemma unquote_escape_runes s n fuel :
  utf8 s → (String.length s ≤ n)%nat → (String.length (escape_runes n s) ≤ fuel)%nat →
  unquote fuel (escape_runes n s) = s.
Proof.
  intros Hs. revert n fuel. induction Hs as [| s r s' Hd _ IH]; intros n fuel Hn Hf.
  { by destruct n, fuel. }
  destruct (decode_rune_spec _ _ _ Hd) as [Hs Hr].
  assert (Hlen : (String.length s' < String.length s)%nat).
  { rewrite Hs, str_length_app. inversion Hr; simpl; lia. }
  destruct n as [| n]; [lia |].
  assert (Hesc : escape_runes (S n) s = escape_rune r +:+ escape_runes n s').
  { destruct s; [done |]. cbn [escape_runes]. by rewrite Hd. }
  rewrite Hesc in *. assert (He := escape_rune_escaped r Hr).
  rewrite str_length_app in Hf. assert (Hne := escaped_not_nil _ _ He).
  destruct fuel as [| fuel]; [lia |].
  rewrite (unquote_escaped_rune fuel r _ _ s s') by done.
  rewrite IH by lia. done.
Qed.

(** The text between the quotes of an encoded string reads back. *)
Lemma parse_string_encoded s t :
  utf8 s →
  parse_string (escape_runes (String.length s) s +:+ String (byte_of 34) t) = Some (s, t).
Proof.
  intros Hs. unfold parse_string. rewrite scan_escaped by done.
  by rewrite unquote_escape_runes.
Qed.
