(* ===== verification/JsonFuel.v ===== *)
(** The fuel of the JSON reader is enough: with more fuel [parse_value] and
    [unquote] give the same results, so a [None] of [parse_json] is a syntax
    error and never a reader that was stopped too early. *)
From S2P Require Import Prelude GoStrings Json JsonParse.

Local Open Scope string_scope.
#[local] Arguments String.append !_ _ / : simpl nomatch.
#[local] Abbreviation size := String.length.

(** ** Every part of the reader consumes its input *)

Lemma size_app a b : size (a +:+ b) = (size a + size b)%nat.
Proof. apply str_length_app. Qed.

Lemma skip_ws_size s : (size (skip_ws s) ≤ size s)%nat.
Proof. induction s as [| c s IH]; simpl; [done |]. case_match; simpl; lia. Qed.

Lemma expect_size c s rest : expect c s = Some rest → size s = S (size rest).
Proof. destruct s as [| d s]; simpl; [done |]. case_match; intros; by simplify_eq. Qed.

Lemma prepend_Some p r raw rest :
  prepend p r = Some (raw, rest) → ∃ raw', r = Some (raw', rest) ∧ raw = p +:+ raw'.
Proof. destruct r as [[raw' rest'] |]; simpl; intros; simplify_eq. eauto. Qed.

(** Sizes along a chain of scanners. *)
Ltac scan_size :=
  repeat match goal with
  | H : prepend _ _ = Some _ |- _ => apply prepend_Some in H as (? & ? & ->)
  | H : Some _ = Some _ |- _ => simplify_eq
  | H : None = Some _ |- _ => discriminate H
  | H : context [match ?x with _ => _ end] |- _ => destruct x eqn:?; simplify_eq/=
  end.

Lemma scan_string_size s raw rest : scan_string s = Some (raw, rest) → (size rest < size s)%nat.
Proof.
  remember (size s) as n eqn:Hn. revert s raw rest Hn.
  induction (lt_wf n) as [n _ IH]; intros s raw rest -> Hs.
  assert (Hrec : ∀ t raw rest, (size t < size s)%nat → scan_string t = Some (raw, rest) →
    (size rest < size t)%nat) by (intros t r1 r2 Ht Hr; by eapply (IH (size t))).
  clear IH. destruct s as [| c s]; [done |]. cbn [scan_string] in Hs. scan_size;
    try (simpl; lia);
    match goal with H : scan_string ?t = Some _ |- _ =>
      apply Hrec in H; [simpl in *; lia | simpl; lia] end.
Qed.

Lemma scan_digits_size s ds rest :
  scan_digits s = (ds, rest) → size s = (size ds + size rest)%nat.
Proof.
  revert ds rest. induction s as [| c s IH]; intros ds rest; simpl; [by intros [= <- <-] |].
  case_match; [| by intros [= <- <-]].
  destruct (scan_digits s) as [ds' rest'] eqn:E. intros [= <- <-]. simpl.
  by rewrite (IH ds' rest').
Qed.

Lemma scan_digits1_size s ds rest :
  scan_digits1 s = Some (ds, rest) → (size rest < size s)%nat.
Proof.
  unfold scan_digits1. destruct (scan_digits s) as [[| c ds'] rest'] eqn:E; [done |].
  intros [= <- <-]. apply scan_digits_size in E. simpl in E. lia.
Qed.

Lemma scan_int_size s i rest : scan_int s = Some (i, rest) → (size rest < size s)%nat.
Proof.
  destruct s as [| c s]; [done |]. unfold scan_int. case_match.
  - intros [= <- <-]. simpl. lia.
  - apply scan_digits1_size.
Qed.

Lemma scan_frac_size s f rest : scan_frac s = Some (f, rest) → (size rest ≤ size s)%nat.
Proof.
  destruct s as [| c s]; simpl; [by intros [= <- <-] |]. case_match.
  - intros (raw & Hr & _)%prepend_Some. apply scan_digits1_size in Hr. lia.
  - by intros [= <- <-].
Qed.

Lemma scan_exp_size s f rest : scan_exp s = Some (f, rest) → (size rest ≤ size s)%nat.
Proof.
  destruct s as [| c s]; simpl; [by intros [= <- <-] |]. case_match; [| by intros [= <- <-]].
  destruct s as [| d s]; [done |].
  case_match; intros (raw & Hr & _)%prepend_Some; apply scan_digits1_size in Hr; simpl in *; lia.
Qed.

Lemma scan_unsigned_size s n rest : scan_unsigned s = Some (n, rest) → (size rest < size s)%nat.
Proof.
  unfold scan_unsigned. destruct (scan_int s) as [[i s1] |] eqn:H1; [| done].
  destruct (scan_frac s1) as [[f s2] |] eqn:H2; [| done].
  intros (e & H3 & _)%prepend_Some.
  apply scan_int_size in H1. apply scan_frac_size in H2. apply scan_exp_size in H3. lia.
Qed.

Lemma scan_number_size s n rest : scan_number s = Some (n, rest) → (size rest < size s)%nat.
Proof.
  destruct s as [| c s]; [done |]. unfold scan_number. case_match.
  - intros (e & H1 & _)%prepend_Some. apply scan_unsigned_size in H1. simpl. lia.
  - apply scan_unsigned_size.
Qed.

Lemma literal_size w v s r rest :
  w ≠ "" → literal w v s = Some (r, rest) → (size rest < size s)%nat.
Proof.
  intros Hw. unfold literal. destruct (HasPrefix s w) eqn:Hp; [| done].
  apply HasPrefix_spec in Hp as [t ->]. rewrite drop_bytes_app. intros [= _ <-].
  rewrite size_app. destruct w; [done | simpl; lia].
Qed.

Lemma parse_string_size s str rest :
  parse_string s = Some (str, rest) → (size rest < size s)%nat.
Proof.
  unfold parse_string. destruct (scan_string s) as [[raw rest'] |] eqn:E; [| done].
  intros [= _ <-]. by eapply scan_string_size.
Qed.

(** Sizes after [skip_ws] and [expect]. *)
Lemma expect_ws_size c s rest : expect c (skip_ws s) = Some rest → (size rest < size s)%nat.
Proof. intros H%expect_size. assert (Hw := skip_ws_size s). lia. Qed.

Lemma skip_ws_cons_size s c s' : skip_ws s = String c s' → (size s' < size s)%nat.
Proof. intros H. assert (Hw := skip_ws_size s). rewrite H in Hw. simpl in Hw. lia. Qed.

#[local] Hint Resolve expect_ws_size skip_ws_cons_size parse_string_size : size.

Lemma parse_progress fuel :
  (∀ d s v rest, parse_value fuel d s = Some (v, rest) → (size rest < size s)%nat)
  ∧ (∀ d s vs rest, parse_elements fuel d s = Some (vs, rest) → (size rest < size s)%nat)
  ∧ (∀ d s kvs rest, parse_members fuel d s = Some (kvs, rest) → (size rest < size s)%nat).
Proof.
  induction fuel as [| fuel (IHv & IHe & IHm)]; [done |]. split_and!.
  - intros d s v rest H. cbn [parse_value] in H.
    destruct (skip_ws s) as [| c s'] eqn:Hs; [done |]. apply skip_ws_cons_size in Hs.
    repeat match type of H with (if ?b then _ else _) = _ => destruct b end; try done;
      try (apply literal_size in H; [simpl in H; lia | done]);
      repeat match type of H with match ?x with _ => _ end = _ => destruct x eqn:? end;
      repeat match type of H with (let (_, _) := ?p in _) = _ => destruct p end; simplify_eq;
      repeat match goal with
      | H : parse_string _ = Some (?a, _) |- _ => apply parse_string_size in H
      | H : expect _ (skip_ws _) = Some _ |- _ => apply expect_ws_size in H
      | H : parse_elements _ _ _ = Some _ |- _ => apply IHe in H
      | H : parse_members _ _ _ = Some _ |- _ => apply IHm in H
      | H : scan_number _ = Some _ |- _ => apply scan_number_size in H; simpl in H
      end; lia.
  - intros d s vs rest H. cbn [parse_elements] in H.
    destruct (parse_value fuel d s) as [[v s1] |] eqn:Hv; [| done]. apply IHv in Hv.
    destruct (expect 93 (skip_ws s1)) as [s2 |] eqn:H1.
    + apply expect_ws_size in H1. simplify_eq. lia.
    + destruct (expect 44 (skip_ws s1)) as [s2 |] eqn:H2; [| done]. apply expect_ws_size in H2.
      destruct (parse_elements fuel d s2) as [[vs' s3] |] eqn:He; [| done].
      apply IHe in He. simplify_eq. lia.
  - intros d s kvs rest H. cbn [parse_members] in H.
    destruct (expect 34 (skip_ws s)) as [s1 |] eqn:H0; [| done]. apply expect_ws_size in H0.
    destruct (parse_string s1) as [[key s2] |] eqn:Hk; [| done]. apply parse_string_size in Hk.
    destruct (expect 58 (skip_ws s2)) as [s3 |] eqn:H3; [| done]. apply expect_ws_size in H3.
    destruct (parse_value fuel d s3) as [[v s4] |] eqn:Hv; [| done]. apply IHv in Hv.
    destruct (expect 125 (skip_ws s4)) as [s5 |] eqn:H1.
    + apply expect_ws_size in H1. simplify_eq. lia.
    + destruct (expect 44 (skip_ws s4)) as [s5 |] eqn:H2; [| done]. apply expect_ws_size in H2.
      destruct (parse_members fuel d s5) as [[kvs' s6] |] eqn:Hm; [| done].
      apply IHm in Hm. simplify_eq. lia.
Qed.

(** ** More fuel changes nothing *)

Lemma parse_more_fuel f1 :
  (∀ f2 d s, (2 * size s + 1 ≤ f1)%nat → (2 * size s + 1 ≤ f2)%nat →
     parse_value f1 d s = parse_value f2 d s)
  ∧ (∀ f2 d s, (2 * size s + 2 ≤ f1)%nat → (2 * size s + 2 ≤ f2)%nat →
     parse_elements f1 d s = parse_elements f2 d s)
  ∧ (∀ f2 d s, (2 * size s + 2 ≤ f1)%nat → (2 * size s + 2 ≤ f2)%nat →
     parse_members f1 d s = parse_members f2 d s).
Proof.
  induction f1 as [| f1 (IHv & IHe & IHm)]; [split_and!; intros; lia |].
  split_and!; intros [| f2] d s H1 H2; try lia.
  - cbn [parse_value]. destruct (skip_ws s) as [| c s'] eqn:Hs; [done |].
    apply skip_ws_cons_size in Hs.
    by rewrite (IHe f2 (d + 1)%Z s'), (IHm f2 (d + 1)%Z s') by lia.
  - cbn [parse_elements]. rewrite (IHv f2) by lia.
    destruct (parse_value f2 d s) as [[v s1] |] eqn:Hv; [| done].
    apply (proj1 (parse_progress f2)) in Hv.
    destruct (expect 93 (skip_ws s1)) as [s2 |]; [done |].
    destruct (expect 44 (skip_ws s1)) as [s2 |] eqn:Hc; [| done]. apply expect_ws_size in Hc.
    by rewrite (IHe f2) by lia.
  - cbn [parse_members].
    destruct (expect 34 (skip_ws s)) as [s1 |] eqn:H0; [| done]. apply expect_ws_size in H0.
    destruct (parse_string s1) as [[key s2] |] eqn:Hk; [| done]. apply parse_string_size in Hk.
    destruct (expect 58 (skip_ws s2)) as [s3 |] eqn:H3; [| done]. apply expect_ws_size in H3.
    rewrite (IHv f2) by lia.
    destruct (parse_value f2 d s3) as [[v s4] |] eqn:Hv; [| done].
    apply (proj1 (parse_progress f2)) in Hv.
    destruct (expect 125 (skip_ws s4)) as [s5 |]; [done |].
    destruct (expect 44 (skip_ws s4)) as [s5 |] eqn:Hc; [| done]. apply expect_ws_size in Hc.
    by rewrite (IHm f2) by lia.
Qed.

(** ** Unquoting *)

Lemma unicode_escape_size s z s' : unicode_escape s = Some (z, s') → size s = (size s' + 6)%nat.
Proof. unfold unicode_escape. intros H. scan_size. simpl. lia. Qed.

Lemma decode_rune_size s r s' : decode_rune s = Some (r, s') → (size s' < size s)%nat.
Proof.
  intros H. unfold decode_rune in H. cbv zeta in H.
  repeat match type of H with
  | match ?x with _ => _ end = _ => destruct x eqn:?
  | (if ?b then _ else _) = _ => destruct b eqn:?
  end; simplify_eq; simpl; lia.
Qed.

Lemma unquote_more_fuel f1 f2 s :
  (size s ≤ f1)%nat → (size s ≤ f2)%nat → unquote f1 s = unquote f2 s.
Proof.
  revert f2 s. induction f1 as [| f1 IH]; intros [| f2] [| c s1] H1 H2; simpl in H1, H2;
    try lia; try done.
  cbn [unquote].
  destruct (unicode_escape (String c s1)) as [[z s6] |] eqn:Hu.
  - apply unicode_escape_size in Hu. simpl in Hu.
    destruct (unicode_escape s6) as [[z' s12] |] eqn:Hu'.
    + apply unicode_escape_size in Hu'.
      by rewrite !(IH f2 s6), !(IH f2 s12) by lia.
    + by rewrite !(IH f2 s6) by lia.
  - destruct s1 as [| e s2].
    + destruct (decode_rune (String c "")) as [[r s'] |] eqn:Hd.
      * apply decode_rune_size in Hd. simpl in Hd. by rewrite (IH f2 s') by lia.
      * by rewrite (IH f2 "") by (simpl; lia).
    + simpl in H1, H2. rewrite (IH f2 s2) by lia.
      destruct (decode_rune (String c (String e s2))) as [[r s'] |] eqn:Hd.
      * apply decode_rune_size in Hd. simpl in Hd. by rewrite (IH f2 s') by lia.
      * by rewrite (IH f2 (String e s2)) by (simpl; lia).
Qed.

(** ** The whole text *)

(** [parse_json] with any number of calls. *)
Definition read_with (fuel : nat) (s : string) : option json :=
  match parse_value fuel 0 s with
  | Some (v, rest) => match skip_ws rest with EmptyString => Some v | _ => None end
  | None => None
  end.

Lemma parse_json_any_fuel fuel s :
  (2 * size s + 1 ≤ fuel)%nat → parse_json s = read_with fuel s.
Proof.
  intros Hf. unfold parse_json, read_with.
  by rewrite (proj1 (parse_more_fuel (2 * size s + 2)) fuel 0%Z s) by lia.
Qed.
