(* ===== verification/JsonRoundTrip.v ===== *)
(** Reading what [json.MarshalIndent] wrote: the text of every value without
    numbers whose strings are valid UTF-8 reads back as that value. *)
From S2P Require Import Prelude GoStrings Json JsonParse.

Local Open Scope string_scope.
#[local] Arguments String.append !_ _ / : simpl nomatch.

(** ** Values the program writes *)
Fixpoint printable (v : json) : Prop :=
  match v with
  | JNull | JBool _ => True
  | JNumber _ => False
  | JString s => utf8 s
  | JArray vs => foldr (λ v P, printable v ∧ P) True vs
  | JObject kvs => foldr (λ kv P, (utf8 kv.1 ∧ printable kv.2) ∧ P) True kvs
  end.

(** The calls the parser needs, and the nesting. *)
Fixpoint weight (v : json) : nat :=
  match v with
  | JArray vs => S (foldr (λ v n, S (weight v) + n) 0 vs)%nat
  | JObject kvs => S (foldr (λ kv n, S (weight kv.2) + n) 0 kvs)%nat
  | _ => 1
  end.

Fixpoint height (v : json) : nat :=
  match v with
  | JArray vs => S (foldr (λ v n, Nat.max (height v) n) 0 vs)
  | JObject kvs => S (foldr (λ kv n, Nat.max (height kv.2) n) 0 kvs)
  | _ => 0
  end%nat.

(** Induction over values and the values they contain. *)
Section json_induction.
Context (P : json → Prop).
Context (HNull : P JNull) (HBool : ∀ b, P (JBool b)) (HNumber : ∀ l, P (JNumber l)).
Context (HString : ∀ s, P (JString s)).
Context (HArray : ∀ vs, Forall P vs → P (JArray vs)).
Context (HObject : ∀ kvs, Forall (λ kv, P kv.2) kvs → P (JObject kvs)).

Fixpoint json_nested_ind (v : json) : P v :=
  match v with
  | JNull => HNull
  | JBool b => HBool b
  | JNumber l => HNumber l
  | JString s => HString s
  | JArray vs =>
      HArray vs ((fix go vs : Forall P vs :=
        match vs with
        | [] => Forall_nil_2 _
        | v :: vs => Forall_cons_2 _ v vs (json_nested_ind v) (go vs)
        end) vs)
  | JObject kvs =>
      HObject kvs ((fix go kvs : Forall (λ kv, P kv.2) kvs :=
        match kvs with
        | [] => Forall_nil_2 _
        | kv :: kvs => Forall_cons_2 _ kv kvs (json_nested_ind kv.2) (go kvs)
        end) kvs)
  end.
End json_induction.

(** ** White space *)

Lemma skip_ws_indent n s : skip_ws (indent n +:+ s) = skip_ws s.
Proof. induction n as [| n IH]; simpl; [done | exact IH]. Qed.

Lemma skip_ws_newline n s : skip_ws (newline n +:+ s) = skip_ws s.
Proof. apply skip_ws_indent. Qed.

Lemma parse_value_skip fuel depth s s' :
  skip_ws s = skip_ws s' → parse_value fuel depth s = parse_value fuel depth s'.
Proof. destruct fuel; [done |]. cbn [parse_value]. by intros ->. Qed.

Lemma skip_ws_nonspace c s : is_space c = false → skip_ws (String c s) = String c s.
Proof. cbn [skip_ws]. by intros ->. Qed.

(** The first byte of a printed value. *)
Lemma print_first n v rest :
  printable v →
  ∃ c s, print_indent n v +:+ rest = String c s ∧ is_space c = false
    ∧ is_char 93 c = false ∧ is_char 125 c = false.
Proof.
  destruct v as [| [] | | str | [| v vs] | [| kv kvs]]; intros Hv; [by do 2 eexists.. | done | | | | |];
    by do 2 eexists.
Qed.

Lemma skip_ws_print n v rest :
  printable v → skip_ws (print_indent n v +:+ rest) = print_indent n v +:+ rest.
Proof.
  intros Hv. destruct (print_first n v rest Hv) as (c & s & -> & Hc & _).
  by apply skip_ws_nonspace.
Qed.

Lemma join_lines_cons n x y l :
  join_lines n (x :: y :: l) = x +:+ "," +:+ newline n +:+ join_lines n (y :: l).
Proof. unfold join_lines. cbn [String.concat]. by rewrite !str_app_assoc. Qed.

(** ** Reading the printed values *)

Definition reads_back (v : json) : Prop :=
  ∀ n fuel depth rest,
    printable v → (weight v ≤ fuel)%nat → (depth + Z.of_nat (height v) ≤ maxNestingDepth)%Z →
    parse_value fuel depth (print_indent n v +:+ rest) = Some (v, rest).

Definition total (vs : list json) : nat := foldr (λ v n, S (weight v) + n)%nat 0 vs.
Definition tallest (vs : list json) : nat := foldr (λ v n, Nat.max (height v) n) 0 vs.

Lemma parse_printed_elements m k v vs fuel depth rest :
  Forall reads_back (v :: vs) → Forall printable (v :: vs) →
  (total (v :: vs) ≤ fuel)%nat →
  (depth + Z.of_nat (tallest (v :: vs)) ≤ maxNestingDepth)%Z →
  parse_elements fuel depth
    (newline m +:+ join_lines m (map (print_indent m) (v :: vs)) +:+ newline k +:+ "]" +:+ rest)
  = Some (v :: vs, rest).
Proof.
  revert v fuel. induction vs as [| w vs IH]; intros v fuel Hrb Hp Hf Hd;
    apply Forall_cons in Hrb as [Hv Hrb]; apply Forall_cons in Hp as [Hpv Hp];
    cbn [total tallest foldr] in Hf, Hd; (destruct fuel as [| fuel]; [lia |]);
    cbn [parse_elements].
  - change (join_lines m (map (print_indent m) [v])) with (print_indent m v).
    rewrite (parse_value_skip _ _ _ _ (skip_ws_newline _ _)), Hv by (done || lia).
    by rewrite skip_ws_newline.
  - cbn [map]. rewrite join_lines_cons, !str_app_assoc.
    rewrite (parse_value_skip _ _ _ _ (skip_ws_newline _ _)), Hv by (done || lia).
    change (skip_ws ("," +:+ newline m +:+ join_lines m (print_indent m w :: map (print_indent m) vs)
              +:+ newline k +:+ "]" +:+ rest))
      with (String "," (newline m +:+ join_lines m (map (print_indent m) (w :: vs))
              +:+ newline k +:+ "]" +:+ rest)).
    cbn [expect]. change (is_char 93 ",") with false. change (is_char 44 ",") with true.
    cbv iota. rewrite IH; [done | done | done | unfold total; cbn [foldr]; lia | unfold tallest; cbn [foldr]; lia].
Qed.

Definition print_member (n : nat) (kv : string * json) : string :=
  encode_string kv.1 +:+ ": " +:+ print_indent n kv.2.

Definition total_members (kvs : list (string * json)) : nat :=
  foldr (λ kv n, S (weight kv.2) + n)%nat 0 kvs.
Definition tallest_member (kvs : list (string * json)) : nat :=
  foldr (λ kv n, Nat.max (height kv.2) n) 0 kvs.

Lemma parse_printed_members m k kv kvs fuel depth rest :
  Forall (λ kv, reads_back kv.2) (kv :: kvs) →
  Forall (λ kv, utf8 kv.1 ∧ printable kv.2) (kv :: kvs) →
  (total_members (kv :: kvs) ≤ fuel)%nat →
  (depth + Z.of_nat (tallest_member (kv :: kvs)) ≤ maxNestingDepth)%Z →
  parse_members fuel depth
    (newline m +:+ join_lines m (map (print_member m) (kv :: kvs)) +:+ newline k +:+ "}" +:+ rest)
  = Some (kv :: kvs, rest).
Proof.
  assert (Hkey : ∀ key v t, utf8 key →
    ∃ s, expect 34 (skip_ws (newline m +:+ print_member m (key, v) +:+ t)) = Some s
      ∧ parse_string s = Some (key, String ":" (String " " (print_indent m v +:+ t)))).
  { intros key v t Hk. rewrite skip_ws_newline. eexists. split; [done |].
    unfold print_member. simpl. rewrite !str_app_assoc.
    apply (parse_string_encoded key (String ":" (String " " (print_indent m v +:+ t))) Hk). }
  revert kv fuel. induction kvs as [| kw kvs IH]; intros [key v] fuel Hrb Hp Hf Hd;
    apply Forall_cons in Hrb as [Hv Hrb]; apply Forall_cons in Hp as [[Hk Hpv] Hp];
    cbn [total_members tallest_member foldr fst snd] in *; (destruct fuel as [| fuel]; [lia |]);
    cbn [parse_members].
  - change (join_lines m (map (print_member m) [(key, v)])) with (print_member m (key, v)).
    destruct (Hkey key v (newline k +:+ "}" +:+ rest) Hk) as (s & -> & ->).
    change (expect 58 (skip_ws (String ":" (String " " (print_indent m v +:+ newline k +:+ "}" +:+ rest)))))
      with (Some (String " " (print_indent m v +:+ newline k +:+ "}" +:+ rest))).
    cbv iota beta.
    rewrite (parse_value_skip _ _ (String " " _) (print_indent m v +:+ newline k +:+ "}" +:+ rest)) by done.
    rewrite Hv by (done || lia). by rewrite skip_ws_newline.
  - cbn [map]. rewrite join_lines_cons, !str_app_assoc.
    set (t := "," +:+ _).
    destruct (Hkey key v t Hk) as (s & -> & ->).
    change (expect 58 (skip_ws (String ":" (String " " (print_indent m v +:+ t)))))
      with (Some (String " " (print_indent m v +:+ t))).
    cbv iota beta.
    rewrite (parse_value_skip _ _ (String " " _) (print_indent m v +:+ t)) by done.
    rewrite Hv by (done || lia). unfold t.
    change (skip_ws ("," +:+ newline m +:+ join_lines m (print_member m kw :: map (print_member m) kvs)
              +:+ newline k +:+ "}" +:+ rest))
      with (String "," (newline m +:+ join_lines m (map (print_member m) (kw :: kvs))
              +:+ newline k +:+ "}" +:+ rest)).
    cbn [expect]. change (is_char 125 ",") with false. change (is_char 44 ",") with true.
    cbv iota. rewrite IH; [done | done | done | unfold total_members; cbn [foldr]; lia | unfold tallest_member; cbn [foldr]; lia].
Qed.

Lemma printable_array vs : printable (JArray vs) ↔ Forall printable vs.
Proof. simpl. induction vs as [| v vs IH]; simpl; [by split | by rewrite Forall_cons, IH]. Qed.

Lemma printable_object kvs :
  printable (JObject kvs) ↔ Forall (λ kv, utf8 kv.1 ∧ printable kv.2) kvs.
Proof. simpl. induction kvs as [| kv kvs IH]; simpl; [by split | by rewrite Forall_cons, IH]. Qed.

Lemma parse_array_step fuel depth s v vs rest :
  (depth < maxNestingDepth)%Z →
  expect 93 (skip_ws s) = None → parse_elements fuel (depth + 1) s = Some (v :: vs, rest) →
  parse_value (S fuel) depth (String "[" s) = Some (JArray (v :: vs), rest).
Proof.
  intros Hd He Hp. cbn [parse_value skip_ws]. change (is_space "[") with false. cbv iota.
  change (is_char 34 "[") with false. change (is_char 91 "[") with true. cbv iota.
  assert ((maxNestingDepth <=? depth)%Z = false) as -> by (apply Z.leb_gt; lia).
  by rewrite He, Hp.
Qed.

Lemma parse_object_step fuel depth s kv kvs rest :
  (depth < maxNestingDepth)%Z →
  expect 125 (skip_ws s) = None → parse_members fuel (depth + 1) s = Some (kv :: kvs, rest) →
  parse_value (S fuel) depth (String "{" s) = Some (JObject (kv :: kvs), rest).
Proof.
  intros Hd He Hp. cbn [parse_value skip_ws]. change (is_space "{") with false. cbv iota.
  change (is_char 34 "{") with false. change (is_char 91 "{") with false.
  change (is_char 123 "{") with true. cbv iota.
  assert ((maxNestingDepth <=? depth)%Z = false) as -> by (apply Z.leb_gt; lia).
  by rewrite He, Hp.
Qed.

Lemma join_lines_first n x l : ∃ t, join_lines n (x :: l) = x +:+ t.
Proof.
  destruct l as [| y l].
  - exists "". by rewrite str_app_nil_r.
  - rewrite join_lines_cons. by eexists.
Qed.

(** Every printable value reads back, with enough fuel and within the nesting
    limit, whatever follows it. *)
Lemma print_reads_back v : reads_back v.
Proof.
  induction v as [| b | l | s | vs Hvs | kvs Hkvs] using json_nested_ind;
    intros n fuel depth rest Hp Hf Hd; cbn [weight height] in Hf, Hd;
    (destruct fuel as [| fuel]; [lia |]).
  - by cbn [parse_value].
  - by destruct b.
  - done.
  - cbn [print_indent]. unfold encode_string. rewrite !str_app_assoc.
    cbn [parse_value]. change (quote_char +:+ ?t) with (String (byte_of 34) t).
    change (skip_ws (String (byte_of 34) ?t)) with (String (byte_of 34) t). cbv iota beta.
    change (is_char 34 (byte_of 34)) with true. cbv iota.
    change (quote_char +:+ rest) with (String (byte_of 34) rest).
    by rewrite parse_string_encoded.
  - destruct vs as [| v vs]; [cbn; by assert ((maxNestingDepth <=? depth)%Z = false) as -> by (apply Z.leb_gt; cbn in Hd; lia) |].
    change (print_indent n (JArray (v :: vs)) +:+ rest)
      with (String "[" ((newline (S n) +:+ join_lines (S n) (map (print_indent (S n)) (v :: vs))
                         +:+ newline n +:+ "]") +:+ rest)).
    rewrite !str_app_assoc. apply printable_array in Hp. apply parse_array_step; [lia | |].
    + rewrite skip_ws_newline. cbn [map].
      destruct (join_lines_first (S n) (print_indent (S n) v) (map (print_indent (S n)) vs)) as [t ->].
      rewrite str_app_assoc. apply Forall_cons in Hp as [Hp _].
      destruct (print_first (S n) v (t +:+ newline n +:+ "]" +:+ rest) Hp)
        as (c & u & -> & Hs & H93 & _).
      rewrite skip_ws_nonspace by done. cbn [expect]. by rewrite H93.
    + apply parse_printed_elements; [done | done | unfold total; lia | unfold tallest; lia].
  - destruct kvs as [| kv kvs]; [cbn; by assert ((maxNestingDepth <=? depth)%Z = false) as -> by (apply Z.leb_gt; cbn in Hd; lia) |].
    change (print_indent n (JObject (kv :: kvs)) +:+ rest)
      with (String "{" ((newline (S n) +:+ join_lines (S n) (map (print_member (S n)) (kv :: kvs))
                         +:+ newline n +:+ "}") +:+ rest)).
    rewrite !str_app_assoc. apply printable_object in Hp. apply parse_object_step; [lia | |].
    + rewrite skip_ws_newline. cbn [map].
      by destruct (join_lines_first (S n) (print_member (S n) kv) (map (print_member (S n)) kvs)) as [t ->].
    + apply parse_printed_members; [done | done | unfold total_members; lia
      | unfold tallest_member; lia].
Qed.

(** The fuel of [parse_json] is enough: a printed value is at least as long as
    the number of calls. *)
Lemma newline_length n : (1 ≤ String.length (newline n))%nat.
Proof. simpl. lia. Qed.

Lemma total_join_lines m vs :
  Forall (λ v, ∀ n, printable v → (weight v ≤ String.length (print_indent n v))%nat) vs →
  Forall printable vs →
  (total vs ≤ S (String.length (join_lines m (map (print_indent m) vs))))%nat.
Proof.
  induction vs as [| v [| w vs] IH]; intros Hw Hp; [simpl; lia | |];
    apply Forall_cons in Hw as [Hv Hw]; apply Forall_cons in Hp as [Hpv Hp];
    specialize (Hv m Hpv).
  - change (join_lines m (map (print_indent m) [v])) with (print_indent m v).
    unfold total. cbn [foldr]. lia.
  - specialize (IH Hw Hp). cbn [map] in *. rewrite join_lines_cons, !str_length_app.
    change (total (v :: w :: vs)) with (S (weight v) + total (w :: vs))%nat.
    assert (H1 := newline_length m). change (String.length ",") with 1%nat. lia.
Qed.

Lemma total_join_members m kvs :
  Forall (λ kv, ∀ n, printable kv.2 → (weight kv.2 ≤ String.length (print_indent n kv.2))%nat) kvs →
  Forall (λ kv, utf8 kv.1 ∧ printable kv.2) kvs →
  (total_members kvs ≤ S (String.length (join_lines m (map (print_member m) kvs))))%nat.
Proof.
  assert (Hm : ∀ kv, (String.length (print_indent m kv.2) ≤ String.length (print_member m kv))%nat).
  { intros kv. unfold print_member. rewrite !str_length_app. lia. }
  induction kvs as [| kv [| kw kvs] IH]; intros Hw Hp; [simpl; lia | |];
    apply Forall_cons in Hw as [Hv Hw]; apply Forall_cons in Hp as [[_ Hpv] Hp];
    specialize (Hv m Hpv); specialize (Hm kv).
  - change (join_lines m (map (print_member m) [kv])) with (print_member m kv).
    unfold total_members. cbn [foldr]. lia.
  - specialize (IH Hw Hp). cbn [map] in *. rewrite join_lines_cons, !str_length_app.
    change (total_members (kv :: kw :: kvs)) with (S (weight kv.2) + total_members (kw :: kvs))%nat.
    assert (H1 := newline_length m). change (String.length ",") with 1%nat. lia.
Qed.

Lemma weight_length v n : printable v → (weight v ≤ String.length (print_indent n v))%nat.
Proof.
  revert n. induction v as [| b | l | s | vs Hvs | kvs Hkvs] using json_nested_ind; intros n Hp.
  - simpl. lia.
  - destruct b; simpl; lia.
  - done.
  - simpl. lia.
  - apply printable_array in Hp. assert (Ht := total_join_lines (S n) vs Hvs Hp).
    destruct vs as [| v vs]; [simpl; lia |].
    change (weight (JArray (v :: vs))) with (S (total (v :: vs))).
    change (print_indent n (JArray (v :: vs))) with
      ("[" +:+ newline (S n) +:+ join_lines (S n) (map (print_indent (S n)) (v :: vs))
       +:+ newline n +:+ "]").
    rewrite !str_length_app. assert (H1 := newline_length n). assert (H2 := newline_length (S n)).
    change (String.length "[") with 1%nat. change (String.length "]") with 1%nat. lia.
  - apply printable_object in Hp. assert (Ht := total_join_members (S n) kvs Hkvs Hp).
    destruct kvs as [| kv kvs]; [simpl; lia |].
    change (weight (JObject (kv :: kvs))) with (S (total_members (kv :: kvs))).
    change (print_indent n (JObject (kv :: kvs))) with
      ("{" +:+ newline (S n) +:+ join_lines (S n) (map (print_member (S n)) (kv :: kvs))
       +:+ newline n +:+ "}").
    rewrite !str_length_app. assert (H1 := newline_length n). assert (H2 := newline_length (S n)).
    change (String.length "{") with 1%nat. change (String.length "}") with 1%nat. lia.
Qed.

Lemma parse_MarshalIndent v :
  printable v → (Z.of_nat (height v) ≤ maxNestingDepth)%Z →
  parse_json (MarshalIndent v) = Some v.
Proof.
  intros Hp Hh. unfold parse_json, MarshalIndent.
  assert (Hw := weight_length v 0 Hp).
  assert (H := print_reads_back v 0 (2 * String.length (print_indent 0 v) + 2) 0%Z "" Hp
    ltac:(lia) ltac:(lia)).
  rewrite str_app_nil_r in H. by rewrite H.
Qed.
