(* ===== verification/JsonUtf8.v ===== *)
(** What the JSON reader returns is well formed: every string of a value that
    was read, keys included, is valid UTF-8, whatever bytes and escapes the
    text holds. *)
From S2P Require Import Prelude GoStrings Json JsonParse JsonFuel JsonRoundTrip.

Local Open Scope string_scope.
#[local] Arguments String.append !_ _ / : simpl nomatch.

(** ** Valid UTF-8 is closed under concatenation and encoding *)

Lemma utf8_app a b : utf8 a → utf8 b → utf8 (a +:+ b).
Proof.
  intros Ha Hb. induction Ha as [| s r s' Hd _ IH]; [done |].
  destruct (decode_rune_spec _ _ _ Hd) as [-> _]. rewrite str_app_assoc.
  eapply utf8_rune; [by eapply decode_rune_app | done].
Qed.

Lemma utf8_single r : decode_rune r = Some (r, "") → utf8 r.
Proof. intros Hr. eapply utf8_rune; [done | constructor]. Qed.

Lemma byte_val_of n : (0 ≤ n < 256)%Z → byte_val (byte_of n) = n.
Proof. intros Hn. unfold byte_val, byte_of. rewrite nat_ascii_embedding; lia. Qed.

Lemma in_range_of lo hi n :
  (0 ≤ n < 256)%Z → in_range lo hi (byte_of n) = (lo <=? n)%Z && (n <=? hi)%Z.
Proof. intros Hn. unfold in_range. by rewrite byte_val_of. Qed.

(** The comparisons of bounds that [decode_rune] makes. *)
Ltac decide_bounds :=
  repeat match goal with
  | |- context [(?a =? ?b)%Z] => destruct (Z.eqb_spec a b); try lia
  end; cbv iota;
  repeat match goal with
  | |- context [(?a <=? ?b)%Z] => destruct (Z.leb_spec a b); try lia
  | |- context [(?a <? ?b)%Z] => destruct (Z.ltb_spec a b); try lia
  end.

(** A code point that is not a surrogate. *)
Definition scalar (z : Z) : Prop :=
  (0 ≤ z < 0x110000)%Z ∧ is_surrogate z = false.

Lemma scalar_surrogate z : scalar z → (z < 0xD800 ∨ 0xE000 ≤ z)%Z.
Proof.
  intros [_ Hs]. unfold is_surrogate in Hs. apply andb_false_iff in Hs as [Hs | Hs];
    [apply Z.leb_gt in Hs | apply Z.ltb_ge in Hs]; lia.
Qed.

Lemma encode_rune_utf8 z : scalar z → utf8 (encode_rune z).
Proof.
  intros Hz. assert (Hs := scalar_surrogate z Hz). destruct Hz as [Hz _].
  apply utf8_single. unfold encode_rune.
  destruct (Z.ltb_spec z 0x80); [| destruct (Z.ltb_spec z 0x800); [| destruct (Z.ltb_spec z 0x10000)]].
  all: cbn [decode_rune].
  - rewrite in_range_of by lia. by decide_bounds.
  - assert (2 ≤ z / 64 < 32)%Z by (Z.to_euclidean_division_equations; lia).
    assert (0 ≤ z mod 64 < 64)%Z by (Z.to_euclidean_division_equations; lia).
    rewrite !in_range_of by lia. by decide_bounds.
  - assert (0 ≤ z / 4096 < 16)%Z by (Z.to_euclidean_division_equations; lia).
    assert (0 ≤ z mod 64 < 64)%Z by (Z.to_euclidean_division_equations; lia).
    assert (0 ≤ z / 64 mod 64 < 64)%Z by (Z.to_euclidean_division_equations; lia).
    assert (z / 4096 = 0 → 32 ≤ z / 64 mod 64)%Z by (Z.to_euclidean_division_equations; lia).
    assert (z / 4096 = 13 → z / 64 mod 64 < 32)%Z by (Z.to_euclidean_division_equations; lia).
    rewrite !byte_val_of, !in_range_of by lia. by decide_bounds.
  - assert (0 ≤ z / 262144 ≤ 4)%Z by (Z.to_euclidean_division_equations; lia).
    assert (0 ≤ z mod 64 < 64)%Z by (Z.to_euclidean_division_equations; lia).
    assert (0 ≤ z / 64 mod 64 < 64)%Z by (Z.to_euclidean_division_equations; lia).
    assert (0 ≤ z / 4096 mod 64 < 64)%Z by (Z.to_euclidean_division_equations; lia).
    assert (z / 262144 = 0 → 16 ≤ z / 4096 mod 64)%Z by (Z.to_euclidean_division_equations; lia).
    assert (z / 262144 = 4 → z / 4096 mod 64 < 16)%Z by (Z.to_euclidean_division_equations; lia).
    rewrite !byte_val_of, !in_range_of by lia. by decide_bounds.
Qed.

Lemma replacement_utf8 : utf8 replacement.
Proof. by apply utf8_single. Qed.

(** ** Unquoting *)

Lemma hex_value_range c n : hex_value c = Some n → (0 ≤ n < 16)%Z.
Proof.
  unfold hex_value. intros H. cases_in H; simplify_eq; ranges_true; lia.
Qed.

Lemma hex4_range c1 c2 c3 c4 z : hex4 c1 c2 c3 c4 = Some z → (0 ≤ z < 0x10000)%Z.
Proof.
  unfold hex4. intros H. cases_in H.
  repeat match goal with H : hex_value _ = Some _ |- _ => apply hex_value_range in H end.
  simplify_eq. lia.
Qed.

Lemma unicode_escape_range s z s' : unicode_escape s = Some (z, s') → (0 ≤ z < 0x10000)%Z.
Proof. unfold unicode_escape. intros H. cases_in H. simplify_eq. by eapply hex4_range. Qed.

Lemma surrogate_pair_scalar hi lo r : surrogate_pair hi lo = Some r → scalar r.
Proof.
  unfold surrogate_pair. intros H. cases_in H. simplify_eq. repeat
    match goal with H : (_ && _) = true |- _ => apply andb_true_iff in H as [? ?] end.
  rewrite ?Z.leb_le, ?Z.ltb_lt in *. split; [lia |]. unfold is_surrogate. by decide_bounds.
Qed.

Lemma simple_escape_ascii e c : simple_escape e = Some c → is_ascii (String c "") = true.
Proof.
  unfold simple_escape, is_char. intros H. cases_in H; simplify_eq; try done.
  repeat match goal with H : (_ || _) = true |- _ => apply orb_true_iff in H as [H | H] end;
    match goal with H : (_ =? _)%Z = true |- _ => apply Z.eqb_eq in H end;
    simpl; unfold in_range; by decide_bounds.
Qed.

Lemma unquote_utf8 fuel s : utf8 (unquote fuel s).
Proof.
  revert s. induction fuel as [| fuel IH]; intros s; [constructor |].
  destruct s as [| c s1]; [constructor |]. cbn [unquote].
  destruct (unicode_escape (String c s1)) as [[z s6] |] eqn:Hu.
  - assert (Hz := unicode_escape_range _ _ _ Hu).
    destruct (is_surrogate z) eqn:Hs.
    + repeat case_match; (apply utf8_app; [| apply IH]); try apply replacement_utf8.
      apply encode_rune_utf8. by eapply surrogate_pair_scalar.
    + apply utf8_app; [| apply IH]. apply encode_rune_utf8. split; [lia | done].
  - destruct (is_char 92 c).
    + destruct s1 as [| e s2]; [constructor |].
      destruct (simple_escape e) as [d |] eqn:He; [| constructor].
      apply (utf8_app (String d "")); [| apply IH]. apply utf8_ascii.
      by eapply simple_escape_ascii.
    + destruct (decode_rune (String c s1)) as [[r s'] |] eqn:Hd;
        (apply utf8_app; [| apply IH]); [| apply replacement_utf8].
      destruct (decode_rune_spec _ _ _ Hd) as [Hrs _]. apply utf8_single.
      rewrite <- (str_app_nil_r r) at 1. by eapply decode_rune_app.
Qed.

Lemma parse_string_utf8 s str rest : parse_string s = Some (str, rest) → utf8 str.
Proof.
  unfold parse_string. destruct (scan_string s) as [[raw t] |]; [| done].
  intros [= <- _]. apply unquote_utf8.
Qed.

(** ** Values *)
Fixpoint well_formed (v : json) : Prop :=
  match v with
  | JNull | JBool _ | JNumber _ => True
  | JString s => utf8 s
  | JArray vs => foldr (λ v P, well_formed v ∧ P) True vs
  | JObject kvs => foldr (λ kv P, (utf8 kv.1 ∧ well_formed kv.2) ∧ P) True kvs
  end.

Lemma well_formed_array vs : well_formed (JArray vs) ↔ Forall well_formed vs.
Proof. simpl. induction vs as [| v vs IH]; simpl; [by split | by rewrite Forall_cons, IH]. Qed.

Lemma well_formed_object kvs :
  well_formed (JObject kvs) ↔ Forall (λ kv, utf8 kv.1 ∧ well_formed kv.2) kvs.
Proof. simpl. induction kvs as [| kv kvs IH]; simpl; [by split | by rewrite Forall_cons, IH]. Qed.

Lemma literal_value word v s v' rest : literal word v s = Some (v', rest) → v' = v.
Proof. unfold literal. intros H. cases_in H. by simplify_eq. Qed.

Lemma parse_well_formed fuel :
  (∀ depth s v rest, parse_value fuel depth s = Some (v, rest) → well_formed v)
  ∧ (∀ depth s vs rest, parse_elements fuel depth s = Some (vs, rest) → Forall well_formed vs)
  ∧ (∀ depth s kvs rest, parse_members fuel depth s = Some (kvs, rest) →
       Forall (λ kv, utf8 kv.1 ∧ well_formed kv.2) kvs).
Proof.
  induction fuel as [| fuel (IHv & IHe & IHm)]; [done |]. split_and!; intros depth s.
  - intros v rest Hv. cbn [parse_value] in Hv.
    cases_in Hv; simplify_eq; try done;
      try (apply literal_value in Hv as ->; done).
    + by eapply parse_string_utf8.
    + apply well_formed_array. by eapply IHe.
    + apply well_formed_object. by eapply IHm.
  - intros vs rest Hv. cbn [parse_elements] in Hv. cases_in Hv; simplify_eq.
    + apply Forall_singleton. by eapply IHv.
    + apply Forall_cons. split; [by eapply IHv | by eapply IHe].
  - intros kvs rest Hv. cbn [parse_members] in Hv. cases_in Hv; simplify_eq.
    + apply Forall_singleton. split; [by eapply parse_string_utf8 | by eapply IHv].
    + apply Forall_cons. split; [| by eapply IHm].
      split; [by eapply parse_string_utf8 | by eapply IHv].
Qed.

Lemma parse_json_well_formed s v : parse_json s = Some v → well_formed v.
Proof.
  unfold parse_json. intros H. cases_in H. simplify_eq.
  by eapply (parse_well_formed _).
Qed.
