(* ===== verification/Deployment.v ===== *)
(** Package [pkg/config], file [deployment.go]: the state of the nodes and the
    images that (shall) run on them, and its JSON form. *)
From S2P Require Import Prelude GoStrings Json.


Local Open Scope string_scope.

(** [type NodeState string]: the constants are the four values the program
    gives a meaning to, but a message can carry any string. *)
Definition NodeState := string.
Definition NodeStateStarting : NodeState := "starting".
Definition NodeStateRunning : NodeState := "running".
Definition NodeStateStopping : NodeState := "stopping".
Definition NodeStateStopped : NodeState := "stopped".

(** A nil slice of images is [None]: JSON tells it from an empty one. *)
Record NodeConfig := {
  State : NodeState;
  Images : option (list string);
}.

#[export] Instance NodeConfig_eq_dec : EqDecision NodeConfig.
Proof. solve_decision. Defined.

(** The elements a [range] over the images visits. *)
Definition image_list (n : NodeConfig) : list string := default [] (Images n).

(** The zero value of the struct, which is what indexing the map with an
    unknown hostname yields. *)
Definition zero_NodeConfig : NodeConfig := {| State := ""; Images := None |}.

(** [type DeploymentConfig map[string]NodeConfig], when it is not nil. *)
Abbreviation DeploymentConfig := (gmap string NodeConfig).

(** [d[hostname]] *)
Definition node_of (d : DeploymentConfig) (hostname : string) : NodeConfig :=
  default zero_NodeConfig (d !! hostname).

(** ** [DeploymentConfig.JSON] *)
Definition node_to_json (n : NodeConfig) : json :=
  JObject [("state", JString (State n));
           ("container", match Images n with
                         | None => JNull
                         | Some l => JArray (map JString l)
                         end)].

(** [encoding/json] writes the keys of a map in ascending order. *)
Definition key_le (kv1 kv2 : string * NodeConfig) : Prop := (kv1.1 ≤ kv2.1)%string.

#[export] Instance key_le_dec kv1 kv2 : Decision (key_le kv1 kv2).
Proof. unfold key_le. apply _. Defined.

Definition sorted_entries (d : DeploymentConfig) : list (string * NodeConfig) :=
  merge_sort key_le (map_to_list d).

Definition deployment_to_json (d : DeploymentConfig) : json :=
  JObject (map (λ kv, (kv.1, node_to_json kv.2)) (sorted_entries d)).

(** A nil map is [None].  Marshalling a map of structs of strings reports no
    error. *)
Definition JSON (d : option DeploymentConfig) : outcome string :=
  Ret (MarshalIndent match d with
                     | None => JNull
                     | Some d => deployment_to_json d
                     end).

(** ** Single-node configurations *)
Definition DeploymentConfigForStartingNode (hostname : string) : DeploymentConfig :=
  {[ hostname := {| State := NodeStateStarting; Images := Some [] |} ]}.

Definition DeploymentConfigForStoppedNode (hostname : string) : DeploymentConfig :=
  {[ hostname := {| State := NodeStateStopped; Images := Some [] |} ]}.
