(* ===== verification/DeploymentJson.v ===== *)
(** Package [pkg/config], file [deployment.go], [DeploymentConfigFromJSON]:
    what [json.Unmarshal] decodes into a [DeploymentConfig], and that it
    undoes [DeploymentConfig.JSON]. *)
From S2P Require Import Prelude GoStrings Json JsonParse JsonFuel JsonRoundTrip JsonUtf8 Deployment.

Local Open Scope string_scope.

(** ** Decoding

    A value of a wrong type does not stop [json.Unmarshal]: the target keeps
    what it had, decoding goes on, and the first such error is returned with
    the value.  Each decoder returns the value and that error. *)
Definition saved (A : Type) : Type := A * option error.

Definition first_error (e1 e2 : option error) : option error :=
  match e1 with Some e => Some e | None => e2 end.

(** A JSON string into a [string]; null leaves the old value. *)
Definition decode_string (old : string) (v : json) : saved string :=
  match v with
  | JString s => (s, None)
  | JNull => (old, None)
  | _ => (old, Some UnmarshalTypeError)
  end.

(** The field [Images] while an object is decoded: the slice, and what the
    array behind it still holds beyond its length. *)
Record images := {
  visible : option (list string);
  stale : list string;
}.

(** The elements of an array, decoded one by one over what the backing array
    held at their positions. *)
Fixpoint decode_elements (backing : list string) (vs : list json) : saved (list string) :=
  match vs with
  | [] => ([], None)
  | v :: vs =>
      let '(s, e) := decode_string (default "" (head backing)) v in
      let '(ss, e') := decode_elements (tail backing) vs in
      (s :: ss, first_error e e')
  end.

Definition decode_images (i : images) (v : json) : saved images :=
  match v with
  | JNull => ({| visible := None; stale := [] |}, None)
  | JArray [] => ({| visible := Some []; stale := [] |}, None)
  | JArray vs =>
      let backing := (default [] (visible i) ++ stale i)%list in
      let '(ss, e) := decode_elements backing vs in
      ({| visible := Some ss; stale := drop (length vs) backing |}, e)
  | _ => (i, Some UnmarshalTypeError)
  end.

(** The members of an object into the fields of a [NodeConfig]; unknown keys
    are ignored. *)
Fixpoint decode_members (state : string) (i : images) (kvs : list (string * json))
    : saved NodeConfig :=
  match kvs with
  | [] => ({| State := state; Images := visible i |}, None)
  | (key, v) :: kvs =>
      if names_field "state" key then
        let '(state, e) := decode_string state v in
        let '(n, e') := decode_members state i kvs in (n, first_error e e')
      else if names_field "container" key then
        let '(i, e) := decode_images i v in
        let '(n, e') := decode_members state i kvs in (n, first_error e e')
      else decode_members state i kvs
  end.

Definition decode_node (v : json) : saved NodeConfig :=
  match v with
  | JNull => (zero_NodeConfig, None)
  | JObject kvs => decode_members "" {| visible := None; stale := [] |} kvs
  | _ => (zero_NodeConfig, Some UnmarshalTypeError)
  end.

Fixpoint decode_entries (d : DeploymentConfig) (kvs : list (string * json))
    : saved DeploymentConfig :=
  match kvs with
  | [] => (d, None)
  | (hostname, v) :: kvs =>
      let '(node, e) := decode_node v in
      let '(d, e') := decode_entries (<[hostname := node]> d) kvs in (d, first_error e e')
  end.

(** The map stays nil for null and for values of a wrong type. *)
Definition decode_deployment (v : json) : saved (option DeploymentConfig) :=
  match v with
  | JNull => (None, None)
  | JObject kvs => let '(d, e) := decode_entries ∅ kvs in (Some d, e)
  | _ => (None, Some UnmarshalTypeError)
  end.

(** [json.Unmarshal] checks the syntax first and decodes nothing otherwise.
    The value is returned together with the error. *)
Definition DeploymentConfigFromJSON (str : string) : saved (option DeploymentConfig) :=
  match parse_json str with
  | Some v => decode_deployment v
  | None => (None, Some SyntaxError)
  end.

Definition quoted (s : string) : string := quote_char +:+ s +:+ quote_char.

(** Keys are matched without case, null leaves or clears a field, and unknown
    fields are ignored. *)
Example decode_example :
  DeploymentConfigFromJSON
    ("{" +:+ quoted "hpc-1" +:+ ": {" +:+ quoted "State" +:+ ": " +:+ quoted "running" +:+ ","
     +:+ quoted "images" +:+ ": 7, " +:+ quoted "container" +:+ ": [" +:+ quoted "a" +:+ ", null]},"
     +:+ quoted "hpc-2" +:+ ": null}")
  = (Some {[ "hpc-1" := {| State := "running"; Images := Some ["a"; ""] |};
             "hpc-2" := zero_NodeConfig ]}, None).
Proof. vm_compute. reflexivity. Qed.

(** ** Lemmas *)

Lemma decode_strings backing l :
  decode_elements backing (map JString l) = (l, None).
Proof.
  revert backing. induction l as [| s l IH]; intros backing; simpl; [done |]. by rewrite IH.
Qed.

Lemma decode_node_to_json n : decode_node (node_to_json n) = (n, None).
Proof.
  destruct n as [state [[| s l] |]]; unfold node_to_json, decode_node; simpl; try done.
  by rewrite decode_strings.
Qed.

Lemma decode_entries_nodes d (entries : list (string * NodeConfig)) :
  decode_entries d (map (λ kv, (kv.1, node_to_json kv.2)) entries) =
    (foldl (λ d kv, <[kv.1 := kv.2]> d) d entries, None).
Proof.
  revert d. induction entries as [| [h n] entries IH]; intros d; [done |].
  cbn [map decode_entries fst snd]. by rewrite decode_node_to_json, IH.
Qed.

Lemma insert_entries (d : DeploymentConfig) (entries : list (string * NodeConfig)) :
  NoDup entries.*1 →
  foldl (λ d kv, <[kv.1 := kv.2]> d) d entries = list_to_map entries ∪ d.
Proof.
  revert d. induction entries as [| [h n] entries IH]; intros d Hnd.
  { simpl. by rewrite (left_id_L ∅ (∪)). }
  apply NoDup_cons in Hnd as [Hh Hnd]. cbn [foldl fst snd]. rewrite IH by done.
  simpl. rewrite <- insert_union_r; [by rewrite insert_union_l |].
  by apply not_elem_of_list_to_map_1.
Qed.

Lemma sorted_entries_perm d : sorted_entries d ≡ₚ map_to_list d.
Proof. apply merge_sort_Permutation. Qed.

Lemma decode_deployment_to_json d : decode_deployment (deployment_to_json d) = (Some d, None).
Proof.
  unfold decode_deployment, deployment_to_json. rewrite decode_entries_nodes.
  assert (Hnd : NoDup (sorted_entries d).*1)
    by (rewrite sorted_entries_perm; apply NoDup_fst_map_to_list).
  rewrite insert_entries, (right_id_L ∅ (∪)) by done. do 2 f_equal.
  rewrite <- (list_to_map_to_list d) at 2. apply list_to_map_proper; [done |].
  apply sorted_entries_perm.
Qed.

(** Configurations of valid UTF-8 strings. *)
Definition utf8_node (n : NodeConfig) : Prop :=
  utf8 (State n) ∧ Forall utf8 (image_list n).
Definition utf8_deployment (d : DeploymentConfig) : Prop :=
  ∀ hostname node, d !! hostname = Some node → utf8 hostname ∧ utf8_node node.

Lemma height_deployment d : (height (deployment_to_json d) ≤ 3)%nat.
Proof.
  assert (Hs : ∀ l : list string, foldr (λ v n, Nat.max (height v) n) 0 (map JString l) = 0).
  { induction l as [| s l IH]; simpl; done. }
  assert (Hn : ∀ n, (height (node_to_json n) ≤ 2)%nat).
  { intros [state [l |]]; cbn -[Nat.max]; [| simpl; lia].
    change (foldr (λ v n, Nat.max (height v) n) 0 (map JString l))%nat with
      (foldr (λ v n, Nat.max (height v) n) 0 (map JString l))%nat.
    rewrite Hs. simpl. lia. }
  unfold deployment_to_json. cbn [height].
  induction (sorted_entries d) as [| [h n] l IH]; cbn -[Nat.max height]; [lia |].
  specialize (Hn n). lia.
Qed.

Lemma printable_node n : utf8_node n → printable (node_to_json n).
Proof.
  intros [Hst Him]. apply printable_object. repeat apply Forall_cons_2; [| | done];
    (split; [by apply utf8_ascii |]); [done |].
  unfold image_list in Him. cbn [snd]. destruct (Images n) as [l |]; [| done].
  apply printable_array, Forall_map. exact Him.
Qed.

Lemma printable_deployment d : utf8_deployment d → printable (deployment_to_json d).
Proof.
  intros Hd. apply printable_object, Forall_map, Forall_forall.
  intros [h n] Hin. rewrite sorted_entries_perm, elem_of_map_to_list in Hin.
  destruct (Hd h n Hin) as (Hh & Hn). split; [done | by apply printable_node].
Qed.

(** What is decoded from a well-formed value is well formed, also when an
    error is returned with it. *)
Definition utf8_images (i : images) : Prop :=
  Forall utf8 (default [] (visible i)) ∧ Forall utf8 (stale i).

Lemma decode_string_utf8 old v : utf8 old → well_formed v → utf8 (decode_string old v).1.
Proof. by destruct v. Qed.

Lemma decode_elements_utf8 backing vs :
  Forall utf8 backing → Forall well_formed vs → Forall utf8 (decode_elements backing vs).1.
Proof.
  intros Hb Hvs. revert backing Hb. induction Hvs as [| v vs Hv _ IH]; intros backing Hb; [done |].
  cbn. assert (Hh : utf8 (default "" (head backing))) by (destruct Hb; [constructor | done]).
  assert (Hs := decode_string_utf8 _ _ Hh Hv).
  destruct (decode_string _ v) as [s e]. specialize (IH (tail backing) (Forall_tail _ _ Hb)).
  destruct (decode_elements _ vs) as [ss e']. by apply Forall_cons.
Qed.

Lemma decode_images_utf8 i v : utf8_images i → well_formed v → utf8_images (decode_images i v).1.
Proof.
  intros [Hi Hst] Hv. destruct v as [| | | | [| v vs] |]; try done.
  cbn [decode_images]. apply well_formed_array in Hv.
  assert (Hb : Forall utf8 (default [] (visible i) ++ stale i)%list) by by apply Forall_app.
  assert (He := decode_elements_utf8 _ _ Hb Hv).
  destruct (decode_elements _ (v :: vs)) as [ss e]. split; [done | by apply Forall_drop].
Qed.

Lemma decode_members_utf8 state i kvs :
  utf8 state → utf8_images i → Forall (λ kv, utf8 kv.1 ∧ well_formed kv.2) kvs →
  utf8_node (decode_members state i kvs).1.
Proof.
  intros Hs Hi Hk. revert state i Hs Hi.
  induction Hk as [| [key v] kvs [_ Hv] _ IH]; intros state i Hs Hi.
  { split; [done | by apply Hi]. }
  cbn [decode_members].
  destruct (names_field "state" key); [| destruct (names_field "container" key); [| by apply IH]].
  - assert (Hd := decode_string_utf8 state v Hs Hv). destruct (decode_string state v) as [state' e].
    specialize (IH state' i Hd Hi). by destruct (decode_members state' i kvs).
  - assert (Hd := decode_images_utf8 i v Hi Hv). destruct (decode_images i v) as [i' e].
    specialize (IH state i' Hs Hd). by destruct (decode_members state i' kvs).
Qed.

Lemma decode_node_utf8 v : well_formed v → utf8_node (decode_node v).1.
Proof.
  intros Hv. assert (Hz : utf8_node zero_NodeConfig) by (split; constructor).
  destruct v as [| | | | | kvs]; try done. apply well_formed_object in Hv.
  apply decode_members_utf8; [constructor | done | done].
Qed.

Lemma utf8_deployment_insert d h n :
  utf8 h → utf8_node n → utf8_deployment d → utf8_deployment (<[h := n]> d).
Proof.
  intros Hh Hn Hd h' n' [[<- <-] | [_ Hl]]%lookup_insert_Some; [done | by apply Hd].
Qed.

Lemma decode_deployment_utf8 v :
  well_formed v → ∀ d, (decode_deployment v).1 = Some d → utf8_deployment d.
Proof.
  intros Hv d. destruct v as [| | | | | kvs]; try done. apply well_formed_object in Hv.
  cbn [decode_deployment].
  cut (∀ d, utf8_deployment d → utf8_deployment (decode_entries d kvs).1).
  { intros H. assert (Hempty : utf8_deployment ∅) by done. specialize (H ∅ Hempty).
    destruct (decode_entries ∅ kvs). by intros [= <-]. }
  induction Hv as [| [h v] kvs [Hh Hv] _ IH]; intros d' Hd; [done |]. cbn [decode_entries].
  assert (Hn := decode_node_utf8 v Hv). destruct (decode_node v) as [n e].
  specialize (IH (<[h := n]> d') (utf8_deployment_insert _ _ _ Hh Hn Hd)).
  by destruct (decode_entries (<[h:=n]> d') kvs).
Qed.

Lemma DeploymentConfigFromJSON_utf8 str d :
  (DeploymentConfigFromJSON str).1 = Some d → utf8_deployment d.
Proof.
  unfold DeploymentConfigFromJSON. destruct (parse_json str) as [v |] eqn:Hv; [| done].
  by apply decode_deployment_utf8, (parse_json_well_formed str).
Qed.

(** Decoding reports no error but that of a wrong type. *)
Definition type_error_only (e : option error) : Prop :=
  e = None ∨ e = Some UnmarshalTypeError.

Lemma first_error_types e e' :
  type_error_only e → type_error_only e' → type_error_only (first_error e e').
Proof. by destruct e; unfold type_error_only. Qed.

Lemma decode_string_types old v : type_error_only (decode_string old v).2.
Proof. destruct v; (by left) || (by right). Qed.

Lemma decode_elements_types backing vs : type_error_only (decode_elements backing vs).2.
Proof.
  revert backing. induction vs as [| v vs IH]; intros backing; [by left |]. cbn.
  assert (Hv := decode_string_types (default "" (head backing)) v).
  destruct (decode_string _ v) as [s e]. specialize (IH (tail backing)).
  destruct (decode_elements _ vs) as [ss e']. by apply first_error_types.
Qed.

Lemma decode_images_types i v : type_error_only (decode_images i v).2.
Proof.
  destruct v as [| | | | [| v vs] |]; try ((by left) || (by right)). cbn [decode_images].
  assert (Hv := decode_elements_types (default [] (visible i) ++ stale i)%list (v :: vs)).
  by destruct (decode_elements _ (v :: vs)).
Qed.

Lemma decode_members_types state i kvs : type_error_only (decode_members state i kvs).2.
Proof.
  revert state i. induction kvs as [| [key v] kvs IH]; intros state i; [by left |].
  cbn [decode_members]. destruct (names_field "state" key); [| destruct (names_field "container" key)].
  - assert (Hv := decode_string_types state v). destruct (decode_string state v) as [state' e].
    specialize (IH state' i). destruct (decode_members state' i kvs). by apply first_error_types.
  - assert (Hv := decode_images_types i v). destruct (decode_images i v) as [i' e].
    specialize (IH state i'). destruct (decode_members state i' kvs). by apply first_error_types.
  - apply IH.
Qed.

Lemma decode_deployment_types v : type_error_only (decode_deployment v).2.
Proof.
  destruct v as [| | | | | kvs]; try ((by left) || (by right)). cbn [decode_deployment].
  cut (∀ d, type_error_only (decode_entries d kvs).2).
  { intros H. specialize (H ∅). by destruct (decode_entries ∅ kvs). }
  induction kvs as [| [h v] kvs IH]; intros d; [by left |]. cbn [decode_entries].
  assert (Hv : type_error_only (decode_node v).2).
  { destruct v; try ((by left) || (by right)). apply decode_members_types. }
  destruct (decode_node v) as [n e]. specialize (IH (<[h:=n]> d)).
  destruct (decode_entries (<[h:=n]> d) kvs). by apply first_error_types.
Qed.


(** ** Properties *)

Lemma JSON_reads_back (d : option DeploymentConfig) :
  match d with Some d => utf8_deployment d | None => True end →
  ∃ j, JSON d = Ret j ∧ DeploymentConfigFromJSON j = (d, None).
Proof.
  intros Hd. eexists. split; [done |]. unfold DeploymentConfigFromJSON.
  destruct d as [d |]; [| done]. rewrite parse_MarshalIndent.
  - apply decode_deployment_to_json.
  - by apply printable_deployment.
  - assert (H := height_deployment d). unfold maxNestingDepth. lia.
Qed.

(** C13. Round trip of the configuration messages: the JSON text of every
    configuration whose strings are valid UTF-8 - a nil map and nil or empty
    lists of images included - reads back as that configuration. *)
Theorem deployment_round_trip (d : option DeploymentConfig) :
  match d with Some d => utf8_deployment d | None => True end →
  ∃ j, JSON d = Ret j ∧ DeploymentConfigFromJSON j = (d, None).
Proof. apply JSON_reads_back. Qed.

Lemma deployment_round_trip_witness :
  ∃ j, JSON (Some (DeploymentConfigForStartingNode "hpc-1")) = Ret j
    ∧ DeploymentConfigFromJSON j = (Some (DeploymentConfigForStartingNode "hpc-1"), None).
Proof.
  apply (deployment_round_trip (Some _)). intros h n Hn.
  unfold DeploymentConfigForStartingNode in Hn.
  apply lookup_singleton_Some in Hn as [<- <-].
  split; [by apply utf8_ascii |]. split; [by apply utf8_ascii | constructor].
Defined.

(** Reading a configuration terminates with an answer about the text: the
    number of calls the reader is allowed, as soon as it is more than twice
    the length of the text, does not matter; a syntax error is returned
    exactly when no number of calls finds a value, and then nothing was
    decoded. *)
Theorem DeploymentConfigFromJSON_decides str fuel :
  (2 * String.length str < fuel)%nat →
  DeploymentConfigFromJSON str =
    match read_with fuel str with
    | Some v => decode_deployment v
    | None => (None, Some SyntaxError)
    end
  ∧ ((DeploymentConfigFromJSON str).2 = Some SyntaxError ↔ read_with fuel str = None).
Proof.
  intros Hf. unfold DeploymentConfigFromJSON. rewrite (parse_json_any_fuel fuel) by lia.
  split; [done |]. destruct (read_with fuel str) as [v |]; [| done]. split; [| done].
  by destruct (decode_deployment_types v) as [-> | ->].
Qed.

Lemma DeploymentConfigFromJSON_decides_witness :
  DeploymentConfigFromJSON "{}" =
    match read_with 5 "{}" with
    | Some v => decode_deployment v
    | None => (None, Some SyntaxError)
    end
  ∧ ((DeploymentConfigFromJSON "{}").2 = Some SyntaxError ↔ read_with 5 "{}" = None).
Proof. apply DeploymentConfigFromJSON_decides. vm_compute. lia. Defined.

(** C18. Whatever bytes a text holds, the configuration read from it is well
    formed: its host names, states and images are valid UTF-8, even if an error
    is returned with it; and writing it gives a text that reads back as the
    same configuration without an error. *)
Theorem configurations_read_are_well_formed str d e :
  DeploymentConfigFromJSON str = (Some d, e) →
  utf8_deployment d
  ∧ ∃ j, JSON (Some d) = Ret j ∧ DeploymentConfigFromJSON j = (Some d, None).
Proof.
  intros Hs. assert (Hd : utf8_deployment d).
  { apply (DeploymentConfigFromJSON_utf8 str). by rewrite Hs. }
  split; [done | by apply (JSON_reads_back (Some d))].
Qed.

(** A broken byte and a lone surrogate in the name of a host, and an image that
    is a number. *)
Definition malformed_text : string :=
  "{" +:+ quoted (byte_string [0xFF]%Z +:+ "\ud800") +:+ ": {" +:+ quoted "container" +:+ ": ["
  +:+ quoted "a" +:+ ", 7]}}".
Definition malformed_read : DeploymentConfig :=
  {[ replacement +:+ replacement := {| State := ""; Images := Some ["a"; ""] |} ]}.

Lemma configurations_read_are_well_formed_witness :
  DeploymentConfigFromJSON malformed_text = (Some malformed_read, Some UnmarshalTypeError)
  ∧ utf8_deployment malformed_read
  ∧ ∃ j, JSON (Some malformed_read) = Ret j
      ∧ DeploymentConfigFromJSON j = (Some malformed_read, None).
Proof.
  split; [by vm_compute |].
  apply (configurations_read_are_well_formed malformed_text _ (Some UnmarshalTypeError)).
  by vm_compute.
Defined.
