(* ===== verification/NodeRegistry.v ===== *)
(** Package [pkg/registry], files [node_regisry.go] and [errors.go]: the node
    registry of the control plane.

    State: the list of registered nodes (protected by the mutex that the xDS
    server shares).  [Register] is its critical section together with the node
    it then sends on [chanNodes] and the response it returns once that send
    has completed; the send itself is a step of [ControlPlane.v].
    [OpenChannel] is a session: a function of what the successive
    [stream.Recv()] return. *)
From S2P Require Import Prelude GoStrings Json Deployment.

Local Open Scope string_scope.

(** ** errors.go *)
Definition errorMsgMissingHeader : string := "CARISMA node ID header missing".
Definition errorInvalidNodeID : string := "presented node ID unknown".

(** ** Addresses *)
Record NodeAddr := {
  Host : string;
  Port : Z;
}.

#[export] Instance NodeAddr_eq_dec : EqDecision NodeAddr.
Proof. solve_decision. Defined.

Definition Network (a : option NodeAddr) : string := "tcp".

(** The method has a pointer receiver, which may be nil. *)
Definition NodeAddr_String (a : option NodeAddr) : string :=
  match a with
  | None => "<nil>"
  | Some a => JoinHostPort (Host a) (Itoa (Port a))
  end.

(** ** Node identifiers *)
Definition GetNodeIdx (nodeID : string) : outcome Z :=
  let s := Split nodeID "-"%char in
  t ← index_or_panic s (length s - 1);
  Atoi t.

(** ** Messages of the service (node.proto) *)
Record RegisterRequest := {
  Address : string;
  RequestPort : Z;
}.

Record RegisterResponse := {
  Id : string;
}.

Definition STATE_TYPE_DESIRED : Z := 0.
Definition STATE_TYPE_ACTUAL : Z := 1.

(** The enumeration is open: a message can carry any 32-bit state type. *)
Record DeploymentConfiguration := {
  Json : string;
  StateType : Z;
}.

#[export] Instance DeploymentConfiguration_eq_dec : EqDecision DeploymentConfiguration.
Proof. solve_decision. Defined.

(** ** The server *)
Record NodeRegistryServer := {
  nodes : list NodeAddr;
}.

Definition NewNodeRegistryServer : NodeRegistryServer := {| nodes := [] |}.

(** The state after the critical section, the node that is sent on
    [chanNodes], and the response.  [len(s.nodes)-1] is the index of the node
    just appended; the conversion of the port from [int32] to [int] keeps its
    value. *)
Definition Register (s : NodeRegistryServer) (addr : RegisterRequest)
    : outcome (NodeRegistryServer * NodeAddr * RegisterResponse) :=
  let address := Address addr in
  let port := RequestPort addr in
  let s' := {| nodes := nodes s ++ [{| Host := address; Port := port |}] |} in
  let newNodeIdx := length (nodes s') - 1 in
  newNode ← index_or_panic (nodes s') newNodeIdx;
  Ret (s', newNode, {| Id := "node-" +:+ Itoa (Z.of_nat newNodeIdx) |}).

Definition ValidateNodeID (s : NodeRegistryServer) (nodeID : string) : outcome Z :=
  nodeIdx ← GetNodeIdx nodeID;
  if decide (nodeIdx < 0 ∨ nodeIdx > Z.of_nat (length (nodes s)) - 1)%Z
  then Fail (ErrorNew errorInvalidNodeID)
  else Ret nodeIdx.

(** [if j, err := dplmCfg.JSON(); err != nil { s.broker.Write(...) }]: what
    the announcement of a state change of a node writes to the broker. *)
Definition announce_state (d : DeploymentConfig) : list DeploymentConfiguration :=
  match JSON (Some d) with
  | Fail _ => [{| Json := ""; StateType := STATE_TYPE_ACTUAL |}]
  | _ => []
  end.

(** The receive loop of [OpenChannel]: the messages it writes to the broker
    and, when a [Recv] failed, the result of the call. *)
Fixpoint channel_loop (nodeHostname : string)
    (recvs : list (recv DeploymentConfiguration))
    : list DeploymentConfiguration * option (outcome unit) :=
  match recvs with
  | [] => ([], None)
  | RecvErr err :: _ =>
      (announce_state (DeploymentConfigForStoppedNode nodeHostname),
       Some (if decide (err = EOF) then Ret () else Fail err))
  | RecvMsg msgDplmCfg :: recvs =>
      let '(ws, r) := channel_loop nodeHostname recvs in (msgDplmCfg :: ws, r)
  end.

(** The whole call.  [md] is the metadata of the stream: [None] when
    [FromIncomingContext] finds none, otherwise the values [md.Get] returns
    for the CARISMA header.  The result is the error of a rejected stream, or
    the writes to the broker and the result of the receive loop. *)
Definition OpenChannel (s : NodeRegistryServer) (md : option (list string))
    (recvs : list (recv DeploymentConfiguration))
    : outcome (list DeploymentConfiguration * option (outcome unit)) :=
  match md with
  | None => Fail (StatusError FailedPrecondition errorMsgMissingHeader)
  | Some nodeID =>
      if decide (length nodeID < 1)
      then Fail (StatusError FailedPrecondition errorMsgMissingHeader)
      else
        id ← index_or_panic nodeID 0;
        match ValidateNodeID s id with
        | Fail err => Fail (StatusErrorOf FailedPrecondition err)
        | Panic p => Panic p
        | Ret nodeIdx =>
            node ← index_int (nodes s) nodeIdx;
            let nodeHostname := Host node in
            let '(ws, r) := channel_loop nodeHostname recvs in
            Ret (announce_state (DeploymentConfigForStartingNode nodeHostname) ++ ws, r)
        end
  end%list.

(** A sequence of registrations. *)
Fixpoint register_all (s : NodeRegistryServer) (reqs : list RegisterRequest)
    : outcome (NodeRegistryServer * list (NodeAddr * RegisterResponse)) :=
  match reqs with
  | [] => Ret (s, [])
  | req :: reqs =>
      '(s1, n, resp) ← Register s req;
      '(s2, out) ← register_all s1 reqs;
      Ret (s2, (n, resp) :: out)
  end.

(** ** Lemmas *)

Definition addr_of (req : RegisterRequest) : NodeAddr :=
  {| Host := Address req; Port := RequestPort req |}.

Lemma Register_eq s req :
  Register s req =
    Ret ({| nodes := nodes s ++ [addr_of req] |}, addr_of req,
         {| Id := "node-" +:+ Itoa (Z.of_nat (length (nodes s))) |}).
Proof.
  unfold Register, index_or_panic. simpl.
  rewrite length_app, Nat.add_sub, list_lookup_middle by done. done.
Qed.

(** The index of an identifier is the number after its last dash. *)
Lemma GetNodeIdx_last pre t :
  has_byte "-" t = false → GetNodeIdx (pre +:+ "-" +:+ t) = Atoi t.
Proof.
  intros Ht. unfold GetNodeIdx, index_or_panic.
  change ("-" +:+ t) with (String "-" t).
  rewrite Split_app, (Split_no_sep t), length_app, Nat.add_sub by done.
  by rewrite list_lookup_middle by done.
Qed.

Lemma GetNodeIdx_no_dash t : has_byte "-" t = false → GetNodeIdx t = Atoi t.
Proof. intros Ht. unfold GetNodeIdx. by rewrite Split_no_sep. Qed.

Lemma GetNodeIdx_node_id n :
  (0 ≤ n ≤ int_max)%Z → GetNodeIdx ("node-" +:+ Itoa n) = Ret n.
Proof.
  intros Hn. change ("node-" +:+ Itoa n) with ("node" +:+ "-" +:+ Itoa n).
  rewrite GetNodeIdx_last by (apply has_byte_Itoa_dash; lia).
  apply Atoi_Itoa. unfold fits_int, int_min. lia.
Qed.

(** Every identifier has a last component, so the access [s[len(s)-1]] is in
    range, and the component contains no dash. *)
Lemma GetNodeIdx_component nodeID :
  ∃ t, has_byte "-" t = false ∧ GetNodeIdx nodeID = Atoi t.
Proof.
  unfold GetNodeIdx, index_or_panic.
  destruct (Split nodeID "-" !! (length (Split nodeID "-") - 1)) as [t |] eqn:E.
  - exists t. split; [| done].
    eapply Split_elem_of_no_sep, list_elem_of_lookup_2, E.
  - apply lookup_ge_None in E. destruct (Split nodeID "-") eqn:Hs; simpl in E; [| lia].
    by apply Split_not_nil in Hs.
Qed.

Lemma GetNodeIdx_nonneg nodeID n : GetNodeIdx nodeID = Ret n → (0 ≤ n)%Z.
Proof.
  destruct (GetNodeIdx_component nodeID) as (t & Ht & ->). by apply Atoi_nonneg.
Qed.

Lemma ValidateNodeID_Ret s nodeID i :
  ValidateNodeID s nodeID = Ret i ↔
    GetNodeIdx nodeID = Ret i ∧ (i < Z.of_nat (length (nodes s)))%Z.
Proof.
  unfold ValidateNodeID. split.
  - intros (j & Hj & H)%bind_Ret_inv. case_decide; simplify_eq. split; [done | lia].
  - intros [Hi Hlt]. rewrite Hi. cbn. apply GetNodeIdx_nonneg in Hi.
    rewrite decide_False by lia. done.
Qed.

Lemma ValidateNodeID_no_panic s nodeID p : ValidateNodeID s nodeID ≠ Panic p.
Proof.
  unfold ValidateNodeID. intros [H | (n & _ & H)]%bind_Panic_inv.
  - destruct (GetNodeIdx_component nodeID) as (t & _ & Ht).
    rewrite Ht in H. by apply Atoi_no_panic in H.
  - by case_decide.
Qed.

Lemma register_all_eq s reqs :
  register_all s reqs =
    Ret ({| nodes := nodes s ++ map addr_of reqs |},
         imap (λ k req, (addr_of req,
           {| Id := "node-" +:+ Itoa (Z.of_nat (length (nodes s) + k)) |})) reqs).
Proof.
  revert s. induction reqs as [| req reqs IH]; intros s; simpl.
  { destruct s. by rewrite app_nil_r. }
  rewrite Register_eq. cbn. rewrite IH. cbn.
  rewrite <- app_assoc. do 3 f_equal.
  - by rewrite Nat.add_0_r.
  - apply imap_ext. intros k x _. simpl. rewrite length_app. simpl.
    do 5 f_equal. lia.
Qed.

Lemma channel_loop_msgs h ms recvs :
  channel_loop h (map RecvMsg ms ++ recvs) =
    ((ms ++ (channel_loop h recvs).1)%list, (channel_loop h recvs).2).
Proof.
  induction ms as [| m ms IH]; simpl; [by destruct (channel_loop h recvs) |].
  by rewrite IH.
Qed.

Lemma OpenChannel_valid s nodeID vs i recvs :
  ValidateNodeID s nodeID = Ret i →
  ∃ node, nodes s !! Z.to_nat i = Some node
    ∧ OpenChannel s (Some (nodeID :: vs)) recvs =
        Ret (channel_loop (Host node) recvs).
Proof.
  intros Hv. assert (Hi := Hv). apply ValidateNodeID_Ret in Hi as [Hidx Hlt].
  apply GetNodeIdx_nonneg in Hidx.
  destruct (lookup_lt_is_Some_2 (nodes s) (Z.to_nat i) ltac:(lia)) as [node Hnode].
  exists node. split; [done |]. unfold OpenChannel. cbn. rewrite Hv.
  assert (index_int (nodes s) i = Ret node) as -> by by apply index_int_Ret.
  cbn. by destruct (channel_loop (Host node) recvs).
Qed.

Lemma OpenChannel_no_panic s md recvs p : OpenChannel s md recvs ≠ Panic p.
Proof.
  destruct md as [[| id vs] |]; [done | | done].
  destruct (ValidateNodeID s id) as [i | e | p'] eqn:Hv.
  - destruct (OpenChannel_valid s id vs i recvs Hv) as (node & _ & ->). done.
  - unfold OpenChannel. cbn. by rewrite Hv.
  - by apply ValidateNodeID_no_panic in Hv.
Qed.

#[export] Hint Resolve GetNodeIdx_nonneg : carisma.

(** ** Properties *)

(** C9. Registration round trip: after any sequence of [Register] calls on a new
    server, every call has returned an identifier that [ValidateNodeID] maps
    back to the index at which the server stores the address of that call, now
    and after any further registrations; identifiers are pairwise distinct,
    and every call hands the stored address to the xDS server. *)
Theorem registration_round_trip reqs more :
  (Z.of_nat (length reqs) ≤ int_max + 1)%Z →
  ∃ s out s' out',
    register_all NewNodeRegistryServer reqs = Ret (s, out)
    ∧ register_all s more = Ret (s', out')
    ∧ NoDup (map (λ r, Id r.2) out)
    ∧ ∀ k req, reqs !! k = Some req →
        ∃ resp, out !! k = Some (addr_of req, resp)
          ∧ ValidateNodeID s (Id resp) = Ret (Z.of_nat k)
          ∧ ValidateNodeID s' (Id resp) = Ret (Z.of_nat k)
          ∧ nodes s' !! k = Some (addr_of req).
Proof.
  intros Hlen. rewrite register_all_eq. do 4 eexists. split; [done |].
  rewrite register_all_eq. split; [done |].
  assert (Hid : ∀ k req, reqs !! k = Some req →
    GetNodeIdx ("node-" +:+ Itoa (Z.of_nat k)) = Ret (Z.of_nat k)).
  { intros k req Hk. apply GetNodeIdx_node_id.
    apply lookup_lt_Some in Hk. lia. }
  split.
  - apply NoDup_alt. intros k1 k2 x Hk1 Hk2.
    rewrite list_lookup_fmap, list_lookup_imap in Hk1, Hk2.
    destruct (reqs !! k1) as [r1 |] eqn:H1; [| done].
    destruct (reqs !! k2) as [r2 |] eqn:H2; [| done].
    cbn in Hk1, Hk2. by simplify_eq.
  - intros k req Hk. eexists. rewrite list_lookup_imap, Hk. split; [done |].
    assert (Hlt := lookup_lt_Some _ _ _ Hk).
    rewrite !ValidateNodeID_Ret. simpl. rewrite !length_app, !length_map.
    split_and!; [by eapply Hid | lia | by eapply Hid | lia |].
    rewrite lookup_app_l by (rewrite length_map; lia).
    by rewrite list_lookup_fmap, Hk.
Qed.

Lemma registration_round_trip_witness :
  ∃ s out s' out',
    register_all NewNodeRegistryServer
      [{| Address := "hpc-1"; RequestPort := 8000 |};
       {| Address := "hpc-2"; RequestPort := 8000 |}] = Ret (s, out)
    ∧ register_all s [{| Address := "hpc-3"; RequestPort := 8000 |}] = Ret (s', out')
    ∧ NoDup (map (λ r, Id r.2) out)
    ∧ ∀ k req, [{| Address := "hpc-1"; RequestPort := 8000 |};
                {| Address := "hpc-2"; RequestPort := 8000 |}] !! k = Some req →
        ∃ resp, out !! k = Some (addr_of req, resp)
          ∧ ValidateNodeID s (Id resp) = Ret (Z.of_nat k)
          ∧ ValidateNodeID s' (Id resp) = Ret (Z.of_nat k)
          ∧ nodes s' !! k = Some (addr_of req).
Proof. apply registration_round_trip. unfold int_max. simpl. lia. Defined.

(** [ValidateNodeID] decides exactly whether the last dash-separated component
    of an identifier is a decimal number below the number of registered nodes,
    whatever precedes that component: it never panics, and the index it
    returns is in range without the test for a negative index. *)
Theorem ValidateNodeID_decides s nodeID :
  ∃ t, has_byte "-" t = false
    ∧ (nodeID = t ∨ ∃ pre, nodeID = pre +:+ "-" +:+ t)
    ∧ match ValidateNodeID s nodeID with
      | Ret i => Atoi t = Ret i ∧ (0 ≤ i < Z.of_nat (length (nodes s)))%Z
      | Fail e =>
          Atoi t = Fail e
          ∨ ∃ i, Atoi t = Ret i ∧ (Z.of_nat (length (nodes s)) ≤ i)%Z
              ∧ e = ErrorNew errorInvalidNodeID
      | Panic _ => False
      end.
Proof.
  assert (∃ t, has_byte "-" t = false
    ∧ (nodeID = t ∨ ∃ pre, nodeID = pre +:+ "-" +:+ t)
    ∧ GetNodeIdx nodeID = Atoi t) as (t & Ht & Hsplit & Heq).
  { destruct (LastIndexByte_spec nodeID "-") as [[_ Hno] | (a & b & -> & Hb & _)].
    - exists nodeID. split_and!; [done | by left | by apply GetNodeIdx_no_dash].
    - exists b. split_and!; [done | by right; exists a |].
      by apply (GetNodeIdx_last a b). }
  exists t. split_and!; [done.. |].
  unfold ValidateNodeID. rewrite Heq.
  destruct (Atoi t) as [i | e | p] eqn:Hi; cbn.
  - assert (0 ≤ i)%Z by (by eapply Atoi_nonneg).
    case_decide; [right; exists i; split_and!; [done | lia | done] | split; [done | lia]].
  - by left.
  - by apply Atoi_no_panic in Hi.
Qed.

(** An open channel relays: once the header carries a valid node identifier
    the call writes to the broker exactly the messages it receives, in order,
    and nothing else - no announcement of a starting or of a stopped node,
    since the JSON text of a configuration is always available - until the
    stream ends, with a nil error at [EOF] and with the stream's error
    otherwise. *)
Theorem OpenChannel_relays s nodeID vs i ms :
  ValidateNodeID s nodeID = Ret i →
  OpenChannel s (Some (nodeID :: vs)) (map RecvMsg ms) = Ret (ms, None)
  ∧ ∀ err rest,
      OpenChannel s (Some (nodeID :: vs)) (map RecvMsg ms ++ RecvErr err :: rest) =
        Ret (ms, Some (if decide (err = EOF) then Ret () else Fail err)).
Proof.
  intros Hv. split; [rewrite <- (app_nil_r (map RecvMsg ms)) | intros err rest];
    match goal with |- OpenChannel _ _ ?recvs = _ =>
      destruct (OpenChannel_valid s nodeID vs i recvs Hv) as (node & _ & ->)
    end; rewrite channel_loop_msgs; cbn; by rewrite ?app_nil_r.
Qed.

Lemma OpenChannel_relays_witness :
  let s := {| nodes := [{| Host := "hpc-1"; Port := 8000 |}] |} in
  let m := {| Json := "{}"; StateType := STATE_TYPE_DESIRED |} in
  OpenChannel s (Some ["node-0"]) (map RecvMsg [m]) = Ret ([m], None)
  ∧ ∀ err rest,
      OpenChannel s (Some ["node-0"]) (map RecvMsg [m] ++ RecvErr err :: rest) =
        Ret ([m], Some (if decide (err = EOF) then Ret () else Fail err)).
Proof.
  intros s m. apply (OpenChannel_relays s "node-0" [] 0). vm_compute. reflexivity.
Defined.

(** Every stream without a valid node identifier is refused with
    [FailedPrecondition] before anything is written, and no stream makes the
    call panic. *)
Theorem OpenChannel_refuses s md recvs :
  match OpenChannel s md recvs with
  | Ret _ => ∃ nodeID vs i, md = Some (nodeID :: vs) ∧ ValidateNodeID s nodeID = Ret i
  | Fail (StatusError c msg) =>
      c = FailedPrecondition ∧ msg = errorMsgMissingHeader ∧ (md = None ∨ md = Some [])
  | Fail (StatusErrorOf c e) =>
      c = FailedPrecondition
      ∧ ∃ nodeID vs, md = Some (nodeID :: vs) ∧ ValidateNodeID s nodeID = Fail e
  | _ => False
  end.
Proof.
  destruct md as [[| id vs] |]; [by split_and!; auto | | by split_and!; auto].
  destruct (ValidateNodeID s id) as [i | e | p] eqn:Hv.
  - destruct (OpenChannel_valid s id vs i recvs Hv) as (node & _ & ->).
    by exists id, vs, i.
  - unfold OpenChannel. cbn. rewrite Hv. split; [done | by exists id, vs].
  - by apply ValidateNodeID_no_panic in Hv.
Qed.
