(* ===== verification/ServiceRegistry.v ===== *)
(** Package [pkg/registry], file [service_regisry.go]: the service registry of
    the control plane.

    State: for every node identifier the bundles it offers and for every
    bundle the list of its ports, a map of maps of slices.  Every announcement
    changes it inside the critical section of the shared mutex and then sends
    the map (a reference) on [updateChannel]; the sends are the steps of
    [ControlPlane.v].  The abstract specification is a set of triples (node,
    bundle, port), with insertion and removal. *)
From S2P Require Import Prelude GoStrings Slices NodeRegistry.

Local Open Scope string_scope.

Definition HeaderNodeID : string := "x-carisma-node-id".

(** [type ServiceConfigSnapshot map[string]map[string][]int32] *)
Abbreviation ServiceConfigSnapshot := (gmap string (gmap string (list Z))).

(** ** Messages of the service (service.proto); the enumeration is open. *)
Definition REGISTRATION_STATE_REGISTERED : Z := 0.
Definition REGISTRATION_STATE_UNREGISTERED : Z := 1.

Record ServiceAnnouncement := {
  BundleId : string;
  LocalPort : Z;
  RegistrationState : Z;
}.

(** ** Access to the map of maps *)

(** [services[nodeID][bundleID]]: indexing a missing (nil) map yields nil. *)
Definition ports_of (s : ServiceConfigSnapshot) (nodeID bundleID : string) : list Z :=
  default [] (s !! nodeID ≫= λ m, m !! bundleID).

(** [services[nodeID][bundleID] = l]: assigning to a nil map panics. *)
Definition assign (s : ServiceConfigSnapshot) (nodeID bundleID : string) (l : list Z)
    : outcome ServiceConfigSnapshot :=
  match s !! nodeID with
  | None => Panic NilMapAssignment
  | Some m => Ret (<[nodeID := <[bundleID := l]> m]> s)
  end.

(** [delete(services[nodeID], bundleID)]: a no-op on a nil map. *)
Definition delete_bundle (s : ServiceConfigSnapshot) (nodeID bundleID : string)
    : ServiceConfigSnapshot :=
  match s !! nodeID with
  | None => s
  | Some m => <[nodeID := delete bundleID m]> s
  end.

Section service_registry.
Context `{SlicesPkg}.

(** ** Operations *)

(** The critical section of [registerService].  Sorting happens in place. *)
Definition registerService (s : ServiceConfigSnapshot) (nodeID bundleID : string)
    (port : Z) : outcome ServiceConfigSnapshot :=
  let s := match s !! nodeID with
           | None => <[nodeID := ∅]> s
           | Some _ => s
           end in
  s ← assign s nodeID bundleID (ports_of s nodeID bundleID ++ [port])%list;
  s ← assign s nodeID bundleID (slices_Sort (ports_of s nodeID bundleID));
  assign s nodeID bundleID (slices_Compact (ports_of s nodeID bundleID)).

(** The critical section of [unregisterService]. *)
Definition unregisterService (s : ServiceConfigSnapshot) (nodeID bundleID : string)
    (port : Z) : outcome ServiceConfigSnapshot :=
  let idxPort := slices_Index (ports_of s nodeID bundleID) port in
  s ← (if decide (idxPort > -1)%Z
       then l ← slices_Delete (ports_of s nodeID bundleID) idxPort (idxPort + 1);
            assign s nodeID bundleID l
       else Ret s);
  Ret (if decide (length (ports_of s nodeID bundleID) = 0)
       then delete_bundle s nodeID bundleID else s).

(** One announcement of the node [nodeID]. *)
Definition handle_announcement (s : ServiceConfigSnapshot) (nodeID : string)
    (a : ServiceAnnouncement) : outcome ServiceConfigSnapshot :=
  if decide (RegistrationState a = REGISTRATION_STATE_REGISTERED)
  then registerService s nodeID (BundleId a) (LocalPort a)
  else unregisterService s nodeID (BundleId a) (LocalPort a).

(** The receive loop: the final state, the states at the sends on
    [updateChannel], and the result once the stream ended; [sent] is the
    result of [SendAndClose]. *)
Fixpoint announcement_loop (sent : outcome unit) (s : ServiceConfigSnapshot)
    (nodeID : string) (recvs : list (recv ServiceAnnouncement))
    : outcome (ServiceConfigSnapshot * list ServiceConfigSnapshot * option (outcome unit)) :=
  match recvs with
  | [] => Ret (s, [], None)
  | RecvErr err :: _ => Ret (s, [], Some (if decide (err = EOF) then sent else Fail err))
  | RecvMsg announcement :: recvs =>
      s1 ← handle_announcement s nodeID announcement;
      '(s2, updates, r) ← announcement_loop sent s1 nodeID recvs;
      Ret (s2, s1 :: updates, r)
  end.

(** [ServiceRegistryServer.OpenChannel]: the header is indexed before its
    length is tested. *)
Definition OpenChannel (sent : outcome unit) (nReg : NodeRegistryServer)
    (s : ServiceConfigSnapshot) (md : option (list string))
    (recvs : list (recv ServiceAnnouncement))
    : outcome (ServiceConfigSnapshot * list ServiceConfigSnapshot * option (outcome unit)) :=
  match md with
  | None => Fail (StatusError FailedPrecondition errorMsgMissingHeader)
  | Some nodeID =>
      id ← index_or_panic nodeID 0;
      match ValidateNodeID nReg id with
      | Panic p => Panic p
      | valid =>
          if decide (length nodeID < 1 ∨ is_fail valid = true)
          then Fail (StatusError FailedPrecondition errorMsgMissingHeader)
          else
            id ← index_or_panic nodeID 0;
            announcement_loop sent s id recvs
      end
  end.

(** Announcements of several sessions, in the order in which they enter the
    critical section. *)
Fixpoint run_announcements (s : ServiceConfigSnapshot)
    (ops : list (string * ServiceAnnouncement)) : outcome ServiceConfigSnapshot :=
  match ops with
  | [] => Ret s
  | (nodeID, a) :: ops => s ← handle_announcement s nodeID a; run_announcements s ops
  end.
End service_registry.

Definition NewServiceRegistryServer : ServiceConfigSnapshot := ∅.

(** ** Reading the map of maps *)

Definition lookup2 (s : ServiceConfigSnapshot) (nodeID bundleID : string)
    : option (list Z) :=
  s !! nodeID ≫= λ m, m !! bundleID.

Lemma ports_of_lookup2 s n b : ports_of s n b = default [] (lookup2 s n b).
Proof. done. Qed.

Lemma lookup2_insert s n b l m n' b' :
  s !! n = Some m →
  lookup2 (<[n := <[b := l]> m]> s) n' b' =
    if decide (n' = n ∧ b' = b) then Some l else lookup2 s n' b'.
Proof.
  intros Hm. unfold lookup2. destruct (decide (n' = n)) as [-> | Hn].
  - rewrite lookup_insert_eq. cbn.
    destruct (decide (b' = b)) as [-> | Hb].
    + rewrite decide_True by done. by rewrite lookup_insert_eq.
    + rewrite decide_False by tauto. rewrite lookup_insert_ne by done. by rewrite Hm.
  - rewrite decide_False by tauto. by rewrite lookup_insert_ne.
Qed.

Lemma assign_spec s n b l :
  is_Some (s !! n) →
  ∃ s', assign s n b l = Ret s' ∧ is_Some (s' !! n)
    ∧ ∀ n' b', lookup2 s' n' b' =
        if decide (n' = n ∧ b' = b) then Some l else lookup2 s n' b'.
Proof.
  intros [m Hm]. unfold assign. rewrite Hm. eexists. split_and!; [done | |].
  - by rewrite lookup_insert_eq.
  - intros n' b'. by apply lookup2_insert.
Qed.

Lemma lookup2_is_Some s n b l : lookup2 s n b = Some l → is_Some (s !! n).
Proof. unfold lookup2. destruct (s !! n); [eauto | done]. Qed.

Lemma delete_bundle_lookup2 s n b n' b' :
  lookup2 (delete_bundle s n b) n' b' =
    if decide (n' = n ∧ b' = b) then None else lookup2 s n' b'.
Proof.
  unfold delete_bundle, lookup2. destruct (s !! n) as [m |] eqn:Hm.
  - destruct (decide (n' = n)) as [-> | Hn].
    + rewrite lookup_insert_eq. cbn. destruct (decide (b' = b)) as [-> | Hb].
      * rewrite decide_True by done. by rewrite lookup_delete_eq.
      * rewrite decide_False by tauto. by rewrite lookup_delete_ne, Hm.
    + rewrite decide_False by tauto. by rewrite lookup_insert_ne.
  - case_decide as Hd; [| done]. destruct Hd as [-> ->]. by rewrite Hm.
Qed.

Fixpoint remove_first (p : Z) (l : list Z) : list Z :=
  match l with
  | [] => []
  | q :: l => if decide (q = p) then l else q :: remove_first p l
  end.

Lemma remove_first_absent p l : p ∉ l → remove_first p l = l.
Proof.
  induction l as [| q l IH]; intros Hp; [done |]. simpl.
  apply not_elem_of_cons in Hp as [Hq Hp].
  rewrite decide_False by done. by rewrite IH.
Qed.

Lemma remove_first_mid p l1 l2 : p ∉ l1 → remove_first p (l1 ++ p :: l2) = (l1 ++ l2)%list.
Proof.
  induction l1 as [| q l1 IH]; intros Hp; simpl; [by rewrite decide_True |].
  apply not_elem_of_cons in Hp as [Hq Hp].
  rewrite decide_False by done. by rewrite IH.
Qed.

Lemma remove_first_sorted p l :
  strictly_sorted l →
  strictly_sorted (remove_first p l) ∧ ∀ q, q ∈ remove_first p l ↔ q ∈ l ∧ q ≠ p.
Proof.
  intros Hl. destruct (decide (p ∈ l)) as [Hp | Hp].
  - apply list_elem_of_split_l in Hp as (l1 & l2 & -> & Hp).
    rewrite remove_first_mid by done.
    apply strictly_sorted_remove in Hl as [? ?]. split; [done | set_solver].
  - rewrite remove_first_absent by done. split; [done | set_solver].
Qed.

Section service_lemmas.
Context `{SlicesPkg}.

(** The value of every entry after each operation, on any state. *)
Lemma registerService_spec s n b p :
  ∃ s', registerService s n b p = Ret s'
    ∧ ∀ n' b', lookup2 s' n' b' =
        if decide (n' = n ∧ b' = b)
        then Some (slices_Compact (slices_Sort (ports_of s n b ++ [p])%list))
        else lookup2 s n' b'.
Proof.
  unfold registerService.
  set (s0 := match s !! n with None => _ | Some _ => s end).
  assert (H0 : is_Some (s0 !! n) ∧ ∀ n' b', lookup2 s0 n' b' = lookup2 s n' b').
  { subst s0. destruct (s !! n) as [m |] eqn:Hm; [by split; [eexists |] |].
    split; [by rewrite lookup_insert_eq |]. intros n' b'. unfold lookup2.
    destruct (decide (n' = n)) as [-> | Hn]; [by rewrite lookup_insert_eq, Hm |].
    by rewrite lookup_insert_ne. }
  destruct H0 as [Hs0 Hl0].
  destruct (assign_spec s0 n b (ports_of s0 n b ++ [p])%list Hs0) as (s1 & -> & Hs1 & Hl1).
  cbn. destruct (assign_spec s1 n b (slices_Sort (ports_of s1 n b)) Hs1)
    as (s2 & -> & Hs2 & Hl2).
  cbn. destruct (assign_spec s2 n b (slices_Compact (ports_of s2 n b)) Hs2)
    as (s3 & -> & _ & Hl3).
  exists s3. split; [done |]. intros n' b'. rewrite Hl3.
  case_decide as Hd; [| by rewrite Hl2, decide_False, Hl1, decide_False, Hl0].
  rewrite !ports_of_lookup2, Hl2, decide_True by done. cbn.
  rewrite ports_of_lookup2, Hl1, decide_True by done. cbn.
  by rewrite ports_of_lookup2, Hl0.
Qed.

Lemma unregisterService_spec s n b p :
  ∃ s', unregisterService s n b p = Ret s'
    ∧ ∀ n' b', lookup2 s' n' b' =
        if decide (n' = n ∧ b' = b)
        then match remove_first p (ports_of s n b) with [] => None | l => Some l end
        else lookup2 s n' b'.
Proof.
  unfold unregisterService.
  assert (∃ s1, (if decide (slices_Index (ports_of s n b) p > -1)%Z
      then l ← slices_Delete (ports_of s n b) (slices_Index (ports_of s n b) p)
                 (slices_Index (ports_of s n b) p + 1); assign s n b l
      else Ret s) = Ret s1
      ∧ ports_of s1 n b = remove_first p (ports_of s n b)
      ∧ ((s1 = s ∨ is_Some (lookup2 s1 n b))
      ∧ ∀ n' b', ¬ (n' = n ∧ b' = b) → lookup2 s1 n' b' = lookup2 s n' b'))
    as (s1 & -> & Hp & Hk & Ho).
  { destruct (slices_Index_cases (ports_of s n b) p)
      as [[Hp ->] | (l1 & l2 & Hl & Hp & ->)].
    - rewrite decide_False by lia. exists s. split_and!; [done | | by left | done].
      by rewrite remove_first_absent.
    - rewrite decide_True by lia. rewrite Hl, slices_Delete_one. cbn.
      assert (is_Some (s !! n)) as Hs.
      { unfold ports_of in Hl. destruct (s !! n); [eauto | by destruct l1]. }
      destruct (assign_spec s n b (l1 ++ l2)%list Hs) as (s1 & -> & _ & Hl1).
      exists s1. split_and!; [done | | |].
      + rewrite ports_of_lookup2, Hl1, decide_True by done. cbn.
        by rewrite remove_first_mid.
      + right. rewrite Hl1, decide_True by done. eauto.
      + intros n' b' Hne. by rewrite Hl1, decide_False. }
  cbn. eexists. split; [done |]. intros n' b'. rewrite <- Hp.
  rewrite ports_of_lookup2. destruct (decide (n' = n ∧ b' = b)) as [[-> ->] | Hne].
  - case_decide as Hlen.
    + rewrite delete_bundle_lookup2, decide_True by done.
      by apply nil_length_inv in Hlen as ->.
    + destruct (lookup2 s1 n b) as [[|] |]; done.
  - case_decide; [rewrite delete_bundle_lookup2, decide_False by done |]; by apply Ho.
Qed.

(** ** Well-formedness: every stored list of ports is non-empty and strictly
    sorted (so without duplicates). *)
Definition wf_services (s : ServiceConfigSnapshot) : Prop :=
  ∀ n b l, lookup2 s n b = Some l → l ≠ [] ∧ strictly_sorted l.

Lemma wf_ports s n b : wf_services s → strictly_sorted (ports_of s n b).
Proof.
  intros Hwf. rewrite ports_of_lookup2.
  destruct (lookup2 s n b) as [l |] eqn:Hl; [by apply Hwf in Hl as [_ ?] | constructor].
Qed.

Lemma wf_empty : wf_services ∅.
Proof. intros n b l. unfold lookup2. by rewrite lookup_empty. Qed.

(** ** States that offer the same ports

    Two states can differ in node entries without bundles, which a removal
    leaves behind; [services_eq] ignores them. *)
Definition services_eq (s1 s2 : ServiceConfigSnapshot) : Prop :=
  ∀ n b, lookup2 s1 n b = lookup2 s2 n b.

#[export] Instance services_eq_equivalence : Equivalence services_eq.
Proof.
  split.
  - by intros s n b.
  - by intros s1 s2 Hs n b.
  - intros s1 s2 s3 H12 H23 n b. by rewrite H12.
Qed.

#[export] Instance ports_of_proper : Proper (services_eq ==> eq ==> eq ==> eq) ports_of.
Proof. intros s1 s2 Hs n ? <- b ? <-. by rewrite !ports_of_lookup2, Hs. Qed.

#[export] Instance wf_services_proper : Proper (services_eq ==> iff) wf_services.
Proof.
  intros s1 s2 Hs. unfold wf_services.
  split; intros Hwf n b l Hl; apply (Hwf n b); congruence.
Qed.

(** Equality of results up to [services_eq]. *)
Definition outcome_eq (r1 r2 : outcome ServiceConfigSnapshot) : Prop :=
  match r1, r2 with
  | Ret s1, Ret s2 => services_eq s1 s2
  | Fail e1, Fail e2 => e1 = e2
  | Panic p1, Panic p2 => p1 = p2
  | _, _ => False
  end.

#[export] Instance handle_announcement_proper :
  Proper (services_eq ==> eq ==> eq ==> outcome_eq) handle_announcement.
Proof.
  intros s1 s2 Hs n ? <- a ? <-. unfold handle_announcement.
  assert (ports_of s1 n (BundleId a) = ports_of s2 n (BundleId a)) as Hp
    by by apply ports_of_proper.
  case_decide.
  - destruct (registerService_spec s1 n (BundleId a) (LocalPort a)) as (s1' & -> & H1).
    destruct (registerService_spec s2 n (BundleId a) (LocalPort a)) as (s2' & -> & H2).
    intros n' b'. by rewrite H1, H2, Hp, Hs.
  - destruct (unregisterService_spec s1 n (BundleId a) (LocalPort a)) as (s1' & -> & H1).
    destruct (unregisterService_spec s2 n (BundleId a) (LocalPort a)) as (s2' & -> & H2).
    intros n' b'. by rewrite H1, H2, Hp, Hs.
Qed.

(** ** Abstract specification: a set of endpoints *)
Abbreviation endpoint_set := (gset (string * string * Z)).

(** What an announcement of node [n] promises. *)
Definition spec_announcement (A : endpoint_set) (n : string) (a : ServiceAnnouncement)
    : endpoint_set :=
  if decide (RegistrationState a = REGISTRATION_STATE_REGISTERED)
  then {[ (n, BundleId a, LocalPort a) ]} ∪ A
  else A ∖ {[ (n, BundleId a, LocalPort a) ]}.

Definition spec_session (A : endpoint_set) (n : string) (l : list ServiceAnnouncement)
    : endpoint_set :=
  foldl (λ A a, spec_announcement A n a) A l.

(** The state stores exactly the endpoints of the set, in normal form. *)
Definition refines (s : ServiceConfigSnapshot) (A : endpoint_set) : Prop :=
  wf_services s ∧ ∀ n b p, p ∈ ports_of s n b ↔ (n, b, p) ∈ A.

#[export] Instance refines_proper : Proper (services_eq ==> eq ==> iff) refines.
Proof. intros s1 s2 Hs A ? <-. unfold refines. by setoid_rewrite Hs. Qed.

(** The refinement relation is a function of the set, up to [services_eq]. *)
Lemma refines_functional s1 s2 A : refines s1 A → refines s2 A → services_eq s1 s2.
Proof.
  intros [Hwf1 H1] [Hwf2 H2] n b.
  assert (ports_of s1 n b = ports_of s2 n b) as Heq.
  { apply strictly_sorted_unique; [by apply wf_ports.. |].
    intros p. by rewrite H1, H2. }
  rewrite !ports_of_lookup2 in Heq.
  destruct (lookup2 s1 n b) as [l1 |] eqn:Hl1, (lookup2 s2 n b) as [l2 |] eqn:Hl2;
    cbn in Heq; subst; [done | | | done].
  - by apply Hwf1 in Hl1 as [? _].
  - by apply Hwf2 in Hl2 as [? _].
Qed.

Lemma refines_empty : refines ∅ ∅.
Proof.
  split; [apply wf_empty |]. intros n b p.
  rewrite ports_of_lookup2. unfold lookup2. rewrite lookup_empty. set_solver.
Qed.

Lemma handle_announcement_refines s A n a :
  refines s A →
  ∃ s', handle_announcement s n a = Ret s' ∧ refines s' (spec_announcement A n a).
Proof.
  intros [Hwf HA]. unfold handle_announcement, spec_announcement. case_decide.
  - destruct (registerService_spec s n (BundleId a) (LocalPort a)) as (s' & -> & Hs').
    exists s'. split; [done | split].
    + intros n' b' l Hl. rewrite Hs' in Hl. case_decide; [simplify_eq | by eapply Hwf].
      split; [| apply slices_normalise_sorted].
      intros Hnil. assert (LocalPort a ∈ @nil Z) as Hin; [| by apply not_elem_of_nil in Hin].
      rewrite <- Hnil, slices_normalise_elem_of. set_solver.
    + intros n' b' p. rewrite ports_of_lookup2, Hs'. case_decide as Hd.
      * destruct Hd as [-> ->]. cbn. rewrite slices_normalise_elem_of.
        specialize (HA n (BundleId a) p). set_solver.
      * rewrite <- ports_of_lookup2, HA. set_solver.
  - destruct (unregisterService_spec s n (BundleId a) (LocalPort a)) as (s' & -> & Hs').
    destruct (remove_first_sorted (LocalPort a) (ports_of s n (BundleId a)))
      as [Hsort Hel]; [by apply wf_ports |].
    exists s'. split; [done | split].
    + intros n' b' l Hl. rewrite Hs' in Hl. case_decide; [| by eapply Hwf].
      destruct (remove_first _ _) eqn:E; simplify_eq. done.
    + intros n' b' p. rewrite ports_of_lookup2, Hs'. case_decide as Hd.
      * destruct Hd as [-> ->]. trans (p ∈ remove_first (LocalPort a) (ports_of s n (BundleId a))).
        { by destruct (remove_first _ _). }
        rewrite Hel, HA. set_solver.
      * rewrite <- ports_of_lookup2, HA. set_solver.
Qed.

Lemma announcement_loop_refines sent s A n anns :
  refines s A →
  ∃ s' ups, refines s' (spec_session A n anns)
    ∧ Forall2 refines ups
        (imap (λ k _, spec_session A n (take (S k) anns)) anns)
    ∧ ∀ recvs, announcement_loop sent s n (map RecvMsg anns ++ recvs)%list =
        ('(s2, ups2, r) ← announcement_loop sent s' n recvs;
         Ret (s2, ups ++ ups2, r)%list).
Proof.
  revert s A. induction anns as [| a anns IH]; intros s A HsA.
  - exists s, []. split_and!; [done | constructor |]. intros recvs. simpl.
    by destruct (announcement_loop sent s n recvs) as [[[] ] | |].
  - destruct (handle_announcement_refines s A n a HsA) as (s1 & Hs1 & H1).
    destruct (IH s1 _ H1) as (s' & ups & Hs' & Hups & Heq).
    exists s', (s1 :: ups). split_and!.
    + done.
    + simpl. constructor; [done |]. exact Hups.
    + intros recvs. simpl. rewrite Hs1. cbn. rewrite Heq.
      by destruct (announcement_loop sent s' n recvs) as [[[] ] | |].
Qed.

Lemma run_announcements_refines s A ops :
  refines s A →
  ∃ s', run_announcements s ops = Ret s'
    ∧ refines s' (foldl (λ A op, spec_announcement A op.1 op.2) A ops).
Proof.
  revert s A. induction ops as [| [n a] ops IH]; intros s A HsA; simpl; [by exists s |].
  destruct (handle_announcement_refines s A n a HsA) as (s1 & -> & H1).
  apply (IH s1 _ H1).
Qed.

(** Only the announcements of a node concern its endpoints. *)
Lemma spec_isolation A1 A2 n b p ops :
  (∀ b p, (n, b, p) ∈ A1 ↔ (n, b, p) ∈ A2) →
  (n, b, p) ∈ foldl (λ A op, spec_announcement A op.1 op.2) A1 ops ↔
  (n, b, p) ∈ foldl (λ A op, spec_announcement A op.1 op.2) A2
                (filter (λ op, op.1 = n) ops).
Proof.
  revert A1 A2. induction ops as [| [n' a] ops IH]; intros A1 A2 HA; simpl; [apply HA |].
  rewrite filter_cons. case_decide as Hn; cbn in Hn.
  - subst n'. simpl. apply IH. intros b' p'. specialize (HA b' p').
    unfold spec_announcement. case_decide; set_solver.
  - apply IH. intros b' p'. rewrite <- HA.
    unfold spec_announcement. case_decide; set_solver.
Qed.

Lemma announcement_loop_total sent s n recvs :
  ∃ x, announcement_loop sent s n recvs = Ret x.
Proof.
  revert s. induction recvs as [| [a | e] recvs IH]; intros s; simpl; [eauto | | eauto].
  assert (∃ s', handle_announcement s n a = Ret s') as [s1 ->].
  { unfold handle_announcement. case_decide.
    - destruct (registerService_spec s n (BundleId a) (LocalPort a)) as (? & ? & _); eauto.
    - destruct (unregisterService_spec s n (BundleId a) (LocalPort a)) as (? & ? & _); eauto. }
  cbn. destruct (IH s1) as [[[? ?] ?] ->]. cbn. eauto.
Qed.

Lemma service_OpenChannel_valid nReg s sent nodeID vs i recvs :
  ValidateNodeID nReg nodeID = Ret i →
  OpenChannel sent nReg s (Some (nodeID :: vs)) recvs =
    announcement_loop sent s nodeID recvs.
Proof. intros Hv. unfold OpenChannel. cbn. rewrite Hv. done. Qed.
End service_lemmas.

(** ** Properties *)

(** C8. Refinement: on a state that stores a set of endpoints, a session with a
    valid header that announces any sequence of registrations and removals
    returns without panicking in a state that stores exactly the set obtained
    by inserting and removing the announced endpoints of that node, in order;
    every update it sends on the way stores the set of that moment; and the
    session ends with the result of [SendAndClose] at [EOF] and with the
    stream's error otherwise. *)
Theorem session_refines `{SlicesPkg} sent nReg s A nodeID vs i anns :
  refines s A →
  ValidateNodeID nReg nodeID = Ret i →
  ∃ s' ups,
    refines s' (spec_session A nodeID anns)
    ∧ Forall2 refines ups (imap (λ k _, spec_session A nodeID (take (S k) anns)) anns)
    ∧ OpenChannel sent nReg s (Some (nodeID :: vs)) (map RecvMsg anns) =
        Ret (s', ups, None)
    ∧ ∀ err rest,
        OpenChannel sent nReg s (Some (nodeID :: vs))
          (map RecvMsg anns ++ RecvErr err :: rest)%list =
        Ret (s', ups, Some (if decide (err = EOF) then sent else Fail err)).
Proof.
  intros HsA Hv.
  destruct (announcement_loop_refines sent s A nodeID anns HsA)
    as (s' & ups & Hs' & Hups & Heq).
  exists s', ups. split_and!; [done | done | |].
  - rewrite (service_OpenChannel_valid _ _ _ _ _ i) by done.
    rewrite <- (app_nil_r (map RecvMsg anns)), Heq. cbn. by rewrite app_nil_r.
  - intros err rest. rewrite (service_OpenChannel_valid _ _ _ _ _ i) by done.
    rewrite Heq. cbn. by rewrite app_nil_r.
Qed.

Lemma session_refines_witness :
  let nReg := {| nodes := [{| Host := "hpc-1"; Port := 8000 |}] |} in
  let reg p := {| BundleId := "app"; LocalPort := p;
                  RegistrationState := REGISTRATION_STATE_REGISTERED |} in
  let anns := [reg 8080%Z; reg 8081%Z; reg 8080%Z] in
  ∃ s' ups,
    refines s' (spec_session ∅ "node-0" anns)
    ∧ Forall2 refines ups (imap (λ k _, spec_session ∅ "node-0" (take (S k) anns)) anns)
    ∧ OpenChannel (Ret ()) nReg ∅ (Some ["node-0"]) (map RecvMsg anns) =
        Ret (s', ups, None)
    ∧ ∀ err rest,
        OpenChannel (Ret ()) nReg ∅ (Some ["node-0"])
          (map RecvMsg anns ++ RecvErr err :: rest)%list =
        Ret (s', ups, Some (if decide (err = EOF) then Ret () else Fail err)).
Proof.
  intros nReg reg anns.
  apply (session_refines (Ret ()) nReg ∅ ∅ "node-0" [] 0 anns).
  - apply refines_empty.
  - vm_compute. reflexivity.
Defined.

(** Interleaved sessions: from the empty registry, any sequence of
    announcements of any nodes, in the order in which they take the lock, is
    processed without error or panic; every stored list of ports stays
    non-empty and strictly sorted; and the ports of a node are exactly those
    its own announcements would give if they came alone, whatever the other
    nodes announce in between. *)
Theorem interleaving_isolated `{SlicesPkg} ops :
  ∃ s', run_announcements NewServiceRegistryServer ops = Ret s'
    ∧ wf_services s'
    ∧ ∀ n, ∃ sn,
        run_announcements NewServiceRegistryServer (filter (λ op, op.1 = n) ops) = Ret sn
        ∧ ∀ b, ports_of s' n b = ports_of sn n b.
Proof.
  destruct (run_announcements_refines ∅ ∅ ops refines_empty) as (s' & Hs' & [Hwf Hp]).
  exists s'. split_and!; [done | done |]. intros n.
  destruct (run_announcements_refines ∅ ∅ (filter (λ op, op.1 = n) ops) refines_empty)
    as (sn & Hsn & [Hwfn Hpn]).
  exists sn. split; [done |]. intros b.
  apply strictly_sorted_unique; [by apply wf_ports.. |].
  intros p. rewrite Hp, Hpn. by apply spec_isolation.
Qed.

(** C38. A stream is refused or crashes the process before the registry is touched:
    [OpenChannel] panics exactly when the metadata has no value for the
    header - where the same call of the node registry answers
    [FailedPrecondition] - and fails exactly when there is no metadata or the
    first value is not the identifier of a registered node. *)
Theorem OpenChannel_rejects `{SlicesPkg} sent nReg s md recvs :
  (is_panic (OpenChannel sent nReg s md recvs) = true ↔ md = Some [])
  ∧ (is_fail (OpenChannel sent nReg s md recvs) = true ↔
       md = None ∨ ∃ id vs e, md = Some (id :: vs) ∧ ValidateNodeID nReg id = Fail e)
  ∧ NodeRegistry.OpenChannel nReg (Some []) [] =
      Fail (StatusError FailedPrecondition errorMsgMissingHeader).
Proof.
  destruct md as [[| id vs] |].
  - cbn. split_and!; [done | | done]. split; [done |]. by intros [? | (? & ? & ? & ? & _)].
  - destruct (ValidateNodeID nReg id) as [i | e | p] eqn:Hv.
    + rewrite (service_OpenChannel_valid _ _ _ _ _ i) by done.
      destruct (announcement_loop_total sent s id recvs) as [x ->]. cbn.
      split_and!; [done | | done]. split; [done |].
      intros [? | (? & ? & ? & ? & ?)]; simplify_eq; congruence.
    + unfold OpenChannel. cbn. rewrite Hv. cbn. split_and!; [done | | done].
      split; [intros _; right; by exists id, vs, e | done].
    + by apply ValidateNodeID_no_panic in Hv.
  - cbn. split_and!; [done | | done]. split; [intros _; by left | done].
Qed.
