(* ===== verification/Envoy.v ===== *)
(** The Envoy API messages the sources build, and the packages they are handed
    to.

    The messages are the Protocol Buffer structs of go-control-plane, with the
    fields that the sources set; a one-of is an inductive type.  Wrapping a
    message into an [anypb.Any] and the snapshot cache of go-control-plane are
    not part of the repository: they are the classes [AnyPkg] and
    [SnapshotPkg], with their documented behaviour as laws. *)
From S2P Require Import Prelude.

Local Open Scope string_scope.

(** ** Addresses and endpoints *)
Inductive SocketProtocol := SocketAddress_TCP | SocketAddress_UDP.

Record SocketAddress := {
  Protocol : SocketProtocol;
  SocketAddress_Address : string;
  PortValue : Z;
}.

Inductive CoreAddress := Address_SocketAddress (a : SocketAddress).

Record Endpoint := { Endpoint_Address : CoreAddress }.

Inductive LbEndpoint := LbEndpoint_Endpoint (e : Endpoint).

Record LocalityLbEndpoints := { LbEndpoints : list LbEndpoint }.

Record ClusterLoadAssignment := {
  ClusterName : string;
  Endpoints : list LocalityLbEndpoints;
}.

(** ** Configuration sources *)
Inductive ApiVersion := ApiVersion_AUTO | ApiVersion_V2 | ApiVersion_V3.
Inductive ApiType := ApiConfigSource_GRPC | ApiConfigSource_REST.

(** [GrpcServices] lists the cluster names of the Envoy gRPC services. *)
Record ApiConfigSource := {
  ApiConfigType : ApiType;
  TransportApiVersion : ApiVersion;
  SetNodeOnFirstMessageOnly : bool;
  GrpcServices : list string;
}.

Inductive ConfigSourceSpecifier :=
| ConfigSource_Ads
| ConfigSource_ApiConfigSource (a : ApiConfigSource).

Record ConfigSource := {
  Specifier : ConfigSourceSpecifier;
  ResourceApiVersion : ApiVersion;
}.

(** ** Routes *)
Record RouteMatch := {
  Prefix : string;
  Grpc : bool; (* whether the gRPC match options are present *)
}.

Record Route := {
  Match : RouteMatch;
  Action : string; (* the cluster of the route action *)
}.

Record VirtualHost := {
  VirtualHost_Name : string;
  Domains : list string;
  Routes : list Route;
}.

Record RouteConfiguration := {
  RouteConfiguration_Name : string;
  VirtualHosts : list VirtualHost;
}.

(** ** Messages wrapped into Any *)
Record HttpFilter (Any : Type) := {
  HttpFilter_Name : string;
  HttpFilter_TypedConfig : option Any;
}.
Arguments Build_HttpFilter {Any}.

Inductive CodecType := HttpConnectionManager_AUTO.

Record Rds := {
  Rds_ConfigSource : ConfigSource;
  RouteConfigName : string;
}.

Record HttpConnectionManager (Any : Type) := {
  Codec : CodecType;
  StatPrefix : string;
  RouteSpecifier : Rds;
  HttpFilters : list (HttpFilter Any);
}.
Arguments Build_HttpConnectionManager {Any}.
Arguments StatPrefix {Any} h.
Arguments RouteSpecifier {Any} h.
Arguments HttpFilters {Any} h.

Inductive proto_message (Any : Type) :=
| MsgRouter
| MsgHttpConnectionManager (m : HttpConnectionManager Any)
| MsgHttp2ProtocolOptions.
Arguments MsgRouter {Any}.
Arguments MsgHttpConnectionManager {Any} m.
Arguments MsgHttp2ProtocolOptions {Any}.

(** [anypb.New] marshals a message; [UnmarshalTo] gives it back. *)
Class AnyPkg := {
  Any : Type;
  anypb_New : proto_message Any → outcome Any;
  UnmarshalNew : Any → outcome (proto_message Any);
  anypb_New_no_panic m p : anypb_New m ≠ Panic p;
  UnmarshalNew_New m a : anypb_New m = Ret a → UnmarshalNew a = Ret m;
}.

(** ** Clusters and listeners *)
Inductive DnsFamily := Cluster_AUTO | Cluster_V4_ONLY.
Inductive DiscoveryType := Cluster_STATIC | Cluster_STRICT_DNS.
Inductive LbPolicyType := Cluster_ROUND_ROBIN | Cluster_LEAST_REQUEST.
Inductive Direction := TrafficDirection_INBOUND | TrafficDirection_OUTBOUND.

Section any_messages.
Context `{AnyPkg}.

(** [ConnectTimeout] in nanoseconds. *)
Record Cluster := {
  Cluster_Name : string;
  DnsLookupFamily : DnsFamily;
  ConnectTimeout : option Z;
  ClusterDiscoveryType : DiscoveryType;
  LbPolicy : LbPolicyType;
  TypedExtensionProtocolOptions : list (string * Any);
  LoadAssignment : ClusterLoadAssignment;
}.

Record Filter := {
  Filter_Name : string;
  Filter_TypedConfig : Any;
}.

Record Listener := {
  Listener_Name : string;
  Listener_Address : CoreAddress;
  TrafficDirection : Direction;
  FilterChains : list (list Filter);
}.

Inductive resource :=
| ResCluster (c : Cluster)
| ResRoute (r : RouteConfiguration)
| ResListener (l : Listener).

(** [cache.GetResourceName] *)
Definition resource_name (r : resource) : string :=
  match r with
  | ResCluster c => Cluster_Name c
  | ResRoute r => RouteConfiguration_Name r
  | ResListener l => Listener_Name l
  end.

(** The packages [pkg/cache/v3], [pkg/resource/v3] and [pkg/wellknown] of
    go-control-plane.  [NewSnapshot] "creates a snapshot from response types
    and a version" and fails for an unknown resource type; a snapshot indexes
    the resources of a type by their names, so it only returns resources it
    was given, and all of them when their names differ.  [SetSnapshot] "sets a
    response snapshot for a node". *)
Class SnapshotPkg := {
  ClusterType : string;
  RouteType : string;
  ListenerType : string;
  wellknown_Router : string;
  DefaultAPIVersion : ApiVersion;
  Snapshot : Type;
  NewSnapshot : string → list (string * list resource) → outcome Snapshot;
  SnapshotVersion : Snapshot → string;
  GetResources : Snapshot → string → list resource;
  Cache : Type;
  NewSnapshotCache : Cache;
  SetSnapshot : Cache → string → Snapshot → Cache * option error;
  GetSnapshot : Cache → string → option Snapshot;

  resource_types_distinct : NoDup [ClusterType; RouteType; ListenerType];
  NewSnapshot_known version clusters routes listeners :
    ∃ sn, NewSnapshot version [(ClusterType, clusters); (RouteType, routes);
                               (ListenerType, listeners)] = Ret sn;
  NewSnapshot_version version rs sn :
    NewSnapshot version rs = Ret sn → SnapshotVersion sn = version;
  NewSnapshot_given version rs sn t r :
    NewSnapshot version rs = Ret sn → r ∈ GetResources sn t →
    ∃ l, (t, l) ∈ rs ∧ r ∈ l;
  NewSnapshot_all version rs sn t l :
    NewSnapshot version rs = Ret sn → NoDup rs.*1 → (t, l) ∈ rs →
    NoDup (resource_name <$> l) → GetResources sn t ≡ₚ l;
  GetSnapshot_new n : GetSnapshot NewSnapshotCache n = None;
  GetSnapshot_set c n sn c' :
    SetSnapshot c n sn = (c', None) →
    ∀ m, GetSnapshot c' m = if decide (m = n) then Some sn else GetSnapshot c m;
}.
End any_messages.

(** ** Instances: packages with this behaviour *)
Inductive any_message := AnyOf (m : proto_message any_message).

#[export, refine] Instance any_instance : AnyPkg := {|
  Any := any_message;
  anypb_New m := Ret (AnyOf m);
  UnmarshalNew a := let '(AnyOf m) := a in Ret m;
|}.
Proof. all: naive_solver. Defined.

Record snapshot := {
  snapshot_version : string;
  snapshot_resources : list (string * list resource);
}.

Definition snapshot_types : list string :=
  ["type.googleapis.com/envoy.config.cluster.v3.Cluster";
   "type.googleapis.com/envoy.config.route.v3.RouteConfiguration";
   "type.googleapis.com/envoy.config.listener.v3.Listener"].

Definition new_snapshot (version : string) (rs : list (string * list resource))
    : outcome snapshot :=
  if decide (Forall (λ tl, tl.1 ∈ snapshot_types) rs)
  then Ret {| snapshot_version := version; snapshot_resources := rs |}
  else Fail (ErrorNew "unknown resource type").

(** [IndexResourcesByName] *)
Definition index_resources (l : list resource) : gmap string resource :=
  list_to_map (map (λ r, (resource_name r, r)) l).

Definition get_resources (sn : snapshot) (t : string) : list resource :=
  match list_find (λ tl, tl.1 = t) (snapshot_resources sn) with
  | Some (_, (_, l)) => (map_to_list (index_resources l)).*2
  | None => []
  end.

Lemma index_resources_elem_of r l : r ∈ (map_to_list (index_resources l)).*2 → r ∈ l.
Proof.
  rewrite list_elem_of_fmap. intros ([k r'] & -> & Hr).
  apply elem_of_map_to_list, elem_of_list_to_map_2, list_elem_of_fmap in Hr.
  naive_solver.
Qed.

#[export, refine] Instance snapshot_instance : SnapshotPkg := {|
  ClusterType := "type.googleapis.com/envoy.config.cluster.v3.Cluster";
  RouteType := "type.googleapis.com/envoy.config.route.v3.RouteConfiguration";
  ListenerType := "type.googleapis.com/envoy.config.listener.v3.Listener";
  wellknown_Router := "envoy.filters.http.router";
  DefaultAPIVersion := ApiVersion_V3;
  Snapshot := snapshot;
  NewSnapshot := new_snapshot;
  SnapshotVersion := snapshot_version;
  GetResources := get_resources;
  Cache := gmap string snapshot;
  NewSnapshotCache := ∅;
  SetSnapshot c n sn := (<[n := sn]> c, None);
  GetSnapshot c n := c !! n;
|}.
Proof.
  - repeat constructor; set_solver.
  - intros. unfold new_snapshot. rewrite decide_True; [eauto |].
    repeat constructor; unfold snapshot_types; set_solver.
  - unfold new_snapshot. intros version rs sn H. case_decide; by simplify_eq.
  - unfold new_snapshot, get_resources. intros version rs sn t r H Hr.
    case_decide; simplify_eq/=.
    destruct (list_find _ rs) as [[i [t' l]] |] eqn:E; [| set_solver].
    apply list_find_Some in E as (Hi & Ht & _). simpl in Ht. subst t'.
    exists l. split; [by eapply list_elem_of_lookup_2 | by apply index_resources_elem_of].
  - unfold new_snapshot, get_resources. intros version rs sn t l H Hnd Hl Hnames.
    case_decide; simplify_eq/=.
    destruct (list_find (λ tl, tl.1 = t) rs) as [[i [t' l']] |] eqn:E.
    + apply list_find_Some in E as (Hi & Ht & _). simpl in Ht. subst t'.
      apply list_elem_of_lookup_2 in Hi.
      assert (l' = l) as -> by by eapply NoDup_fst_functional.
      unfold index_resources. rewrite map_to_list_to_map.
      * by rewrite <- list_fmap_compose, list_fmap_id.
      * by rewrite <- list_fmap_compose.
    + apply list_find_None in E. rewrite Forall_forall in E. by destruct (E _ Hl).
  - done.
  - intros c n sn c' H m. simplify_eq. case_decide as Hm.
    + subst. by rewrite lookup_insert_eq.
    + by rewrite lookup_insert_ne.
Defined.
