(* ===== verification/Config.v ===== *)
(** Package [pkg/config], files [config.go] and [envoy.go]: the configuration
    of a node, its defaults and repairs, and the Envoy bootstrap
    configuration made from it. *)
From S2P Require Import Prelude GoStrings Envoy.

Local Open Scope string_scope.

Definition XDSClusterName : string := "xds-cluster".
Definition envoyClusterName : string := "envoy-cluster".

Record Config := {
  EnableDebugMode : bool;
  EmulateContainerRuntime : bool;
  EnableCentralMode : bool;
  EnableDiscovery : bool;
  CentralNodeHostname : string;
  NodeHostname : string;
  StatusMgrPort : Z;
  GRPCPort : Z;
  UDPPort : Z;
  UDPDelay : Z;
  UDPTimeout : Z;
  IngressPort : Z;
  EgressPort : Z;
  AdminPort : Z;
  DefaultContainerRegistryDomain : string;
}.

#[export] Instance Config_eq_dec : EqDecision Config.
Proof. solve_decision. Defined.

(** [Default]: [os_Hostname] is the result of [os.Hostname()]; on an error,
    which is only logged, the name is empty. *)
Definition Default (os_Hostname : outcome string) : Config :=
  let hostname := match os_Hostname with Ret h => h | _ => "" end in
  {| EnableDebugMode := false;
     EmulateContainerRuntime := false;
     EnableCentralMode := false;
     EnableDiscovery := false;
     CentralNodeHostname := "carisma-central";
     NodeHostname := hostname;
     StatusMgrPort := 8010;
     GRPCPort := 8016;
     UDPPort := 8829;
     UDPDelay := 5;
     UDPTimeout := 60;
     IngressPort := 8000;
     EgressPort := 9000;
     AdminPort := 9901;
     DefaultContainerRegistryDomain := "docker.io" |}.

(** Assignment to one field of the struct. *)
Definition set_CentralNodeHostname (h : string) (c : Config) : Config :=
  {| EnableDebugMode := EnableDebugMode c;
     EmulateContainerRuntime := EmulateContainerRuntime c;
     EnableCentralMode := EnableCentralMode c;
     EnableDiscovery := EnableDiscovery c;
     CentralNodeHostname := h;
     NodeHostname := NodeHostname c;
     StatusMgrPort := StatusMgrPort c;
     GRPCPort := GRPCPort c;
     UDPPort := UDPPort c;
     UDPDelay := UDPDelay c;
     UDPTimeout := UDPTimeout c;
     IngressPort := IngressPort c;
     EgressPort := EgressPort c;
     AdminPort := AdminPort c;
     DefaultContainerRegistryDomain := DefaultContainerRegistryDomain c |}.

Definition fix_config (c : Config) : Config :=
  if EnableCentralMode c then set_CentralNodeHostname (NodeHostname c) c else c.

(** ** envoy.go *)
Section any_pkg.
Context `{AnyPkg}.

(** A failure to marshal the options is turned into a panic. *)
Definition HTTP2ProtocolOptions : outcome (list (string * Any)) :=
  match anypb_New MsgHttp2ProtocolOptions with
  | Ret a => Ret [("envoy.extensions.upstreams.http.v3.HttpProtocolOptions", a)]
  | Fail err => Panic (ExplicitPanic "cannot construct http2 protocol options: %s")
  | Panic p => Panic p
  end.

(** ** [EnvoyBootstrapConfigWithNodeID] *)
Record Bootstrap := {
  Node_Id : string;
  Node_Cluster : string;
  LdsConfig : ConfigSource;
  CdsConfig : ConfigSource;
  AdsConfig : ApiConfigSource;
  Static_Clusters : list Cluster;
  Admin : option CoreAddress;
}.

Definition tcp_address (address : string) (port : Z) : CoreAddress :=
  Address_SocketAddress
    {| Protocol := SocketAddress_TCP;
       SocketAddress_Address := address;
       PortValue := uint32 port |}.

Definition ads_source : ConfigSource :=
  {| Specifier := ConfigSource_Ads; ResourceApiVersion := ApiVersion_V3 |}.

(** The bootstrap message; the source returns its [protojson] text. *)
Definition EnvoyBootstrapConfig (c : Config) (nodeID : string) : outcome Bootstrap :=
  http2 ← HTTP2ProtocolOptions;
  Ret {| Node_Id := nodeID;
         Node_Cluster := envoyClusterName;
         LdsConfig := ads_source;
         CdsConfig := ads_source;
         AdsConfig :=
           {| ApiConfigType := ApiConfigSource_GRPC;
              TransportApiVersion := ApiVersion_V3;
              SetNodeOnFirstMessageOnly := false;
              GrpcServices := [XDSClusterName] |};
         Static_Clusters :=
           [{| Cluster_Name := XDSClusterName;
               DnsLookupFamily := Cluster_V4_ONLY;
               ConnectTimeout := None;
               ClusterDiscoveryType := Cluster_STRICT_DNS;
               LbPolicy := Cluster_ROUND_ROBIN;
               TypedExtensionProtocolOptions := http2;
               LoadAssignment :=
                 {| ClusterName := XDSClusterName;
                    Endpoints :=
                      [{| LbEndpoints :=
                            [LbEndpoint_Endpoint
                               {| Endpoint_Address :=
                                    tcp_address (CentralNodeHostname c) (GRPCPort c) |}] |}] |} |}];
         Admin :=
           if EnableDebugMode c then Some (tcp_address "0.0.0.0" (AdminPort c)) else None |}.

Definition EnvoyBootstrapConfigWithNodeID (protojson_Format : Bootstrap → string)
    (c : Config) (nodeID : string) : outcome string :=
  protojson_Format <$> EnvoyBootstrapConfig c nodeID.
End any_pkg.
