(* ===== verification/Xds.v ===== *)
(** The control plane's xDS server: [cmd/carisma-control-plane/app/xds], files
    [cds.go], [config_source.go], [resource.go] and the state of [server.go].

    From the nodes and services it knows, the server generates for every node
    a snapshot of listeners, routes and clusters and puts it into the snapshot
    cache.  Loops over the maps of services take the entries in an arbitrary
    order ([services_order]); the two goroutines that call [generateSnapshots]
    are in [ControlPlane.v]. *)
From S2P Require Import Prelude GoStrings Slices NodeRegistry ServiceRegistry Envoy Config.

Local Open Scope string_scope.

Definition generateClusterName (bundleID : string) (isLocal : bool) : string :=
  if isLocal then "local_" +:+ bundleID +:+ "_cluster" else bundleID +:+ "_cluster".

Definition gRPCRouteName : string := "grpc_route".
Definition localGRPCRouteName : string := "local_grpc_route".
Definition gRPCVHostName : string := "grpc_vhost".
Definition localGRPCVHostName : string := "local_grpc_vhost".
Definition ingressStatPrefix : string := "ingress_http".
Definition egressStatPrefix : string := "egress_http".
Definition ingressListenerName : string := "ingress_listener".
Definition egressListenerName : string := "egress_listener".

Definition generateNodeID (id : Z) : string := "node-" +:+ Itoa id.

(** ** The order of one execution of the loops over [x.services] *)
Abbreviation services_iter := (list (string * list (string * list Z))).

Definition services_order (s : ServiceConfigSnapshot) (it : services_iter) : Prop :=
  ∃ outer, ranges s outer
    ∧ Forall2 (λ (kv : string * gmap string (list Z)) kl,
        kl.1 = kv.1 ∧ ranges kv.2 kl.2) outer it.

(** The order in which the maps list their own entries. *)
Definition canonical_order (s : ServiceConfigSnapshot) : services_iter :=
  map (λ kv, (kv.1, map_to_list kv.2)) (map_to_list s).

(** The loop bodies, flattened: (node, bundle, ports) in visiting order. *)
Definition visits (it : services_iter) : list (string * string * list Z) :=
  flat_map (λ kl, map (λ bi, (kl.1, bi.1, bi.2)) kl.2) it.

Section xds.
Context `{SnapshotPkg, SlicesPkg}.

(** ** server.go: the state *)
Record Server := {
  snapshotVersion : Z;
  cache : Cache;
  xnodes : list NodeAddr;
}.

Definition NewServer : Server :=
  {| snapshotVersion := -1; cache := NewSnapshotCache; xnodes := [] |}.

(** ** config_source.go *)
Definition getConfigSource : ConfigSource :=
  {| ResourceApiVersion := DefaultAPIVersion;
     Specifier := ConfigSource_ApiConfigSource
       {| TransportApiVersion := DefaultAPIVersion;
          ApiConfigType := ApiConfigSource_GRPC;
          SetNodeOnFirstMessageOnly := true;
          GrpcServices := [XDSClusterName] |} |}.

(** ** cds.go *)

(** One endpoint per port, at the address of the node. *)
Definition locality_endpoints (nodeAddress : string) (port : Z) : LocalityLbEndpoints :=
  {| LbEndpoints :=
       [LbEndpoint_Endpoint
          {| Endpoint_Address :=
               Address_SocketAddress
                 {| Protocol := SocketAddress_TCP;
                    SocketAddress_Address := nodeAddress;
                    PortValue := uint32 port |} |}] |}.

Definition makeEndpoints (x : Server) (nodeID bundleID : string) (ports : list Z)
    : outcome (list LocalityLbEndpoints) :=
  nodeIdx ← GetNodeIdx nodeID;
  let n := Z.of_nat (length (xnodes x)) in
  if decide (nodeIdx >= n ∨ nodeIdx < n)%Z
  then Fail (ErrorNew "invalid node ID")
  else
    node ← index_int (xnodes x) nodeIdx;
    Ret (foldl (λ endpoints port, endpoints ++ [locality_endpoints (Host node) port])
           [] ports)%list.

(** [1 * time.Second] *)
Definition second : Z := 1000000000.

(** The body of the inner loop of [makeClusters]: the clusters made and the
    names seen so far. *)
Definition cluster_step (x : Server) (localNodeID : string) (ingressPort : Z) (nodeID : string)
    (acc : list Cluster * list string) (entry : string * list Z)
    : outcome (list Cluster * list string) :=
  let '(clusters, seen) := acc in
  let '(bundleID, instances) := entry in
  let clusterID := generateClusterName bundleID (bool_decide (nodeID = localNodeID)) in
  let ports := if decide (nodeID = localNodeID) then instances else [ingressPort] in
  if slices_Contains seen clusterID then Ret (clusters, seen)
  else
    let seen := (seen ++ [clusterID])%list in
    endpoints ← makeEndpoints x nodeID bundleID ports;
    http2 ← HTTP2ProtocolOptions;
    Ret ((clusters ++
          [{| Cluster_Name := clusterID;
              DnsLookupFamily := Cluster_V4_ONLY;
              ConnectTimeout := Some (1 * second)%Z;
              ClusterDiscoveryType := Cluster_STRICT_DNS;
              LbPolicy := Cluster_ROUND_ROBIN;
              TypedExtensionProtocolOptions := http2;
              LoadAssignment := {| ClusterName := clusterID; Endpoints := endpoints |} |}],
         seen))%list.

Definition makeClusters (x : Server) (it : services_iter) (localNodeID : string)
    (ingressPort : Z) : outcome (list Cluster) :=
  '(clusters, _) ←
    foldM (λ acc node, foldM (cluster_step x localNodeID ingressPort node.1) acc node.2)
      ([], []) it;
  Ret clusters.

(** ** resource.go *)

(** The ingress and the egress connection manager.  An error of marshalling
    the router configuration is ignored (the filter then has no
    configuration). *)
Definition connection_manager (statPrefix routeName : string)
    (routerConfig : option Any) : HttpConnectionManager Any :=
  {| Codec := HttpConnectionManager_AUTO;
     StatPrefix := statPrefix;
     RouteSpecifier :=
       {| Rds_ConfigSource := getConfigSource; RouteConfigName := routeName |};
     HttpFilters :=
       [{| HttpFilter_Name := wellknown_Router;
           HttpFilter_TypedConfig := routerConfig |}] |}.

Definition makeHTTPConnectionManager : outcome (Any * Any) :=
  routerConfig ← ignore_error (anypb_New MsgRouter);
  ingress ← anypb_New (MsgHttpConnectionManager
              (connection_manager ingressStatPrefix localGRPCRouteName routerConfig));
  egress ← anypb_New (MsgHttpConnectionManager
              (connection_manager egressStatPrefix gRPCRouteName routerConfig));
  Ret (ingress, egress).

(** The route of a bundle of the node [nodeID]. *)
Definition make_route (localNodeID nodeID bundleID : string) : Route :=
  {| Match := {| Prefix := "/" +:+ bundleID; Grpc := true |};
     Action := generateClusterName bundleID (bool_decide (nodeID = localNodeID)) |}.

(** The body of the inner loop of [makeRoutes]: the remote and the local
    routes made so far. *)
Definition route_step (localNodeID nodeID : string)
    (acc : list Route * list Route) (entry : string * list Z) : list Route * list Route :=
  let '(routes, localRoutes) := acc in
  let r := make_route localNodeID nodeID entry.1 in
  if decide (nodeID ≠ localNodeID) then ((routes ++ [r])%list, localRoutes)
  else (routes, (localRoutes ++ [r])%list).

Definition makeRoutes (it : services_iter) (localNodeID : string)
    : list RouteConfiguration :=
  let '(routes, localRoutes) :=
    foldl (λ acc node, foldl (route_step localNodeID node.1) acc node.2) ([], []) it in
  [{| RouteConfiguration_Name := gRPCRouteName;
      VirtualHosts := [{| VirtualHost_Name := gRPCVHostName;
                          Domains := ["*"];
                          Routes := (routes ++ localRoutes)%list |}] |};
   {| RouteConfiguration_Name := localGRPCRouteName;
      VirtualHosts := [{| VirtualHost_Name := localGRPCVHostName;
                          Domains := ["*"];
                          Routes := localRoutes |}] |}].

Definition make_listener (name : string) (port : Z) (direction : Direction)
    (manager : Any) : Listener :=
  {| Listener_Name := name;
     Listener_Address := tcp_address "0.0.0.0" port;
     TrafficDirection := direction;
     FilterChains :=
       [[{| Filter_Name := wellknown_Router; Filter_TypedConfig := manager |}]] |}.

Definition makeHTTPListener (cfg : Config) : outcome (list Listener) :=
  '(ingress, egress) ← makeHTTPConnectionManager;
  Ret [make_listener ingressListenerName (IngressPort cfg) TrafficDirection_INBOUND ingress;
       make_listener egressListenerName (EgressPort cfg) TrafficDirection_OUTBOUND egress].

(** [fmt.Sprintf("%v.0", x.snapshotVersion)] *)
Definition version_string (v : Z) : string := Itoa v +:+ ".0".

(** The body of the loop of [generateSnapshots] for one node: the snapshot is
    stored, and an error of the cache panics. *)
Definition generate_snapshot (x : Server) (cfg : Config) (i : nat)
    (itClusters itRoutes : services_iter) : outcome Server :=
  let nodeID := generateNodeID (Z.of_nat i) in
  httpListener ← makeHTTPListener cfg;
  clusters ← makeClusters x itClusters nodeID (int32 (IngressPort cfg));
  snapshot ← NewSnapshot (version_string (snapshotVersion x))
    [(ClusterType, map ResCluster clusters);
     (RouteType, map ResRoute (makeRoutes itRoutes nodeID));
     (ListenerType, map ResListener httpListener)];
  match SetSnapshot (cache x) nodeID snapshot with
  | (_, Some err) => Panic (ExplicitPanic "")
  | (cache', None) =>
      Ret {| snapshotVersion := snapshotVersion x; cache := cache'; xnodes := xnodes x |}
  end.

(** The loop over the nodes; the state reached when it stopped early is
    kept. *)
Fixpoint generate_loop (x : Server) (cfg : Config)
    (its : nat → services_iter * services_iter) (idxs : list nat)
    : Server * outcome unit :=
  match idxs with
  | [] => (x, Ret ())
  | i :: idxs =>
      match generate_snapshot x cfg i (its i).1 (its i).2 with
      | Ret x' => generate_loop x' cfg its idxs
      | Fail err => (x, Fail err)
      | Panic p => (x, Panic p)
      end
  end.

(** [its i] gives the orders in which this execution visits the services while
    it makes the clusters and the routes of node [i]. *)
Definition generateSnapshots (x : Server) (cfg : Config)
    (its : nat → services_iter * services_iter) : Server * outcome unit :=
  let x := {| snapshotVersion := int64 (snapshotVersion x + 1);
              cache := cache x; xnodes := xnodes x |} in
  generate_loop x cfg its (seq 0 (length (xnodes x))).
End xds.

(** ** Visiting orders *)

(** A bundle that some node offers. *)
Definition offers (s : ServiceConfigSnapshot) (n b : string) (ports : list Z) : Prop :=
  lookup2 s n b = Some ports.

Lemma canonical_order_order s : services_order s (canonical_order s).
Proof.
  exists (map_to_list s). split; [apply ranges_canonical |].
  unfold canonical_order. apply Forall2_fmap_r, Forall_Forall2_diag, Forall_true.
  intros kv. split; [done | apply ranges_canonical].
Qed.

Lemma services_order_visits s it n b ports :
  services_order s it → (n, b, ports) ∈ visits it ↔ offers s n b ports.
Proof.
  intros (outer & Hr & Hit). unfold offers, lookup2, visits.
  rewrite list_elem_of_In, in_flat_map. setoid_rewrite <- list_elem_of_In.
  setoid_rewrite list_elem_of_fmap.
  split.
  - intros ([k l] & Hk & [b' ports'] & ? & Hb'); simplify_eq/=.
    apply list_elem_of_lookup in Hk as [i Hi].
    destruct (Forall2_lookup_r _ _ _ _ _ Hit Hi) as ([k' m] & Hk' & Hk'' & Hm).
    simpl in *; subst.
    apply list_elem_of_lookup_2, (ranges_elem_of _ _ _ _ Hr) in Hk'. rewrite Hk'. simpl.
    by apply (ranges_elem_of m l).
  - intros (m & Hn & Hb)%bind_Some.
    apply (ranges_elem_of _ _ _ _ Hr), list_elem_of_lookup in Hn as [i Hi].
    destruct (Forall2_lookup_l _ _ _ _ _ Hit Hi) as ([k l] & Hk & ? & Hl).
    simpl in *; subst. exists (n, l). split; [by eapply list_elem_of_lookup_2 |].
    exists (b, ports). split; [done |]. by apply (ranges_elem_of m l).
Qed.

Lemma services_order_empty : services_order ∅ [].
Proof.
  exists []. split; [| constructor]. unfold ranges. by rewrite map_to_list_empty.
Qed.

Lemma no_services_visits s it :
  (∀ n b ports, ¬ offers s n b ports) → services_order s it → visits it = [].
Proof.
  intros Hno Hord. apply elem_of_nil_inv. intros [[n b] ports] Hin.
  apply (services_order_visits _ _ _ _ _ Hord) in Hin. by eapply Hno.
Qed.

(** Two orders of the same services visit the same entries. *)
Lemma services_order_perm s it1 it2 :
  services_order s it1 → services_order s it2 → visits it1 ≡ₚ visits it2.
Proof.
  intros (o1 & Hr1 & Hit1) (o2 & Hr2 & Hit2).
  assert (∀ o it, Forall2 (λ (kv : string * gmap string (list Z)) kl,
      kl.1 = kv.1 ∧ ranges kv.2 kl.2) o it →
    visits it ≡ₚ visits (map (λ kv, (kv.1, map_to_list kv.2)) o)) as Hv.
  { induction 1 as [| [k m] [k' l] o it [Hk Hl] _ IH]; simpl in *; [done |].
    subst. unfold ranges in Hl. unfold visits in *. simpl. by rewrite IH, Hl. }
  rewrite (Hv _ _ Hit1), (Hv _ _ Hit2).
  unfold visits. unfold ranges in Hr1, Hr2. by rewrite Hr1, Hr2.
Qed.

(** Exact description of the clashes of cluster names: the name of a local
    cluster is the name of the remote cluster of the bundle called [local_]
    followed by the bundle. *)
Lemma generateClusterName_remote_inj b1 b2 :
  generateClusterName b1 false = generateClusterName b2 false → b1 = b2.
Proof. simpl. apply str_app_inj_r. Qed.

Lemma generateClusterName_local b :
  generateClusterName b true = generateClusterName ("local_" +:+ b) false.
Proof. simpl. by rewrite str_app_assoc. Qed.

Section xds_lemmas.
Context `{SnapshotPkg, SlicesPkg}.
Implicit Types (x : Server) (it : services_iter).

(** *** cds.go *)

Lemma makeEndpoints_fails x nodeID b ports :
  ∃ e, makeEndpoints x nodeID b ports = Fail e.
Proof.
  unfold makeEndpoints. destruct (GetNodeIdx nodeID) as [i | e | p] eqn:E; cbn; [| eauto |].
  - rewrite decide_True by lia. eauto.
  - destruct (GetNodeIdx_component nodeID) as (t & _ & Ht).
    rewrite Ht in E. by apply Atoi_no_panic in E.
Qed.

(** The nested loops visit the flattened entries. *)
Lemma foldM_visits {B} (f : string → B → string * list Z → outcome B) b it :
  foldM (λ acc node, foldM (f node.1) acc node.2) b it =
    foldM (λ acc v, f v.1.1 acc (v.1.2, v.2)) b (visits it).
Proof.
  revert b. induction it as [| [n entries] it IH]; intros b; [done |].
  unfold visits. simpl. rewrite foldM_app. cbn.
  assert (∀ b, foldM (λ acc v, f v.1.1 acc (v.1.2, v.2)) b
                 (map (λ bi, (n, bi.1, bi.2)) entries) = foldM (f n) b entries) as ->.
  { clear. induction entries as [| [bu l] entries IH]; intros b; [done |]. simpl.
    destruct (f n b (bu, l)); simpl; [apply IH | done | done]. }
  destruct (foldM (f n) b entries); simpl; [apply IH | done | done].
Qed.

Lemma foldl_visits {B} (f : string → B → string * list Z → B) b it :
  foldl (λ acc node, foldl (f node.1) acc node.2) b it =
    foldl (λ acc v, f v.1.1 acc (v.1.2, v.2)) b (visits it).
Proof.
  revert b. induction it as [| [n entries] it IH]; intros b; [done |].
  unfold visits. simpl. rewrite foldl_app. rewrite IH. f_equal.
  revert b. clear. induction entries as [| [bu l] entries IH]; intros b; simpl; [done |].
  apply IH.
Qed.

Lemma makeClusters_no_visit x it l p : visits it = [] → makeClusters x it l p = Ret [].
Proof. unfold makeClusters. rewrite foldM_visits. by intros ->. Qed.

Lemma makeClusters_fails x it l p :
  visits it ≠ [] → ∃ e, makeClusters x it l p = Fail e.
Proof.
  unfold makeClusters. rewrite foldM_visits.
  destruct (visits it) as [| v vs]; [done |]. intros _. simpl.
  destruct (slices_Contains [] _) eqn:Hc.
  { apply slices_Contains_spec in Hc. set_solver. }
  destruct (makeEndpoints_fails x v.1.1 v.1.2
    (if decide (v.1.1 = l) then v.2 else [p])) as [e He].
  rewrite He. cbn. eauto.
Qed.

(** *** resource.go *)

Lemma makeRoutes_visits it l :
  let routes n := map (λ v, make_route l v.1.1 v.1.2) n in
  makeRoutes it l =
    [{| RouteConfiguration_Name := gRPCRouteName;
        VirtualHosts := [{| VirtualHost_Name := gRPCVHostName; Domains := ["*"];
          Routes := (routes (filter (λ v, v.1.1 ≠ l) (visits it))
                     ++ routes (filter (λ v, ¬ v.1.1 ≠ l) (visits it)))%list |}] |};
     {| RouteConfiguration_Name := localGRPCRouteName;
        VirtualHosts := [{| VirtualHost_Name := localGRPCVHostName; Domains := ["*"];
          Routes := routes (filter (λ v, ¬ v.1.1 ≠ l) (visits it)) |}] |}].
Proof.
  intros routes. unfold makeRoutes. rewrite foldl_visits.
  assert (∀ vs acc, foldl (λ acc v, route_step l v.1.1 acc (v.1.2, v.2)) acc vs =
    ((acc.1 ++ routes (filter (λ v, v.1.1 ≠ l) vs))%list,
     (acc.2 ++ routes (filter (λ v, ¬ v.1.1 ≠ l) vs))%list)) as ->; [| done].
  induction vs as [| v vs IH]; intros [rs ls]; simpl; [by rewrite !app_nil_r |].
  rewrite IH, !filter_cons. unfold route_step. simpl.
  case_decide as Hd; simpl.
  - rewrite decide_False by tauto. by rewrite <- app_assoc.
  - rewrite decide_True by tauto. by rewrite <- app_assoc.
Qed.

Lemma elem_of_filtered_routes (P : string * string * list Z → Prop)
    `{∀ v, Decision (P v)} l vs r :
  r ∈ map (λ v, make_route l v.1.1 v.1.2) (filter P vs) ↔
    ∃ v, r = make_route l v.1.1 v.1.2 ∧ P v ∧ v ∈ vs.
Proof.
  rewrite list_elem_of_fmap.
  split; intros (v & -> & Hv); exists v; by rewrite list_elem_of_filter in *.
Qed.

Lemma makeRoutes_elem_of it l rc vh r :
  rc ∈ makeRoutes it l → vh ∈ VirtualHosts rc → r ∈ Routes vh →
  ∃ v, v ∈ visits it ∧ r = make_route l v.1.1 v.1.2.
Proof.
  rewrite makeRoutes_visits. intros Hrc Hvh Hr.
  apply elem_of_cons in Hrc as [-> | Hrc]; [| apply list_elem_of_singleton in Hrc as ->];
    simpl in Hvh; apply list_elem_of_singleton in Hvh as ->; simpl in Hr.
  - rewrite <- map_app in Hr. apply list_elem_of_fmap in Hr as (v & -> & Hv).
    exists v. rewrite elem_of_app, !list_elem_of_filter in Hv. tauto.
  - apply list_elem_of_fmap in Hr as (v & -> & Hv).
    exists v. rewrite list_elem_of_filter in Hv. tauto.
Qed.

(** *** generateSnapshots *)

Lemma makeHTTPListener_no_panic cfg p : makeHTTPListener cfg ≠ Panic p.
Proof.
  unfold makeHTTPListener, makeHTTPConnectionManager, ignore_error.
  intros [H' | ([] & _ & ?)]%bind_Panic_inv; [| done].
  apply bind_Panic_inv in H' as [H' | (? & _ & H')].
  { destruct (anypb_New MsgRouter) eqn:Ea; try done. by apply anypb_New_no_panic in Ea. }
  apply bind_Panic_inv in H' as [H' | (? & _ & H')]; [by apply anypb_New_no_panic in H' |].
  apply bind_Panic_inv in H' as [H' | (? & _ & ?)]; [by apply anypb_New_no_panic in H' | done].
Qed.

(** Nothing but an empty list of clusters ever reaches the cache. *)
Definition cache_no_clusters (c : Cache) : Prop :=
  ∀ n sn, GetSnapshot c n = Some sn → GetResources sn ClusterType = [].

Lemma NewSnapshot_no_clusters v routes ls sn :
  NewSnapshot v [(ClusterType, []); (RouteType, routes); (ListenerType, ls)] = Ret sn →
  GetResources sn ClusterType = [].
Proof.
  intros Hsn. apply Permutation_nil_r.
  apply (NewSnapshot_all _ _ _ ClusterType [] Hsn); [| set_solver | constructor].
  apply resource_types_distinct.
Qed.

Lemma generate_snapshot_Ret x cfg i it1 it2 x' :
  generate_snapshot x cfg i it1 it2 = Ret x' →
  ∃ ls sn,
    makeHTTPListener cfg = Ret ls
    ∧ visits it1 = []
    ∧ NewSnapshot (version_string (snapshotVersion x))
        [(ClusterType, []);
         (RouteType, map ResRoute (makeRoutes it2 (generateNodeID (Z.of_nat i))));
         (ListenerType, map ResListener ls)] = Ret sn
    ∧ SetSnapshot (cache x) (generateNodeID (Z.of_nat i)) sn = (cache x', None)
    ∧ snapshotVersion x' = snapshotVersion x ∧ xnodes x' = xnodes x.
Proof.
  unfold generate_snapshot. intros H'.
  apply bind_Ret_inv in H' as (ls & Hls & H').
  apply bind_Ret_inv in H' as (cs & Hcs & H').
  apply bind_Ret_inv in H' as (sn & Hsn & H').
  destruct (SetSnapshot _ _ _) as [c' [e |]] eqn:Hset; simplify_eq/=.
  destruct (decide (visits it1 = [])) as [Hv | Hv].
  - rewrite makeClusters_no_visit in Hcs by done. simplify_eq/=.
    exists ls, sn. done.
  - destruct (makeClusters_fails x it1 (generateNodeID (Z.of_nat i))
      (int32 (IngressPort cfg)) Hv) as [e He]. congruence.
Qed.

Lemma generate_snapshot_no_clusters x cfg i it1 it2 x' :
  generate_snapshot x cfg i it1 it2 = Ret x' →
  cache_no_clusters (cache x) → cache_no_clusters (cache x').
Proof.
  intros (ls & sn & _ & _ & Hsn & Hset & _)%generate_snapshot_Ret Hc n sn' Hn.
  rewrite (GetSnapshot_set _ _ _ _ Hset) in Hn. case_decide; simplify_eq; [| by eapply Hc].
  by eapply NewSnapshot_no_clusters.
Qed.

Lemma generate_loop_no_clusters x cfg its idxs :
  cache_no_clusters (cache x) →
  cache_no_clusters (cache (generate_loop x cfg its idxs).1).
Proof.
  revert x. induction idxs as [| i idxs IH]; intros x Hc; simpl; [done |].
  destruct (generate_snapshot _ _ _ _ _) as [x' | e | p] eqn:E; [| done | done].
  apply IH. by eapply generate_snapshot_no_clusters.
Qed.

Lemma generateSnapshots_no_clusters x cfg its :
  cache_no_clusters (cache x) →
  cache_no_clusters (cache (generateSnapshots x cfg its).1).
Proof. intros Hc. by apply generate_loop_no_clusters. Qed.

Lemma generate_loop_xnodes x cfg its idxs :
  xnodes (generate_loop x cfg its idxs).1 = xnodes x.
Proof.
  revert x. induction idxs as [| i idxs IH]; intros x; simpl; [done |].
  destruct (generate_snapshot _ _ _ _ _) as [x' | e | p] eqn:E; [| done | done].
  rewrite IH. by apply generate_snapshot_Ret in E as (? & ? & _ & _ & _ & _ & _ & ?).
Qed.

Lemma generateSnapshots_xnodes x cfg its :
  xnodes (generateSnapshots x cfg its).1 = xnodes x.
Proof. unfold generateSnapshots. by rewrite generate_loop_xnodes. Qed.

(** The nodes whose snapshot the loop sets, and the others. *)
Lemma generate_loop_Ret x cfg its idxs x' :
  (∀ i, i ∈ idxs → Z.of_nat i ≤ int_max)%Z →
  generate_loop x cfg its idxs = (x', Ret ()) →
  snapshotVersion x' = snapshotVersion x
  ∧ (∀ i, i ∈ idxs → ∃ ls sn,
      makeHTTPListener cfg = Ret ls
      ∧ GetSnapshot (cache x') (generateNodeID (Z.of_nat i)) = Some sn
      ∧ NewSnapshot (version_string (snapshotVersion x))
          [(ClusterType, []);
           (RouteType, map ResRoute (makeRoutes (its i).2 (generateNodeID (Z.of_nat i))));
           (ListenerType, map ResListener ls)] = Ret sn)
  ∧ (∀ n, (∀ i, i ∈ idxs → n ≠ generateNodeID (Z.of_nat i)) →
      GetSnapshot (cache x') n = GetSnapshot (cache x) n).
Proof.
  revert x. induction idxs as [| i idxs IH]; intros x Hmax Hloop; simpl in *.
  { simplify_eq. split_and!; [done | set_solver | done]. }
  destruct (generate_snapshot _ _ _ _ _) as [x1 | e | p] eqn:E; simplify_eq.
  apply generate_snapshot_Ret in E as (ls & sn & Hls & _ & Hsn & Hset & Hv & _).
  destruct (IH x1) as (Hv' & Hin & Hout); [set_solver | done |].
  split_and!; [congruence | |].
  - intros j [-> | Hj]%elem_of_cons; [| rewrite <- Hv; by apply Hin].
    destruct (decide (i ∈ idxs)) as [Hi | Hi]; [rewrite <- Hv; by apply Hin |].
    exists ls, sn. split_and!; [done | | done].
    rewrite Hout.
    + by rewrite (GetSnapshot_set _ _ _ _ Hset), decide_True.
    + intros j Hj Heq. unfold generateNodeID in Heq. simplify_eq. done.
  - intros n Hn. rewrite Hout by set_solver.
    rewrite (GetSnapshot_set _ _ _ _ Hset), decide_False by set_solver. done.
Qed.

(** The loop returns when nothing is visited. *)
Lemma generate_loop_total x cfg its idxs ls :
  (∀ i, visits (its i).1 = []) →
  makeHTTPListener cfg = Ret ls →
  (∀ c n sn, (SetSnapshot c n sn).2 = None) →
  ∃ c', generate_loop x cfg its idxs =
    ({| snapshotVersion := snapshotVersion x; cache := c'; xnodes := xnodes x |}, Ret ()).
Proof.
  intros Hv Hls Hset. revert x.
  induction idxs as [| i idxs IH]; intros x; simpl; [by exists (cache x); destruct x |].
  destruct (NewSnapshot_known (version_string (snapshotVersion x)) []
    (map ResRoute (makeRoutes (its i).2 (generateNodeID (Z.of_nat i))))
    (map ResListener ls)) as [sn Hsn].
  unfold generate_snapshot. rewrite Hls. cbn.
  rewrite makeClusters_no_visit by apply Hv. cbn. rewrite Hsn. cbn.
  destruct (SetSnapshot _ _ _) as [c1 o] eqn:E.
  assert (o = None) as ->.
  { rewrite <- (Hset (cache x) (generateNodeID (Z.of_nat i)) sn). by rewrite E. }
  apply (IH {| snapshotVersion := snapshotVersion x; cache := c1; xnodes := xnodes x |}).
Qed.

Lemma makeHTTPListener_names cfg ls :
  makeHTTPListener cfg = Ret ls → NoDup (resource_name <$> map ResListener ls).
Proof.
  unfold makeHTTPListener. intros ([a b] & _ & ?)%bind_Ret_inv. simplify_eq.
  repeat constructor; set_solver.
Qed.
End xds_lemmas.

(** ** Properties *)

Lemma generateSnapshots_fails `{SnapshotPkg, SlicesPkg} x cfg its s n b ports :
  xnodes x ≠ [] →
  services_order s (its 0).1 →
  offers s n b ports →
  ∃ e, generateSnapshots x cfg its =
    ({| snapshotVersion := int64 (snapshotVersion x + 1); cache := cache x;
        xnodes := xnodes x |}, Fail e).
Proof.
  intros Hnodes Hord Hoffers. unfold generateSnapshots.
  destruct (xnodes x) as [| nd nds] eqn:Hx; [done |]. simpl.
  assert (visits (its 0).1 ≠ []) as Hv.
  { intros Hv. apply (services_order_visits _ _ _ _ _ Hord) in Hoffers.
    rewrite Hv in Hoffers. set_solver. }
  unfold generate_snapshot. simpl.
  destruct (makeHTTPListener cfg) as [ls | e | p] eqn:Hls; cbn;
    [| eauto | by apply makeHTTPListener_no_panic in Hls].
  match goal with |- context [makeClusters ?y ?it ?l ?p] =>
    destruct (makeClusters_fails y it l p Hv) as [e ->]
  end.
  cbn. eauto.
Qed.

(** Once any service is registered and any node is known, generating snapshots
    fails at the first node: the version is consumed, the snapshot cache keeps
    its content, and the error is returned - because [makeEndpoints] rejects
    every node identifier. *)
Theorem generateSnapshots_fails_once_services `{SnapshotPkg, SlicesPkg} x cfg its s n b ports :
  xnodes x ≠ [] →
  services_order s (its 0).1 →
  offers s n b ports →
  ∃ e, generateSnapshots x cfg its =
    ({| snapshotVersion := int64 (snapshotVersion x + 1); cache := cache x;
        xnodes := xnodes x |}, Fail e).
Proof. apply generateSnapshots_fails. Qed.

Definition example_services : ServiceConfigSnapshot :=
  {[ "node-0" := {[ "com.mercedes_benz.app_1" := [8080%Z] ]} ]}.

Lemma generateSnapshots_fails_once_services_witness :
  let x := {| snapshotVersion := 0; cache := NewSnapshotCache;
              xnodes := [{| Host := "hpc-1"; Port := 8000 |}] |} in
  ∃ e, generateSnapshots x (Default (Ret "hpc-1"))
         (λ _, (canonical_order example_services, canonical_order example_services)) =
    ({| snapshotVersion := int64 (snapshotVersion x + 1); cache := cache x;
        xnodes := xnodes x |}, Fail e).
Proof.
  intros x.
  apply (generateSnapshots_fails_once_services x _ _ example_services
           "node-0" "com.mercedes_benz.app_1" [8080%Z]).
  - done.
  - apply canonical_order_order.
  - vm_compute. reflexivity.
Defined.

Lemma generateSnapshots_no_services `{SnapshotPkg, SlicesPkg} x cfg its s ls :
  (∀ n b ports, ¬ offers s n b ports) →
  (∀ i, services_order s (its i).1 ∧ services_order s (its i).2) →
  makeHTTPListener cfg = Ret ls →
  (∀ c n sn, (SetSnapshot c n sn).2 = None) →
  (Z.of_nat (length (xnodes x)) ≤ int_max + 1)%Z →
  ∃ c', generateSnapshots x cfg its =
      ({| snapshotVersion := int64 (snapshotVersion x + 1); cache := c';
          xnodes := xnodes x |}, Ret ())
    ∧ (∀ i, i < length (xnodes x) → ∃ sn,
        GetSnapshot c' (generateNodeID (Z.of_nat i)) = Some sn
        ∧ SnapshotVersion sn = version_string (int64 (snapshotVersion x + 1))
        ∧ GetResources sn ListenerType ≡ₚ map ResListener ls
        ∧ GetResources sn RouteType ≡ₚ map ResRoute (makeRoutes [] "")
        ∧ GetResources sn ClusterType = [])
    ∧ (∀ n, (∀ i, i < length (xnodes x) → n ≠ generateNodeID (Z.of_nat i)) →
        GetSnapshot c' n = GetSnapshot (cache x) n).
Proof.
  intros Hno Hord Hls Hset Hlen. unfold generateSnapshots.
  set (x0 := {| snapshotVersion := int64 (snapshotVersion x + 1); cache := cache x;
                xnodes := xnodes x |}).
  assert (∀ i, visits (its i).1 = [] ∧ visits (its i).2 = []) as Hv.
  { intros i. destruct (Hord i). split; by apply (no_services_visits s). }
  assert (∀ i n, makeRoutes (its i).2 n = makeRoutes [] "") as Hroutes.
  { intros i n. rewrite !makeRoutes_visits. by destruct (Hv i) as [_ ->]. }
  destruct (generate_loop_total x0 cfg its (seq 0 (length (xnodes x0))) ls)
    as [c' Hc']; [apply Hv | done | done |].
  exists c'.
  split; [done |].
  apply generate_loop_Ret in Hc' as (_ & Hin & Hout);
    [| intros i Hi%elem_of_seq; simpl in *; lia].
  simpl in Hin, Hout. split.
  - intros i Hi. destruct (Hin i) as (ls' & sn & Hls' & Hget & Hsn).
    { apply elem_of_seq. lia. }
    rewrite Hls in Hls'. simplify_eq. rewrite Hroutes in Hsn.
    assert (Hnd := resource_types_distinct).
    exists sn. split_and!; [done | by eapply NewSnapshot_version | | |].
    + apply (NewSnapshot_all _ _ _ ListenerType (map ResListener ls') Hsn);
        [done | set_solver | by eapply makeHTTPListener_names].
    + apply (NewSnapshot_all _ _ _ RouteType _ Hsn); [done | set_solver |].
      repeat constructor; set_solver.
    + by eapply NewSnapshot_no_clusters.
  - intros n Hn. apply Hout. intros i Hi%elem_of_seq. apply Hn. lia.
Qed.

(** Without registered services every known node gets its snapshot: generation
    succeeds and, for every node, the cache holds a snapshot with the new
    version, the two listeners, the two (empty) route configurations and no
    cluster; the entries of other identifiers stay as they were. *)
Theorem generateSnapshots_without_services `{SnapshotPkg, SlicesPkg} x cfg its s ls :
  (∀ n b ports, ¬ offers s n b ports) →
  (∀ i, services_order s (its i).1 ∧ services_order s (its i).2) →
  makeHTTPListener cfg = Ret ls →
  (∀ c n sn, (SetSnapshot c n sn).2 = None) →
  (Z.of_nat (length (xnodes x)) ≤ int_max + 1)%Z →
  ∃ c', generateSnapshots x cfg its =
      ({| snapshotVersion := int64 (snapshotVersion x + 1); cache := c';
          xnodes := xnodes x |}, Ret ())
    ∧ (∀ i, i < length (xnodes x) → ∃ sn,
        GetSnapshot c' (generateNodeID (Z.of_nat i)) = Some sn
        ∧ SnapshotVersion sn = version_string (int64 (snapshotVersion x + 1))
        ∧ GetResources sn ListenerType ≡ₚ map ResListener ls
        ∧ GetResources sn RouteType ≡ₚ map ResRoute (makeRoutes [] "")
        ∧ GetResources sn ClusterType = [])
    ∧ (∀ n, (∀ i, i < length (xnodes x) → n ≠ generateNodeID (Z.of_nat i)) →
        GetSnapshot c' n = GetSnapshot (cache x) n).
Proof. apply generateSnapshots_no_services. Qed.

Lemma generateSnapshots_without_services_witness :
  let x := {| snapshotVersion := -1; cache := NewSnapshotCache;
              xnodes := [{| Host := "hpc-1"; Port := 8000 |}] |} in
  let cfg := Default (Ret "hpc-1") in
  ∃ ls c', makeHTTPListener cfg = Ret ls
    ∧ generateSnapshots x cfg (λ _, ([], [])) =
      ({| snapshotVersion := int64 (snapshotVersion x + 1); cache := c';
          xnodes := xnodes x |}, Ret ())
    ∧ (∀ i, i < length (xnodes x) → ∃ sn,
        GetSnapshot c' (generateNodeID (Z.of_nat i)) = Some sn
        ∧ SnapshotVersion sn = version_string (int64 (snapshotVersion x + 1))
        ∧ GetResources sn ListenerType ≡ₚ map ResListener ls
        ∧ GetResources sn RouteType ≡ₚ map ResRoute (makeRoutes [] "")
        ∧ GetResources sn ClusterType = [])
    ∧ (∀ n, (∀ i, i < length (xnodes x) → n ≠ generateNodeID (Z.of_nat i)) →
        GetSnapshot c' n = GetSnapshot (cache x) n).
Proof.
  intros x cfg. eexists.
  edestruct (generateSnapshots_without_services x cfg (λ _, ([], [])) ∅) as [c' Hc'].
  - intros n b ports Ho. unfold offers, lookup2 in Ho. by rewrite lookup_empty in Ho.
  - intros i. split; apply services_order_empty.
  - vm_compute. reflexivity.
  - done.
  - vm_compute. discriminate.
  - exists c'. split; [vm_compute; reflexivity | exact Hc'].
Defined.

(** C21. Routes of a node, for any order in which the services are visited: the
    first configuration routes the prefix of every offered bundle of every
    node - remote bundles first - and the second those of the local bundles
    only; each route refers to the cluster of its bundle, local when the node
    itself offers it. *)
Theorem makeRoutes_correct s it l :
  services_order s it →
  ∃ remote local,
    makeRoutes it l =
      [{| RouteConfiguration_Name := gRPCRouteName;
          VirtualHosts := [{| VirtualHost_Name := gRPCVHostName; Domains := ["*"];
                              Routes := (remote ++ local)%list |}] |};
       {| RouteConfiguration_Name := localGRPCRouteName;
          VirtualHosts := [{| VirtualHost_Name := localGRPCVHostName; Domains := ["*"];
                              Routes := local |}] |}]
    ∧ (∀ r, r ∈ remote ↔ ∃ n b ports, n ≠ l ∧ offers s n b ports
          ∧ r = {| Match := {| Prefix := "/" +:+ b; Grpc := true |};
                   Action := b +:+ "_cluster" |})
    ∧ (∀ r, r ∈ local ↔ ∃ b ports, offers s l b ports
          ∧ r = {| Match := {| Prefix := "/" +:+ b; Grpc := true |};
                   Action := "local_" +:+ b +:+ "_cluster" |})
    ∧ length (remote ++ local)%list = length (visits it).
Proof.
  intros Hord. do 2 eexists. split_and!; [apply makeRoutes_visits | | |].
  - intros r. rewrite elem_of_filtered_routes. split.
    + intros ([[n b] ports] & -> & Hne & Hv).
      apply (services_order_visits _ _ _ _ _ Hord) in Hv.
      exists n, b, ports. split_and!; [done.. |]. unfold make_route. simpl.
      by rewrite bool_decide_eq_false_2.
    + intros (n & b & ports & Hne & Hv & ->).
      apply (services_order_visits _ _ _ _ _ Hord) in Hv.
      exists (n, b, ports). split; [| done]. unfold make_route. simpl.
      by rewrite bool_decide_eq_false_2.
  - intros r. rewrite elem_of_filtered_routes. split.
    + intros ([[n b] ports] & -> & Hne & Hv).
      assert (n = l) as -> by (simpl in Hne; destruct (decide (n = l)); tauto).
      apply (services_order_visits _ _ _ _ _ Hord) in Hv.
      exists b, ports. split; [done |]. unfold make_route. simpl.
      by rewrite bool_decide_eq_true_2.
    + intros (b & ports & Hv & ->).
      apply (services_order_visits _ _ _ _ _ Hord) in Hv.
      exists (l, b, ports). split; [| tauto]. unfold make_route. simpl.
      by rewrite bool_decide_eq_true_2.
  - rewrite <- map_app, length_map, length_app.
    induction (visits it) as [| v vs IH]; [done |]. rewrite !filter_cons.
    case_decide; [rewrite decide_False by tauto | rewrite decide_True by tauto]; simpl; lia.
Qed.

Lemma makeRoutes_correct_witness :
  let s := example_services in
  let it := canonical_order s in
  ∃ remote local,
    makeRoutes it "node-0" =
      [{| RouteConfiguration_Name := gRPCRouteName;
          VirtualHosts := [{| VirtualHost_Name := gRPCVHostName; Domains := ["*"];
                              Routes := (remote ++ local)%list |}] |};
       {| RouteConfiguration_Name := localGRPCRouteName;
          VirtualHosts := [{| VirtualHost_Name := localGRPCVHostName; Domains := ["*"];
                              Routes := local |}] |}]
    ∧ (∀ r, r ∈ remote ↔ ∃ n b ports, n ≠ "node-0" ∧ offers s n b ports
          ∧ r = {| Match := {| Prefix := "/" +:+ b; Grpc := true |};
                   Action := b +:+ "_cluster" |})
    ∧ (∀ r, r ∈ local ↔ ∃ b ports, offers s "node-0" b ports
          ∧ r = {| Match := {| Prefix := "/" +:+ b; Grpc := true |};
                   Action := "local_" +:+ b +:+ "_cluster" |})
    ∧ length (remote ++ local)%list = length (visits it).
Proof. intros s it. apply makeRoutes_correct, canonical_order_order. Defined.

(** The routes of the egress listener of a node. *)
Definition egress_routes (it : services_iter) (l : string) : list Route :=
  match makeRoutes it l with
  | {| VirtualHosts := [vh] |} :: _ => Routes vh
  | _ => []
  end.

Lemma egress_routes_remote it l n entries :
  n ≠ l → it = [(n, entries)] →
  egress_routes it l = map (λ bi, make_route l n bi.1) entries.
Proof.
  intros Hne ->. unfold egress_routes. rewrite makeRoutes_visits.
  unfold visits. simpl. rewrite app_nil_r. rewrite <- map_app.
  induction entries as [| [b ports] entries IH]; [done |]. simpl.
  rewrite !filter_cons. simpl. rewrite decide_True, decide_False by tauto. simpl. by f_equal.
Qed.

(** Two orders of a map of two entries. *)
Lemma ranges_two (k1 k2 : string) (v1 v2 : list Z) :
  k1 ≠ k2 →
  ranges {[k1 := v1; k2 := v2]} [(k1, v1); (k2, v2)]
  ∧ ranges {[k1 := v1; k2 := v2]} [(k2, v2); (k1, v1)].
Proof.
  intros Hne. unfold ranges.
  rewrite map_to_list_insert by (by apply lookup_singleton_ne).
  rewrite map_to_list_singleton. split; [done | apply Permutation_swap].
Qed.

(** Overlapping routes: when a node offers a bundle whose identifier extends
    the identifier of another of its bundles (as [app_10] extends [app_1]), a
    proxy that takes the first route whose prefix matches sends the requests
    for the longer one to either cluster, depending on the order in which the
    map was visited. *)
Theorem overlapping_routes_depend_on_order
    (select : list Route → string → option Route) l n b suffix ports1 ports2 rest :
  (∀ r rs path, select (r :: rs) path =
     if HasPrefix path (Prefix (Match r)) then Some r else select rs path) →
  n ≠ l → suffix ≠ "" →
  let s : ServiceConfigSnapshot := {[ n := {[ b := ports1; b +:+ suffix := ports2 ]} ]} in
  let path := "/" +:+ b +:+ suffix +:+ rest in
  ∃ it1 it2, services_order s it1 ∧ services_order s it2
    ∧ Action <$> select (egress_routes it1 l) path = Some (b +:+ "_cluster")
    ∧ Action <$> select (egress_routes it2 l) path = Some (b +:+ suffix +:+ "_cluster").
Proof.
  intros Hsel Hne Hsuf s path.
  assert (b ≠ b +:+ suffix) as Hb.
  { intros Heq. rewrite <- (str_app_nil_r b) in Heq at 1. by simplify_eq. }
  destruct (ranges_two b (b +:+ suffix) ports1 ports2 Hb) as [Hr1 Hr2].
  assert (∀ entries, ranges {[ b := ports1; b +:+ suffix := ports2 ]} entries →
    services_order s [(n, entries)]) as Hord.
  { intros entries He. eexists. split; [apply ranges_canonical |].
    unfold s. rewrite map_to_list_singleton. repeat constructor. done. }
  exists [(n, [(b, ports1); (b +:+ suffix, ports2)])],
    [(n, [(b +:+ suffix, ports2); (b, ports1)])].
  split_and!; [by apply Hord | by apply Hord | |].
  - erewrite egress_routes_remote by done. simpl. rewrite Hsel. unfold make_route. simpl.
    rewrite bool_decide_eq_false_2 by done.
    rewrite (proj2 (HasPrefix_spec _ _)); [done |]. exists (suffix +:+ rest).
    unfold path. by rewrite str_app_assoc.
  - erewrite egress_routes_remote by done. simpl. rewrite Hsel. unfold make_route. simpl.
    rewrite bool_decide_eq_false_2 by done.
    rewrite (proj2 (HasPrefix_spec _ _)).
    + simpl. by rewrite str_app_assoc.
    + exists rest. unfold path. by rewrite !str_app_assoc.
Qed.

Fixpoint first_match (rs : list Route) (path : string) : option Route :=
  match rs with
  | [] => None
  | r :: rs => if HasPrefix path (Prefix (Match r)) then Some r else first_match rs path
  end.

Lemma overlapping_routes_depend_on_order_witness :
  let b := "com.mercedes_benz.app_1" in
  let s : ServiceConfigSnapshot :=
    {[ "node-1" := {[ b := [8080%Z]; b +:+ "0" := [8089%Z] ]} ]} in
  let path := "/" +:+ b +:+ "0" +:+ ".Door/Open" in
  ∃ it1 it2, services_order s it1 ∧ services_order s it2
    ∧ Action <$> first_match (egress_routes it1 "node-0") path = Some (b +:+ "_cluster")
    ∧ Action <$> first_match (egress_routes it2 "node-0") path
        = Some (b +:+ "0" +:+ "_cluster").
Proof.
  intros b s path.
  apply (overlapping_routes_depend_on_order first_match "node-0" "node-1" b "0"
           [8080%Z] [8089%Z] ".Door/Open"); done.
Defined.
