(* ===== verification/ControlPlane.v ===== *)
(** The control plane as a concurrent system: the two goroutines of
    [xds.Server.RegisterServer] ([server.go]), the handlers of the node and
    of the service registry, the unbuffered channels between them and the
    shared mutex.

    Every critical section is atomic, since the registries and the xDS server
    use the same mutex.  Between them the handlers and goroutines interleave
    freely: a handler blocks on its unbuffered channel until the goroutine of
    that channel waits to receive, and a goroutine that has received works
    once it gets the lock.  The map of services is shared by reference: after
    the first update the xDS server reads the registry's own map, including
    changes whose update has not been received yet. *)
From S2P Require Import Prelude GoStrings Slices NodeRegistry ServiceRegistry Envoy Config Xds.


(** Which map [x.services] refers to: the empty one [NewServer] made, or the
    map of the service registry. *)
Inductive services_ref := RefInitial | RefRegistry.

(** A goroutine of [RegisterServer]: waiting in its [select], holding a value
    it has received, or returned. *)
Inductive loop_state (A : Type) :=
| Waiting
| Received (a : A)
| Returned.
Arguments Waiting {A}.
Arguments Received {A} a.
Arguments Returned {A}.

Section control_plane.
Context `{SnapshotPkg, SlicesPkg}.
Variable cfg : Config.

(** [sending_nodes]: the nodes whose [Register] call is blocked at
    [s.chanNodes <- newNode]; [sending_services]: the sessions blocked at
    [s.updateChannel <- s.services]. *)
Record ControlPlane := {
  nodeRegistry : NodeRegistryServer;
  services : ServiceConfigSnapshot;
  xds : Server;
  xds_services : services_ref;
  sending_nodes : list NodeAddr;
  sending_services : list nat;
  node_loop : loop_state NodeAddr;
  service_loop : loop_state services_ref;
  crashed : bool;
}.

Definition initial : ControlPlane :=
  {| nodeRegistry := NewNodeRegistryServer;
     services := NewServiceRegistryServer;
     xds := NewServer;
     xds_services := RefInitial;
     sending_nodes := [];
     sending_services := [];
     node_loop := Waiting;
     service_loop := Waiting;
     crashed := false |}.

Definition deref (c : ControlPlane) (r : services_ref) : ServiceConfigSnapshot :=
  match r with RefInitial => ∅ | RefRegistry => services c end.

(** *** The bodies of the two loops, under the lock *)

(** How a loop goes on after [generateSnapshots], and whether it crashes. *)
Definition after {A} (r : outcome unit) : loop_state A * bool :=
  match r with
  | Ret _ => (Waiting, false)
  | Fail _ => (Returned, false)
  | Panic _ => (Returned, true)
  end.

Definition handle_node (c : ControlPlane) (newNode : NodeAddr)
    (its : nat → services_iter * services_iter) : ControlPlane :=
  let x := {| snapshotVersion := snapshotVersion (xds c); cache := cache (xds c);
              xnodes := xnodes (xds c) ++ [newNode] |}%list in
  let '(x', r) := generateSnapshots x cfg its in
  {| nodeRegistry := nodeRegistry c; services := services c; xds := x';
     xds_services := xds_services c;
     sending_nodes := sending_nodes c; sending_services := sending_services c;
     node_loop := (after r).1; service_loop := service_loop c;
     crashed := (@after NodeAddr r).2 |}.

Definition handle_services (c : ControlPlane) (newServiceConfig : services_ref)
    (its : nat → services_iter * services_iter) : ControlPlane :=
  let '(x', r) := generateSnapshots (xds c) cfg its in
  {| nodeRegistry := nodeRegistry c; services := services c; xds := x';
     xds_services := newServiceConfig;
     sending_nodes := sending_nodes c; sending_services := sending_services c;
     node_loop := node_loop c; service_loop := (after r).1;
     crashed := (@after services_ref r).2 |}.

(** Orders of the loops over [x.services] during one [generateSnapshots]. *)
Definition orders_of (s : ServiceConfigSnapshot)
    (its : nat → services_iter * services_iter) : Prop :=
  ∀ i, services_order s (its i).1 ∧ services_order s (its i).2.

(** *** Effects of the other steps *)
Definition registering (c : ControlPlane) (nreg' : NodeRegistryServer)
    (newNode : NodeAddr) : ControlPlane :=
  {| nodeRegistry := nreg'; services := services c; xds := xds c;
     xds_services := xds_services c;
     sending_nodes := sending_nodes c ++ [newNode];
     sending_services := sending_services c;
     node_loop := node_loop c; service_loop := service_loop c; crashed := crashed c |}.

Definition announcing (c : ControlPlane) (services' : ServiceConfigSnapshot)
    (sid : nat) : ControlPlane :=
  {| nodeRegistry := nodeRegistry c; services := services'; xds := xds c;
     xds_services := xds_services c;
     sending_nodes := sending_nodes c;
     sending_services := sending_services c ++ [sid];
     node_loop := node_loop c; service_loop := service_loop c; crashed := crashed c |}.

Definition node_received (c : ControlPlane) (newNode : NodeAddr)
    (still_sending : list NodeAddr) : ControlPlane :=
  {| nodeRegistry := nodeRegistry c; services := services c; xds := xds c;
     xds_services := xds_services c;
     sending_nodes := still_sending; sending_services := sending_services c;
     node_loop := Received newNode; service_loop := service_loop c;
     crashed := crashed c |}.

Definition services_received (c : ControlPlane) (still_sending : list nat)
    : ControlPlane :=
  {| nodeRegistry := nodeRegistry c; services := services c; xds := xds c;
     xds_services := xds_services c;
     sending_nodes := sending_nodes c; sending_services := still_sending;
     node_loop := node_loop c; service_loop := Received RefRegistry;
     crashed := crashed c |}.

(** *** Steps *)
Inductive step : relation ControlPlane :=
(** [Register]: the critical section; the call is then at the send. *)
| step_register c req nreg' newNode resp :
    crashed c = false →
    Register (nodeRegistry c) req = Ret (nreg', newNode, resp) →
    step c (registering c nreg' newNode)
(** A session of the service registry handles an announcement. *)
| step_announce c sid nodeID i a services' :
    crashed c = false →
    sid ∉ sending_services c →
    ValidateNodeID (nodeRegistry c) nodeID = Ret i →
    handle_announcement (services c) nodeID a = Ret services' →
    step c (announcing c services' sid)
(** Rendezvous on [channelNodes]: some blocked [Register] goes on. *)
| step_send_node c l1 newNode l2 :
    crashed c = false →
    node_loop c = Waiting →
    sending_nodes c = l1 ++ newNode :: l2 →
    step c (node_received c newNode (l1 ++ l2))
(** Rendezvous on [channelServices]. *)
| step_send_services c l1 sid l2 :
    crashed c = false →
    service_loop c = Waiting →
    sending_services c = l1 ++ sid :: l2 →
    step c (services_received c (l1 ++ l2))
(** The goroutines work on what they received. *)
| step_handle_node c newNode its :
    crashed c = false →
    node_loop c = Received newNode →
    orders_of (deref c (xds_services c)) its →
    step c (handle_node c newNode its)
| step_handle_services c newServiceConfig its :
    crashed c = false →
    service_loop c = Received newServiceConfig →
    orders_of (deref c newServiceConfig) its →
    step c (handle_services c newServiceConfig its).

Definition reachable (c : ControlPlane) : Prop := rtc step initial c.

(** *** Invariants *)

(** What a loop has received but not worked on. *)
Definition in_hand {A} (l : loop_state A) : list A :=
  match l with Received a => [a] | _ => [] end.

Lemma handle_node_fields c n its :
  nodeRegistry (handle_node c n its) = nodeRegistry c
  ∧ services (handle_node c n its) = services c
  ∧ sending_nodes (handle_node c n its) = sending_nodes c
  ∧ sending_services (handle_node c n its) = sending_services c
  ∧ service_loop (handle_node c n its) = service_loop c
  ∧ xnodes (xds (handle_node c n its)) = (xnodes (xds c) ++ [n])%list
  ∧ in_hand (node_loop (handle_node c n its)) = []
  ∧ (cache_no_clusters (cache (xds c)) →
     cache_no_clusters (cache (xds (handle_node c n its)))).
Proof.
  unfold handle_node.
  match goal with |- context [generateSnapshots ?x cfg its] =>
    assert (Hn := generateSnapshots_xnodes x cfg its);
    assert (Hc := generateSnapshots_no_clusters x cfg its);
    destruct (generateSnapshots x cfg its) as [x' r]
  end.
  simpl in *. split_and!; try done. by destruct r.
Qed.

Lemma handle_services_fields c ref its :
  nodeRegistry (handle_services c ref its) = nodeRegistry c
  ∧ sending_nodes (handle_services c ref its) = sending_nodes c
  ∧ sending_services (handle_services c ref its) = sending_services c
  ∧ node_loop (handle_services c ref its) = node_loop c
  ∧ xnodes (xds (handle_services c ref its)) = xnodes (xds c)
  ∧ (cache_no_clusters (cache (xds c)) →
     cache_no_clusters (cache (xds (handle_services c ref its)))).
Proof.
  unfold handle_services.
  assert (Hn := generateSnapshots_xnodes (xds c) cfg its).
  assert (Hc := generateSnapshots_no_clusters (xds c) cfg its).
  destruct (generateSnapshots (xds c) cfg its) as [x' r].
  simpl in *. split_and!; done.
Qed.

(** Case analysis on a step, with the fields of the handled states. *)
Ltac step_cases Hstep :=
  destruct Hstep as [c req nreg' newNode resp Hcr Hreg
    | c sid nodeID i a services' Hcr Hsid Hvalid Hann
    | c l1 newNode l2 Hcr Hloop Hsend
    | c l1 sid l2 Hcr Hloop Hsend
    | c newNode its Hcr Hloop Hord
    | c ref its Hcr Hloop Hord];
  [rewrite Register_eq in Hreg; simplify_eq
  | | | |
   destruct (handle_node_fields c newNode its) as (Hf1 & Hf2 & Hf3 & Hf4 & Hf5 & Hf6 & Hf7 & Hf8)
  | destruct (handle_services_fields c ref its) as (Hf1 & Hf2 & Hf3 & Hf4 & Hf5 & Hf6)].

Lemma step_no_clusters c c' :
  cache_no_clusters (cache (xds c)) → step c c' → cache_no_clusters (cache (xds c')).
Proof. intros Hc Hstep. step_cases Hstep; auto. Qed.

Lemma NewServer_no_clusters : cache_no_clusters (cache NewServer).
Proof. intros n sn Hn. simpl in Hn. by rewrite GetSnapshot_new in Hn. Qed.

(** The nodes the xDS server knows, those on their way to it and those whose
    registration is blocked. *)
Definition delivered (c : ControlPlane) : list NodeAddr :=
  (xnodes (xds c) ++ in_hand (node_loop c) ++ sending_nodes c)%list.

Lemma step_delivered_perm c c' :
  delivered c ≡ₚ nodes (nodeRegistry c) → step c c' →
  delivered c' ≡ₚ nodes (nodeRegistry c').
Proof.
  unfold delivered. intros Hinv Hstep. step_cases Hstep; simpl in *.
  - by rewrite <- Hinv, !app_assoc.
  - done.
  - rewrite <- Hinv, Hloop, Hsend. simpl. by rewrite Permutation_middle.
  - done.
  - by rewrite Hf6, Hf7, Hf3, Hf1, <- Hinv, Hloop, <- !app_assoc.
  - by rewrite Hf5, Hf4, Hf2, Hf1.
Qed.

(** A step that starts a registration only when no other one is blocked. *)
Definition sequential_step (c c' : ControlPlane) : Prop :=
  step c c' ∧ (nodeRegistry c' = nodeRegistry c ∨ sending_nodes c = []).

Lemma sequential_delivered c c' :
  delivered c = nodes (nodeRegistry c) ∧ length (sending_nodes c) ≤ 1 →
  sequential_step c c' →
  delivered c' = nodes (nodeRegistry c') ∧ length (sending_nodes c') ≤ 1.
Proof.
  unfold delivered. intros [Hinv Hlen] [Hstep Hseq]. step_cases Hstep; simpl in *.
  - destruct Hseq as [Hseq | Hseq].
    + apply (f_equal (length ∘ nodes)) in Hseq. simpl in Hseq.
      rewrite length_app in Hseq. simpl in Hseq. lia.
    + rewrite Hseq in *. rewrite <- Hinv. simpl.
      split; [by rewrite app_nil_r, <- app_assoc | lia].
  - done.
  - rewrite Hsend, length_app in Hlen. simpl in Hlen.
    destruct l1, l2; simpl in *; try lia. rewrite Hloop, Hsend in Hinv. simpl in *.
    split; [done | lia].
  - done.
  - rewrite Hf6, Hf7, Hf3, Hf1, <- Hinv, Hloop, <- !app_assoc. done.
  - by rewrite Hf5, Hf4, Hf2, Hf1.
Qed.

(** A goroutine that has returned never receives again. *)
Lemma step_service_loop_returned c c' :
  step c c' → service_loop c = Returned →
  service_loop c' = Returned ∧ sublist (sending_services c) (sending_services c').
Proof.
  intros Hstep Hret. step_cases Hstep; simpl in *; try congruence; try done.
  - split; [done |]. by apply sublist_inserts_r.
  - by rewrite Hf5, Hf4.
Qed.

Lemma step_node_loop_returned c c' :
  step c c' → node_loop c = Returned →
  node_loop c' = Returned ∧ sublist (sending_nodes c) (sending_nodes c')
  ∧ xnodes (xds c') = xnodes (xds c).
Proof.
  intros Hstep Hret. step_cases Hstep; simpl in *; try congruence; try done.
  - split_and!; [done | | done]. by apply sublist_inserts_r.
  - by rewrite Hf4, Hf2, Hf5.
Qed.

Lemma service_loop_returned_forever c c' :
  service_loop c = Returned → rtc step c c' →
  service_loop c' = Returned ∧ sublist (sending_services c) (sending_services c').
Proof.
  intros Hret. induction 1 as [c | c c1 c' Hstep _ IH]; [done |].
  apply step_service_loop_returned in Hstep as [Hret1 Hsub]; [| done].
  destruct (IH Hret1) as [? ?]. split; [done |]. by etrans.
Qed.

Lemma node_loop_returned_forever c c' :
  node_loop c = Returned → rtc step c c' →
  node_loop c' = Returned ∧ sublist (sending_nodes c) (sending_nodes c')
  ∧ xnodes (xds c') = xnodes (xds c).
Proof.
  intros Hret. induction 1 as [c | c c1 c' Hstep _ IH]; [done |].
  apply step_node_loop_returned in Hstep as (Hret1 & Hsub & Hx); [| done].
  destruct (IH Hret1) as (? & ? & ?). split_and!; [done | by etrans | congruence].
Qed.

Lemma returned_xds_forever c c' :
  node_loop c = Returned → service_loop c = Returned → rtc step c c' →
  xds c' = xds c.
Proof.
  intros Hn Hs. induction 1 as [c | c c1 c' Hstep _ IH]; [done |].
  destruct (step_node_loop_returned _ _ Hstep Hn) as (Hn1 & _).
  destruct (step_service_loop_returned _ _ Hstep Hs) as (Hs1 & _).
  rewrite IH by done. clear IH Hn1 Hs1. step_cases Hstep; simpl in *; congruence.
Qed.
End control_plane.

(** ** Properties *)

(** C1. In every reachable state of the control plane, whatever nodes and services
    have been registered and however handlers and goroutines interleaved, no
    snapshot in the cache contains a cluster: no proxy ever learns an endpoint
    of a service. *)
Theorem no_cluster_is_ever_published `{SnapshotPkg, SlicesPkg} cfg c :
  reachable cfg c → cache_no_clusters (cache (xds c)).
Proof.
  intros Hc.
  apply (rtc_invariant (step cfg) (λ c, cache_no_clusters (cache (xds c)))
           initial c); [by eapply step_no_clusters | done | apply NewServer_no_clusters].
Qed.

(** An example run: a node registers and its registration completes. *)
Definition example_cfg : Config := Default (Ret "hpc-1"%string).

Definition example_request (h : string) : RegisterRequest :=
  {| Address := h; RequestPort := 8000 |}.

Definition example_node (h : string) : NodeAddr := {| Host := h; Port := 8000 |}.

Definition no_orders : nat → services_iter * services_iter := λ _, ([], []).

Lemma no_orders_ok : orders_of ∅ no_orders.
Proof. intros i. split; apply services_order_empty. Qed.

(** The registration of [h] as one state change. *)
Definition example_register (c : ControlPlane) (h : string) : ControlPlane :=
  registering c {| nodes := nodes (nodeRegistry c) ++ [example_node h] |} (example_node h).

Lemma example_register_step c h :
  crashed c = false → step example_cfg c (example_register c h).
Proof.
  intros Hc. eapply (step_register example_cfg c (example_request h)); [done |].
  apply Register_eq.
Qed.

Definition one_registering : ControlPlane := example_register initial "hpc-1"%string.
Definition one_received : ControlPlane :=
  node_received one_registering (example_node "hpc-1"%string) [].
Definition one_node : ControlPlane :=
  handle_node example_cfg one_received (example_node "hpc-1"%string) no_orders.

Lemma one_received_step : step example_cfg one_registering one_received.
Proof. by apply (step_send_node example_cfg one_registering [] (example_node "hpc-1"%string) []). Qed.

Lemma one_node_step : step example_cfg one_received one_node.
Proof. apply step_handle_node; [done | done | apply no_orders_ok]. Qed.

Lemma one_node_reachable : reachable example_cfg one_node.
Proof.
  eapply rtc_l; [by apply example_register_step |].
  eapply rtc_l; [apply one_received_step |].
  apply rtc_once, one_node_step.
Qed.

Lemma no_cluster_is_ever_published_witness :
  reachable example_cfg one_node ∧ cache_no_clusters (cache (xds one_node)).
Proof.
  split; [apply one_node_reachable |].
  apply (no_cluster_is_ever_published example_cfg). apply one_node_reachable.
Defined.

(** C31. The goroutines stop for good once a service is registered: when one of
    them works on what it received while some node is known and the map it
    reads offers any bundle, it returns without touching the cache; in every
    later state the calls that are then blocked on its channel are still
    blocked, and no further node reaches the xDS server once the goroutine of
    the nodes has returned. *)
Theorem goroutines_stall_on_services `{SnapshotPkg, SlicesPkg} cfg c its n b ports :
  crashed c = false →
  (∀ ref, service_loop c = Received ref →
     orders_of (deref c ref) its → xnodes (xds c) ≠ [] →
     offers (deref c ref) n b ports →
     let c1 := handle_services cfg c ref its in
     step cfg c c1 ∧ service_loop c1 = Returned ∧ cache (xds c1) = cache (xds c)
     ∧ ∀ c2, rtc (step cfg) c1 c2 →
         service_loop c2 = Returned
         ∧ sublist (sending_services c1) (sending_services c2))
  ∧ (∀ nd, node_loop c = Received nd →
     orders_of (deref c (xds_services c)) its →
     offers (deref c (xds_services c)) n b ports →
     let c1 := handle_node cfg c nd its in
     step cfg c c1 ∧ node_loop c1 = Returned ∧ cache (xds c1) = cache (xds c)
     ∧ ∀ c2, rtc (step cfg) c1 c2 →
         node_loop c2 = Returned
         ∧ sublist (sending_nodes c1) (sending_nodes c2)
         ∧ xnodes (xds c2) = xnodes (xds c1)).
Proof.
  intros Hcr. split.
  - intros ref Hloop Hord Hx Hoff c1.
    assert (step cfg c c1) as Hstep by by apply step_handle_services.
    destruct (generateSnapshots_fails (xds c) cfg its (deref c ref) n b ports)
      as [e He]; [done | apply Hord | done |].
    assert (service_loop c1 = Returned ∧ cache (xds c1) = cache (xds c)) as [Hret Hcache].
    { subst c1. unfold handle_services. by rewrite He. }
    split_and!; [done.. |]. intros c2. by apply service_loop_returned_forever.
  - intros nd Hloop Hord Hoff c1.
    assert (step cfg c c1) as Hstep by by apply step_handle_node.
    assert (node_loop c1 = Returned ∧ cache (xds c1) = cache (xds c)) as [Hret Hcache].
    { subst c1. unfold handle_node.
      match goal with |- context [generateSnapshots ?x cfg its] =>
        destruct (generateSnapshots_fails x cfg its
          (deref c (xds_services c)) n b ports) as [e ->]
      end; [by destruct (xnodes (xds c)) | apply Hord | done | done]. }
    split_and!; [done.. |]. intros c2. by apply node_loop_returned_forever.
Qed.

(** The run goes on: a session of the node announces a service. *)
Definition example_announcement : ServiceAnnouncement :=
  {| BundleId := "com.mercedes_benz.app_1"; LocalPort := 8080;
     RegistrationState := REGISTRATION_STATE_REGISTERED |}.

Definition service_announced : ControlPlane := announcing one_node example_services 1.
Definition service_received : ControlPlane := services_received service_announced [].

Definition example_orders : nat → services_iter * services_iter :=
  λ _, (canonical_order example_services, canonical_order example_services).

Lemma example_orders_ok : orders_of example_services example_orders.
Proof. intros i. split; apply canonical_order_order. Qed.

Lemma goroutines_stall_on_services_witness :
  let c := service_received in
  let c1 := handle_services example_cfg c RefRegistry example_orders in
  step example_cfg c c1 ∧ service_loop c1 = Returned ∧ cache (xds c1) = cache (xds c)
  ∧ ∀ c2, rtc (step example_cfg) c1 c2 →
      service_loop c2 = Returned
      ∧ sublist (sending_services c1) (sending_services c2).
Proof.
  intros c.
  apply (proj1 (goroutines_stall_on_services example_cfg c example_orders
    "node-0" "com.mercedes_benz.app_1" [8080%Z] ltac:(reflexivity)) RefRegistry).
  - reflexivity.
  - apply example_orders_ok.
  - discriminate.
  - vm_compute. reflexivity.
Defined.

(** The order of the nodes.  The nodes the xDS server knows, the one in the
    hands of its goroutine and those of the blocked registrations are always
    the registered nodes, each as often as it was registered. *)
Theorem nodes_are_delivered_once `{SnapshotPkg, SlicesPkg} cfg c :
  reachable cfg c → delivered c ≡ₚ nodes (nodeRegistry c).
Proof.
  intros Hc.
  apply (rtc_invariant (step cfg) (λ c, delivered c ≡ₚ nodes (nodeRegistry c))
           initial c); [by eapply step_delivered_perm | done | done].
Qed.

Lemma nodes_are_delivered_once_witness :
  reachable example_cfg one_node ∧ delivered one_node ≡ₚ nodes (nodeRegistry one_node).
Proof.
  split; [apply one_node_reachable |].
  apply (nodes_are_delivered_once example_cfg). apply one_node_reachable.
Defined.

(** When registrations do not overlap - each one starts when no other one is
    blocked - the xDS server numbers the nodes as the node registry does: the
    nodes it knows are a prefix of the registered ones, so the identifier
    [node-k] means the same node to both. *)
Theorem sequential_registrations_agree `{SnapshotPkg, SlicesPkg} cfg c :
  rtc (sequential_step cfg) initial c →
  delivered c = nodes (nodeRegistry c)
  ∧ ∀ k nd, xnodes (xds c) !! k = Some nd → nodes (nodeRegistry c) !! k = Some nd.
Proof.
  intros Hc.
  assert (delivered c = nodes (nodeRegistry c) ∧ (length (sending_nodes c) ≤ 1)%nat)
    as [Hd _].
  { apply (rtc_invariant (sequential_step cfg)
      (λ c, delivered c = nodes (nodeRegistry c) ∧ (length (sending_nodes c) ≤ 1)%nat)
      initial c); [by eapply sequential_delivered | done | split; [done | simpl; lia]]. }
  split; [done |]. intros k nd Hk. rewrite <- Hd. by apply lookup_app_l_Some.
Qed.

Lemma sequential_registrations_agree_witness :
  rtc (sequential_step example_cfg) initial one_node
  ∧ delivered one_node = nodes (nodeRegistry one_node)
  ∧ ∀ k nd, xnodes (xds one_node) !! k = Some nd →
      nodes (nodeRegistry one_node) !! k = Some nd.
Proof.
  assert (rtc (sequential_step example_cfg) initial one_node) as Hrun.
  { eapply rtc_l; [split; [by apply example_register_step | by right] |].
    eapply rtc_l; [split; [apply one_received_step | by left] |].
    apply rtc_once. split; [apply one_node_step | by left]. }
  split; [done |]. apply (sequential_registrations_agree example_cfg). exact Hrun.
Defined.

(** Overlapping registrations can swap: there is a reachable state without any
    registration under way in which both servers know two nodes and give
    [node-0] to different ones. *)
Theorem overlapping_registrations_swap :
  ∃ c a b, reachable example_cfg c ∧ sending_nodes c = [] ∧ node_loop c = Waiting
    ∧ nodes (nodeRegistry c) = [a; b] ∧ xnodes (xds c) = [b; a] ∧ a ≠ b.
Proof.
  pose (a := example_node "hpc-1"%string). pose (b := example_node "hpc-2"%string).
  pose (c1 := example_register one_registering "hpc-2"%string).
  pose (c2 := node_received c1 b [a]).
  pose (c3 := handle_node example_cfg c2 b no_orders).
  pose (c4 := node_received c3 a []).
  exists (handle_node example_cfg c4 a no_orders), a, b.
  split; [| split_and!; [vm_compute; reflexivity .. | done]].
  eapply rtc_l; [by apply example_register_step |].
  eapply rtc_l; [by apply example_register_step |].
  eapply rtc_l; [by apply (step_send_node example_cfg c1 [a] b []) |].
  eapply rtc_l; [by apply (step_handle_node example_cfg c2 b no_orders);
                 [| | apply no_orders_ok] |].
  eapply rtc_l; [by apply (step_send_node example_cfg c3 [] a []) |].
  apply rtc_once. by apply (step_handle_node example_cfg c4 a no_orders);
    [| | apply no_orders_ok].
Qed.

(** The run goes on: the goroutine of the services works on the update, then
    a second node registers, then further calls come. *)
Definition services_stalled : ControlPlane :=
  handle_services example_cfg service_received RefRegistry example_orders.
Definition two_registering : ControlPlane :=
  example_register services_stalled "hpc-2"%string.
Definition two_received : ControlPlane :=
  node_received two_registering (example_node "hpc-2"%string) [].
Definition both_stalled : ControlPlane :=
  handle_node example_cfg two_received (example_node "hpc-2"%string) example_orders.
Definition blocked_calls : ControlPlane :=
  announcing (example_register both_stalled "hpc-3"%string) example_services 1.

Lemma blocked_calls_reachable : reachable example_cfg blocked_calls.
Proof.
  unfold reachable. etrans; [apply one_node_reachable |].
  assert (Hann : ∀ c, crashed c = false → 1 ∉ sending_services c →
      ValidateNodeID (nodeRegistry c) "node-0" = Ret 0%Z →
      handle_announcement (services c) "node-0" example_announcement = Ret example_services →
      step example_cfg c (announcing c example_services 1)).
  { intros c ? ? ? ?. by eapply step_announce. }
  eapply rtc_l; [apply Hann; [reflexivity | set_solver | vm_compute; reflexivity ..] |].
  eapply rtc_l; [by apply (step_send_services example_cfg service_announced [] 1 []) |].
  eapply rtc_l; [apply (step_handle_services example_cfg service_received RefRegistry
    example_orders); [done | done | exact example_orders_ok] |].
  eapply rtc_l; [apply (example_register_step services_stalled); vm_compute; reflexivity |].
  eapply rtc_l; [apply (step_send_node example_cfg two_registering []
    (example_node "hpc-2"%string) []); vm_compute; reflexivity |].
  eapply rtc_l; [apply (step_handle_node example_cfg two_received
    (example_node "hpc-2"%string) example_orders);
    [vm_compute; reflexivity | vm_compute; reflexivity | exact example_orders_ok] |].
  eapply rtc_l; [apply (example_register_step both_stalled); vm_compute; reflexivity |].
  apply rtc_once, Hann; [vm_compute; reflexivity | | vm_compute; reflexivity ..].
  assert (sending_services (example_register both_stalled "hpc-3"%string) = []) as ->;
    [vm_compute; reflexivity | set_solver].
Qed.

(** The control plane stalls after an ordinary run: with three registered
    nodes and one service, a state is reachable without any crash in which the
    two goroutines have returned and, whatever happens next, the registration
    of the third node and the announcement under way never complete and the
    second node never gets a snapshot. *)
Theorem ordinary_run_stalls :
  ∃ c third, reachable example_cfg c ∧ crashed c = false
    ∧ length (nodes (nodeRegistry c)) = 3
    ∧ ∀ c', rtc (step example_cfg) c c' →
        third ∈ sending_nodes c' ∧ 1 ∈ sending_services c'
        ∧ node_loop c' = Returned ∧ service_loop c' = Returned
        ∧ GetSnapshot (cache (xds c')) "node-1" = None.
Proof.
  exists blocked_calls, (example_node "hpc-3"%string).
  split_and!; [apply blocked_calls_reachable | vm_compute; reflexivity .. |].
  assert (node_loop blocked_calls = Returned) as Hnl by (vm_compute; reflexivity).
  assert (service_loop blocked_calls = Returned) as Hsl by (vm_compute; reflexivity).
  intros c' Hc'.
  destruct (node_loop_returned_forever _ _ _ Hnl Hc') as (Hnl' & Hsub & _).
  destruct (service_loop_returned_forever _ _ _ Hsl Hc') as (Hsl' & Hsub').
  rewrite (returned_xds_forever _ _ _ Hnl Hsl Hc').
  split_and!; [| | done | done | vm_compute; reflexivity].
  - eapply elem_of_sublist; [| exact Hsub]. vm_compute. by left.
  - eapply elem_of_sublist; [| exact Hsub']. vm_compute. by left.
Qed.
