(* ===== verification/Broker.v ===== *)
(** Package [pkg/channel], file [broker.go]: the relay that copies messages
    from one source channel to the channels of its readers.

    A broker is a transition system: [Read] and [Write] are calls of other
    goroutines, which block while the channel they send on is full; [Listen]
    is the goroutine whose [select] takes any ready case.  [destinations] and
    [source] have a capacity of 1, the channel of a reader one of 5.  The
    fields after [quit] of the state, and those of [reader] after [buffer],
    record the history: they have no influence on the steps.

    The channel of a reader refines a bounded queue ([queue_run]). *)
From S2P Require Import Prelude.

Definition destinations_cap : nat := 1.
Definition source_cap : nat := 1.
Definition reader_cap : nat := 5.

Section broker.
Context {T : Type}.

(** What happens at the channel of a reader. *)
Inductive event :=
| Offered (msg : T)
| Received.

(** The channel made by [Read], what was received from it, the number of
    messages the broker had taken when it registered the channel, the messages
    it has offered to it since, how many of those found it full, and what
    happened at the channel, in order. *)
Record reader := {
  buffer : list T;
  got : list T;
  joined : option nat;
  offered : list T;
  lost : nat;
  history : list event;
}.

Definition new_reader : reader :=
  {| buffer := []; got := []; joined := None; offered := []; lost := 0; history := [] |}.

(** Where the goroutine of [Listen] is. *)
Inductive listen_loop :=
| Selecting
| Delivering (msg : T) (rest : list nat)
| Returned.

Record Broker := {
  destinations : list nat;
  source : list T;
  listeners : gset nat;
  pending : list nat;       (* calls of Read that wait to send their channel *)
  readers : gmap nat reader;
  listen : listen_loop;
  quit : bool;              (* the channel quit is closed *)
  taken : list T;
  written : list T;
}.

(** [NewBroker], with the goroutine of [Listen] started. *)
Definition NewBroker : Broker :=
  {| destinations := []; source := []; listeners := ∅; pending := []; readers := ∅;
     listen := Selecting; quit := false; taken := []; written := [] |}.

(** [msgCh := make(chan T, 5)] *)
Definition Read_make (id : nat) (b : Broker) : Broker :=
  {| destinations := destinations b; source := source b; listeners := listeners b;
     pending := id :: pending b; readers := <[id := new_reader]> (readers b);
     listen := listen b; quit := quit b; taken := taken b; written := written b |}.

(** [b.destinations <- msgCh], after which [Read] returns. *)
Definition Read_send (id : nat) (rest : list nat) (b : Broker) : Broker :=
  {| destinations := destinations b ++ [id]; source := source b; listeners := listeners b;
     pending := rest; readers := readers b;
     listen := listen b; quit := quit b; taken := taken b; written := written b |}.

(** [b.source <- msg], after which [Write] returns. *)
Definition Write (msg : T) (b : Broker) : Broker :=
  {| destinations := destinations b; source := source b ++ [msg]; listeners := listeners b;
     pending := pending b; readers := readers b;
     listen := listen b; quit := quit b; taken := taken b; written := written b ++ [msg] |}.

(** [listeners[msgCh] = struct{}{}] *)
Definition register (id : nat) (rest : list nat) (b : Broker) : Broker :=
  {| destinations := rest; source := source b; listeners := {[ id ]} ∪ listeners b;
     pending := pending b;
     readers := alter (λ r, {| buffer := buffer r; got := got r;
                               joined := Some (length (taken b));
                               offered := offered r; lost := lost r;
                               history := history r |}) id (readers b);
     listen := listen b; quit := quit b; taken := taken b; written := written b |}.

(** [msg := <-b.source], with the order in which the map will be visited. *)
Definition take_message (msg : T) (rest : list T) (it : list nat) (b : Broker) : Broker :=
  {| destinations := destinations b; source := rest; listeners := listeners b;
     pending := pending b; readers := readers b;
     listen := Delivering msg it; quit := quit b; taken := taken b ++ [msg];
     written := written b |}.

(** [select { case ch <- msg: default: }] *)
Definition offer (msg : T) (r : reader) : reader :=
  if decide (length (buffer r) < reader_cap)
  then {| buffer := buffer r ++ [msg]; got := got r; joined := joined r;
          offered := offered r ++ [msg]; lost := lost r; history := history r ++ [Offered msg] |}
  else {| buffer := buffer r; got := got r; joined := joined r;
          offered := offered r ++ [msg]; lost := S (lost r);
          history := history r ++ [Offered msg] |}.

Definition set_listen (l : listen_loop) (rs : gmap nat reader) (b : Broker) : Broker :=
  {| destinations := destinations b; source := source b; listeners := listeners b;
     pending := pending b; readers := rs;
     listen := l; quit := quit b; taken := taken b; written := written b |}.

(** A receive from the channel of a reader. *)
Definition receive (r : reader) (msg : T) (rest : list T) : reader :=
  {| buffer := rest; got := got r ++ [msg]; joined := joined r;
     offered := offered r; lost := lost r; history := history r ++ [Received] |}.

(** [Stop]: closing a closed channel panics. *)
Definition Stop (b : Broker) : outcome Broker :=
  if quit b then Panic CloseOfClosedChannel
  else Ret {| destinations := destinations b; source := source b; listeners := listeners b;
              pending := pending b; readers := readers b;
              listen := listen b; quit := true; taken := taken b; written := written b |}.

Inductive step : Broker → Broker → Prop :=
| step_Read_make b id :
    readers b !! id = None → step b (Read_make id b)
| step_Read_send b id rest :
    pending b ≡ₚ id :: rest → length (destinations b) < destinations_cap →
    step b (Read_send id rest b)
| step_Write b msg :
    length (source b) < source_cap → step b (Write msg b)
| step_register b id rest :
    listen b = Selecting → destinations b = id :: rest → step b (register id rest b)
| step_take b msg rest it :
    listen b = Selecting → source b = msg :: rest → it ≡ₚ elements (listeners b) →
    step b (take_message msg rest it b)
| step_offer b msg id rest :
    listen b = Delivering msg (id :: rest) →
    step b (set_listen (Delivering msg rest) (alter (offer msg) id (readers b)) b)
| step_delivered b msg :
    listen b = Delivering msg [] → step b (set_listen Selecting (readers b) b)
| step_quit b :
    listen b = Selecting → quit b = true → step b (set_listen Returned (readers b) b)
| step_receive b id r msg rest :
    readers b !! id = Some r → buffer r = msg :: rest →
    step b (set_listen (listen b) (<[id := receive r msg rest]> (readers b)) b)
| step_Stop b b' :
    Stop b = Ret b' → step b b'.

Definition reachable (b : Broker) : Prop := rtc step NewBroker b.
End broker.
Arguments event : clear implicits.
Arguments reader : clear implicits.
Arguments Broker : clear implicits.
Arguments listen_loop : clear implicits.

(** ** A bounded queue

    The reference for the channel of a reader: a queue of [cap] places that
    drops what is offered to it while all of them are taken.  It runs on what
    happened at the channel. *)
Section queue.
Context {T : Type}.
Implicit Types (h : list (event T)).

Record queue := { waiting : list T; passed : list T; dropped : list T }.

Definition empty_queue : queue := {| waiting := []; passed := []; dropped := [] |}.

Definition queue_event (cap : nat) (q : queue) (e : event T) : queue :=
  match e with
  | Offered msg =>
      if decide (length (waiting q) < cap)
      then {| waiting := waiting q ++ [msg]; passed := passed q; dropped := dropped q |}
      else {| waiting := waiting q; passed := passed q; dropped := dropped q ++ [msg] |}
  | Received =>
      match waiting q with
      | [] => q
      | msg :: rest =>
          {| waiting := rest; passed := passed q ++ [msg]; dropped := dropped q |}
      end
  end.

Definition queue_run (cap : nat) h : queue := foldl (queue_event cap) empty_queue h.

Lemma queue_run_snoc cap h e : queue_run cap (h ++ [e]) = queue_event cap (queue_run cap h) e.
Proof. unfold queue_run. by rewrite foldl_app. Qed.

Definition offers h : list T :=
  omap (λ e, match e with Offered msg => Some msg | Received => None end) h.
End queue.
Arguments queue : clear implicits.

(** ** The invariant *)
Section broker_lemmas.
Context {T : Type}.
Implicit Types (b : Broker T) (r : reader T).

(** The channel of a reader is the bounded queue that ran on its history. *)
Definition queue_ok r : Prop :=
  let q := queue_run reader_cap (history r) in
  offers (history r) = offered r
  ∧ waiting q = buffer r ∧ passed q = got r ∧ length (dropped q) = lost r.

(** A reader has received, or will find in its channel, a subsequence of what
    was offered to it; nothing was lost unless more was offered than fits. *)
Record reader_ok r : Prop := {
  ok_cap : length (buffer r) ≤ reader_cap;
  ok_order : got r ++ buffer r `sublist_of` offered r;
  ok_count : length (offered r) = length (got r ++ buffer r) + lost r;
  ok_lost : length (offered r) ≤ reader_cap → lost r = 0;
  ok_queue : queue_ok r;
}.

Lemma new_reader_ok : reader_ok new_reader.
Proof. split; simpl; [unfold reader_cap; lia | constructor | done | done | by split_and!]. Qed.

Lemma offer_queue msg r : queue_ok r → queue_ok (offer msg r).
Proof.
  intros (Hoff & Hw & Hp & Hd). unfold queue_ok, offer.
  case_decide as Hroom; cbn [history offered buffer got lost];
    rewrite queue_run_snoc; unfold offers; rewrite omap_app; fold (offers (history r));
    rewrite Hoff; cbn [queue_event omap list_omap]; rewrite Hw.
  - rewrite decide_True by done. by split_and!; cbn; rewrite ?Hw.
  - rewrite decide_False by done. split_and!; cbn; [done.. |]. rewrite length_app. cbn. lia.
Qed.

Lemma receive_queue r msg rest :
  buffer r = msg :: rest → queue_ok r → queue_ok (receive r msg rest).
Proof.
  intros Hb (Hoff & Hw & Hp & Hd). unfold queue_ok, receive. cbn [history offered buffer got lost].
  rewrite queue_run_snoc. unfold offers. rewrite omap_app. fold (offers (history r)).
  cbn [queue_event omap list_omap]. rewrite app_nil_r, Hw, Hb. by split_and!; cbn; rewrite ?Hp.
Qed.

Lemma offer_ok msg r : reader_ok r → reader_ok (offer msg r).
Proof.
  intros [Hcap Hord Hcnt Hlost Hq]. assert (Hq' := offer_queue msg r Hq). revert Hq'.
  unfold offer. case_decide as Hroom; intros Hq'; split; simpl; try exact Hq'.
  - rewrite length_app. simpl. lia.
  - rewrite app_assoc. by apply sublist_app.
  - rewrite !length_app in *. simpl. lia.
  - rewrite length_app. intros ?. apply Hlost. lia.
  - done.
  - by apply sublist_inserts_r.
  - rewrite !length_app in *. simpl. lia.
  - intros Hle. rewrite length_app in Hle, Hcnt. simpl in Hle. lia.
Qed.

Lemma receive_ok r msg rest :
  buffer r = msg :: rest → reader_ok r → reader_ok (receive r msg rest).
Proof.
  intros Hb [Hcap Hord Hcnt Hlost Hq]. assert (Hq' := receive_queue r msg rest Hb Hq).
  rewrite Hb in *.
  assert ((got r ++ [msg]) ++ rest = got r ++ msg :: rest) as E by by rewrite <- app_assoc.
  split; simpl; rewrite ?E; [simpl in Hcap; lia | done | done | done | exact Hq'].
Qed.

(** The message that is being delivered and has not reached [id] yet. *)
Definition in_flight b (id : nat) : list T :=
  match listen b with
  | Delivering msg rest => if decide (id ∈ rest) then [msg] else []
  | _ => []
  end.

(** A reader has been offered every message taken since it was registered. *)
Definition joined_ok b (id : nat) r : Prop :=
  match joined r with
  | None => offered r = [] ∧ id ∉ listeners b
  | Some j =>
      id ∈ listeners b ∧ j ≤ length (taken b)
      ∧ drop j (taken b) = offered r ++ in_flight b id
  end.

Definition delivery_ok b : Prop :=
  match listen b with
  | Delivering msg rest => NoDup rest ∧ (∀ id, id ∈ rest → id ∈ listeners b)
  | _ => True
  end.

Record broker_ok b : Prop := {
  ok_fifo : taken b ++ source b = written b;
  ok_readers : ∀ id r, readers b !! id = Some r → reader_ok r ∧ joined_ok b id r;
  ok_waiting : NoDup (pending b ++ destinations b)
    ∧ ∀ id, id ∈ pending b ++ destinations b →
        ∃ r, readers b !! id = Some r ∧ joined r = None;
  ok_listeners : ∀ id, id ∈ listeners b → is_Some (readers b !! id);
  ok_delivery : delivery_ok b;
}.

Lemma broker_ok_new : broker_ok NewBroker.
Proof. split; try done. simpl. split; [constructor | set_solver]. Qed.

Lemma broker_ok_waiting_None b id r :
  broker_ok b → id ∈ pending b ++ destinations b → readers b !! id = Some r → joined r = None.
Proof. intros Hok Hin Hr. apply Hok in Hin as (r' & Hr' & ?). by simplify_eq. Qed.

Lemma ok_Read_make b id :
  broker_ok b → readers b !! id = None → broker_ok (Read_make id b).
Proof.
  intros [Hf Hr [Hnd Hw] Hl Hd] Hid.
  assert (Hnew : id ∉ listeners b).
  { intros Hin. apply Hl in Hin as [r Hin]. congruence. }
  split; simpl; [done | | | | done].
  - intros id' r. rewrite lookup_insert_Some. intros [[<- <-] | [Hne Hr']].
    + split; [apply new_reader_ok | done].
    + by apply Hr.
  - split.
    + apply NoDup_cons. split; [| done]. intros Hin.
      apply Hw in Hin as (r & Hin & _). congruence.
    + intros id' [-> | Hin]%elem_of_cons; [rewrite lookup_insert_eq; eauto |].
      destruct (Hw id' Hin) as (r & Hr' & Hj). exists r.
      rewrite lookup_insert_ne; [done |]. by intros ->; simplify_eq.
  - intros id' Hin. apply lookup_insert_is_Some. destruct (decide (id = id')); [by left |].
    right. split; [done | by apply Hl].
Qed.

Lemma ok_Read_send b id rest :
  broker_ok b → pending b ≡ₚ id :: rest → broker_ok (Read_send id rest b).
Proof.
  intros [Hf Hr [Hnd Hw] Hl Hd] Hp.
  assert (Hperm : rest ++ destinations b ++ [id] ≡ₚ pending b ++ destinations b).
  { rewrite Hp, app_assoc, (Permutation_app_comm _ [id]). done. }
  split; simpl; [done | done | | done | done].
  split; [by rewrite Hperm |]. intros id'. rewrite Hperm. apply Hw.
Qed.

Lemma ok_Write b msg : broker_ok b → broker_ok (Write msg b).
Proof.
  intros [Hf Hr Hw Hl Hd]. split; simpl; [| done.. ].
  by rewrite app_assoc, Hf.
Qed.

Lemma ok_register b id rest :
  broker_ok b → listen b = Selecting → destinations b = id :: rest →
  broker_ok (register id rest b).
Proof.
  intros Hok Hs Hds. assert (Hok' := Hok).
  destruct Hok as [Hf Hr [Hnd Hw] Hl Hd].
  destruct (Hw id) as (r0 & Hr0 & Hj0); [rewrite Hds; set_solver |].
  rewrite Hds in *.
  assert (Hperm : pending b ++ id :: rest ≡ₚ id :: (pending b ++ rest))
    by by rewrite Permutation_middle.
  rewrite Hperm in Hnd. apply NoDup_cons in Hnd as [Hid Hnd].
  split; simpl; [done | | | | by unfold delivery_ok in *; simpl; rewrite Hs].
  - intros id' r Hr'. destruct (decide (id' = id)) as [-> | Hne].
    + rewrite lookup_alter_eq, Hr0 in Hr'. simplify_eq/=.
      destruct (Hr id r0 Hr0) as [[] Hjo]. unfold joined_ok in Hjo. rewrite Hj0 in Hjo.
      destruct Hjo as [Hoff _]. split; [by split |].
      unfold joined_ok, in_flight. simpl. rewrite Hs. split_and!; [set_solver | done |].
      by rewrite drop_all, Hoff.
    + rewrite lookup_alter_ne in Hr' by done. destruct (Hr id' r Hr') as [Hro Hjo].
      split; [done |]. unfold joined_ok, in_flight in *. simpl. rewrite Hs in *.
      destruct (joined r); [| set_solver]. destruct Hjo as (? & ? & ?). by split_and!; [set_solver | |].
  - split; [done |]. intros id' Hin. destruct (Hw id') as (r & Hr' & Hj); [rewrite Hperm; set_solver |].
    exists r. rewrite lookup_alter_ne; [done |]. by intros ->.
  - intros id' [->%elem_of_singleton | Hin]%elem_of_union; apply lookup_alter_is_Some; [by eexists | by apply Hl].
Qed.

Lemma ok_take b msg rest it :
  broker_ok b → listen b = Selecting → source b = msg :: rest →
  it ≡ₚ elements (listeners b) → broker_ok (take_message msg rest it b).
Proof.
  intros [Hf Hr Hw Hl Hd] Hs Hsrc Hit. rewrite Hsrc in Hf.
  split; simpl; [by rewrite <- app_assoc | | done | done |].
  - intros id r Hr'. destruct (Hr id r Hr') as [Hro Hjo]. split; [done |].
    unfold joined_ok, in_flight in *. simpl. rewrite Hs in Hjo.
    destruct (joined r) as [j |]; [| done]. destruct Hjo as (Hin & Hle & Hdrop).
    rewrite decide_True by (rewrite Hit; by apply elem_of_elements).
    rewrite app_nil_r in Hdrop. rewrite length_app, drop_app_le, Hdrop by done.
    split_and!; [done | lia | done].
  - unfold delivery_ok. simpl. split; [rewrite Hit; apply NoDup_elements |].
    intros id. by rewrite Hit, elem_of_elements.
Qed.

Lemma offer_joined msg r : joined (offer msg r) = joined r.
Proof. unfold offer. by case_decide. Qed.

Lemma offer_offered msg r : offered (offer msg r) = offered r ++ [msg].
Proof. unfold offer. by case_decide. Qed.

Lemma waiting_alter f id b :
  (∀ r, joined (f r) = joined r) →
  (∀ id', id' ∈ pending b ++ destinations b →
     ∃ r, readers b !! id' = Some r ∧ joined r = None) →
  ∀ id', id' ∈ pending b ++ destinations b →
    ∃ r, alter f id (readers b) !! id' = Some r ∧ joined r = None.
Proof.
  intros Hj Hw id' Hin. destruct (Hw id' Hin) as (r & Hr & Hn).
  destruct (decide (id' = id)) as [-> | Hne].
  - exists (f r). rewrite lookup_alter_eq, Hr, Hj. done.
  - exists r. by rewrite lookup_alter_ne.
Qed.

Lemma ok_offer b msg id rest :
  broker_ok b → listen b = Delivering msg (id :: rest) →
  broker_ok (set_listen (Delivering msg rest) (alter (offer msg) id (readers b)) b).
Proof.
  intros [Hf Hr [Hnd Hw] Hl Hd] Hs. unfold delivery_ok in Hd. rewrite Hs in Hd.
  destruct Hd as [Hnodup Hsub]. apply NoDup_cons in Hnodup as [Hid Hnodup].
  split; simpl; [done | | | |].
  - intros id' r Hr'. destruct (decide (id' = id)) as [-> | Hne].
    + rewrite lookup_alter_eq in Hr'. destruct (readers b !! id) as [r0 |] eqn:E; [| done].
      simplify_eq/=. destruct (Hr id r0 E) as [Hro Hjo]. split; [by apply offer_ok |].
      unfold joined_ok, in_flight in *. simpl. rewrite Hs, decide_True in Hjo by (by left).
      rewrite decide_False, offer_joined, offer_offered by done.
      destruct (joined r0); [by rewrite app_nil_r |].
      destruct Hjo as [_ Hno]. destruct Hno. apply Hsub. by left.
    + rewrite lookup_alter_ne in Hr' by done. destruct (Hr id' r Hr') as [Hro Hjo].
      split; [done |]. unfold joined_ok, in_flight in *. simpl. rewrite Hs in Hjo.
      destruct (joined r) as [j |]; [| done]. destruct Hjo as (? & ? & Hdrop).
      split_and!; [done.. |]. rewrite Hdrop. f_equal.
      destruct (decide (id' ∈ rest)); [rewrite decide_True by (by right); done |].
      rewrite decide_False; [done |]. by intros [-> |]%elem_of_cons.
  - split; [done |]. apply waiting_alter; [apply offer_joined | done].
  - intros id' Hin. apply lookup_alter_is_Some. by apply Hl.
  - split; [done |]. intros id' Hin. apply Hsub. by right.
Qed.

(** Steps that only move the goroutine of [Listen] to a place where no message
    is on its way. *)
Lemma ok_set_listen b l :
  broker_ok b → (∀ msg rest, l ≠ Delivering msg rest) →
  (listen b = Selecting ∨ ∃ msg, listen b = Delivering msg []) →
  broker_ok (set_listen l (readers b) b).
Proof.
  intros [Hf Hr Hw Hl Hd] Hnl Hs.
  assert (Hin : ∀ id, in_flight b id = []).
  { intros id. unfold in_flight. destruct Hs as [-> | [msg ->]]; [done |].
    rewrite decide_False; [done | apply not_elem_of_nil]. }
  split; simpl; [done | | done | done | by unfold delivery_ok; simpl; destruct l; [| edestruct Hnl |]].
  intros id r Hr'. destruct (Hr id r Hr') as [Hro Hjo]. split; [done |].
  unfold joined_ok in *. rewrite Hin in Hjo. unfold in_flight. simpl.
  by destruct l; [| edestruct Hnl |].
Qed.

Lemma ok_receive b id r msg rest :
  broker_ok b → readers b !! id = Some r → buffer r = msg :: rest →
  broker_ok (set_listen (listen b) (<[id := receive r msg rest]> (readers b)) b).
Proof.
  intros [Hf Hr [Hnd Hw] Hl Hd] Hid Hb. split; simpl; [done | | | | done].
  - intros id' r'. rewrite lookup_insert_Some. intros [[<- <-] | [Hne Hr']].
    + destruct (Hr id r Hid) as [Hro Hjo]. split; [by apply receive_ok | done].
    + by apply Hr.
  - split; [done |]. intros id' Hin. destruct (Hw id' Hin) as (r' & Hr' & Hn).
    destruct (decide (id = id')) as [<- | Hne].
    + exists (receive r msg rest). rewrite lookup_insert_eq. simplify_eq. done.
    + exists r'. by rewrite lookup_insert_ne.
  - intros id' Hin. apply lookup_insert_is_Some. destruct (decide (id = id')); [by left |].
    right. split; [done | by apply Hl].
Qed.

Lemma broker_ok_step b b' : broker_ok b → step b b' → broker_ok b'.
Proof.
  intros Hok Hstep. destruct Hstep as [b id Hid | b id rest Hp Hcap | b msg Hcap
    | b id rest Hs Hds | b msg rest it Hs Hsrc Hit | b msg id rest Hs | b msg Hs
    | b Hs Hq | b id r msg rest Hid Hb | b b' Hstop].
  - by apply ok_Read_make.
  - by apply ok_Read_send.
  - by apply ok_Write.
  - by apply ok_register.
  - by apply ok_take.
  - by apply ok_offer.
  - apply ok_set_listen; [done | done | by eauto].
  - apply ok_set_listen; [done | done | by left].
  - by apply ok_receive.
  - unfold Stop in Hstop. destruct (quit b); [done |]. simplify_eq.
    destruct Hok as [Hf Hr Hw Hl Hd]. by split.
Qed.

Lemma reachable_ok b : reachable b → broker_ok b.
Proof.
  intros Hb. eapply rtc_invariant; [by apply broker_ok_step | done | apply broker_ok_new].
Qed.

Lemma sublist_same_length (l1 l2 : list T) :
  l1 `sublist_of` l2 → length l2 = length l1 → l1 = l2.
Proof.
  induction 1 as [| x l1 l2 _ IH | x l1 l2 Hsub _]; simpl; intros Hl; [done | |].
  - f_equal. apply IH. lia.
  - apply sublist_length in Hsub. lia.
Qed.

(** The capacities bound what can wait. *)
Definition caps_ok b : Prop :=
  length (source b) ≤ source_cap ∧ length (destinations b) ≤ destinations_cap.

Lemma caps_ok_step b b' : caps_ok b → step b b' → caps_ok b'.
Proof.
  unfold caps_ok, source_cap, destinations_cap. intros [Hs Hd] Hstep.
  destruct Hstep as [| | | b id rest _ E | b msg rest it _ E _ | | | | | b b' Hstop];
    unfold source_cap, destinations_cap in *; simpl; rewrite ?length_app; simpl; try lia.
  - rewrite E in Hd. simpl in Hd. lia.
  - rewrite E in Hs. simpl in Hs. lia.
  - unfold Stop in Hstop. destruct (quit b); [done |]. by simplify_eq.
Qed.

Lemma reachable_caps b : reachable b → caps_ok b.
Proof.
  intros Hb. eapply rtc_invariant; [by apply caps_ok_step | done |].
  unfold caps_ok. simpl. unfold source_cap, destinations_cap. lia.
Qed.

(** What no step of the broker's own goroutine touches. *)
Definition untouched b b' : Prop :=
  source b' = source b ∧ taken b' = taken b ∧ written b' = written b
  ∧ destinations b' = destinations b
  ∧ ∀ id, got <$> readers b' !! id = got <$> readers b !! id.

Lemma offer_got msg r : got (offer msg r) = got r.
Proof. unfold offer. by case_decide. Qed.

(** A delivery ends, whether or not the readers receive. *)
Lemma delivery_ends b msg rest :
  listen b = Delivering msg rest →
  ∃ b', rtc step b b' ∧ listen b' = Selecting ∧ untouched b b'.
Proof.
  revert b. induction rest as [| id rest IH]; intros b Hs.
  - eexists. split; [by eapply rtc_once, step_delivered |]. by split_and!.
  - destruct (IH (set_listen (Delivering msg rest) (alter (offer msg) id (readers b)) b))
      as (b' & Hrun & Hl & ? & ? & ? & ? & Hgot); [done |].
    exists b'. split_and!; [| done |].
    + eapply rtc_l; [by apply step_offer | done].
    + split_and!; try done. intros id'. rewrite Hgot. simpl.
      destruct (decide (id' = id)) as [-> | Hne]; [| by rewrite lookup_alter_ne].
      rewrite lookup_alter_eq. destruct (readers b !! id); simpl; [| done].
      by rewrite offer_got.
Qed.

(** What a reader that was registered after [j] messages has got. *)
Lemma delivered b id r j :
  reachable b → listen b = Selecting → readers b !! id = Some r → joined r = Some j →
  taken b ++ source b = written b
  ∧ got r ++ buffer r `sublist_of` drop j (taken b)
  ∧ length (drop j (taken b)) = length (got r ++ buffer r) + lost r
  ∧ (lost r = 0 → got r ++ buffer r = drop j (taken b))
  ∧ (length (drop j (taken b)) ≤ reader_cap → lost r = 0).
Proof.
  intros Hb Hs Hr Hj. apply reachable_ok in Hb as [Hf Hrs _ _ _].
  destruct (Hrs id r Hr) as [[Hcap Hord Hcnt Hlost _] Hjo].
  unfold joined_ok, in_flight in Hjo. rewrite Hj, Hs, app_nil_r in Hjo.
  destruct Hjo as (_ & _ & ->). split_and!; try done.
  intros Hz. rewrite Hz, Nat.add_0_r in Hcnt. by apply sublist_same_length.
Qed.

(** The same at any time, with the queue that decides what is lost. *)
Lemma delivers b id r j :
  reachable b → readers b !! id = Some r → joined r = Some j →
  let q := queue_run reader_cap (history r) in
  taken b ++ source b = written b
  ∧ offers (history r) ++ in_flight b id = drop j (taken b)
  ∧ waiting q = buffer r ∧ passed q = got r ∧ length (dropped q) = lost r
  ∧ got r ++ buffer r `sublist_of` drop j (taken b)
  ∧ (lost r = 0 → got r ++ buffer r ++ in_flight b id = drop j (taken b)).
Proof.
  intros Hb Hr Hj q. apply reachable_ok in Hb as [Hf Hrs _ _ _].
  destruct (Hrs id r Hr) as [[Hcap Hord Hcnt Hlost (Hoff & Hw & Hp & Hd)] Hjo].
  unfold joined_ok in Hjo. rewrite Hj in Hjo. destruct Hjo as (_ & _ & Hjo).
  split_and!; [done | by rewrite Hoff | done.. | |].
  - rewrite Hjo. by apply sublist_inserts_r.
  - intros Hz. rewrite Hz, Nat.add_0_r in Hcnt.
    by rewrite Hjo, app_assoc, (sublist_same_length _ _ Hord Hcnt).
Qed.

(** ** Properties *)

(** C10. Delivery: in every reachable state the broker has taken the written
    messages in order.  A reader that was registered after [j] messages has
    been offered exactly the messages taken since, but for the one that is on
    its way to it; and its channel is the bounded queue of five places that
    ran on what happened there: what it has received and what waits for it are
    what was offered, in order, less the messages that were dropped, and a
    message was dropped exactly if five others waited when it was offered.  So
    a reader for which none was dropped misses nothing. *)
Theorem broker_delivers b id r j :
  reachable b → readers b !! id = Some r → joined r = Some j →
  let q := queue_run reader_cap (history r) in
  taken b ++ source b = written b
  ∧ offers (history r) ++ in_flight b id = drop j (taken b)
  ∧ waiting q = buffer r ∧ passed q = got r ∧ length (dropped q) = lost r
  ∧ got r ++ buffer r `sublist_of` drop j (taken b)
  ∧ (lost r = 0 → got r ++ buffer r ++ in_flight b id = drop j (taken b)).
Proof. apply delivers. Qed.

(** The broker does not wait for its readers: from every reachable state in
    which its goroutine has not returned, a message can be written and taken,
    after those that wait, without any reader receiving anything. *)
Theorem writers_are_served b msg :
  reachable b → listen b ≠ Returned →
  ∃ b', rtc step b b' ∧ taken b' = written b ++ [msg]
    ∧ ∀ id, got <$> readers b' !! id = got <$> readers b !! id.
Proof.
  intros Hb Hl.
  assert (∃ b1, rtc step b b1 ∧ listen b1 = Selecting ∧ untouched b b1)
    as (b1 & Hrun1 & Hs1 & Hsrc1 & Htk1 & Hw1 & _ & Hg1).
  { destruct (listen b) as [| m rest |] eqn:E; [| by eapply delivery_ends | done].
    exists b. by split_and!. }
  assert (∃ b2, rtc step b1 b2 ∧ listen b2 = Selecting ∧ source b2 = []
    ∧ taken b2 = written b ∧ written b2 = written b
    ∧ ∀ id, got <$> readers b2 !! id = got <$> readers b !! id)
    as (b2 & Hrun2 & Hs2 & Hsrc2 & Htk2 & Hw2 & Hg2).
  { assert (Hf := ok_fifo _ (reachable_ok _ Hb)).
    destruct (reachable_caps _ Hb) as [Hc _]. unfold source_cap in Hc.
    destruct (source b) as [| m [|]] eqn:E; [| | simpl in Hc; lia].
    - rewrite app_nil_r in Hf. exists b1. split_and!; congruence || done.
    - destruct (delivery_ends (take_message m [] (elements (listeners b1)) b1) m
        (elements (listeners b1))) as (b2 & Hrun & Hs2 & Hsrc2 & Htk2 & Hw2 & _ & Hg2); [done |].
      exists b2. simpl in *. split_and!; try congruence.
      eapply rtc_l; [| exact Hrun]. apply step_take; [done | congruence | done]. }
  set (b3 := Write msg b2).
  exists (take_message msg [] (elements (listeners b3)) b3). split_and!.
  - etrans; [done |]. etrans; [done |].
    eapply rtc_l; [apply step_Write; rewrite Hsrc2; unfold source_cap; simpl; lia |].
    apply rtc_once, step_take; [done | by simpl; rewrite Hsrc2 | done].
  - simpl. by rewrite Htk2.
  - done.
Qed.

(** After the goroutine of [Listen] has returned, nothing is taken any more:
    at most one further write and one further registration complete, then
    every call of [Write] and of [Read] blocks for good. *)
Theorem returned_broker_blocks b b' :
  reachable b → listen b = Returned → rtc step b b' →
  listen b' = Returned ∧ taken b' = taken b
  ∧ length (written b') ≤ length (taken b) + source_cap
  ∧ length (destinations b') ≤ destinations_cap
  ∧ (∀ id, id ∈ listeners b' ↔ id ∈ listeners b).
Proof.
  intros Hb Hl Hrun.
  assert (Hb' : reachable b') by (unfold reachable in *; by etrans).
  assert (Hinv : listen b' = Returned ∧ taken b' = taken b ∧ listeners b' = listeners b).
  { apply (rtc_invariant step
      (λ x, listen x = Returned ∧ taken x = taken b ∧ listeners x = listeners b) b b');
      [| done | done].
    intros x y (Hx & Ht & Hli) Hstep.
    destruct Hstep as [| | | | | | | | | x y Hstop]; simpl in *; try congruence; try done.
    unfold Stop in Hstop. destruct (quit x); [done |]. by simplify_eq. }
  destruct Hinv as (Hl' & Ht & Hli). split_and!; [done | done | | | by rewrite Hli].
  - rewrite <- (ok_fifo _ (reachable_ok _ Hb')), length_app, Ht.
    destruct (reachable_caps _ Hb'). lia.
  - by destruct (reachable_caps _ Hb').
Qed.

(** [Read] returns before its channel is registered: a message that is written
    after [Read] has returned can pass the broker without being offered to the
    new reader. *)
Theorem reader_can_miss_a_message msg :
  ∃ b1 b2 b3 r, reachable b1 ∧ 0 ∉ pending b1 ∧ is_Some (readers b1 !! 0)
    ∧ step b1 b2 ∧ written b2 = written b1 ++ [msg]
    ∧ rtc step b2 b3 ∧ listen b3 = Selecting ∧ readers b3 !! 0 = Some r
    ∧ joined r ≠ None ∧ taken b3 = [msg] ∧ source b3 = [] ∧ offered r = [].
Proof.
  set (b0 := Read_make 0 (NewBroker : Broker T)).
  set (b1 := Read_send 0 [] b0). set (b2 := Write msg b1).
  set (b3 := take_message msg [] [] b2).
  set (b4 := set_listen Selecting (readers b3) b3). set (b5 := register 0 [] b4).
  exists b1, b2, b5,
    {| buffer := []; got := []; joined := Some 1; offered := []; lost := 0; history := [] |}.
  assert (length (@nil nat) < destinations_cap) by (unfold destinations_cap; simpl; lia).
  assert (length (@nil T) < source_cap) by (unfold source_cap; simpl; lia).
  split_and!; [| apply not_elem_of_nil | by eexists | by apply step_Write | done | | done..].
  - eapply rtc_l; [by apply (step_Read_make _ 0) |].
    apply rtc_once. by apply (step_Read_send b0 0 []).
  - eapply rtc_l; [by apply (step_take b2 msg [] []) |].
    eapply rtc_l; [by apply (step_delivered b3 msg) |].
    apply rtc_once. by apply (step_register b4 0 []).
Qed.
End broker_lemmas.

Lemma broker_example_reachable :
  let b1 := Read_send 0 [] (Read_make 0 (NewBroker : Broker nat)) in
  let b2 := Write 7 (register 0 [] b1) in
  let b3 := take_message 7 [] [0] b2 in
  reachable (set_listen Selecting (alter (offer 7) 0 (readers b3)) b3).
Proof.
  intros b1 b2 b3. unfold reachable.
  eapply rtc_l; [by apply (step_Read_make _ 0) |].
  eapply rtc_l; [by apply (step_Read_send _ 0 []); [| simpl; unfold destinations_cap; lia] |].
  eapply rtc_l; [by apply (step_register b1 0 []) |].
  eapply rtc_l; [apply (step_Write (register 0 [] b1) 7); simpl; unfold source_cap; lia |].
  eapply rtc_l; [by apply (step_take b2 7 [] [0]); [| | vm_compute] |].
  eapply rtc_l; [by apply (step_offer b3 7 0 []) |].
  apply rtc_once. by apply (step_delivered (set_listen (Delivering 7 []) _ b3) 7).
Qed.

Definition broker_example : Broker nat :=
  let b1 := Read_send 0 [] (Read_make 0 NewBroker) in
  let b2 := Write 7 (register 0 [] b1) in
  let b3 := take_message 7 [] [0] b2 in
  set_listen Selecting (alter (offer 7) 0 (readers b3)) b3.

(** Between two readers: the message has reached the first one only. *)
Definition broker_delivering : Broker nat :=
  let b1 := Read_send 0 [] (Read_make 0 NewBroker) in
  let b2 := Write 7 (register 0 [] b1) in
  take_message 7 [] [0] b2.

Lemma broker_delivering_reachable : reachable broker_delivering.
Proof.
  unfold reachable. set (b1 := Read_send 0 [] (Read_make 0 (NewBroker : Broker nat))).
  eapply rtc_l; [by apply (step_Read_make _ 0) |].
  eapply rtc_l; [by apply (step_Read_send _ 0 []); [| simpl; unfold destinations_cap; lia] |].
  eapply rtc_l; [by apply (step_register b1 0 []) |].
  eapply rtc_l; [apply (step_Write (register 0 [] b1) 7); simpl; unfold source_cap; lia |].
  apply rtc_once. by apply (step_take (Write 7 (register 0 [] b1)) 7 [] [0]); [| | vm_compute].
Qed.

(** While the message is on its way, and when it has arrived. *)
Lemma broker_delivers_witness :
  (let r := {| buffer := []; got := []; joined := Some 0; offered := []; lost := 0; history := [] |} in
   offers (history r) ++ in_flight broker_delivering 0 = drop 0 (taken broker_delivering))
  ∧ let r := {| buffer := [7]; got := []; joined := Some 0; offered := [7]; lost := 0;
                history := [Offered 7] |} in
    waiting (queue_run reader_cap (history r)) = buffer r
    ∧ (lost r = 0 → got r ++ buffer r ++ in_flight broker_example 0 = drop 0 (taken broker_example)).
Proof.
  split; intros r.
  - apply (broker_delivers broker_delivering 0 r 0); [apply broker_delivering_reachable | done..].
  - destruct (broker_delivers broker_example 0 r 0) as (_ & _ & Hw & _ & _ & _ & Hall);
      [apply broker_example_reachable | done.. | by split].
Defined.

Lemma writers_are_served_witness :
  ∃ b', rtc step broker_example b' ∧ taken b' = written broker_example ++ [8]
    ∧ ∀ id, got <$> readers b' !! id = got <$> readers broker_example !! id.
Proof. apply writers_are_served; [apply broker_example_reachable | done]. Defined.

(** A broker that was stopped and has returned. *)
Definition stopped_broker : Broker nat :=
  {| destinations := []; source := []; listeners := ∅; pending := []; readers := ∅;
     listen := Returned; quit := true; taken := []; written := [] |}.

Lemma stopped_broker_reachable : reachable stopped_broker.
Proof.
  eapply rtc_l; [exact (step_Stop NewBroker _ eq_refl) |].
  apply rtc_once.
  exact (step_quit {| destinations := []; source := []; listeners := ∅; pending := [];
                      readers := ∅; listen := Selecting; quit := true; taken := [];
                      written := [] |} eq_refl eq_refl).
Qed.

Lemma returned_broker_blocks_witness :
  listen (Write 7 stopped_broker) = Returned
  ∧ taken (Write 7 stopped_broker) = taken stopped_broker
  ∧ length (written (Write 7 stopped_broker)) ≤ length (taken stopped_broker) + source_cap
  ∧ length (destinations (Write 7 stopped_broker)) ≤ destinations_cap
  ∧ (∀ id, id ∈ listeners (Write 7 stopped_broker) ↔ id ∈ listeners stopped_broker).
Proof.
  apply returned_broker_blocks; [apply stopped_broker_reachable | done |].
  apply rtc_once, step_Write. simpl. unfold source_cap. lia.
Defined.
