(* ===== verification/NodeChannels.v ===== *)
(** The node channels of the control plane: [NodeRegistryServer.OpenChannel]
    (package [pkg/registry], file [node_regisry.go]) running for several nodes
    on one message broker ([pkg/channel]).

    Every open channel is a session with two goroutines: the receive loop of
    the call, which writes the messages of its stream to the broker, and the
    goroutine that forwards what the broker copies into the session's reader
    to the stream.  The steps are the sends and receives of these goroutines
    and of the broker's [Listen]; what a session does between two of them does
    not involve shared state.  The broker is never stopped: the program does
    not call [Stop]. *)
From S2P Require Import Prelude GoStrings Deployment NodeRegistry Broker.

Local Open Scope list_scope.

Abbreviation Message := DeploymentConfiguration.

(** ** Sessions *)

(** Where the call is: in [s.broker.Read()], in the loop, after an error of
    [stream.Recv()] with the result to come, or returned. *)
Inductive call_phase :=
| Reading
| Receiving
| Ending (r : outcome unit)
| Done (r : outcome unit).

(** [to_write] holds the calls of [s.broker.Write] to come before the call goes
    on; [received] records the messages received, [sent] the arguments of
    [stream.Send], whose errors are only logged. *)
Record session := {
  nodeHostname : string;
  phase : call_phase;
  to_write : list Message;
  received : list Message;
  sent : list Message;
  forwarding : bool;      (* the second goroutine runs *)
  stream_done : bool;     (* the context of the stream is done *)
}.

(** After the checks of the header, up to [s.broker.Read()]. *)
Definition new_session (nodeHostname : string) : session :=
  {| nodeHostname := nodeHostname; phase := Reading; to_write := []; received := [];
     sent := []; forwarding := false; stream_done := false |}.

(** [Read] has returned: the goroutine is started and the start announced. *)
Definition start_session (x : session) : session :=
  {| nodeHostname := nodeHostname x; phase := Receiving;
     to_write := announce_state (DeploymentConfigForStartingNode (nodeHostname x));
     received := received x; sent := sent x; forwarding := true;
     stream_done := stream_done x |}.

(** [stream.Recv()] returns a message. *)
Definition recv_message (msg : Message) (x : session) : session :=
  {| nodeHostname := nodeHostname x; phase := phase x; to_write := [msg];
     received := received x ++ [msg]; sent := sent x; forwarding := forwarding x;
     stream_done := stream_done x |}.

(** [stream.Recv()] returns an error. *)
Definition recv_error (err : error) (x : session) : session :=
  {| nodeHostname := nodeHostname x;
     phase := Ending (if decide (err = EOF) then Ret () else Fail err);
     to_write := announce_state (DeploymentConfigForStoppedNode (nodeHostname x));
     received := received x; sent := sent x; forwarding := forwarding x;
     stream_done := stream_done x |}.

(** The remaining calls of [Write]. *)
Definition set_to_write (ms : list Message) (x : session) : session :=
  {| nodeHostname := nodeHostname x; phase := phase x; to_write := ms;
     received := received x; sent := sent x; forwarding := forwarding x;
     stream_done := stream_done x |}.

(** [cancel()], and the return of the call. *)
Definition finish (r : outcome unit) (x : session) : session :=
  {| nodeHostname := nodeHostname x; phase := Done r; to_write := [];
     received := received x; sent := sent x; forwarding := forwarding x;
     stream_done := stream_done x |}.

(** [stream.Send(msgDplmCfg)] *)
Definition send_message (msg : Message) (x : session) : session :=
  {| nodeHostname := nodeHostname x; phase := phase x; to_write := to_write x;
     received := received x; sent := sent x ++ [msg]; forwarding := forwarding x;
     stream_done := stream_done x |}.

Definition set_stream_done (x : session) : session :=
  {| nodeHostname := nodeHostname x; phase := phase x; to_write := to_write x;
     received := received x; sent := sent x; forwarding := forwarding x;
     stream_done := true |}.

(** The second goroutine returns when the stream is done or was cancelled. *)
Definition may_return (x : session) : bool :=
  stream_done x || match phase x with Done _ => true | _ => false end.

Definition stop_forwarding (x : session) : session :=
  {| nodeHostname := nodeHostname x; phase := phase x; to_write := to_write x;
     received := received x; sent := sent x; forwarding := false;
     stream_done := stream_done x |}.

(** ** The server *)

(** The reader of a session has the number of the session.  [log] records the
    messages written to the broker, with the session they come from. *)
Record NodeChannels := {
  registry : NodeRegistryServer;
  broker : Broker Message;
  sessions : gmap nat session;
  log : list (nat * Message);
}.

Definition NewNodeChannels : NodeChannels :=
  {| registry := NewNodeRegistryServer; broker := NewBroker; sessions := ∅; log := [] |}.

Definition set_registry (s : NodeRegistryServer) (st : NodeChannels) : NodeChannels :=
  {| registry := s; broker := broker st; sessions := sessions st; log := log st |}.
Definition set_broker (b : Broker Message) (st : NodeChannels) : NodeChannels :=
  {| registry := registry st; broker := b; sessions := sessions st; log := log st |}.
Definition set_session (sid : nat) (x : session) (st : NodeChannels) : NodeChannels :=
  {| registry := registry st; broker := broker st; sessions := <[sid := x]> (sessions st);
     log := log st |}.
Definition log_write (sid : nat) (msg : Message) (st : NodeChannels) : NodeChannels :=
  {| registry := registry st; broker := broker st; sessions := sessions st;
     log := log st ++ [(sid, msg)] |}.

(** The goroutine of [Listen]. *)
Inductive listening : Broker Message → Broker Message → Prop :=
| listening_register b id rest :
    listen b = Selecting → destinations b = id :: rest → listening b (register id rest b)
| listening_take b msg rest it :
    listen b = Selecting → source b = msg :: rest → it ≡ₚ elements (listeners b) →
    listening b (take_message msg rest it b)
| listening_offer b msg id rest :
    listen b = Delivering msg (id :: rest) →
    listening b (set_listen (Delivering msg rest) (alter (offer msg) id (readers b)) b)
| listening_delivered b msg :
    listen b = Delivering msg [] → listening b (set_listen Selecting (readers b) b).

Inductive channel_step : NodeChannels → NodeChannels → Prop :=
| step_Register st req s' n resp :
    Register (registry st) req = Ret (s', n, resp) → channel_step st (set_registry s' st)
| step_open st sid nodeID i node :
    ValidateNodeID (registry st) nodeID = Ret i →
    index_int (nodes (registry st)) i = Ret node →
    readers (broker st) !! sid = None →
    channel_step st (set_session sid (new_session (Host node))
                       (set_broker (Read_make sid (broker st)) st))
| step_Read st sid x rest :
    sessions st !! sid = Some x → phase x = Reading →
    pending (broker st) ≡ₚ sid :: rest → length (destinations (broker st)) < destinations_cap →
    channel_step st (set_session sid (start_session x)
                       (set_broker (Read_send sid rest (broker st)) st))
| step_Recv st sid x msg :
    sessions st !! sid = Some x → phase x = Receiving → to_write x = [] →
    channel_step st (set_session sid (recv_message msg x) st)
| step_Recv_error st sid x err :
    sessions st !! sid = Some x → phase x = Receiving → to_write x = [] →
    channel_step st (set_session sid (recv_error err x) st)
| step_Write st sid x msg ms :
    sessions st !! sid = Some x → to_write x = msg :: ms →
    length (source (broker st)) < source_cap →
    channel_step st (set_session sid (set_to_write ms x)
                       (log_write sid msg (set_broker (Write msg (broker st)) st)))
| step_finish st sid x r :
    sessions st !! sid = Some x → phase x = Ending r → to_write x = [] →
    channel_step st (set_session sid (finish r x) st)
| step_forward st sid x r msg rest :
    sessions st !! sid = Some x → forwarding x = true →
    readers (broker st) !! sid = Some r → buffer r = msg :: rest →
    channel_step st
      (set_session sid (send_message msg x)
         (set_broker (set_listen (listen (broker st))
                        (<[sid := receive r msg rest]> (readers (broker st))) (broker st)) st))
| step_stream_done st sid x :
    sessions st !! sid = Some x → channel_step st (set_session sid (set_stream_done x) st)
| step_stop_forwarding st sid x :
    sessions st !! sid = Some x → forwarding x = true → may_return x = true →
    channel_step st (set_session sid (stop_forwarding x) st)
| step_Listen st b' :
    listening (broker st) b' → channel_step st (set_broker b' st).

Definition reachable_channels (st : NodeChannels) : Prop := rtc channel_step NewNodeChannels st.

(** ** Lemmas *)

(** The messages of one session in the log. *)
Definition origin (sid : nat) (l : list (nat * Message)) : list Message :=
  (filter (λ e, e.1 = sid) l).*2.

Lemma origin_snoc_same sid msg l : origin sid (l ++ [(sid, msg)]) = origin sid l ++ [msg].
Proof.
  unfold origin. rewrite filter_app, fmap_app, filter_cons_True, filter_nil by done. done.
Qed.

Lemma origin_snoc_other sid sid' msg l :
  sid' ≠ sid → origin sid (l ++ [(sid', msg)]) = origin sid l.
Proof.
  intros Hne. unfold origin.
  rewrite filter_app, fmap_app, filter_cons_False, filter_nil by done. by rewrite app_nil_r.
Qed.

Lemma announce_state_nil d : announce_state d = [].
Proof. done. Qed.

Lemma listening_step b b' : listening b b' → Broker.step b b'.
Proof. intros []; by econstructor. Qed.

(** The broker does not change what readers have received, nor what was
    written. *)
Lemma listening_frame b b' :
  listening b b' →
  written b' = written b ∧ ∀ id, got <$> readers b' !! id = got <$> readers b !! id.
Proof.
  intros []; split; try done; intros id'; cbn [readers register take_message set_listen].
  - destruct (decide (id = id')) as [<- | Hne];
      [rewrite lookup_alter_eq; by destruct (_ !! id) | by rewrite lookup_alter_ne].
  - destruct (decide (id = id')) as [<- | Hne]; [| by rewrite lookup_alter_ne].
    rewrite lookup_alter_eq. destruct (_ !! id); [| done]. simpl. by rewrite offer_got.
Qed.

(** A session has received what it wrote and what it still has to write, and
    has sent what it received from its reader. *)
Definition session_ok (b : Broker Message) (l : list (nat * Message)) (sid : nat) (x : session)
    : Prop :=
  received x = origin sid l ++ to_write x
  ∧ got <$> readers b !! sid = Some (sent x)
  ∧ (phase x = Reading → to_write x = []).

Record channels_ok (st : NodeChannels) : Prop := {
  ok_broker : reachable (broker st);
  ok_log : written (broker st) = (log st).*2;
  ok_sessions : ∀ sid x, sessions st !! sid = Some x → session_ok (broker st) (log st) sid x;
  ok_fresh : ∀ sid, readers (broker st) !! sid = None → origin sid (log st) = [];
}.

Lemma channels_ok_new : channels_ok NewNodeChannels.
Proof. split; [constructor | done | done | done]. Qed.

(** A step of one session that neither writes nor touches the broker. *)
Lemma ok_set_session st sid x x' :
  channels_ok st → sessions st !! sid = Some x →
  received x' = origin sid (log st) ++ to_write x' → sent x' = sent x →
  (phase x' = Reading → to_write x' = []) →
  channels_ok (set_session sid x' st).
Proof.
  intros [Hb Hl Hs Hf] Hx Hr Hsent Hph. split; [done | done | | done].
  intros sid' y Hy. cbn [sessions set_session] in Hy.
  destruct (decide (sid = sid')) as [<- | Hne].
  - rewrite lookup_insert_eq in Hy. injection Hy as <-. split_and!; [done | | done].
    rewrite Hsent. by apply (Hs sid x).
  - rewrite lookup_insert_ne in Hy by done. by apply Hs.
Qed.

(** A step of the broker that a session takes part in. *)
Lemma ok_broker_session st sid x' b' :
  channels_ok st → Broker.step (broker st) b' → written b' = written (broker st) →
  (∀ id, id ≠ sid → got <$> readers b' !! id = got <$> readers (broker st) !! id) →
  session_ok b' (log st) sid x' →
  channels_ok (set_session sid x' (set_broker b' st)).
Proof.
  intros [Hb Hl Hs Hf] Hstep Hw Hgot (Hr & Hg & Hph). split.
  - by eapply rtc_r.
  - cbn. by rewrite Hw.
  - intros sid' y Hy. cbn [sessions set_session set_broker broker log] in *.
    destruct (decide (sid = sid')) as [<- | Hne].
    + rewrite lookup_insert_eq in Hy. by injection Hy as <-.
    + rewrite lookup_insert_ne in Hy by done. destruct (Hs _ _ Hy) as (H1 & H2 & H3).
      split_and!; [done | | done]. by rewrite Hgot.
  - intros sid' Hnone. cbn [broker set_session set_broker log] in *. apply Hf.
    destruct (decide (sid' = sid)) as [-> | Hne]; [by rewrite Hnone in Hg |].
    specialize (Hgot _ Hne). rewrite Hnone in Hgot.
    by destruct (readers (broker st) !! sid').
Qed.

Lemma ok_session_Write st sid x msg ms :
  channels_ok st → sessions st !! sid = Some x → to_write x = msg :: ms →
  length (source (broker st)) < source_cap →
  channels_ok (set_session sid (set_to_write ms x)
                 (log_write sid msg (set_broker (Write msg (broker st)) st))).
Proof.
  intros [Hb Hl Hs Hf] Hx Hw Hroom. destruct (Hs _ _ Hx) as (Hr & Hg & Hph). split.
  - eapply rtc_r; [done |]. by apply Broker.step_Write.
  - cbn. rewrite Hl. by rewrite fmap_app.
  - intros sid' y Hy. cbn [sessions set_session set_broker broker log log_write] in *.
    destruct (decide (sid = sid')) as [<- | Hne].
    + rewrite lookup_insert_eq in Hy. injection Hy as <-. split_and!; [| done |].
      * cbn. by rewrite origin_snoc_same, <- app_assoc, Hr, Hw.
      * cbn. intros E. by rewrite (Hph E) in Hw.
    + rewrite lookup_insert_ne in Hy by done. destruct (Hs _ _ Hy) as (H1 & H2 & H3).
      split_and!; [| done | done]. by rewrite origin_snoc_other.
  - intros sid' Hnone. cbn [sessions set_session set_broker broker log log_write] in *.
    rewrite origin_snoc_other; [by apply Hf |].
    intros ->. cbn in Hnone. by rewrite Hnone in Hg.
Qed.

Lemma channels_ok_step st st' : channel_step st st' → channels_ok st → channels_ok st'.
Proof.
  intros Hstep Hok. assert (Hok' := Hok). destruct Hok' as [Hb Hl Hs Hf].
  destruct Hstep as [st req s' n resp _ | st sid nodeID i node _ _ Hfresh
    | st sid x rest Hx Hph Hp Hroom | st sid x msg Hx Hph Hw | st sid x err Hx Hph Hw
    | st sid x msg ms Hx Hw Hroom | st sid x r Hx Hph Hw | st sid x r msg rest Hx Hfw Hr Hbuf
    | st sid x Hx | st sid x Hx Hfw Hm | st b' Hlis];
    try (destruct (Hs _ _ Hx) as (Hrecv & Hg & Hrd)).
  - by split.
  - apply ok_broker_session; [done | by apply step_Read_make | done | |].
    + intros id Hne. cbn. by rewrite lookup_insert_ne.
    + split_and!; cbn; [by rewrite Hf | by rewrite lookup_insert_eq | done].
  - apply ok_broker_session; [done | by apply step_Read_send | done | done |].
    split_and!; [| done | done]. cbn [to_write start_session received].
    by rewrite announce_state_nil, Hrecv, Hrd.
  - eapply ok_set_session; [done | done | | done | cbn; by rewrite Hph].
    cbn. by rewrite Hrecv, Hw, app_nil_r.
  - eapply ok_set_session; [done | done | | done | done].
    cbn [to_write recv_error received]. by rewrite announce_state_nil, Hrecv, Hw.
  - by eapply ok_session_Write.
  - eapply ok_set_session; [done | done | | done | done]. cbn. by rewrite Hrecv, Hw.
  - apply ok_broker_session; [done | by eapply step_receive | done | |].
    + intros id Hne. cbn. by rewrite lookup_insert_ne.
    + split_and!; cbn; [done | | done]. rewrite lookup_insert_eq. rewrite Hr in Hg.
      injection Hg as Hg. cbn. by rewrite Hg.
  - by eapply ok_set_session.
  - by eapply ok_set_session.
  - destruct (listening_frame _ _ Hlis) as [Hw Hgot]. split.
    + eapply rtc_r; [done | by apply listening_step].
    + cbn. by rewrite Hw.
    + intros sid x Hx. destruct (Hs _ _ Hx) as (H1 & H2 & H3). split_and!; [done | | done].
      cbn. by rewrite Hgot.
    + intros sid Hnone. apply Hf. cbn in Hnone. specialize (Hgot sid). rewrite Hnone in Hgot.
      by destruct (readers (broker st) !! sid).
Qed.

Lemma reachable_channels_ok st : reachable_channels st → channels_ok st.
Proof.
  intros Hst. eapply rtc_invariant; [| exact Hst | exact channels_ok_new].
  intros x y Hx Hxy. by eapply channels_ok_step.
Qed.

(** ** An execution: one node registers, opens its channel and sends a message,
    which the broker has copied into the reader of the channel. *)
Section sample.
Context (req : RegisterRequest) (m : Message).

Definition sample_session : session :=
  set_to_write [] (recv_message m (start_session (new_session (Address req)))).

Definition sample_reader : reader Message :=
  {| buffer := [m]; got := []; joined := Some 0; offered := [m]; lost := 0;
     history := [Offered m] |}.

Definition sample_channels : NodeChannels :=
  {| registry := {| nodes := [addr_of req] |};
     broker := {| destinations := []; source := []; listeners := {[ 0 ]}; pending := [];
                  readers := {[ 0 := sample_reader ]}; listen := Selecting; quit := false;
                  taken := [m]; written := [m] |};
     sessions := {[ 0 := sample_session ]};
     log := [(0, m)] |}.

Lemma sample_reachable : reachable_channels sample_channels.
Proof.
  set (x1 := start_session (new_session (Address req))). set (x2 := recv_message m x1).
  set (b2 := Read_send 0 [] (Read_make 0 (NewBroker : Broker Message))).
  set (b3 := register 0 [] b2). set (b4 := Write m b3). set (b5 := take_message m [] [0] b4).
  set (b6 := set_listen (Delivering m []) (alter (offer m) 0 (readers b5)) b5).
  unfold reachable_channels.
  eapply rtc_l; [by apply (step_Register _ req {| nodes := [addr_of req] |} (addr_of req)
                             {| Id := "node-0" |}) |].
  eapply rtc_l; [by apply (step_open _ 0 "node-0" 0 (addr_of req)) |].
  eapply rtc_l; [by apply (step_Read _ 0 (new_session (Address req)) []);
                   [| | | cbn; unfold destinations_cap; lia] |].
  eapply rtc_l; [by apply (step_Listen _ b3), (listening_register b2 0 []) |].
  eapply rtc_l; [by apply (step_Recv _ 0 x1 m) |].
  eapply rtc_l; [by apply (step_Write _ 0 x2 m []); [| | cbn; unfold source_cap; lia] |].
  eapply rtc_l; [apply (step_Listen _ b5), (listening_take b4 m [] [0]); by vm_compute |].
  eapply rtc_l; [by apply (step_Listen _ b6), (listening_offer b5 m 0 []) |].
  apply rtc_once.
  exact (step_Listen (set_broker b6 sample_channels) _ (listening_delivered b6 m eq_refl)).
Qed.
End sample.

(** ** Properties *)

(** C16. What nodes get from each other: in every reachable state of the node
    channels, every session that the broker serves has been offered, in one
    order common to all nodes, all messages that the nodes' streams delivered
    since the session was registered, but for the one that is on its way to it;
    and it has sent them to its node in this order, but for those that wait in
    its reader and those that were dropped because five messages waited there
    when they were offered.  The common order has the messages of each node in
    the order it sent them. *)
Theorem nodes_get_common_sequence st sid x r j :
  reachable_channels st →
  sessions st !! sid = Some x → readers (broker st) !! sid = Some r → joined r = Some j →
  let common := taken (broker st) in
  let q := queue_run reader_cap (history r) in
  common ++ source (broker st) = (log st).*2
  ∧ (∀ sid' y, sessions st !! sid' = Some y → received y = origin sid' (log st) ++ to_write y)
  ∧ offers (history r) ++ in_flight (broker st) sid = drop j common
  ∧ passed q = sent x ∧ waiting q = buffer r ∧ length (dropped q) = lost r
  ∧ sent x ++ buffer r `sublist_of` drop j common
  ∧ (lost r = 0 → sent x ++ buffer r ++ in_flight (broker st) sid = drop j common).
Proof.
  intros Hst Hx Hr Hj common q. destruct (reachable_channels_ok st Hst) as [Hb Hlog Hs _].
  destruct (delivers (broker st) sid r j) as (H1 & H2 & H3 & H4 & H5 & H6 & H7); [done.. |].
  destruct (Hs _ _ Hx) as (_ & Hg & _). rewrite Hr in Hg. injection Hg as Hg. rewrite Hg in *.
  split_and!; [by rewrite <- Hlog | | done..].
  intros sid' y Hy. by destruct (Hs _ _ Hy).
Qed.

(** A node gets its own messages back: with a single node registered and its
    channel open, a message of any state type - its own report included - can
    reach the broker and come back on the stream it came from, after which
    nothing is left to write or to send. *)
Theorem own_message_comes_back (req : RegisterRequest) (m : Message) :
  ∃ st x r, reachable_channels st
    ∧ nodes (registry st) = [addr_of req]
    ∧ sessions st !! 0 = Some x ∧ nodeHostname x = Address req
    ∧ received x = [m] ∧ sent x = [m] ∧ to_write x = []
    ∧ readers (broker st) !! 0 = Some r ∧ buffer r = [].
Proof.
  eexists _, _, _. split.
  { eapply rtc_r; [apply (sample_reachable req m) |].
    by apply (step_forward _ 0 (sample_session req m) (sample_reader m) m []). }
  cbn [registry sessions broker set_session set_broker readers set_listen].
  rewrite !lookup_insert_eq. by split_and!.
Qed.

Lemma nodes_get_common_sequence_witness :
  let req := {| Address := "hpc-1"; RequestPort := 8000 |} in
  let m := {| Json := "{}"; StateType := STATE_TYPE_DESIRED |} in
  let st := sample_channels req m in
  let x := sample_session req m in
  let r := sample_reader m in
  let common := taken (broker st) in
  let q := queue_run reader_cap (history r) in
  common ++ source (broker st) = (log st).*2
  ∧ (∀ sid' y, sessions st !! sid' = Some y → received y = origin sid' (log st) ++ to_write y)
  ∧ offers (history r) ++ in_flight (broker st) 0 = drop 0 common
  ∧ passed q = sent x ∧ waiting q = buffer r ∧ length (dropped q) = lost r
  ∧ sent x ++ buffer r `sublist_of` drop 0 common
  ∧ (lost r = 0 → sent x ++ buffer r ++ in_flight (broker st) 0 = drop 0 common).
Proof.
  intros req m st x r. apply (nodes_get_common_sequence st 0 x r 0); [| done ..].
  apply sample_reachable.
Defined.
