(* ===== verification/NodeDelivery.v ===== *)
(** Progress of the node channels: what is written to the broker can always be
    sent to every node with an open channel, whatever else is going on. *)
From S2P Require Import Prelude GoStrings Deployment NodeRegistry Broker NodeChannels.

Local Open Scope list_scope.

(** ** Runs that only add to what the sessions have sent *)

Definition extends (y y' : session) : Prop :=
  forwarding y' = forwarding y ∧ sent y `prefix_of` sent y'.

(** The call of the session is where it was. *)
Definition same_call (y y' : session) : Prop :=
  phase y' = phase y ∧ received y' = received y ∧ to_write y' = to_write y.

Definition any_call (y y' : session) : Prop := True.

#[export] Instance extends_preorder : PreOrder extends.
Proof.
  split; [by intros y |]. intros y1 y2 y3 [F1 P1] [F2 P2]. split; [congruence | by etrans].
Qed.

#[export] Instance same_call_preorder : PreOrder same_call.
Proof. split; [done |]. intros y1 y2 y3 (? & ? & ?) (? & ? & ?). split_and!; congruence. Qed.

#[export] Instance any_call_preorder : PreOrder any_call.
Proof. done. Qed.

Record grows (R : relation session) (st st' : NodeChannels) : Prop := {
  grows_run : rtc channel_step st st';
  grows_listeners : listeners (broker st') = listeners (broker st);
  grows_sessions sid y :
    sessions st !! sid = Some y →
    ∃ y', sessions st' !! sid = Some y' ∧ extends y y' ∧ R y y';
}.

#[export] Instance grows_preorder R : PreOrder R → PreOrder (grows R).
Proof.
  intros HR. split.
  - intros st. split; [done | done |]. intros sid y Hy. by exists y.
  - intros st1 st2 st3 [R1 L1 S1] [R2 L2 S2]. split; [by etrans | congruence |].
    intros sid y (y2 & Hy2 & E2 & C2)%S1. destruct (S2 _ _ Hy2) as (y3 & Hy3 & E3 & C3).
    exists y3. split_and!; [done | by etrans | by etrans].
Qed.

Lemma grows_any R st st' : grows R st st' → grows any_call st st'.
Proof.
  intros [H1 H2 H3]. split; [done | done |].
  intros sid y (y' & Hy & E & _)%H3. by exists y'.
Qed.

(** A step of one session that extends it. *)
Lemma grows_session R st sid y y' b' l' :
  Reflexive R → sessions st !! sid = Some y →
  (let st' := {| registry := registry st; broker := b'; sessions := <[sid := y']> (sessions st);
                 log := l' |} in
   channel_step st st') →
  listeners b' = listeners (broker st) → extends y y' → R y y' →
  grows R st {| registry := registry st; broker := b'; sessions := <[sid := y']> (sessions st);
                log := l' |}.
Proof.
  intros HR Hy Hstep Hl He Hc. split; [by apply rtc_once | done |].
  intros sid' z Hz. cbn [sessions]. destruct (decide (sid = sid')) as [<- | Hne].
  - exists y'. rewrite lookup_insert_eq. by simplify_eq.
  - exists z. by rewrite lookup_insert_ne.
Qed.

(** A step of the broker alone. *)
Lemma grows_broker R st b' :
  Reflexive R → listening (broker st) b' → listeners b' = listeners (broker st) →
  grows R st (set_broker b' st).
Proof.
  intros HR Hstep Hl. split; [by apply rtc_once, step_Listen | done |].
  intros sid y Hy. by exists y.
Qed.

(** [m] is among what session [sid] sends from [st] to [st']. *)
Definition gets (m : Message) (sid : nat) (st st' : NodeChannels) : Prop :=
  ∀ y, sessions st !! sid = Some y → forwarding y = true →
    ∃ y' new, sessions st' !! sid = Some y' ∧ sent y' = sent y ++ new ∧ m ∈ new.

Lemma gets_before R m sid st st1 st' : grows R st st1 → gets m sid st1 st' → gets m sid st st'.
Proof.
  intros [_ _ S1] Hg y Hy Hf. destruct (S1 _ _ Hy) as (y1 & Hy1 & [F1 [new1 P1]] & _).
  destruct (Hg y1 Hy1) as (y' & new & Hy' & P & Hm); [congruence |].
  exists y', (new1 ++ new). split_and!; [done | by rewrite P, P1, app_assoc | set_solver].
Qed.

Lemma gets_after R m sid st st1 st' : gets m sid st st1 → grows R st1 st' → gets m sid st st'.
Proof.
  intros Hg [_ _ S1] y Hy Hf. destruct (Hg y Hy Hf) as (y1 & new & Hy1 & P & Hm).
  destruct (S1 _ _ Hy1) as (y' & Hy' & [_ [new' P']] & _).
  exists y', (new ++ new'). split_and!; [done | by rewrite P', P, app_assoc | set_solver].
Qed.

(** ** Forwarding *)

(** A forwarding session can empty its reader. *)
Lemma drain st sid y r :
  sessions st !! sid = Some y → forwarding y = true → readers (broker st) !! sid = Some r →
  ∃ st' y' r', grows same_call st st' ∧ listen (broker st') = listen (broker st)
    ∧ source (broker st') = source (broker st)
    ∧ sessions st' !! sid = Some y' ∧ sent y' = sent y ++ buffer r
    ∧ readers (broker st') !! sid = Some r' ∧ buffer r' = [].
Proof.
  remember (buffer r) as buf eqn:Hbuf. revert st y r Hbuf.
  induction buf as [| msg rest IH]; intros st y r Hbuf Hy Hf Hr.
  { exists st, y, r. by rewrite app_nil_r. }
  set (b1 := set_listen (listen (broker st))
               (<[sid := receive r msg rest]> (readers (broker st))) (broker st)).
  destruct (IH {| registry := registry st; broker := b1;
                  sessions := <[sid := send_message msg y]> (sessions st); log := log st |}
               (send_message msg y) (receive r msg rest))
    as (st' & y' & r' & Hg & Hl & Hs & Hy' & Hsent & Hr' & Hb'); try done.
  { cbn. by rewrite lookup_insert_eq. }
  { cbn. by rewrite lookup_insert_eq. }
  exists st', y', r'. split_and!; try done.
  - etrans; [| exact Hg]. eapply grows_session; try done.
    + by apply (step_forward st sid y r msg rest).
    + split; [done | by eexists].
  - rewrite Hsent. cbn. by rewrite <- app_assoc.
Qed.

(** ** What is reachable *)

Lemma reachable_grows R st st' : reachable_channels st → grows R st st' → reachable_channels st'.
Proof. intros H [Hr _ _]. unfold reachable_channels in *. by etrans. Qed.

Lemma session_reader st sid y :
  reachable_channels st → sessions st !! sid = Some y → ∃ r, readers (broker st) !! sid = Some r.
Proof.
  intros Hst Hy. destruct (reachable_channels_ok st Hst) as [_ _ Hs _].
  destruct (Hs _ _ Hy) as (_ & Hg & _). destruct (readers (broker st) !! sid); [by eexists | done].
Qed.

(** The broker of the node channels is never stopped. *)
Lemma never_returns st : reachable_channels st → listen (broker st) ≠ Returned.
Proof.
  intros Hst. eapply (rtc_invariant channel_step (λ st, listen (broker st) ≠ Returned));
    [| exact Hst | done].
  intros x y Hx Hstep. destruct Hstep as [| | | | | | | | | | st0 b' []]; done.
Qed.

(** ** Delivering *)
Lemma offer_empty (m : Message) (r : reader Message) : buffer r = [] → buffer (offer m r) = [m].
Proof. intros Hr. unfold offer. by rewrite Hr, decide_True by (unfold reader_cap; simpl; lia). Qed.

(** The broker offers the message to one reader. *)
Lemma offer_step R st m id rest :
  Reflexive R → listen (broker st) = Delivering m (id :: rest) →
  grows R st (set_broker (set_listen (Delivering m rest) (alter (offer m) id (readers (broker st)))
                            (broker st)) st).
Proof. intros HR Hl. apply grows_broker; [done | by apply listening_offer | done]. Qed.

Lemma deliver_one st m id rest :
  reachable_channels st → listen (broker st) = Delivering m (id :: rest) →
  ∃ st', grows same_call st st' ∧ listen (broker st') = Delivering m rest
    ∧ source (broker st') = source (broker st) ∧ gets m id st st'.
Proof.
  intros Hst Hl.
  assert (Hskip : (∀ y, sessions st !! id = Some y → forwarding y ≠ true) →
    ∃ st', grows same_call st st' ∧ listen (broker st') = Delivering m rest
      ∧ source (broker st') = source (broker st) ∧ gets m id st st').
  { intros Hno. eexists. split_and!; [by apply offer_step | done | done |].
    intros y Hy Hf. by destruct (Hno y). }
  destruct (sessions st !! id) as [y |] eqn:Hy; [| by apply Hskip].
  destruct (forwarding y) eqn:Hf; [clear Hskip | apply Hskip; intros z [= <-]; congruence].
  destruct (session_reader st id y Hst Hy) as [r Hr].
  destruct (drain st id y r Hy Hf Hr) as (st1 & y1 & r1 & Hg1 & Hl1 & Hs1 & Hy1 & _ & Hr1 & Hb1).
  rewrite Hl in Hl1. assert (Hg2 := offer_step same_call st1 m id rest _ Hl1).
  set (st2 := set_broker _ st1) in Hg2.
  destruct (grows_sessions _ _ _ Hg1 id y Hy) as (z & Hz & [Hfz Hpz] & _).
  assert (z = y1) as -> by congruence.
  destruct (drain st2 id y1 (offer m r1)) as (st3 & y3 & r3 & Hg3 & Hl3 & Hs3 & Hy3 & Hp3 & _);
    [done | congruence | cbn; by rewrite lookup_alter_eq, Hr1 |].
  exists st3. split_and!.
  - etrans; [exact Hg1 |]. by etrans.
  - by rewrite Hl3.
  - rewrite Hs3. exact Hs1.
  - apply (gets_before same_call m id st st1 st3 Hg1). intros w Hw _. simplify_eq.
    exists y3, (buffer (offer m r1)). split_and!; [done | done |].
    rewrite offer_empty by done. set_solver.
Qed.

Lemma deliver st m ids :
  reachable_channels st → listen (broker st) = Delivering m ids →
  ∃ st', grows same_call st st' ∧ listen (broker st') = Selecting
    ∧ source (broker st') = source (broker st) ∧ ∀ id, id ∈ ids → gets m id st st'.
Proof.
  revert st. induction ids as [| id ids IH]; intros st Hst Hl.
  - exists (set_broker (set_listen Selecting (readers (broker st)) (broker st)) st).
    split_and!; [| done | done | set_solver].
    apply grows_broker; [apply _ | by eapply listening_delivered | done].
  - destruct (deliver_one st m id ids Hst Hl) as (st1 & Hg1 & Hl1 & Hs1 & Hget).
    destruct (IH st1) as (st' & Hg' & Hl' & Hs' & Hgets);
      [by eapply reachable_grows | done |].
    exists st'. split_and!; [by etrans | done | congruence |].
    intros id' [-> | Hin]%elem_of_cons.
    + by eapply gets_after.
    + eapply gets_before; [exact Hg1 | by apply Hgets].
Qed.

(** The broker takes the waiting message and delivers it. *)
Lemma take_and_deliver st m :
  reachable_channels st → listen (broker st) = Selecting → source (broker st) = [m] →
  ∃ st', grows same_call st st' ∧ listen (broker st') = Selecting ∧ source (broker st') = []
    ∧ ∀ id, id ∈ listeners (broker st) → gets m id st st'.
Proof.
  intros Hst Hl Hs.
  set (b1 := take_message m [] (elements (listeners (broker st))) (broker st)).
  assert (Hg1 : grows same_call st (set_broker b1 st))
    by (apply grows_broker; [apply _ | by apply listening_take | done]).
  destruct (deliver (set_broker b1 st) m (elements (listeners (broker st))))
    as (st' & Hg & Hl' & Hs' & Hgets); [by eapply reachable_grows | done |].
  exists st'. split_and!; [by etrans | done | done |].
  intros id Hid. eapply gets_before; [exact Hg1 |]. apply Hgets. by apply elem_of_elements.
Qed.

(** The broker can get ready for the next message. *)
Definition ready (st : NodeChannels) : Prop :=
  listen (broker st) = Selecting ∧ source (broker st) = [].

Lemma make_ready st :
  reachable_channels st → ∃ st', grows same_call st st' ∧ ready st'.
Proof.
  intros Hst.
  assert (∃ st1, grows same_call st st1 ∧ listen (broker st1) = Selecting
    ∧ source (broker st1) = source (broker st)) as (st1 & Hg1 & Hl1 & Hs1).
  { destruct (listen (broker st)) as [| m ids |] eqn:Hl.
    - by exists st.
    - destruct (deliver st m ids Hst Hl) as (st1 & ? & ? & ? & _). by exists st1.
    - by destruct (never_returns st Hst). }
  assert (Hst1 : reachable_channels st1) by by eapply reachable_grows.
  destruct (reachable_channels_ok st1 Hst1) as [Hb _ _ _].
  destruct (reachable_caps _ Hb) as [Hc _]. unfold source_cap in Hc.
  destruct (source (broker st1)) as [| m [|]] eqn:Hs; [by exists st1 | | simpl in Hc; lia].
  destruct (take_and_deliver st1 m Hst1 Hl1 Hs) as (st' & Hg' & Hl' & Hs' & _).
  exists st'. split; [by etrans | done].
Qed.

(** ** Writing *)

Lemma write_and_deliver st sid x m ms :
  reachable_channels st → ready st → sessions st !! sid = Some x → to_write x = m :: ms →
  ∃ st' x', grows any_call st st' ∧ ready st' ∧ sessions st' !! sid = Some x'
    ∧ phase x' = phase x ∧ received x' = received x ∧ to_write x' = ms
    ∧ ∀ id, id ∈ listeners (broker st) → gets m id st st'.
Proof.
  intros Hst [Hl Hs] Hx Hw.
  set (st1 := {| registry := registry st; broker := Write m (broker st);
                 sessions := <[sid := set_to_write ms x]> (sessions st);
                 log := log st ++ [(sid, m)] |}).
  assert (Hg1 : grows any_call st st1).
  { eapply grows_session; [apply _ | exact Hx | | done | by split | done].
    apply (step_Write st sid x m ms Hx Hw). rewrite Hs. unfold source_cap. simpl. lia. }
  destruct (take_and_deliver st1 m) as (st' & Hg & Hl' & Hs' & Hgets);
    [by eapply reachable_grows | done | cbn; by rewrite Hs |].
  destruct (grows_sessions _ _ _ Hg sid (set_to_write ms x)) as (x' & Hx' & _ & (H1 & H2 & H3)).
  { cbn. by rewrite lookup_insert_eq. }
  exists st', x'. split_and!; try done.
  - etrans; [exact Hg1 | by eapply grows_any].
  - intros id Hid. eapply gets_before; [exact Hg1 | by apply Hgets].
Qed.

Lemma write_all st sid x :
  reachable_channels st → ready st → sessions st !! sid = Some x →
  ∃ st' x', grows any_call st st' ∧ ready st' ∧ sessions st' !! sid = Some x'
    ∧ phase x' = phase x ∧ received x' = received x ∧ to_write x' = [].
Proof.
  remember (to_write x) as ms eqn:Hms. revert st x Hms.
  induction ms as [| m ms IH]; intros st x Hms Hst Hr Hx; [by exists st, x |].
  destruct (write_and_deliver st sid x m ms) as (st1 & x1 & Hg1 & Hr1 & Hx1 & Hp1 & Hrec1 & Hw1 & _);
    [done .. |].
  destruct (IH st1 x1) as (st' & x' & Hg' & Hr' & Hx' & Hp' & Hrec' & Hw');
    [done | by eapply reachable_grows | done | done |].
  exists st', x'. split_and!; [by etrans | done | done | congruence | congruence | done].
Qed.

(** ** Property *)

(** C17. A message that a node sends can always reach every node.  From every
    reachable state of the node channels, whatever their goroutines are doing,
    the call of a node in its receive loop can receive a message next and the
    goroutines can go on so that every session the broker has registered sends
    this message to its node, as long as its forwarding goroutine runs; what
    the sessions have sent before stays in front of it. *)
Theorem messages_can_reach_all st sid x msg :
  reachable_channels st → sessions st !! sid = Some x → phase x = Receiving →
  ∃ st', rtc channel_step st st'
    ∧ (∃ x', sessions st' !! sid = Some x' ∧ received x' = received x ++ [msg] ∧ to_write x' = [])
    ∧ ∀ id y, id ∈ listeners (broker st) → sessions st !! id = Some y → forwarding y = true →
        ∃ y' new, sessions st' !! id = Some y' ∧ sent y' = sent y ++ new ∧ msg ∈ new.
Proof.
  intros Hst Hx Hp.
  destruct (make_ready st Hst) as (st1 & Hg1 & Hr1).
  destruct (grows_sessions _ _ _ Hg1 sid x Hx) as (x1 & Hx1 & _ & Hp1 & Hrec1 & _).
  destruct (write_all st1 sid x1) as (st2 & x2 & Hg2 & Hr2 & Hx2 & Hp2 & Hrec2 & Hw2);
    [by eapply reachable_grows | done | done |].
  assert (Hst2 : reachable_channels st2)
    by (eapply reachable_grows, Hg2; by eapply reachable_grows).
  set (st3 := {| registry := registry st2; broker := broker st2;
                 sessions := <[sid := recv_message msg x2]> (sessions st2); log := log st2 |}).
  assert (Hg3 : grows any_call st2 st3).
  { eapply grows_session; [apply _ | exact Hx2 | | done | by split | done].
    apply (step_Recv st2 sid x2 msg); congruence. }
  destruct (write_and_deliver st3 sid (recv_message msg x2) msg [])
    as (st4 & x4 & Hg4 & _ & Hx4 & _ & Hrec4 & Hw4 & Hgets);
    [by eapply reachable_grows | done | cbn; by rewrite lookup_insert_eq | done |].
  assert (Hg : grows any_call st st3)
    by (etrans; [by eapply grows_any | by etrans]).
  exists st4. split_and!.
  - by apply (grows_run any_call), (transitivity Hg Hg4).
  - exists x4. split_and!; [done | | done]. rewrite Hrec4. cbn. by rewrite Hrec2, Hrec1.
  - intros id y Hid Hy Hf. apply (gets_before any_call msg id st st3 st4 Hg); [| done | done].
    apply Hgets. by rewrite (grows_listeners _ _ _ Hg).
Qed.

Lemma messages_can_reach_all_witness :
  let req := {| Address := "hpc-1"; RequestPort := 8000 |} in
  let m := {| Json := "{}"; StateType := STATE_TYPE_DESIRED |} in
  let st := sample_channels req m in
  ∃ st', rtc channel_step st st'
    ∧ (∃ x', sessions st' !! 0 = Some x'
         ∧ received x' = received (sample_session req m) ++ [m] ∧ to_write x' = [])
    ∧ ∀ id y, id ∈ listeners (broker st) → sessions st !! id = Some y → forwarding y = true →
        ∃ y' new, sessions st' !! id = Some y' ∧ sent y' = sent y ++ new ∧ m ∈ new.
Proof.
  intros req m st. apply (messages_can_reach_all st 0 (sample_session req m) m); [| done ..].
  apply sample_reachable.
Defined.
