(* ===== verification/EndedChannels.v ===== *)
(** Node channels that have ended: [NodeRegistryServer.OpenChannel] returns, the
    broker goes on.  [pkg/channel] has no way to remove a reader, so every
    channel that was ever opened stays one of the readers messages are copied
    to. *)
From S2P Require Import Prelude GoStrings Deployment NodeRegistry Broker NodeChannels.

Local Open Scope list_scope.

(** The call has left its loop and the forwarding goroutine has returned. *)
Definition ended (x : session) : Prop :=
  forwarding x = false ∧ match phase x with Done _ => True | _ => False end.

Lemma ended_channel_step c c' sid x :
  channels_ok c → channel_step c c' → sessions c !! sid = Some x → ended x →
  sid ∈ listeners (broker c) →
  sid ∈ listeners (broker c')
  ∧ ∃ x', sessions c' !! sid = Some x' ∧ ended x' ∧ sent x' = sent x.
Proof.
  intros Hok Hstep Hx [Hfw Hph] Hin.
  assert (Hset : ∀ sid' y y' (b : Broker Message), sessions c !! sid' = Some y → listeners b = listeners (broker c) →
    (ended y → ended y' ∧ sent y' = sent y) →
    sid ∈ listeners b
    ∧ ∃ x', <[sid' := y']> (sessions c) !! sid = Some x' ∧ ended x' ∧ sent x' = sent x).
  { intros sid' y y' b Hy Hb He. rewrite Hb. split; [done |].
    destruct (decide (sid' = sid)) as [-> | Hne].
    - rewrite lookup_insert_eq. exists y'. assert (y = x) as -> by congruence.
      destruct He as [? ?]; [by split | done].
    - rewrite lookup_insert_ne by done. by exists x. }
  destruct Hstep as [c req s' n resp _ | c sid' nodeID i node _ _ Hfresh
    | c sid' y rest Hy Hp _ _ | c sid' y msg Hy Hp _ | c sid' y err Hy Hp _
    | c sid' y msg ms Hy _ _ | c sid' y r Hy Hp _ | c sid' y r msg rest Hy Hf _ _
    | c sid' y Hy | c sid' y Hy _ _ | c b' Hl];
    try (apply (Hset sid' y); [exact Hy | done |]; intros [He Hd];
         first [by rewrite Hp in Hd | congruence | by split]).
  - split; [done |]. by exists x.
  - split; [done |]. exists x. split; [| by split_and!]. cbn.
    rewrite lookup_insert_ne; [done |]. intros ->.
    destruct Hok as [_ _ Hs _]. destruct (Hs _ _ Hx) as (_ & Hg & _). by rewrite Hfresh in Hg.
  - split; [| by exists x]. destruct Hl; cbn; set_solver.
Qed.

Lemma ended_channel_run c c' sid x :
  reachable_channels c → rtc channel_step c c' → sessions c !! sid = Some x → ended x →
  sid ∈ listeners (broker c) →
  sid ∈ listeners (broker c')
  ∧ ∃ x', sessions c' !! sid = Some x' ∧ ended x' ∧ sent x' = sent x.
Proof.
  intros Hc Hrun. revert x. induction Hrun as [c | c c1 c2 Hstep _ IH]; intros x Hx He Hin.
  { split; [done |]. by exists x. }
  destruct (ended_channel_step c c1 sid x) as (Hin1 & x1 & Hx1 & He1 & Hs1);
    [by apply reachable_channels_ok | done.. |].
  destruct (IH ltac:(by eapply rtc_r) x1 Hx1 He1 Hin1) as (Hin2 & x2 & Hx2 & He2 & Hs2).
  split; [done |]. exists x2. split_and!; [done | done | congruence].
Qed.

(** Whatever happens after a channel has ended, the broker keeps copying
    messages for it: its reader stays registered, holds at most [reader_cap]
    messages for good, and all others that are taken from then on are lost
    there. *)
Theorem ended_channels_keep_listening c c' sid x :
  reachable_channels c → rtc channel_step c c' → sessions c !! sid = Some x → ended x →
  sid ∈ listeners (broker c) →
  sid ∈ listeners (broker c')
  ∧ ∃ r j, readers (broker c') !! sid = Some r ∧ joined r = Some j ∧ got r = sent x
    ∧ length (buffer r) ≤ reader_cap
    ∧ (listen (broker c') = Selecting →
       length (drop j (taken (broker c'))) ≤ length (sent x) + reader_cap + lost r).
Proof.
  intros Hc Hrun Hx He Hin.
  destruct (ended_channel_run c c' sid x Hc Hrun Hx He Hin) as (Hin' & x' & Hx' & _ & Hsent).
  split; [done |].
  assert (Hc' : reachable_channels c') by (unfold reachable_channels in *; by etrans).
  destruct (reachable_channels_ok _ Hc') as [Hb _ Hs _]. destruct (Hs _ _ Hx') as (_ & Hg & _).
  destruct (readers (broker c') !! sid) as [r |] eqn:Hr; [| done]. injection Hg as Hg.
  destruct (reachable_ok _ Hb) as [_ Hrs _ _ _]. destruct (Hrs _ _ Hr) as [[Hcap _ _ _ _] Hj].
  unfold joined_ok in Hj. destruct (joined r) as [j |] eqn:Hjo; [| by destruct Hj].
  exists r, j. split_and!; [done | done | congruence | done |].
  intros Hl. destruct (Broker.delivered (broker c') sid r j) as (_ & _ & -> & _); [done.. |].
  rewrite length_app, Hg, Hsent. lia.
Qed.
