(* ===== verification/Container.v ===== *)
(** Package [pkg/container], files [container.go] and [image.go], and
    [ParseFQIN] of [docker_container_manager.go]: containers, image names and
    the interface every container manager implements.

    The interface [Manager] is a class of state-passing operations: [S] is
    what a manager and the engine behind it remember, the answers the engine
    is going to give included. *)
From S2P Require Import Prelude GoStrings.

Local Open Scope string_scope.

(** ** Images *)
Record Image := {
  Name : string;
  Version : string;
}.

#[export] Instance Image_eq_dec : EqDecision Image.
Proof. solve_decision. Defined.

Definition ParseImageName (str : string) : outcome Image :=
  let idx := LastIndexByte str ":" in
  if decide (idx ≠ -1)%Z then
    name ← take_bytes (Z.to_nat idx) str;
    version ← drop_bytes (Z.to_nat (idx + 1)) str;
    Ret {| Name := name; Version := version |}
  else Ret {| Name := str; Version := "latest" |}.

(** [fmt.Sprintf("%s:%s", i.Name, i.Version)] *)
Definition image_identifier (i : Image) : string := Name i +:+ ":" +:+ Version i.

(** ** Containers *)
Record Container := {
  ID : string;
  FirstName : string;
  Container_Image : string;
  Ports : string;
  Status : string;
}.

#[export] Instance Container_eq_dec : EqDecision Container.
Proof. solve_decision. Defined.

Record BundleConfig := {
  BundleID : string;
}.

Definition bundleConfigFileName : string := "info.json".
Definition wildcardIP : string := "0.0.0.0".

(** A loop that computes one element of a new slice from each element. *)
Fixpoint mapM_outcome {A B} (f : A → outcome B) (l : list A) : outcome (list B) :=
  match l with
  | [] => Ret []
  | a :: l => b ← f a; bs ← mapM_outcome f l; Ret (b :: bs)
  end.

Definition ExtractImageList (containers : list Container) : outcome (list Image) :=
  mapM_outcome (λ c, ParseImageName (Container_Image c)) containers.

(** ** Port bindings (package [nat] of docker/go-connections) *)
Record PortBinding := {
  HostIP : string;
  HostPort : string;
}.

Abbreviation PortMap := (gmap string (list PortBinding)).

(** ** The interface *)
Class Manager (S : Type) := {
  Containers : S → outcome (list Container) * S;
  StartContainer : string → S → outcome unit * S;
  StopContainer : string → S → outcome unit * S;
  PullImageAndCreateContainer :
    string → list string → PortMap → bool → S → outcome (string * Z) * S;
  RemoveImageAndContainer : string → bool → S → outcome (string * Z) * S;
  Close : S → outcome unit * S;
}.

(** A call of the interface, with its arguments, and what it does to the
    state of a manager. *)
Inductive call :=
| CallContainers
| CallStart (id : string)
| CallStop (id : string)
| CallPull (name : string) (args : list string) (portBindings : PortMap) (verify : bool)
| CallRemove (name : string) (verify : bool)
| CallClose.

Definition perform {S} `{Manager S} (c : call) (s : S) : S :=
  match c with
  | CallContainers => (Containers s).2
  | CallStart id => (StartContainer id s).2
  | CallStop id => (StopContainer id s).2
  | CallPull name args portBindings verify =>
      (PullImageAndCreateContainer name args portBindings verify s).2
  | CallRemove name verify => (RemoveImageAndContainer name verify s).2
  | CallClose => (Close s).2
  end.

Definition perform_all {S} `{Manager S} (cs : list call) (s : S) : S :=
  foldl (λ s c, perform c s) s cs.

(** ** [ParseFQIN]

    [reference.ParseNormalizedNamed] of distribution/reference returns a
    reference whose [Name()] is a domain, a slash and a path - the domain has
    no slash - and which may carry a tag. *)
Record NamedRef := {
  Ref_Name : string;
  Ref_Tag : option string;
}.

Class ReferencePkg := {
  ParseNormalizedNamed : string → outcome NamedRef;
  ParseNormalizedNamed_shape name r :
    ParseNormalizedNamed name = Ret r →
    ∃ domain path, has_byte "/" domain = false ∧ Ref_Name r = domain +:+ "/" +:+ path;
  ParseNormalizedNamed_no_panic name p : ParseNormalizedNamed name ≠ Panic p;
}.

Definition ParseFQIN `{ReferencePkg} (name defaultDomain : string) : outcome string :=
  ref ← ParseNormalizedNamed name;
  let normalizedImageName := Ref_Name ref in
  let idx := IndexByte normalizedImageName "/" in
  if decide (idx = -1)%Z
  then Fail (ErrorNew "invalid reference format: missing '/'")
  else
    normalizedImageName ←
      (if decide (len normalizedImageName ≠ len name) then
         n1 ← take_bytes (Z.to_nat (idx + 1)) normalizedImageName;
         n2 ← take_bytes (Z.to_nat (idx + 1)) name;
         if decide (n1 ≠ n2) then
           rest ← drop_bytes (Z.to_nat idx) normalizedImageName;
           Ret (defaultDomain +:+ rest)
         else Ret normalizedImageName
       else Ret normalizedImageName);
    match Ref_Tag ref with
    | Some tag => Ret (normalizedImageName +:+ ":" +:+ tag)
    | None => Ret normalizedImageName
    end.

(** ** Lemmas *)

Lemma mapM_outcome_Ret {A B} (f : A → outcome B) l bs :
  mapM_outcome f l = Ret bs ↔ Forall2 (λ a b, f a = Ret b) l bs.
Proof.
  revert bs. induction l as [| a l IH]; intros bs; simpl.
  - split; [intros [= <-]; constructor | by intros H; inversion H].
  - split.
    + intros H. outcome_inv. constructor; [done | by apply IH].
    + intros H. inversion H as [| ? b ? bs' Hb Hbs]; subst.
      apply IH in Hbs. by rewrite Hb, Hbs.
Qed.

Lemma mapM_outcome_pure {A B} (f : A → outcome B) (g : A → B) l :
  (∀ a, a ∈ l → f a = Ret (g a)) → mapM_outcome f l = Ret (map g l).
Proof.
  induction l as [| a l IH]; simpl; intros Hf; [done |].
  rewrite Hf, IH by set_solver. done.
Qed.

(** What [ParseImageName] returns: it never panics. *)
Definition image_of (str : string) : Image :=
  match ParseImageName str with
  | Ret i => i
  | _ => {| Name := ""; Version := "" |}
  end.

(** The split of a string at the last occurrence of a byte is unique. *)
Lemma last_split_unique c n v a b :
  has_byte c v = false → has_byte c b = false →
  n +:+ String c v = a +:+ String c b → a = n ∧ b = v.
Proof.
  intros Hv Hb. revert a. induction n as [| d n IH]; intros [| e a] E;
    injection E; intros; subst.
  - done.
  - by rewrite has_byte_app, has_byte_cons, Ascii.eqb_refl, orb_true_r in Hv.
  - by rewrite has_byte_app, has_byte_cons, Ascii.eqb_refl, orb_true_r in Hb.
  - match goal with H : n +:+ _ = _ |- _ => by apply IH in H as [-> ->] end.
Qed.

Lemma ParseImageName_colon n v :
  has_byte ":" v = false →
  ParseImageName (n +:+ ":" +:+ v) = Ret {| Name := n; Version := v |}.
Proof.
  intros Hv. unfold ParseImageName.
  change (":" +:+ v) with (String ":" v).
  destruct (LastIndexByte_spec (n +:+ String ":" v) ":") as [[_ H] | (a & b & E & Hb & ->)].
  { by rewrite has_byte_app, has_byte_cons, orb_true_r in H. }
  assert (a = n ∧ b = v) as [-> ->].
  { by apply last_split_unique in E. }
  unfold len. rewrite decide_True by lia.
  rewrite Nat2Z.id, take_bytes_app. cbn [mbind outcome_bind].
  replace (Z.to_nat (Z.of_nat (String.length n) + 1)) with (String.length (n +:+ ":"))
    by (rewrite str_length_app; simpl; lia).
  change (String ":" v) with (":" +:+ v).
  by rewrite <- str_app_assoc, drop_bytes_app.
Qed.

Lemma ParseImageName_no_colon n :
  has_byte ":" n = false → ParseImageName n = Ret {| Name := n; Version := "latest" |}.
Proof.
  intros Hn. unfold ParseImageName.
  destruct (LastIndexByte_spec n ":") as [[-> _] | (a & b & -> & _)]; [done |].
  by rewrite has_byte_app, has_byte_cons, orb_true_r in Hn.
Qed.

Lemma ParseImageName_cases str :
  (has_byte ":" str = false ∧ ParseImageName str = Ret {| Name := str; Version := "latest" |})
  ∨ ∃ n v, str = n +:+ ":" +:+ v ∧ has_byte ":" v = false
      ∧ ParseImageName str = Ret {| Name := n; Version := v |}.
Proof.
  destruct (LastIndexByte_spec str ":") as [[_ Hno] | (n & v & -> & Hv & _)].
  - left. split; [done | by apply ParseImageName_no_colon].
  - right. exists n, v. split_and!; [done | done | by apply ParseImageName_colon].
Qed.

Lemma ParseImageName_image_of str : ParseImageName str = Ret (image_of str).
Proof.
  unfold image_of. by destruct (ParseImageName_cases str) as [[_ ->] | (n & v & _ & _ & ->)].
Qed.

Lemma ExtractImageList_eq cs :
  ExtractImageList cs = Ret (map (λ c, image_of (Container_Image c)) cs).
Proof. apply mapM_outcome_pure. intros c _. apply ParseImageName_image_of. Qed.

Lemma image_of_version_no_colon str : has_byte ":" (Version (image_of str)) = false.
Proof.
  unfold image_of.
  by destruct (ParseImageName_cases str) as [[_ ->] | (n & v & _ & Hv & ->)].
Qed.

(** An image that was parsed from a name prints to a name that parses to it. *)
Lemma image_of_identifier i :
  has_byte ":" (Version i) = false → image_of (image_identifier i) = i.
Proof.
  intros Hv. unfold image_of, image_identifier. rewrite ParseImageName_colon by done.
  by destruct i.
Qed.

(** [IndexByte] finds the slash between domain and path. *)
Lemma IndexByte_first a c b :
  has_byte c a = false → IndexByte (a +:+ String c b) c = len a.
Proof.
  unfold len. induction a as [| d a IH]; simpl; intros Ha; [by rewrite Ascii.eqb_refl |].
  apply orb_false_iff in Ha as [-> Ha]. rewrite IH by done.
  destruct (Z.ltb_spec (Z.of_nat (String.length a)) 0); lia.
Qed.

(** ** A reference parser

    Splitting into domain, path and tag as the Docker command line presents
    names: used as the concrete function of the witnesses. *)
Definition split_first (c : ascii) (s : string) : option (string * string) :=
  match take_bytes (Z.to_nat (IndexByte s c)) s, drop_bytes (S (Z.to_nat (IndexByte s c))) s with
  | Ret a, Ret b => if has_byte c s then Some (a, b) else None
  | _, _ => None
  end.

Definition has_domain (first : string) : bool :=
  has_byte "." first || has_byte ":" first || (first =? "localhost").

Definition familiar (name : string) : NamedRef :=
  let '(domain, remainder) :=
    match split_first "/" name with
    | Some (a, b) => if has_domain a then (a, b) else ("docker.io", name)
    | None => ("docker.io", name)
    end in
  let '(path, tag) :=
    match split_first ":" remainder with
    | Some (a, b) => (a, Some b)
    | None => (remainder, None)
    end in
  let path :=
    if (domain =? "docker.io") && negb (has_byte "/" path) then "library/" +:+ path else path in
  {| Ref_Name := domain +:+ "/" +:+ path; Ref_Tag := tag |}.

Lemma split_first_no_sep c s a b : split_first c s = Some (a, b) → has_byte c a = false.
Proof.
  unfold split_first. intros H.
  destruct (IndexByte_spec s c) as [[_ Hno] | (x & y & E & Hx & Hi)].
  - rewrite Hno in H. repeat case_match; simplify_eq.
  - rewrite E, <- E, Hi in H. unfold len in H. rewrite Nat2Z.id in H.
    rewrite E, take_bytes_app in H. repeat case_match; by simplify_eq.
Qed.

Lemma familiar_shape name :
  ∃ domain path,
    has_byte "/" domain = false ∧ Ref_Name (familiar name) = domain +:+ "/" +:+ path.
Proof.
  unfold familiar. destruct (split_first "/" name) as [[a b] |] eqn:E.
  - apply split_first_no_sep in E.
    destruct (has_domain a);
      destruct (split_first ":" _) as [[x y] |]; simpl; eauto.
    + by exists "docker.io"; eexists.
    + by exists "docker.io"; eexists.
  - destruct (split_first ":" name) as [[x y] |]; by exists "docker.io"; eexists.
Qed.

Definition familiar_reference : ReferencePkg := {|
  ParseNormalizedNamed name := Ret (familiar name);
  ParseNormalizedNamed_shape name r Hr :=
    match Hr in _ = o return
      match o with
      | Ret r => ∃ domain path,
          has_byte "/" domain = false ∧ Ref_Name r = domain +:+ "/" +:+ path
      | _ => True
      end with
    | eq_refl => familiar_shape name
    end;
  ParseNormalizedNamed_no_panic name p H := ltac:(discriminate H);
|}.

Section fqin.
Context `{ReferencePkg}.

Definition tag_suffix (r : NamedRef) : string :=
  match Ref_Tag r with Some tag => ":" +:+ tag | None => "" end.

Lemma ParseFQIN_error name defaultDomain e :
  ParseNormalizedNamed name = Fail e → ParseFQIN name defaultDomain = Fail e.
Proof. unfold ParseFQIN. by intros ->. Qed.
End fqin.

(** ** Properties *)

(** The two forms of an image agree: every name has an image, whose version has
    no colon; writing the image back gives the name, completed with [:latest]
    when it had no colon, and reading that text again gives the same image -
    so the comparison of images by name and version is the comparison of
    completed names. *)
Theorem image_name_round_trip str :
  ∃ i, ParseImageName str = Ret i
    ∧ has_byte ":" (Version i) = false
    ∧ image_identifier i = (if has_byte ":" str then str else str +:+ ":latest")
    ∧ ParseImageName (image_identifier i) = Ret i.
Proof.
  destruct (ParseImageName_cases str) as [[Hs ->] | (n & v & -> & Hv & ->)].
  - exists {| Name := str; Version := "latest" |}. rewrite Hs. split_and!; try done.
    by apply (ParseImageName_colon str "latest").
  - exists {| Name := n; Version := v |}.
    rewrite has_byte_app, has_byte_app, orb_true_r. split_and!; try done.
    by apply ParseImageName_colon.
Qed.

(** An image name with the port of its registry but without a tag is split at
    that port: the version of the image holds the rest of the path, and the
    name holds the host only. *)
Theorem registry_port_is_read_as_tag host port path :
  has_byte ":" port = false → has_byte ":" path = false →
  ParseImageName (host +:+ ":" +:+ port +:+ "/" +:+ path) =
    Ret {| Name := host; Version := port +:+ "/" +:+ path |}.
Proof.
  intros Hp Hq. apply ParseImageName_colon. rewrite !has_byte_app, Hp, Hq. done.
Qed.

Lemma registry_port_is_read_as_tag_witness :
  ParseImageName ("localhost" +:+ ":" +:+ "5000" +:+ "/" +:+ "app") =
    Ret {| Name := "localhost"; Version := "5000" +:+ "/" +:+ "app" |}.
Proof. by apply registry_port_is_read_as_tag. Defined.

Lemma ParseFQIN_cases `{ReferencePkg} name defaultDomain r domain path :
  ParseNormalizedNamed name = Ret r →
  Ref_Name r = domain +:+ "/" +:+ path → has_byte "/" domain = false →
  ParseFQIN name defaultDomain =
    if decide (len (Ref_Name r) = len name) then Ret (Ref_Name r +:+ tag_suffix r)
    else if decide (len name ≤ len domain)%Z then Panic SliceOutOfRange
    else if HasPrefix name (domain +:+ "/") then Ret (Ref_Name r +:+ tag_suffix r)
    else Ret (defaultDomain +:+ "/" +:+ path +:+ tag_suffix r).
Proof.
  intros Hr Hn Hd. unfold ParseFQIN. rewrite Hr. cbn [mbind outcome_bind].
  assert (Hidx : IndexByte (Ref_Name r) "/" = len domain).
  { rewrite Hn. by apply (IndexByte_first domain "/" path). }
  rewrite Hidx. rewrite decide_False by (unfold len; lia).
  assert (Htag : ∀ n, (match Ref_Tag r with
    | Some tag => Ret (n +:+ ":" +:+ tag) | None => Ret n end) = Ret (n +:+ tag_suffix r)).
  { intros n. unfold tag_suffix. destruct (Ref_Tag r); [done | by rewrite str_app_nil_r]. }
  destruct (decide (len (Ref_Name r) = len name)) as [Hl | Hl].
  { rewrite decide_False by tauto. cbn. apply Htag. }
  rewrite decide_True by done.
  replace (Z.to_nat (len domain + 1)) with (String.length (domain +:+ "/"))
    by (unfold len; rewrite str_length_app; simpl; lia).
  rewrite Hn at 1. rewrite <- str_app_assoc, take_bytes_app. cbn [mbind outcome_bind].
  destruct (decide (len name ≤ len domain)%Z) as [Hs | Hs].
  { rewrite take_bytes_short; [done |].
    unfold len in Hs. rewrite str_length_app. simpl. lia. }
  destruct (take_bytes_ok (String.length (domain +:+ "/")) name) as (a & b & -> & Ha & -> & _).
  { unfold len in Hs. rewrite str_length_app. simpl. lia. }
  cbn [mbind outcome_bind].
  unfold len at 1. rewrite Nat2Z.id, Hn, drop_bytes_app. cbn [mbind outcome_bind].
  destruct (decide (domain +:+ "/" ≠ a)) as [Hne | He].
  - destruct (HasPrefix (a +:+ b) (domain +:+ "/")) eqn:Hp.
    + apply HasPrefix_spec in Hp as [t Ht]. destruct Hne.
      assert (Hx := take_bytes_app a b). rewrite Ht, Ha, take_bytes_app in Hx. congruence.
    + cbn. rewrite Htag. by rewrite !str_app_assoc.
  - apply dec_stable in He as <-.
    assert (HasPrefix ((domain +:+ "/") +:+ b) (domain +:+ "/") = true) as ->
      by (apply HasPrefix_spec; eauto).
    cbn. apply Htag.
Qed.

(** What [ParseFQIN] returns, for a name whose reference has domain [domain]
    and path [path]: the default registry replaces the domain exactly when
    the name does not start with that domain and the lengths differ; a name
    no longer than the domain of its reference makes the function panic. *)
Theorem ParseFQIN_spec `{ReferencePkg} name defaultDomain r domain path :
  ParseNormalizedNamed name = Ret r →
  Ref_Name r = domain +:+ "/" +:+ path → has_byte "/" domain = false →
  ParseFQIN name defaultDomain =
    if decide (len (Ref_Name r) = len name) then Ret (Ref_Name r +:+ tag_suffix r)
    else if decide (len name ≤ len domain)%Z then Panic SliceOutOfRange
    else if HasPrefix name (domain +:+ "/") then Ret (Ref_Name r +:+ tag_suffix r)
    else Ret (defaultDomain +:+ "/" +:+ path +:+ tag_suffix r).
Proof. apply ParseFQIN_cases. Qed.

Lemma ParseFQIN_spec_witness :
  let r := {| Ref_Name := "docker.io/envoyproxy/envoy"; Ref_Tag := Some "v1" |} in
  @ParseFQIN familiar_reference "envoyproxy/envoy:v1" "customcr.io" =
    if decide (len (Ref_Name r) = len "envoyproxy/envoy:v1") then Ret (Ref_Name r +:+ tag_suffix r)
    else if decide (len "envoyproxy/envoy:v1" ≤ len "docker.io")%Z then Panic SliceOutOfRange
    else if HasPrefix "envoyproxy/envoy:v1" "docker.io/" then Ret (Ref_Name r +:+ tag_suffix r)
    else Ret ("customcr.io" +:+ "/" +:+ "envoyproxy/envoy" +:+ tag_suffix r).
Proof.
  intros r.
  by apply (@ParseFQIN_spec familiar_reference "envoyproxy/envoy:v1" "customcr.io" r
              "docker.io" "envoyproxy/envoy").
Defined.

(** Every name of at most nine bytes that the reference parser completes with
    the domain [docker.io] makes [ParseFQIN] panic instead of returning the
    name in the default registry. *)
Theorem ParseFQIN_short_names_panic `{ReferencePkg} name defaultDomain r path :
  ParseNormalizedNamed name = Ret r → Ref_Name r = "docker.io/" +:+ path →
  (String.length name ≤ 9)%nat →
  ParseFQIN name defaultDomain = Panic SliceOutOfRange.
Proof.
  intros Hr Hn Hlen.
  rewrite (ParseFQIN_cases name defaultDomain r "docker.io" path) by done.
  unfold len. rewrite decide_False, decide_True; [done | simpl; lia |].
  rewrite Hn, str_length_app. simpl. lia.
Qed.

Lemma ParseFQIN_short_names_panic_witness :
  @ParseFQIN familiar_reference "nginx" "customcr.io" = Panic SliceOutOfRange.
Proof.
  by apply (@ParseFQIN_short_names_panic familiar_reference "nginx" "customcr.io"
              {| Ref_Name := "docker.io/library/nginx"; Ref_Tag := None |} "library/nginx");
    [.. | simpl; lia].
Defined.
