(* ===== verification/DebugManager.v ===== *)
(** Package [pkg/container], file [debug_container_manager.go]: the container
    manager that emulates a runtime.

    State: the map of virtual containers and the two 32-bit counters.  The
    pointer a [virtualContainer] holds is never shared between two entries
    nor handed out, so the container is stored by value.  What differs between
    executions is a parameter of the section: [order n m] is the order in
    which the [n]-th iteration visits the map [m], and [Intn n] the [n]-th
    result of [rand.Intn(52)]; the state counts both kinds of events.  What the
    manager prints is not part of the state. *)
From S2P Require Import Prelude GoStrings Container.

Local Open Scope string_scope.

Definition statusRunning : string := "running".
Definition statusExited : string := "exited".
Definition servicePortBase : Z := 8080.
Definition appIdxBase : Z := 1.

Record virtualContainer := {
  appIdx : Z;
  container_ : Container;
}.

Record debugContainerManager := {
  container : gmap string virtualContainer;
  nextServicePort : Z;
  nextAppIdx : Z;
  iterations : nat;
  draws : nat;
}.

Definition NewDebugContainerManager : debugContainerManager :=
  {| container := ∅;
     nextServicePort := servicePortBase;
     nextAppIdx := appIdxBase;
     iterations := 0;
     draws := 0 |}.

(** [fmt.Sprintf("com.mercedes_benz.app_%d", idx)] *)
Definition bundleIDFormat (idx : Z) : string := "com.mercedes_benz.app_" +:+ Itoa idx.

Definition alphabet : string := "abcdefghijklmnopqrstuvwxyzABCDEFGHIJKLMNOPQRSTUVWXYZ".

(** [vc.container.Status = status] *)
Definition set_status (status : string) (vc : virtualContainer) : virtualContainer :=
  let c := container_ vc in
  {| appIdx := appIdx vc;
     container_ := {| ID := ID c; FirstName := FirstName c;
                      Container_Image := Container_Image c;
                      Ports := Ports c; Status := status |} |}.

Definition set_container (m : gmap string virtualContainer) (d : debugContainerManager)
    : debugContainerManager :=
  {| container := m;
     nextServicePort := nextServicePort d;
     nextAppIdx := nextAppIdx d;
     iterations := iterations d;
     draws := draws d |}.

(** [formatPortBindings], given the order in which the map is visited. *)
Definition format_binding (containerPort : string) (port : PortBinding) : string :=
  let ip := if decide (0 < len (HostIP port))%Z then HostIP port else wildcardIP in
  ip +:+ ":" +:+ HostPort port +:+ "->" +:+ containerPort.

Fixpoint format_host_ports (containerPort : string) (idx : nat) (hostPorts : list PortBinding)
    : string :=
  match hostPorts with
  | [] => ""
  | port :: hostPorts =>
      (if decide (idx ≠ 0) then ", " else "")
      +:+ format_binding containerPort port
      +:+ format_host_ports containerPort (S idx) hostPorts
  end.

Fixpoint format_loop (size : nat) (first : bool) (portBindings : list (string * list PortBinding))
    : string :=
  match portBindings with
  | [] => ""
  | (containerPort, hostPorts) :: portBindings =>
      (if negb first && (1 <? size)%nat then ", " else "")
      +:+ format_host_ports containerPort 0 hostPorts
      +:+ format_loop size false portBindings
  end.

Definition formatPortBindings (portBindings : list (string * list PortBinding)) : string :=
  format_loop (length portBindings) true portBindings.

Section debug_manager.
Context (order : nat → gmap string virtualContainer → list (string * virtualContainer)).
Context (port_order : PortMap → list (string * list PortBinding)).
Context (Intn : nat → nat).

(** [generateRandomContainerId]: 64 letters, from the draw number [n] on. *)
Fixpoint random_letters (n i : nat) : outcome string :=
  match i with
  | 0 => Ret ""
  | S i =>
      match String.get (Intn n) alphabet with
      | Some c => String c <$> random_letters (S n) i
      | None => Panic IndexOutOfRange
      end
  end.

Definition generateRandomContainerId (d : debugContainerManager)
    : outcome string * debugContainerManager :=
  (random_letters (draws d) 64,
   {| container := container d;
      nextServicePort := nextServicePort d;
      nextAppIdx := nextAppIdx d;
      iterations := iterations d;
      draws := draws d + 64 |}).

(** The entries an iteration over the map visits. *)
Definition range_container (d : debugContainerManager)
    : list (string * virtualContainer) * debugContainerManager :=
  (order (iterations d) (container d),
   {| container := container d;
      nextServicePort := nextServicePort d;
      nextAppIdx := nextAppIdx d;
      iterations := S (iterations d);
      draws := draws d |}).

(** [printContainerTable] iterates over the map. *)
Definition printContainerTable (d : debugContainerManager) : debugContainerManager :=
  (range_container d).2.

Definition debug_Containers (d : debugContainerManager)
    : outcome (list Container) * debugContainerManager :=
  let '(it, d) := range_container d in
  (Ret (map (λ e, container_ e.2) it), d).

Definition debug_set_status (status id : string) (d : debugContainerManager)
    : outcome unit * debugContainerManager :=
  match container d !! id with
  | Some vc =>
      (Ret (), printContainerTable (set_container (<[id := set_status status vc]> (container d)) d))
  | None => (Fail (ErrorNew ("container not found: " +:+ id)), printContainerTable d)
  end.

Definition debug_StartContainer := debug_set_status statusRunning.
Definition debug_StopContainer := debug_set_status statusExited.

Definition debug_PullImageAndCreateContainer (name : string) (args : list string)
    (portBindings : PortMap) (verifyBundleConfig : bool) (d : debugContainerManager)
    : outcome (string * Z) * debugContainerManager :=
  match generateRandomContainerId d with
  | (Ret id, d) =>
      let vc :=
        {| appIdx := nextAppIdx d;
           container_ := {| ID := id; FirstName := id; Container_Image := name;
                            Ports := formatPortBindings (port_order portBindings);
                            Status := statusRunning |} |} in
      let d := printContainerTable (set_container (<[id := vc]> (container d)) d) in
      (Ret (bundleIDFormat (nextAppIdx d), nextServicePort d),
       {| container := container d;
          nextServicePort := int32 (nextServicePort d + 1);
          nextAppIdx := int32 (nextAppIdx d + 1);
          iterations := iterations d;
          draws := draws d |})
  | (Fail e, d) => (Fail e, d)
  | (Panic p, d) => (Panic p, d)
  end.

(** The first visited container of the image, if any. *)
Fixpoint find_image (name : string) (it : list (string * virtualContainer))
    : option (string * virtualContainer) :=
  match it with
  | [] => None
  | (id, vc) :: it =>
      if decide (Container_Image (container_ vc) = name) then Some (id, vc)
      else find_image name it
  end.

Definition debug_RemoveImageAndContainer (name : string) (verifyBundleConfig : bool)
    (d : debugContainerManager) : outcome (string * Z) * debugContainerManager :=
  let '(it, d) := range_container d in
  match find_image name it with
  | Some (id, vc) =>
      let d := set_container (delete id (container d)) d in
      let bundleID := bundleIDFormat (appIdx vc) in
      let servicePort := int32 (servicePortBase - 1 + appIdx vc) in
      (Ret (bundleID, servicePort), printContainerTable d)
  | None => (Ret ("", (-1)%Z), printContainerTable d)
  end.

Definition debug_Close (d : debugContainerManager) : outcome unit * debugContainerManager :=
  (Ret (), d).

Definition debug_manager : Manager debugContainerManager := {|
  Containers := debug_Containers;
  StartContainer := debug_StartContainer;
  StopContainer := debug_StopContainer;
  PullImageAndCreateContainer := debug_PullImageAndCreateContainer;
  RemoveImageAndContainer := debug_RemoveImageAndContainer;
  Close := debug_Close;
|}.
End debug_manager.

(** ** Lemmas *)

Section debug_lemmas.
Context (order : nat → gmap string virtualContainer → list (string * virtualContainer)).
Context (port_order : PortMap → list (string * list PortBinding)).
Context (Intn : nat → nat).
Context (order_ranges : ∀ n m, ranges m (order n m)).
Context (Intn_lt : ∀ n, (Intn n < 52)%nat).

Local Abbreviation M := (debug_manager order port_order Intn).
Local Abbreviation Pull := (debug_PullImageAndCreateContainer order port_order Intn).
Local Abbreviation Remove := (debug_RemoveImageAndContainer order).

Lemma alphabet_get i : (i < 52)%nat → ∃ c, String.get i alphabet = Some c.
Proof. intros Hi. do 52 (destruct i as [| i]; [by eexists |]). lia. Qed.

Lemma random_letters_Ret n i : ∃ id, random_letters Intn n i = Ret id ∧ String.length id = i.
Proof.
  revert n. induction i as [| i IH]; intros n; cbn [random_letters]; [by eexists |].
  destruct (alphabet_get (Intn n)) as [c ->]; [done |].
  destruct (IH (S n)) as (id & -> & <-). by eexists.
Qed.

(** The identifier that [PullImageAndCreateContainer] draws in a state. *)
Definition next_id (d : debugContainerManager) : string :=
  match random_letters Intn (draws d) 64 with Ret id => id | _ => "" end.

Definition new_container (name : string) (portBindings : PortMap) (d : debugContainerManager)
    : virtualContainer :=
  {| appIdx := nextAppIdx d;
     container_ := {| ID := next_id d; FirstName := next_id d; Container_Image := name;
                      Ports := formatPortBindings (port_order portBindings);
                      Status := statusRunning |} |}.

Lemma Pull_eq name args pb verify d :
  Pull name args pb verify d =
    (Ret (bundleIDFormat (nextAppIdx d), nextServicePort d),
     {| container := <[next_id d := new_container name pb d]> (container d);
        nextServicePort := int32 (nextServicePort d + 1);
        nextAppIdx := int32 (nextAppIdx d + 1);
        iterations := S (iterations d);
        draws := draws d + 64 |}).
Proof.
  unfold debug_PullImageAndCreateContainer, generateRandomContainerId, new_container, next_id.
  by destruct (random_letters_Ret (draws d) 64) as (id & -> & _).
Qed.

Lemma find_image_Some name it id vc :
  find_image name it = Some (id, vc) →
  (id, vc) ∈ it ∧ Container_Image (container_ vc) = name.
Proof.
  induction it as [| [id' vc'] it IH]; simpl; [done |].
  case_decide; intros; simplify_eq; [set_solver |]. destruct IH; [done | set_solver].
Qed.

Lemma find_image_None name it :
  find_image name it = None ↔
    ∀ id vc, (id, vc) ∈ it → Container_Image (container_ vc) ≠ name.
Proof.
  induction it as [| [id' vc'] it IH]; simpl; [set_solver |].
  case_decide; [split; [done | intros H'; by destruct (H' id' vc'); [set_solver |]] |].
  rewrite IH. split; [| set_solver].
  intros H' id vc [? | ?]%elem_of_cons; simplify_eq; [done | eauto].
Qed.

(** The two outcomes of a removal: some container of the image is removed, or
    there is none and the call reports success all the same. *)
Lemma Remove_cases name verify d :
  (∃ id vc, container d !! id = Some vc ∧ Container_Image (container_ vc) = name
    ∧ Remove name verify d =
        (Ret (bundleIDFormat (appIdx vc), int32 (servicePortBase - 1 + appIdx vc)),
         {| container := delete id (container d);
            nextServicePort := nextServicePort d;
            nextAppIdx := nextAppIdx d;
            iterations := S (S (iterations d));
            draws := draws d |}))
  ∨ ((∀ id vc, container d !! id = Some vc → Container_Image (container_ vc) ≠ name)
    ∧ Remove name verify d =
        (Ret ("", (-1)%Z),
         {| container := container d;
            nextServicePort := nextServicePort d;
            nextAppIdx := nextAppIdx d;
            iterations := S (S (iterations d));
            draws := draws d |})).
Proof.
  unfold debug_RemoveImageAndContainer. cbn [range_container].
  destruct (find_image name (order (iterations d) (container d))) as [[id vc] |] eqn:E.
  - left. exists id, vc. apply find_image_Some in E as [Hin <-].
    by apply (ranges_elem_of _ _ _ _ (order_ranges _ _)) in Hin.
  - right. split; [| done]. rewrite find_image_None in E. intros id vc Hin.
    apply (E id). by apply (ranges_elem_of _ _ _ _ (order_ranges _ _)).
Qed.

(** ** The invariant

    [K] numbers the live containers by the pull that created them. *)
Definition pulls (d : debugContainerManager) (n : nat) : Prop := draws d = (64 * n)%nat.

Record debug_wf (d : debugContainerManager) (n : nat) (K : gmap string nat) : Prop := {
  wf_draws : pulls d n;
  wf_appIdx : nextAppIdx d = int32 (appIdxBase + Z.of_nat n);
  wf_port : nextServicePort d = int32 (servicePortBase + Z.of_nat n);
  wf_dom : dom K = dom (container d);
  wf_live : ∀ id k vc, K !! id = Some k → container d !! id = Some vc →
    (k < n)%nat ∧ appIdx vc = int32 (appIdxBase + Z.of_nat k)
    ∧ ID (container_ vc) = id ∧ FirstName (container_ vc) = id
    ∧ (Status (container_ vc) = statusRunning ∨ Status (container_ vc) = statusExited);
  wf_inj : ∀ id1 id2 k, K !! id1 = Some k → K !! id2 = Some k → id1 = id2;
}.

Lemma debug_wf_new : debug_wf NewDebugContainerManager 0 ∅.
Proof. split; try done; set_solver. Qed.

Lemma int32_succ z : int32 (int32 z + 1) = int32 (z + 1).
Proof. by autorewrite with carisma_rw. Qed.

Lemma debug_wf_pull d n K name args pb verify :
  debug_wf d n K →
  debug_wf (Pull name args pb verify d).2 (S n) (<[next_id d := n]> K).
Proof.
  intros [Hd Ha Hp Hdom Hlive Hinj]. rewrite Pull_eq. split; simpl.
  - unfold pulls in *. simpl. lia.
  - rewrite Ha, int32_succ. f_equal. lia.
  - rewrite Hp, int32_succ. f_equal. lia.
  - rewrite !dom_insert_L. by rewrite Hdom.
  - intros id k vc. destruct (decide (id = next_id d)) as [-> | Hne].
    + rewrite !lookup_insert_eq. intros. simplify_eq. simpl.
      split_and!; [lia | done | done | done | by left].
    + rewrite !lookup_insert_ne by done. intros Hk Hc.
      destruct (Hlive id k vc Hk Hc) as (? & ?). split; [lia | done].
  - assert (Hn : ∀ id k, K !! id = Some k → (k < n)%nat).
    { intros id k Hk. assert (is_Some (container d !! id)) as [vc Hvc].
      { apply elem_of_dom. rewrite <- Hdom. by apply elem_of_dom_2 in Hk. }
      by destruct (Hlive id k vc Hk Hvc). }
    intros id1 id2 k. rewrite !lookup_insert_Some.
    intros [[<- <-] | [? H1]] [[<- ?] | [? H2]]; [done | | | by eapply Hinj].
    + apply Hn in H2. lia.
    + subst. apply Hn in H1. lia.
Qed.

Lemma debug_wf_remove d n K name verify :
  debug_wf d n K → ∃ K', debug_wf (Remove name verify d).2 n K'.
Proof.
  intros [Hd Ha Hp Hdom Hlive Hinj].
  destruct (Remove_cases name verify d) as [(id & vc & Hvc & Hn & ->) | [_ ->]].
  - exists (delete id K). split; try done; simpl.
    + rewrite !dom_delete_L. by rewrite Hdom.
    + intros id' k vc' Hk Hc. apply lookup_delete_Some in Hk as [? Hk], Hc as [? Hc].
      by apply Hlive.
    + intros id1 id2 k H1 H2. apply lookup_delete_Some in H1 as [? H1], H2 as [? H2].
      by eapply Hinj.
  - by exists K.
Qed.

Lemma debug_wf_status d n K status id :
  (status = statusRunning ∨ status = statusExited) →
  debug_wf d n K → debug_wf (debug_set_status order status id d).2 n K.
Proof.
  intros Hs [Hd Ha Hp Hdom Hlive Hinj]. unfold debug_set_status.
  destruct (container d !! id) as [vc |] eqn:E; [| by split].
  split; try done; simpl.
  - rewrite Hdom, dom_insert_lookup_L; [done | by eexists].
  - intros id' k vc' Hk. destruct (decide (id' = id)) as [-> | Hne].
    + rewrite lookup_insert_eq. intros [= <-].
      destruct (Hlive id k vc Hk E) as (? & ? & ? & ? & _). done.
    + rewrite lookup_insert_ne by done. by apply Hlive.
Qed.

Definition is_pull (c : call) : bool :=
  match c with CallPull _ _ _ _ => true | _ => false end.

Definition is_remove (c : call) : bool :=
  match c with CallRemove _ _ => true | _ => false end.

Definition count_pulls (cs : list call) : nat := length (List.filter is_pull cs).

Lemma debug_wf_perform d n K c :
  debug_wf d n K →
  ∃ K', debug_wf (@perform _ M c d) (if is_pull c then S n else n) K'.
Proof.
  intros Hwf. destruct c as [| id | id | name args pb verify | name verify |]; simpl.
  - exists K. by destruct Hwf.
  - exists K. apply debug_wf_status; auto.
  - exists K. apply debug_wf_status; auto.
  - exists (<[next_id d := n]> K). by apply debug_wf_pull.
  - by eapply debug_wf_remove.
  - by exists K.
Qed.

Lemma debug_wf_perform_all cs d n K :
  debug_wf d n K →
  ∃ K', debug_wf (@perform_all _ M cs d) (n + count_pulls cs) K'.
Proof.
  revert d n K. induction cs as [| c cs IH]; intros d n K Hwf.
  { exists K. by rewrite Nat.add_0_r. }
  destruct (debug_wf_perform d n K c Hwf) as (K1 & Hwf1).
  destruct (IH _ _ _ Hwf1) as (K2 & Hwf2). exists K2.
  replace (n + count_pulls (c :: cs))%nat
    with ((if is_pull c then S n else n) + count_pulls cs)%nat; [done |].
  unfold count_pulls. simpl. destruct (is_pull c); simpl; lia.
Qed.

Lemma reachable_wf cs :
  ∃ K, debug_wf (@perform_all _ M cs NewDebugContainerManager) (count_pulls cs) K.
Proof. apply (debug_wf_perform_all cs _ 0 ∅), debug_wf_new. Qed.

(** Numbers that differ and stay within a window of 2^32 have different
    32-bit values. *)
Lemma int32_inj_window a b :
  int32 a = int32 b → (Z.abs (a - b) < 2 ^ 32)%Z → a = b.
Proof.
  unfold int32. intros H Hw.
  assert (Hm : ((a + 2 ^ 31) mod 2 ^ 32 = (b + 2 ^ 31) mod 2 ^ 32)%Z) by lia.
  assert (Ha := Z.div_mod (a + 2 ^ 31) (2 ^ 32) ltac:(lia)).
  assert (Hb := Z.div_mod (b + 2 ^ 31) (2 ^ 32) ltac:(lia)). nia.
Qed.

Lemma bundleIDFormat_inj a b : bundleIDFormat a = bundleIDFormat b → a = b.
Proof. unfold bundleIDFormat, Itoa. intros H. by simplify_eq. Qed.

(** ** Calls that do not change what is deployed *)
Definition erased (d : debugContainerManager) : gmap string virtualContainer :=
  set_status "" <$> container d.

Lemma erased_perform c d :
  is_pull c = false → is_remove c = false → erased (@perform _ M c d) = erased d.
Proof.
  assert (Hs : ∀ status id, erased (debug_set_status order status id d).2 = erased d).
  { intros status id. unfold debug_set_status, erased.
    destruct (container d !! id) as [vc |] eqn:E; [| done]. simpl.
    rewrite fmap_insert. apply insert_id. rewrite lookup_fmap, E. by destruct vc as [? []]. }
  destruct c; intros; simplify_eq/=; try done; apply Hs.
Qed.

Lemma erased_perform_all cs d :
  Forall (λ c, is_pull c = false ∧ is_remove c = false) cs →
  erased (@perform_all _ M cs d) = erased d.
Proof.
  intros Hcs. revert d. induction Hcs as [| c cs [] _ IH]; intros d; [done |].
  etrans; [apply IH |]. by apply erased_perform.
Qed.

Lemma erased_lookup d id vc :
  container d !! id = Some vc → erased d !! id = Some (set_status "" vc).
Proof. unfold erased. rewrite lookup_fmap. by intros ->. Qed.

(** ** Properties *)

(** C22. After any sequence of calls on a new debug manager: the counters are the
    32-bit values of their bases plus the number of pulls, every container is
    stored under its own identifier with a status the manager knows, and -
    below 2^32 pulls - two different containers never share a bundle
    identifier. *)
Theorem debug_manager_invariant cs :
  let d := @perform_all _ M cs NewDebugContainerManager in
  let n := Z.of_nat (count_pulls cs) in
  nextAppIdx d = int32 (appIdxBase + n) ∧ nextServicePort d = int32 (servicePortBase + n)
  ∧ (∀ id vc, container d !! id = Some vc →
       ID (container_ vc) = id ∧ FirstName (container_ vc) = id
       ∧ (Status (container_ vc) = statusRunning ∨ Status (container_ vc) = statusExited))
  ∧ ((n ≤ 2 ^ 32)%Z → ∀ id1 id2 vc1 vc2,
       container d !! id1 = Some vc1 → container d !! id2 = Some vc2 →
       bundleIDFormat (appIdx vc1) = bundleIDFormat (appIdx vc2) → id1 = id2).
Proof.
  intros d n. destruct (reachable_wf cs) as [K [_ Ha Hp Hdom Hlive Hinj]].
  fold d in Ha, Hp, Hdom, Hlive.
  assert (HK : ∀ id vc, container d !! id = Some vc → ∃ k, K !! id = Some k).
  { intros id vc Hvc. apply elem_of_dom. rewrite Hdom. by apply elem_of_dom_2 in Hvc. }
  split_and!; [done | done | |].
  - intros id vc Hvc. destruct (HK id vc Hvc) as [k Hk].
    by destruct (Hlive id k vc Hk Hvc) as (_ & _ & ? & ? & ?).
  - intros Hn id1 id2 vc1 vc2 H1 H2 Hb%bundleIDFormat_inj.
    destruct (HK id1 vc1 H1) as [k1 Hk1], (HK id2 vc2 H2) as [k2 Hk2].
    destruct (Hlive _ _ _ Hk1 H1) as (? & Hi1 & _), (Hlive _ _ _ Hk2 H2) as (? & Hi2 & _).
    rewrite Hi1, Hi2 in Hb. apply int32_inj_window in Hb; [| lia].
    assert (k1 = k2) as -> by lia. by eapply Hinj.
Qed.

(** Pulling an image and removing it again: in every reachable state in which
    no container runs the image and the drawn identifier is new, the removal -
    after any calls that start, stop or list containers - answers with the
    bundle identifier and the service port of the pull, and what is deployed
    is what was deployed before the pull. *)
Theorem pull_remove_round_trip cs cs' name args pb v v' :
  let d := @perform_all _ M cs NewDebugContainerManager in
  (∀ id vc, container d !! id = Some vc → Container_Image (container_ vc) ≠ name) →
  container d !! next_id d = None →
  Forall (λ c, is_pull c = false ∧ is_remove c = false) cs' →
  let pulled := Pull name args pb v d in
  let removed := Remove name v' (@perform_all _ M cs' pulled.2) in
  removed.1 = pulled.1 ∧ erased removed.2 = erased d.
Proof.
  intros d Hnone Hfresh Hcs' pulled removed.
  destruct (reachable_wf cs) as [K [_ Ha Hp _ _ _]]. fold d in Ha, Hp.
  assert (Herased : erased (@perform_all _ M cs' pulled.2) = erased pulled.2)
    by by apply erased_perform_all.
  unfold removed, pulled in *. rewrite Pull_eq in *. cbn [fst snd] in *.
  set (d1 := {| container := _ |}) in *.
  assert (Hd1 : erased d1 = <[next_id d := set_status "" (new_container name pb d)]> (erased d)).
  { unfold erased, d1. simpl. by rewrite fmap_insert. }
  assert (Hf : erased d !! next_id d = None) by (unfold erased; by rewrite lookup_fmap, Hfresh).
  set (d2 := @perform_all _ M cs' d1) in *.
  assert (Honly : ∀ id vc, container d2 !! id = Some vc → Container_Image (container_ vc) = name →
    id = next_id d ∧ appIdx vc = nextAppIdx d).
  { intros id vc Hvc Hn. apply erased_lookup in Hvc. rewrite Herased, Hd1 in Hvc.
    apply lookup_insert_Some in Hvc as [[<- E] | [_ Hvc]].
    - apply (f_equal appIdx) in E. by split.
    - unfold erased in Hvc. rewrite lookup_fmap_Some in Hvc.
      destruct Hvc as (vc0 & E & Hvc0). destruct (Hnone _ _ Hvc0).
      apply (f_equal (Container_Image ∘ container_)) in E. simpl in E. congruence. }
  destruct (Remove_cases name v' d2) as [(id & vc & Hvc & Hn & ->) | [Habs _]]; cbn [fst snd].
  - destruct (Honly _ _ Hvc Hn) as [-> ->]. split.
    + rewrite Ha, Hp. autorewrite with carisma_rw. unfold appIdxBase. do 3 f_equal. lia.
    + unfold erased in *. simpl. rewrite fmap_delete, Herased, Hd1.
      by apply delete_insert_id.
  - exfalso. assert (Hd2 : erased d2 !! next_id d = Some (set_status "" (new_container name pb d)))
      by (rewrite Herased, Hd1; apply lookup_insert_eq).
    unfold erased in Hd2. rewrite lookup_fmap_Some in Hd2. destruct Hd2 as (vc & E & Hvc).
    apply (Habs _ _ Hvc). by apply (f_equal (Container_Image ∘ container_)) in E.
Qed.

(** Starting and stopping: on a known identifier the status of that container
    - and nothing else - becomes [running] or [exited]; an unknown identifier
    is an error that changes nothing; and the next listing contains exactly
    the stored containers, the changed status included. *)
Theorem start_stop_list_spec d id :
  match container d !! id with
  | Some vc =>
      ∃ d1 d2 l,
        debug_StartContainer order id d = (Ret (), d1)
        ∧ container d1 = <[id := set_status statusRunning vc]> (container d)
        ∧ debug_StopContainer order id d1 = (Ret (), d2)
        ∧ container d2 = <[id := set_status statusExited vc]> (container d)
        ∧ (debug_Containers order d2).1 = Ret l
        ∧ l ≡ₚ container_ (set_status statusExited vc)
             :: map (λ e, container_ e.2) (map_to_list (delete id (container d)))
  | None =>
      ∃ d1 l,
        debug_StartContainer order id d = (Fail (ErrorNew ("container not found: " +:+ id)), d1)
        ∧ debug_StopContainer order id d = (Fail (ErrorNew ("container not found: " +:+ id)), d1)
        ∧ container d1 = container d
        ∧ (debug_Containers order d1).1 = Ret l
        ∧ l ≡ₚ map (λ e, container_ e.2) (map_to_list (container d))
  end.
Proof.
  destruct (container d !! id) as [vc |] eqn:E.
  - unfold debug_StartContainer, debug_StopContainer, debug_set_status. rewrite E.
    do 3 eexists. split_and!; [done | done | | | |].
    + simpl. by rewrite lookup_insert_eq.
    + simpl. rewrite insert_insert_eq. by destruct vc as [? []].
    + done.
    + simpl. etrans; [apply Permutation_map, order_ranges |].
      rewrite insert_insert_eq. rewrite <- insert_delete_eq.
      rewrite map_to_list_insert by apply lookup_delete_eq.
      by destruct vc as [? []].
  - unfold debug_StartContainer, debug_StopContainer, debug_set_status. rewrite E.
    do 2 eexists. split_and!; [done.. |]. simpl. apply Permutation_map, order_ranges.
Qed.
End debug_lemmas.

(** ** A concrete execution: maps visited in the order of [map_to_list], and
    letters drawn in alphabetical order. *)
Definition list_order (n : nat) (m : gmap string virtualContainer)
    : list (string * virtualContainer) := map_to_list m.
Definition port_list_order (m : PortMap) : list (string * list PortBinding) := map_to_list m.
Definition cyclic_draws (n : nat) : nat := (n mod 52)%nat.

Lemma list_order_ranges n m : ranges m (list_order n m).
Proof. apply ranges_canonical. Qed.

Lemma cyclic_draws_lt n : (cyclic_draws n < 52)%nat.
Proof. apply Nat.mod_upper_bound. lia. Qed.

Lemma debug_manager_invariant_witness :
  let M := debug_manager list_order port_list_order cyclic_draws in
  let cs := [CallPull "envoyproxy/envoy" [] ∅ false; CallPull "app:v1" [] ∅ true;
             CallRemove "envoyproxy/envoy" false] in
  let d := @perform_all _ M cs NewDebugContainerManager in
  nextAppIdx d = int32 (appIdxBase + 2) ∧ nextServicePort d = int32 (servicePortBase + 2)
  ∧ (∀ id vc, container d !! id = Some vc →
       ID (container_ vc) = id ∧ FirstName (container_ vc) = id
       ∧ (Status (container_ vc) = statusRunning ∨ Status (container_ vc) = statusExited))
  ∧ ((2 ≤ 2 ^ 32)%Z → ∀ id1 id2 vc1 vc2,
       container d !! id1 = Some vc1 → container d !! id2 = Some vc2 →
       bundleIDFormat (appIdx vc1) = bundleIDFormat (appIdx vc2) → id1 = id2).
Proof.
  intros M cs. apply (debug_manager_invariant list_order port_list_order cyclic_draws
    list_order_ranges cyclic_draws_lt cs).
Defined.

Lemma pull_remove_round_trip_witness :
  let M := debug_manager list_order port_list_order cyclic_draws in
  let d := @perform_all _ M [CallPull "envoyproxy/envoy" [] ∅ false] NewDebugContainerManager in
  let pulled := debug_PullImageAndCreateContainer list_order port_list_order cyclic_draws
                  "app:v1" [] ∅ true d in
  let removed := debug_RemoveImageAndContainer list_order "app:v1" true
                   (@perform_all _ M [CallContainers; CallStop "x"] pulled.2) in
  removed.1 = pulled.1 ∧ erased removed.2 = erased d.
Proof.
  apply (pull_remove_round_trip list_order port_list_order cyclic_draws
    list_order_ranges cyclic_draws_lt
    [CallPull "envoyproxy/envoy" [] ∅ false] [CallContainers; CallStop "x"] "app:v1" [] ∅ true true).
  - apply map_Forall_to_list. vm_compute. repeat constructor. discriminate.
  - vm_compute. reflexivity.
  - repeat constructor.
Defined.

Lemma start_stop_list_spec_witness :
  ∃ d1 l,
    debug_StartContainer list_order "x" NewDebugContainerManager =
      (Fail (ErrorNew "container not found: x"), d1)
    ∧ debug_StopContainer list_order "x" NewDebugContainerManager =
      (Fail (ErrorNew "container not found: x"), d1)
    ∧ container d1 = ∅
    ∧ (debug_Containers list_order d1).1 = Ret l
    ∧ l ≡ₚ map (λ e, container_ e.2) (map_to_list (∅ : gmap string virtualContainer)).
Proof. apply (start_stop_list_spec list_order list_order_ranges NewDebugContainerManager "x"). Defined.
