(* ===== verification/Orchestrator.v ===== *)
(** Package [cmd/carisma-orchestrator/app], file [orchestrator.go]: how an
    orchestrator turns the deployment configuration it receives into calls of
    its container manager and into announcements of services.

    [process] is a function of the state of the manager; its effects are the
    new state of the manager and the announcements passed to [hReg] and
    [hUnreg].  Log messages are not part of the effects. *)
From S2P Require Import Prelude GoStrings Deployment Config Container.

Local Open Scope string_scope.

Definition unmanagedContainerNamePrefix : string := "/carisma-keep-".

(** [envoyContainerImageName] of envoy.go *)
Definition envoyContainerImageName : string := "envoyproxy/envoy:distroless-v1.27-latest".

(** ** [diff] *)
Definition remember (a : list Image) : gmap string string :=
  foldl (λ memory i, <[Name i := Version i]> memory) ∅ a.

(** [!found || version != i.Version] *)
Definition is_missing (memory : gmap string string) (i : Image) : bool :=
  match memory !! Name i with
  | Some version => bool_decide (version ≠ Version i)
  | None => true
  end.

Fixpoint missing_loop (memory : gmap string string) (missing b : list Image) : list Image :=
  match b with
  | [] => missing
  | i :: b =>
      missing_loop memory (if is_missing memory i then missing ++ [i] else missing)%list b
  end.

Definition diff (a b : list Image) : list Image := missing_loop (remember a) [] b.

(** ** The containers the orchestrator manages

    The slice is filtered in place: the loop reads the [i]-th element of the
    array that it overwrites at [idx]. *)
Definition is_managed (c : Container) : bool :=
  negb (HasPrefix (FirstName c) unmanagedContainerNamePrefix) && HasPrefix (Status c) "Up".

Fixpoint filter_loop (n i idx : nat) (currContainers : list Container)
    : outcome (list Container * nat) :=
  match n with
  | 0 => Ret (currContainers, idx)
  | S n =>
      c ← index_or_panic currContainers i;
      if is_managed c
      then filter_loop n (S i) (S idx) (<[idx := c]> currContainers)
      else filter_loop n (S i) idx currContainers
  end.

Definition filter_containers (currContainers : list Container) : outcome (list Container) :=
  '(currContainers, idx) ← filter_loop (length currContainers) 0 0 currContainers;
  Ret (take idx currContainers).

(** ** Announcements *)
Inductive announcement :=
| AnnounceRegistered (bundleID : string) (servicePort : Z)
| AnnounceUnregistered (bundleID : string) (servicePort : Z).

#[export] Instance announcement_eq_dec : EqDecision announcement.
Proof. solve_decision. Defined.

Section orchestrator.
Context `{ReferencePkg} {S : Type} `{Manager S}.

(** Fully qualified names for the names of the desired images. *)
Definition qualify (defaultDomain : string) (i : Image) : outcome Image :=
  fqin ← ParseFQIN (Name i) defaultDomain;
  Ret {| Name := fqin; Version := Version i |}.

Definition is_middleware (i : Image) : outcome bool :=
  envoy ← ParseImageName envoyContainerImageName;
  Ret (HasSuffix (Name i) (Name envoy)).

(** One image that is no longer desired.  The result is a panic or nothing;
    errors of the manager are logged. *)
Definition remove_image (i : Image) (s : S) : outcome unit * S * list announcement :=
  match is_middleware i with
  | Ret true => (Ret (), s, [])
  | Ret false =>
      match RemoveImageAndContainer (image_identifier i) true s with
      | (Ret (bundleID, servicePort), s) =>
          (Ret (), s, [AnnounceUnregistered bundleID servicePort])
      | (Fail err, s) =>
          match RemoveImageAndContainer (image_identifier i) false s with
          | (Panic p, s) => (Panic p, s, [])
          | (_, s) => (Ret (), s, [])
          end
      | (Panic p, s) => (Panic p, s, [])
      end
  | Fail e => (Fail e, s, [])
  | Panic p => (Panic p, s, [])
  end.

(** One image that is newly desired. *)
Definition install_image (i : Image) (s : S) : outcome unit * S * list announcement :=
  match PullImageAndCreateContainer (image_identifier i) [] ∅ true s with
  | (Ret (bundleID, servicePort), s) => (Ret (), s, [AnnounceRegistered bundleID servicePort])
  | (Fail err, s) => (Ret (), s, [])
  | (Panic p, s) => (Panic p, s, [])
  end.

Fixpoint for_images (f : Image → S → outcome unit * S * list announcement)
    (images : list Image) (s : S) : outcome unit * S * list announcement :=
  match images with
  | [] => (Ret (), s, [])
  | i :: images =>
      match f i s with
      | (Ret _, s, out) =>
          let '(r, s, out') := for_images f images s in (r, s, (out ++ out')%list)
      | (r, s, out) => (r, s, out)
      end
  end.

(** The images of the listing and of the configuration, and the two
    differences. *)
Definition plan (cfg : Config) (node : NodeConfig) (currContainers : list Container)
    : outcome (list Image * list Image) :=
  currContainers ← filter_containers currContainers;
  currDeploymentConfig ← ExtractImageList currContainers;
  newDeploymentConfig ← mapM_outcome ParseImageName (image_list node);
  newDeploymentConfig ←
    mapM_outcome (qualify (DefaultContainerRegistryDomain cfg)) newDeploymentConfig;
  Ret (diff newDeploymentConfig currDeploymentConfig,
       diff currDeploymentConfig newDeploymentConfig).

Definition process (cfg : Config) (dplmCfg : DeploymentConfig) (s : S)
    : outcome unit * S * list announcement :=
  match dplmCfg !! NodeHostname cfg with
  | None => (Ret (), s, [])
  | Some node =>
      match Containers s with
      | (Fail err, s) => (Fail err, s, [])
      | (Panic p, s) => (Panic p, s, [])
      | (Ret currContainers, s) =>
          match plan cfg node currContainers with
          | Fail err => (Fail err, s, [])
          | Panic p => (Panic p, s, [])
          | Ret (removedImages, newImages) =>
              match for_images remove_image removedImages s with
              | (Ret _, s, out) =>
                  let '(r, s, out') := for_images install_image newImages s in
                  (r, s, (out ++ out')%list)
              | (r, s, out) => (r, s, out)
              end
          end
      end
  end.
End orchestrator.

(** ** Reference definitions and lemmas *)

Lemma missing_loop_filter memory missing b :
  missing_loop memory missing b = (missing ++ List.filter (is_missing memory) b)%list.
Proof.
  revert missing. induction b as [| i b IH]; intros missing; simpl.
  { by rewrite app_nil_r. }
  rewrite IH. destruct (is_missing memory i); simpl; [by rewrite <- app_assoc | done].
Qed.

Lemma diff_filter a b : diff a b = List.filter (is_missing (remember a)) b.
Proof. unfold diff. by rewrite missing_loop_filter. Qed.

Lemma remember_snoc a i : remember (a ++ [i]) = <[Name i := Version i]> (remember a).
Proof. unfold remember. by rewrite foldl_app. Qed.

(** The memory holds the version of the last image of a name. *)
Lemma remember_lookup a n v :
  remember a !! n = Some v ↔
    ∃ a1 i a2, a = (a1 ++ i :: a2)%list ∧ Name i = n ∧ Version i = v
      ∧ ∀ j, j ∈ a2 → Name j ≠ n.
Proof.
  induction a as [| i a IH] using rev_ind.
  { split; [done |]. intros (? & ? & ? & E & _). by destruct (app_cons_not_nil _ _ _ E). }
  rewrite remember_snoc, lookup_insert_Some, IH. split.
  - intros [[<- <-] | [Hne (a1 & j & a2 & -> & Hn & Hv & Hlast)]].
    + exists a, i, []. split_and!; [done.. | set_solver].
    + exists a1, j, (a2 ++ [i])%list. rewrite <- app_assoc. split_and!; [done.. |].
      intros k [Hk | ->%list_elem_of_singleton]%elem_of_app; [by apply Hlast | done].
  - intros (a1 & j & a2 & E & Hn & Hv & Hlast).
    destruct a2 as [| k a2 _] using rev_ind.
    + apply app_inj_tail in E as [-> ->]. by left.
    + rewrite app_comm_cons, app_assoc in E. apply app_inj_tail in E as [-> ->].
      right. split; [apply Hlast; set_solver |].
      exists a1, j, a2. split_and!; [done.. |]. intros k' Hk'. apply Hlast. set_solver.
Qed.

Lemma remember_None a n : remember a !! n = None ↔ ∀ i, i ∈ a → Name i ≠ n.
Proof.
  induction a as [| i a IH] using rev_ind; [split; [set_solver | done] |].
  rewrite remember_snoc, lookup_insert_None, IH. split.
  - intros [Ha Hi] j [Hj | ->%list_elem_of_singleton]%elem_of_app; [by apply Ha | done].
  - intros Hall. split; [| by apply Hall; set_solver].
    intros j Hj. apply Hall. set_solver.
Qed.

Lemma NoDup_Name_eq (a : list Image) i j :
  NoDup (map Name a) → i ∈ a → j ∈ a → Name i = Name j → i = j.
Proof.
  intros Hnd Hi Hj Hn. apply list_elem_of_lookup in Hi as [k1 Hi], Hj as [k2 Hj].
  assert (k1 = k2) as ->; [| by simplify_eq].
  apply (NoDup_lookup (map Name a) _ _ (Name i) Hnd).
  - by rewrite list_lookup_fmap, Hi.
  - by rewrite list_lookup_fmap, Hj, Hn.
Qed.

(** Among images of distinct names, missing is not being there. *)
Lemma is_missing_NoDup a i :
  NoDup (map Name a) → is_missing (remember a) i = bool_decide (i ∉ a).
Proof.
  intros Hnd. unfold is_missing. destruct (remember a !! Name i) as [v |] eqn:E.
  - apply remember_lookup in E as (a1 & j & a2 & -> & Hn & <- & _).
    apply bool_decide_ext. split.
    + intros Hv Hi. assert (i = j) as ->; [| done].
      by apply (NoDup_Name_eq _ _ _ Hnd); [| set_solver |].
    + intros Hi Hv. apply Hi. assert (i = j) as ->; [| set_solver].
      destruct i, j; simpl in *; congruence.
  - symmetry. apply bool_decide_eq_true. intros Hi.
    by eapply remember_None in E.
Qed.

Lemma diff_NoDup a b :
  NoDup (map Name a) → diff a b = List.filter (λ i, bool_decide (i ∉ a)) b.
Proof.
  intros Hnd. rewrite diff_filter. apply filter_ext. intros i. by apply is_missing_NoDup.
Qed.

(** The in-place loop: what has been kept is in front of [idx], what is still
    to be read is unchanged. *)
Lemma filter_loop_inv kept junk rest :
  ∃ junk',
    filter_loop (length rest) (length kept + length junk) (length kept)
      (kept ++ junk ++ rest) =
    Ret ((kept ++ List.filter is_managed rest ++ junk')%list,
         length (kept ++ List.filter is_managed rest)).
Proof.
  revert kept junk. induction rest as [| c rest IH]; intros kept junk; simpl.
  { exists junk. by rewrite !app_nil_r. }
  assert (index_or_panic (kept ++ junk ++ c :: rest) (length kept + length junk) = Ret c) as ->.
  { apply index_or_panic_Ret. rewrite app_assoc, <- length_app. by apply list_lookup_middle. }
  cbn [mbind outcome_bind]. destruct (is_managed c); simpl.
  - assert (∃ junk1, length junk1 = length junk
      ∧ <[length kept := c]> (kept ++ junk ++ c :: rest) = (kept ++ [c]) ++ junk1 ++ rest)%list
      as (junk1 & Hl & ->).
    { destruct junk as [| x junk]; simpl.
      - exists []. split; [done |]. rewrite list_insert_id by (by apply list_lookup_middle).
        by rewrite <- app_assoc.
      - exists (junk ++ [c])%list. rewrite length_app. simpl. split; [lia |].
        rewrite insert_app_r_alt by lia. rewrite Nat.sub_diag. simpl.
        by rewrite <- !app_assoc. }
    destruct (IH (kept ++ [c])%list junk1) as [junk' H'].
    exists junk'. rewrite length_app in H'. simpl in H'.
    replace (S (length kept + length junk))%nat with (length kept + 1 + length junk1)%nat by lia.
    replace (S (length kept)) with (length kept + 1)%nat by lia.
    rewrite H', <- !app_assoc. done.
  - destruct (IH kept (junk ++ [c])%list) as [junk' H'].
    exists junk'. rewrite <- H', <- !app_assoc, length_app. simpl. f_equal. lia.
Qed.

Lemma filter_containers_eq cs : filter_containers cs = Ret (List.filter is_managed cs).
Proof.
  unfold filter_containers.
  destruct (filter_loop_inv [] [] cs) as [junk H]. simpl in H. rewrite H. cbn.
  by rewrite take_app_length.
Qed.

(** The last image of a name in a list: what the map of [diff] remembers. *)
Definition last_named (a : list Image) (n : string) : option Image :=
  last (List.filter (λ i, bool_decide (Name i = n)) a).

Lemma is_missing_last_named a i :
  is_missing (remember a) i = bool_decide (last_named a (Name i) ≠ Some i).
Proof.
  unfold is_missing, last_named.
  induction a as [| j a IH] using rev_ind; [done |].
  rewrite remember_snoc, List.filter_app. cbn [List.filter].
  destruct (decide (Name j = Name i)) as [Hn | Hn].
  - rewrite (bool_decide_true (Name j = Name i)), Hn, lookup_insert_eq, last_snoc by done.
    apply bool_decide_ext. split; [congruence |].
    intros Hne Hv. apply Hne. destruct i, j; simpl in *; congruence.
  - by rewrite lookup_insert_ne, (bool_decide_false (Name j = Name i)), app_nil_r.
Qed.

Lemma ParseImageName_mapM l : mapM_outcome ParseImageName l = Ret (map image_of l).
Proof. apply mapM_outcome_pure. intros x _. apply ParseImageName_image_of. Qed.

(** The images of the managed containers of a listing. *)
Definition managed_images (cs : list Container) : list Image :=
  map (λ c, image_of (Container_Image c)) (List.filter is_managed cs).

Section orchestrator_lemmas.
Context `{ReferencePkg}.

(** The fully qualified desired images. *)
Definition desired (cfg : Config) (node : NodeConfig) : outcome (list Image) :=
  mapM_outcome (qualify (DefaultContainerRegistryDomain cfg)) (map image_of (image_list node)).

Lemma plan_eq cfg node cs :
  plan cfg node cs =
    D ← desired cfg node;
    Ret (diff D (managed_images cs), diff (managed_images cs) D).
Proof.
  unfold plan, desired. rewrite filter_containers_eq. cbn.
  rewrite ExtractImageList_eq. cbn. by rewrite ParseImageName_mapM.
Qed.

Lemma desired_versions cfg node D i :
  desired cfg node = Ret D → i ∈ D → has_byte ":" (Version i) = false.
Proof.
  unfold desired. rewrite mapM_outcome_Ret. intros HD Hi.
  apply list_elem_of_lookup in Hi as [k Hk].
  destruct (Forall2_lookup_r _ _ _ _ _ HD Hk) as (j & Hj & Hq).
  unfold qualify in Hq. outcome_inv.
  rewrite list_lookup_fmap in Hj. apply fmap_Some in Hj as (s & _ & ->).
  apply image_of_version_no_colon.
Qed.

Lemma is_middleware_eq i :
  is_middleware i = Ret (HasSuffix (Name i) "envoyproxy/envoy").
Proof. unfold is_middleware. by rewrite ParseImageName_image_of. Qed.
End orchestrator_lemmas.

(** ** A manager that records its calls *)
Section recorded.
Context {S : Type} `{Manager S}.

Definition record {A} (c : call) (f : S → outcome A * S) (sl : S * list call)
    : outcome A * (S * list call) :=
  let '(r, s) := f sl.1 in (r, (s, (sl.2 ++ [c])%list)).

Definition recorded : Manager (S * list call) := {|
  Containers := record CallContainers Containers;
  StartContainer id := record (CallStart id) (StartContainer id);
  StopContainer id := record (CallStop id) (StopContainer id);
  PullImageAndCreateContainer name args pb v :=
    record (CallPull name args pb v) (PullImageAndCreateContainer name args pb v);
  RemoveImageAndContainer name v :=
    record (CallRemove name v) (RemoveImageAndContainer name v);
  Close := record CallClose Close;
|}.

(** The same with what the manager answered. *)
Inductive answer :=
| Listed (r : outcome (list Container))
| Answered (r : outcome unit)
| Described (r : outcome (string * Z)).

Definition record_answer {A} (c : call) (wrap : outcome A → answer) (f : S → outcome A * S)
    (sl : S * list (call * answer)) : outcome A * (S * list (call * answer)) :=
  let '(r, s) := f sl.1 in (r, (s, (sl.2 ++ [(c, wrap r)])%list)).

Definition traced : Manager (S * list (call * answer)) := {|
  Containers := record_answer CallContainers Listed Containers;
  StartContainer id := record_answer (CallStart id) Answered (StartContainer id);
  StopContainer id := record_answer (CallStop id) Answered (StopContainer id);
  PullImageAndCreateContainer name args pb v :=
    record_answer (CallPull name args pb v) Described (PullImageAndCreateContainer name args pb v);
  RemoveImageAndContainer name v :=
    record_answer (CallRemove name v) Described (RemoveImageAndContainer name v);
  Close := record_answer CallClose Answered Close;
|}.
End recorded.

(** What has to be announced after a call with this answer. *)
Definition announcement_of (e : call * answer) : option announcement :=
  match e with
  | (CallRemove _ true, Described (Ret (b, p))) => Some (AnnounceUnregistered b p)
  | (CallPull _ _ _ true, Described (Ret (b, p))) => Some (AnnounceRegistered b p)
  | _ => None
  end.

#[local] Arguments is_middleware : simpl never.
#[local] Arguments is_missing : simpl never.

Section trace.
Context `{ReferencePkg} {S : Type} `{Manager S}.
Context (no_panic_pull : ∀ name args pb v (s : S) p,
  (PullImageAndCreateContainer name args pb v s).1 ≠ Panic p).
Context (no_panic_remove : ∀ name v (s : S) p, (RemoveImageAndContainer name v s).1 ≠ Panic p).

Local Abbreviation R := traced.

(** The calls for one image that is no longer desired, with their answers: the
    second one is made exactly if the first one failed. *)
Inductive removal (i : Image) : list (call * answer) → Prop :=
| removal_middleware : HasSuffix (Name i) "envoyproxy/envoy" = true → removal i []
| removal_verified b p :
    HasSuffix (Name i) "envoyproxy/envoy" = false →
    removal i [(CallRemove (image_identifier i) true, Described (Ret (b, p)))]
| removal_retried err r :
    HasSuffix (Name i) "envoyproxy/envoy" = false → is_panic r = false →
    removal i [(CallRemove (image_identifier i) true, Described (Fail err));
               (CallRemove (image_identifier i) false, Described r)].

(** The call for one newly desired image. *)
Definition installation (i : Image) (e : call * answer) : Prop :=
  ∃ r, e = (CallPull (image_identifier i) [] ∅ true, Described r) ∧ is_panic r = false.

Lemma remove_image_trace i s log :
  ∃ s' calls,
    @remove_image _ R i (s, log) = (Ret (), (s', (log ++ calls)%list), omap announcement_of calls)
    ∧ remove_image i s = (Ret (), s', omap announcement_of calls)
    ∧ removal i calls.
Proof.
  unfold remove_image. rewrite is_middleware_eq.
  destruct (HasSuffix (Name i) "envoyproxy/envoy") eqn:Hm.
  { exists s, []. rewrite app_nil_r. split_and!; [done | done | by constructor]. }
  simpl. unfold record_answer. simpl.
  assert (H1 := no_panic_remove (image_identifier i) true s).
  destruct (RemoveImageAndContainer (image_identifier i) true s) as [[[b p] | e | p] s1]; simpl.
  - exists s1, [(CallRemove (image_identifier i) true, Described (Ret (b, p)))].
    split_and!; [done | done | by constructor].
  - assert (H2 := no_panic_remove (image_identifier i) false s1).
    destruct (RemoveImageAndContainer (image_identifier i) false s1) as [r s2]. simpl in *.
    exists s2, [(CallRemove (image_identifier i) true, Described (Fail e));
                (CallRemove (image_identifier i) false, Described r)].
    rewrite <- app_assoc.
    destruct r as [[b p] | e2 | p]; [| | by destruct (H2 p)];
      (split_and!; [done | done | by constructor]).
  - by destruct (H1 p).
Qed.

Lemma for_remove_trace images s log :
  ∃ s' parts,
    @for_images _ (@remove_image _ R) images (s, log) =
      (Ret (), (s', (log ++ concat parts)%list), omap announcement_of (concat parts))
    ∧ for_images remove_image images s = (Ret (), s', omap announcement_of (concat parts))
    ∧ Forall2 removal images parts.
Proof.
  revert s log. induction images as [| i images IH]; intros s log; cbn [for_images].
  { exists s, []. simpl. rewrite app_nil_r. by split_and!. }
  destruct (remove_image_trace i s log) as (s1 & calls & -> & -> & Hr).
  destruct (IH s1 (log ++ calls)%list) as (s2 & parts & -> & -> & Hparts).
  exists s2, (calls :: parts). cbn [concat]. rewrite omap_app, <- app_assoc.
  split_and!; [done | done | by constructor].
Qed.

Lemma install_image_trace i s log :
  ∃ s' e,
    @install_image _ R i (s, log) = (Ret (), (s', (log ++ [e])%list), omap announcement_of [e])
    ∧ install_image i s = (Ret (), s', omap announcement_of [e])
    ∧ installation i e.
Proof.
  unfold install_image. simpl. unfold record_answer. simpl.
  assert (H1 := no_panic_pull (image_identifier i) [] ∅ true s).
  destruct (PullImageAndCreateContainer (image_identifier i) [] ∅ true s) as [r s1]. simpl in *.
  exists s1, (CallPull (image_identifier i) [] ∅ true, Described r).
  destruct r as [[b p] | e | p]; [| | by destruct (H1 p)];
    (split_and!; [done | done | by eexists]).
Qed.

Lemma for_install_trace images s log :
  ∃ s' calls,
    @for_images _ (@install_image _ R) images (s, log) =
      (Ret (), (s', (log ++ calls)%list), omap announcement_of calls)
    ∧ for_images install_image images s = (Ret (), s', omap announcement_of calls)
    ∧ Forall2 installation images calls.
Proof.
  revert s log. induction images as [| i images IH]; intros s log; cbn [for_images].
  { exists s, []. rewrite app_nil_r. by split_and!. }
  destruct (install_image_trace i s log) as (s1 & e & -> & -> & He).
  destruct (IH s1 (log ++ [e])%list) as (s2 & calls & -> & -> & Hcalls).
  exists s2, (e :: calls). rewrite <- app_assoc.
  change (e :: calls) with ([e] ++ calls)%list. rewrite omap_app.
  split_and!; [done | done | by constructor].
Qed.

(** A call of [process], after the calls in [log]. *)
Lemma process_trace cfg d node s s1 cs D log :
  d !! NodeHostname cfg = Some node → Containers s = (Ret cs, s1) → desired cfg node = Ret D →
  ∃ s' calls removals installs,
    let out := omap announcement_of calls in
    @process _ _ R cfg d (s, log) = (Ret (), (s', (log ++ calls)%list), out)
    ∧ process cfg d s = (Ret (), s', out)
    ∧ calls = ((CallContainers, Listed (Ret cs)) :: concat removals ++ installs)%list
    ∧ Forall2 removal (diff D (managed_images cs)) removals
    ∧ Forall2 installation (diff (managed_images cs) D) installs.
Proof.
  intros Hd Hcs HD. unfold process. rewrite Hd. cbn. unfold record_answer at 1. cbn.
  rewrite Hcs. cbn. rewrite plan_eq, HD. cbn.
  destruct (for_remove_trace (diff D (managed_images cs)) s1
    (log ++ [(CallContainers, Listed (Ret cs))])) as (s2 & removals & -> & -> & Hr).
  destruct (for_install_trace (diff (managed_images cs) D) s2
    ((log ++ [(CallContainers, Listed (Ret cs))]) ++ concat removals)%list)
    as (s3 & installs & -> & -> & Hi).
  exists s3, ((CallContainers, Listed (Ret cs)) :: concat removals ++ installs)%list,
    removals, installs.
  assert (Hout : omap announcement_of
      ((CallContainers, Listed (Ret cs)) :: concat removals ++ installs)%list
    = (omap announcement_of (concat removals) ++ omap announcement_of installs)%list)
    by (cbn; by rewrite omap_app).
  cbn zeta. rewrite Hout, <- !app_assoc. by split_and!.
Qed.
End trace.

(** A small manager for the witnesses: it lists the containers it is made of,
    and installs and removes by image.  Every image but Envoy has a descriptor
    with its name as the bundle identifier. *)
Definition up_container (name : string) : Container :=
  {| ID := name; FirstName := "/brave_turing"; Container_Image := name; Ports := "";
     Status := "Up 2 minutes" |}.

Definition toy_describe (name : string) (v : bool) : outcome (string * Z) :=
  if v then
    if HasSuffix (Name (image_of name)) "envoyproxy/envoy" then Fail (ErrorNew "no descriptor")
    else Ret (Name (image_of name), 80%Z)
  else Ret ("", (-1)%Z).

Fixpoint toy_remove (name : string) (v : bool) (l : list Container)
    : outcome (string * Z) * list Container :=
  match l with
  | [] => (Fail (ErrorNew "no container"), [])
  | c :: l =>
      if bool_decide (image_of (Container_Image c) = image_of name)
         && HasPrefix (Status c) "Up"
      then match toy_describe name v with
           | Ret d => (Ret d, l)
           | r => (r, c :: l)
           end
      else let '(r, l') := toy_remove name v l in (r, c :: l')
  end.

Definition toy_manager : Manager (list Container) := {|
  Containers l := (Ret l, l);
  StartContainer id l := (Ret (), l);
  StopContainer id l := (Ret (), l);
  PullImageAndCreateContainer name args pb v l :=
    (toy_describe name v, (l ++ [up_container name])%list);
  RemoveImageAndContainer := toy_remove;
  Close l := (Ret (), l);
|}.

Lemma toy_describe_no_panic name v p : toy_describe name v ≠ Panic p.
Proof. unfold toy_describe. by repeat case_match. Qed.

Lemma toy_remove_no_panic name v s p : (toy_remove name v s).1 ≠ Panic p.
Proof.
  induction s as [| c s IH]; cbn [toy_remove]; [done |].
  case_match; [| by destruct (toy_remove name v s)].
  assert (Hd := toy_describe_no_panic name v). by destruct (toy_describe name v) as [| | q]; [| | destruct (Hd q)].
Qed.

Definition toy_config : Config := Default (Ret "hpc-1").

Definition toy_node (images : list string) : DeploymentConfig :=
  {[ "hpc-1" := {| State := NodeStateRunning; Images := Some images |} ]}.

Example toy_process :
  @process familiar_reference _ toy_manager toy_config (toy_node ["gcr.io/app:v2"])
    [up_container "gcr.io/app:v1"; up_container "docker.io/envoyproxy/envoy:v1"] =
  (Ret (), [up_container "docker.io/envoyproxy/envoy:v1"; up_container "gcr.io/app:v2"],
   [AnnounceUnregistered "gcr.io/app" 80; AnnounceRegistered "gcr.io/app" 80]).
Proof. vm_compute. reflexivity. Qed.

(** ** Properties *)

(** The loop that filters the slice of containers in place never reads an
    element it has overwritten: it returns exactly the managed containers, in
    their order, and never indexes out of range. *)
Theorem filter_in_place_is_filter cs :
  filter_containers cs = Ret (List.filter is_managed cs).
Proof. apply filter_containers_eq. Qed.

(** C29. [diff a b] keeps, in their order, the images of [b] that differ from the
    last image of their name in [a]; when the names of [a] are distinct these
    are the images of [b] that [a] lacks. *)
Theorem diff_spec a b :
  diff a b = List.filter (λ i, bool_decide (last_named a (Name i) ≠ Some i)) b
  ∧ (NoDup (map Name a) → diff a b = List.filter (λ i, bool_decide (i ∉ a)) b).
Proof.
  split; [| apply diff_NoDup]. rewrite diff_filter.
  apply filter_ext. intros i. apply is_missing_last_named.
Qed.

Lemma diff_spec_witness :
  diff [{| Name := "a"; Version := "1" |}; {| Name := "b"; Version := "1" |}]
       [{| Name := "a"; Version := "2" |}; {| Name := "b"; Version := "1" |}] =
  List.filter (λ i, bool_decide (i ∉ [{| Name := "a"; Version := "1" |};
                                      {| Name := "b"; Version := "1" |}]))
    [{| Name := "a"; Version := "2" |}; {| Name := "b"; Version := "1" |}].
Proof.
  apply diff_spec. decide_vm.
Defined.

(** C28. With any manager that does not panic, [process] on a listing [cs] and a
    configuration whose image names can be completed makes exactly these
    calls, whatever the manager answers: one listing; then, for every running
    image that is not desired, in order, nothing for the Envoy middleware and
    otherwise a removal with the bundle descriptor, repeated without it exactly
    if it failed; then one installation for every desired image that is not
    running.  It returns no error, and announces exactly what the manager
    answered to the removals with a descriptor and to the installations that
    succeeded, in the order of the calls. *)
Theorem process_calls `{ReferencePkg} {S} `{Manager S} cfg d node (s s1 : S) cs D :
  (∀ name args pb v (s : S) p, (PullImageAndCreateContainer name args pb v s).1 ≠ Panic p) →
  (∀ name v (s : S) p, (RemoveImageAndContainer name v s).1 ≠ Panic p) →
  d !! NodeHostname cfg = Some node →
  Containers s = (Ret cs, s1) →
  desired cfg node = Ret D →
  let removed := diff D (managed_images cs) in
  let new := diff (managed_images cs) D in
  ∃ s' calls removals installs,
    let out := omap announcement_of calls in
    @process _ _ traced cfg d (s, []) = (Ret (), (s', calls), out)
    ∧ process cfg d s = (Ret (), s', out)
    ∧ calls = ((CallContainers, Listed (Ret cs)) :: concat removals ++ installs)%list
    ∧ Forall2 removal removed removals ∧ Forall2 installation new installs.
Proof.
  intros Hpull Hrm Hd Hcs HD removed new.
  exact (process_trace Hpull Hrm cfg d node s s1 cs D [] Hd Hcs HD).
Qed.

(** An upgrade; Envoy stays. *)
Lemma process_calls_witness :
  let cs := [up_container "gcr.io/app:v1"; up_container "docker.io/envoyproxy/envoy:v1"] in
  let D := [{| Name := "gcr.io/app"; Version := "v2" |}] in
  let removed := diff D (managed_images cs) in
  let new := diff (managed_images cs) D in
  ∃ s' calls removals installs,
    let out := omap announcement_of calls in
    @process familiar_reference _ (@traced _ toy_manager) toy_config
        (toy_node ["gcr.io/app:v2"]) (cs, []) = (Ret (), (s', calls), out)
    ∧ @process familiar_reference _ toy_manager toy_config (toy_node ["gcr.io/app:v2"]) cs =
        (Ret (), s', out)
    ∧ calls = ((CallContainers, Listed (Ret cs)) :: concat removals ++ installs)%list
    ∧ Forall2 removal removed removals ∧ Forall2 installation new installs.
Proof.
  intros cs D. apply (@process_calls familiar_reference _ toy_manager) with
    (node := {| State := NodeStateRunning; Images := Some ["gcr.io/app:v2"] |}) (s1 := cs).
  - intros name args pb v s p. apply toy_describe_no_panic.
  - intros name v s p. apply toy_remove_no_panic.
  - by vm_compute.
  - done.
  - by vm_compute.
Defined.

(** A configuration with a short image name without a registry crashes the
    orchestrator: the panic of [ParseFQIN] reaches [process] before anything is
    removed or installed. *)
Theorem short_image_name_panics `{ReferencePkg} {S} `{Manager S} cfg d node (s s1 : S) cs
    name rest r path :
  d !! NodeHostname cfg = Some node → Images node = Some (name :: rest) →
  Containers s = (Ret cs, s1) →
  ParseNormalizedNamed (Name (image_of name)) = Ret r →
  Ref_Name r = "docker.io/" +:+ path →
  (String.length (Name (image_of name)) ≤ 9)%nat →
  process cfg d s = (Panic SliceOutOfRange, s1, []).
Proof.
  intros Hd Hi Hcs Hr Hn Hlen. unfold process. rewrite Hd, Hcs, plan_eq.
  unfold desired, image_list. rewrite Hi. cbn [from_option id map mapM_outcome].
  assert (qualify (DefaultContainerRegistryDomain cfg) (image_of name) =
    Panic SliceOutOfRange) as ->; [| done].
  unfold qualify. by rewrite (ParseFQIN_short_names_panic _ _ r path).
Qed.

Lemma short_image_name_panics_witness :
  @process familiar_reference _ toy_manager toy_config (toy_node ["nginx:1.27"]) [] =
    (Panic SliceOutOfRange, [], []).
Proof.
  apply (@short_image_name_panics familiar_reference _ toy_manager toy_config
           (toy_node ["nginx:1.27"])
           {| State := NodeStateRunning; Images := Some ["nginx:1.27"] |} [] [] []
           "nginx:1.27" [] {| Ref_Name := "docker.io/library/nginx"; Ref_Tag := None |}
           "library/nginx"); try by vm_compute.
  vm_compute. lia.
Defined.
