(* ===== verification/Reconcile.v ===== *)
(** What [process] of [cmd/carisma-orchestrator/app/orchestrator.go] achieves,
    against an interface: a container manager with a lawful engine behind it.
    One call of [process] makes the managed containers run exactly the desired
    images (and Envoy), and a second one changes nothing. *)
From S2P Require Import Prelude GoStrings Deployment Config Container DebugManager Orchestrator.

Local Open Scope string_scope.

(** [HasPrefix (Status c) "Up"]: the engine runs the container. *)
Definition is_up (c : Container) : bool := HasPrefix (Status c) "Up".

Definition image (c : Container) : Image := image_of (Container_Image c).

(** The images of all containers that run, managed or not. *)
Definition up_images (cs : list Container) : list Image := map image (List.filter is_up cs).

(** ** The interface

    [running s] are the containers that run in the state [s], managed or not:
    those of a listing whose status is up.  A removal takes away one running container of the image, or fails without a change; with
    [verifyBundleConfig] off it cannot fail without a change while a container
    of the image runs.  An installation adds one managed container of the
    image, or fails without a change.  After a failure the container may
    nevertheless be gone or be there: the errors of reading the bundle
    descriptor and of deleting the image come after the change. *)
Class LawfulManager (S : Type) `{Manager S} := {
  running : S → list Container;
  law_Containers s :
    ∃ cs s', Containers s = (Ret cs, s') ∧ List.filter is_up cs ≡ₚ running s
      ∧ running s' ≡ₚ running s;
  law_Remove name v s :
    let '(r, s') := RemoveImageAndContainer name v s in
    is_panic r = false
    ∧ ((∃ c, is_up c = true ∧ image c = image_of name ∧ running s ≡ₚ c :: running s')
       ∨ (is_fail r = true ∧ running s' ≡ₚ running s
          ∧ (v = false → ∀ c, c ∈ running s → is_up c = true → image c ≠ image_of name)));
  law_Pull name args pb v s :
    let '(r, s') := PullImageAndCreateContainer name args pb v s in
    is_panic r = false
    ∧ ((∃ c, is_managed c = true ∧ Container_Image c = name ∧ running s' ≡ₚ c :: running s)
       ∨ (is_fail r = true ∧ running s' ≡ₚ running s));
}.

(** ** Lemmas on listings *)

Lemma filter_bool_Permutation {A} (f : A → bool) l1 l2 :
  l1 ≡ₚ l2 → List.filter f l1 ≡ₚ List.filter f l2.
Proof.
  induction 1 as [| c l1 l2 _ IH | c d l | l1 l2 l3 _ IH1 _ IH2]; simpl;
    repeat case_match; eauto using Permutation; by rewrite IH1.
Qed.

Lemma filter_bool_sublist {A} (f : A → bool) l : List.filter f l `sublist_of` l.
Proof.
  induction l as [| a l IH]; [constructor |]. cbn [List.filter]. by case_match; constructor.
Qed.

Lemma NoDup_map_inj {A B} (f : A → B) l a b :
  NoDup (map f l) → a ∈ l → b ∈ l → f a = f b → a = b.
Proof.
  induction l as [| c l IH]; intros Hnd Ha Hb E; [by apply elem_of_nil in Ha |].
  apply NoDup_cons in Hnd as [Hc Hnd].
  apply elem_of_cons in Ha as [-> | Ha], Hb as [-> | Hb]; [done | | | by apply IH];
    destruct Hc; [rewrite E | rewrite <- E]; by apply list_elem_of_fmap_2.
Qed.

#[export] Instance managed_images_Permutation : Proper ((≡ₚ) ==> (≡ₚ)) managed_images.
Proof.
  intros l1 l2 H. by apply Permutation_map, filter_bool_Permutation.
Qed.

#[export] Instance up_images_Permutation : Proper ((≡ₚ) ==> (≡ₚ)) up_images.
Proof.
  intros l1 l2 H. by apply Permutation_map, filter_bool_Permutation.
Qed.

Lemma managed_is_up c : is_managed c = true → is_up c = true.
Proof. unfold is_managed, is_up. by intros [_ ?]%andb_true_iff. Qed.

Lemma managed_images_cons c cs :
  managed_images (c :: cs) =
    if is_managed c then image c :: managed_images cs else managed_images cs.
Proof. unfold managed_images. simpl. by destruct (is_managed c). Qed.

Lemma up_images_cons c cs :
  up_images (c :: cs) = if is_up c then image c :: up_images cs else up_images cs.
Proof. unfold up_images. simpl. by destruct (is_up c). Qed.

Lemma elem_of_managed_images i cs :
  i ∈ managed_images cs ↔ ∃ c, c ∈ cs ∧ is_managed c = true ∧ image c = i.
Proof.
  induction cs as [| c cs IH]; [set_solver |]. rewrite managed_images_cons.
  destruct (is_managed c) eqn:E; [rewrite elem_of_cons |]; rewrite IH; clear IH.
  - split; [| set_solver]. intros [-> | ?]; [exists c |]; set_solver.
  - split; [set_solver |]. intros (d & [-> | Hd]%elem_of_cons & Hm & Hi); [congruence |].
    by exists d.
Qed.

Lemma elem_of_up_images i cs :
  i ∈ up_images cs ↔ ∃ c, c ∈ cs ∧ is_up c = true ∧ image c = i.
Proof.
  induction cs as [| c cs IH]; [set_solver |]. rewrite up_images_cons.
  destruct (is_up c) eqn:E; [rewrite elem_of_cons |]; rewrite IH; clear IH.
  - split; [| set_solver]. intros [-> | ?]; [exists c |]; set_solver.
  - split; [set_solver |]. intros (d & [-> | Hd]%elem_of_cons & Hm & Hi); [congruence |].
    by exists d.
Qed.

(** Containers that are not up do not count. *)
Lemma managed_images_up cs : managed_images (List.filter is_up cs) = managed_images cs.
Proof.
  induction cs as [| c cs IH]; [done |]. cbn [List.filter]. rewrite managed_images_cons, <- IH.
  destruct (is_up c) eqn:Hu; [by rewrite managed_images_cons |].
  destruct (is_managed c) eqn:Hm; [| done]. apply managed_is_up in Hm. congruence.
Qed.

Lemma managed_images_sublist cs : managed_images cs `sublist_of` up_images cs.
Proof.
  induction cs as [| c cs IH]; [done |]. rewrite managed_images_cons, up_images_cons.
  destruct (is_managed c) eqn:E.
  - rewrite managed_is_up by done. by constructor.
  - destruct (is_up c); [by constructor | done].
Qed.

Lemma managed_images_NoDup cs : NoDup (up_images cs) → NoDup (managed_images cs).
Proof. intros. eapply sublist_NoDup; [done | apply managed_images_sublist]. Qed.

(** With at most one running container per image, the managed one is it. *)
Lemma up_unique c i cs :
  NoDup (up_images (c :: cs)) → is_up c = true → image c = i →
  i ∈ managed_images (c :: cs) → is_managed c = true ∧ i ∉ up_images cs.
Proof.
  rewrite up_images_cons, managed_images_cons. intros Hnd Hup Hi Hin.
  rewrite Hup, Hi in *. apply NoDup_cons in Hnd as [Hno _]. split; [| done].
  destruct (is_managed c); [done |]. destruct Hno.
  apply elem_of_managed_images in Hin as (d & Hd & Hm & Hdi).
  apply elem_of_up_images. exists d. auto using managed_is_up.
Qed.

(** [is_middleware] as a boolean. *)
Definition middleware (i : Image) : bool := HasSuffix (Name i) "envoyproxy/envoy".

(** The running middleware that the desired images do not list. *)
Definition other_middleware (D R : list Image) : list Image :=
  List.filter (λ i, middleware i && bool_decide (i ∉ D)) R.

Section reconcile.
Context `{ReferencePkg} {S : Type} `{LawfulManager S}.
Implicit Types (s : S) (i : Image).

(** ** Removals *)

Lemma remove_image_middleware i s :
  middleware i = true → remove_image i s = (Ret (), s, []).
Proof. unfold remove_image. rewrite is_middleware_eq. unfold middleware. by intros ->. Qed.

(** One removal takes away the only running container of the image. *)
Lemma remove_image_lawful i s :
  middleware i = false → has_byte ":" (Version i) = false →
  NoDup (up_images (running s)) → i ∈ managed_images (running s) →
  ∃ s' out c, remove_image i s = (Ret (), s', out)
    ∧ image c = i ∧ is_managed c = true ∧ running s ≡ₚ c :: running s'.
Proof.
  intros Hm Hv Hnd Hin. unfold remove_image. rewrite is_middleware_eq.
  unfold middleware in Hm. rewrite Hm.
  assert (Hid := image_of_identifier i Hv).
  assert (Hpick : ∀ c s', is_up c = true → image c = image_of (image_identifier i) →
    running s ≡ₚ c :: running s' →
    image c = i ∧ is_managed c = true ∧ i ∉ up_images (running s')).
  { intros c s' Hup Hc Hp. rewrite Hid in Hc. rewrite Hp in Hnd, Hin.
    destruct (up_unique c i (running s')); auto. }
  assert (Hex : ∃ c, c ∈ running s ∧ is_up c = true ∧ image c = image_of (image_identifier i)).
  { apply elem_of_managed_images in Hin as (c & Hc & Hmc & Hi).
    exists c. rewrite Hid. auto using managed_is_up. }
  assert (L1 := law_Remove (image_identifier i) true s).
  destruct (RemoveImageAndContainer (image_identifier i) true s) as [[[b p] | e | p] s1];
    destruct L1 as [Hp1 L1]; [| | done].
  - destruct L1 as [(c & Hup & Hc & Hrun) | [? _]]; [| done].
    destruct (Hpick c s1 Hup Hc Hrun) as (? & ? & _). by do 3 eexists.
  - assert (L2 := law_Remove (image_identifier i) false s1).
    destruct (RemoveImageAndContainer (image_identifier i) false s1) as [r2 s2].
    destruct L2 as [Hp2 L2].
    assert (∃ c, image c = i ∧ is_managed c = true ∧ running s ≡ₚ c :: running s2)
      as (c & ? & ? & ?).
    { destruct L1 as [(c & Hup & Hc & Hrun) | (_ & Hrun & _)].
      - destruct (Hpick c s1 Hup Hc Hrun) as (? & ? & Hno).
        destruct L2 as [(c' & Hup' & Hc' & Hrun') | (_ & Hrun' & _)].
        + destruct Hno. apply elem_of_up_images. exists c'. rewrite Hrun', Hc'. set_solver.
        + exists c. by rewrite Hrun'.
      - destruct L2 as [(c & Hup & Hc & Hrun') | (_ & _ & Hno)].
        + rewrite Hrun in Hrun'. destruct (Hpick c s2 Hup Hc Hrun') as (? & ? & _). eauto.
        + destruct Hex as (c & Hc & Hup & Hi). destruct (Hno eq_refl c); [| done | done].
          by rewrite Hrun. }
    destruct r2; [| | done]; by do 3 eexists.
Qed.

(** The removals leave the images that are kept or that are middleware. *)
Lemma for_remove_lawful L s :
  NoDup L → (∀ i, i ∈ L → has_byte ":" (Version i) = false) →
  NoDup (up_images (running s)) → (∀ i, i ∈ L → i ∈ managed_images (running s)) →
  ∃ s' out, for_images remove_image L s = (Ret (), s', out)
    ∧ NoDup (up_images (running s'))
    ∧ ∀ i, i ∈ managed_images (running s') ↔
        i ∈ managed_images (running s) ∧ (i ∈ L → middleware i = true).
Proof.
  revert s. induction L as [| i L IH]; intros s HL Hv Hnd Hin; cbn [for_images].
  { exists s, []. split_and!; [done | done | set_solver]. }
  apply NoDup_cons in HL as [HiL HL].
  assert (HvL : ∀ j, j ∈ L → has_byte ":" (Version j) = false) by auto using list_elem_of_further.
  assert (HinL : ∀ j, j ∈ L → j ∈ managed_images (running s)) by auto using list_elem_of_further.
  destruct (middleware i) eqn:Hm.
  - rewrite remove_image_middleware by done.
    destruct (IH s HL HvL Hnd HinL) as (s' & out & -> & Hnd' & Heq).
    exists s', out. split_and!; [done | done |]. intros j. rewrite Heq, elem_of_cons.
    split; intros [Hj Hk]; (split; [done |]); [intros [-> | ?] |]; auto.
  - destruct (remove_image_lawful i s) as (s1 & out1 & c & -> & Hc & Hmc & Hrun);
      [done | auto using list_elem_of_here.. |].
    assert (Hnd1 := Hnd). rewrite Hrun, up_images_cons, managed_is_up in Hnd1 by done.
    apply NoDup_cons in Hnd1 as [Hno Hnd1].
    assert (Hels : ∀ j, j ∈ managed_images (running s) ↔
      j = i ∨ j ∈ managed_images (running s1)).
    { intros j. rewrite Hrun, managed_images_cons, Hmc, Hc. apply elem_of_cons. }
    destruct (IH s1 HL HvL Hnd1) as (s' & out & -> & Hnd' & Heq).
    { intros j Hj. destruct (proj1 (Hels j) (HinL j Hj)) as [-> |]; done. }
    exists s', (out1 ++ out)%list. split_and!; [done | done |].
    assert (Hni : i ∉ managed_images (running s1)).
    { intros Hi. apply Hno. rewrite Hc. apply elem_of_up_images.
      apply elem_of_managed_images in Hi as (d & ? & ? & ?).
      exists d. auto using managed_is_up. }
    intros j. rewrite Heq, Hels, elem_of_cons. split.
    + intros [Hj Hk]. split; [by right |]. intros [-> | ?]; [by destruct Hni | auto].
    + intros [[-> | Hj] Hk]; [| auto]. rewrite Hk in Hm by (by left). done.
Qed.

(** ** Installations *)

Definition available (name : string) : Prop :=
  ∀ args pb v s, ∃ c, is_managed c = true ∧ Container_Image c = name
    ∧ running (PullImageAndCreateContainer name args pb v s).2 ≡ₚ c :: running s.

Lemma install_image_lawful i s :
  has_byte ":" (Version i) = false → available (image_identifier i) →
  ∃ s' out, install_image i s = (Ret (), s', out)
    ∧ managed_images (running s') ≡ₚ i :: managed_images (running s).
Proof.
  intros Hv Ha. unfold install_image.
  assert (L := law_Pull (image_identifier i) [] ∅ true s).
  destruct (Ha [] ∅ true s) as (c & Hm & Hc & Hrun).
  destruct (PullImageAndCreateContainer (image_identifier i) [] ∅ true s)
    as [[[b p] | e | p] s1]; [| | by destruct L];
    do 2 eexists; (split; [done |]); simpl in Hrun;
    rewrite Hrun, managed_images_cons, Hm; unfold image;
    by rewrite Hc, image_of_identifier.
Qed.

Lemma for_install_lawful L s :
  (∀ i, i ∈ L → has_byte ":" (Version i) = false) →
  (∀ i, i ∈ L → available (image_identifier i)) →
  ∃ s' out, for_images install_image L s = (Ret (), s', out)
    ∧ managed_images (running s') ≡ₚ L ++ managed_images (running s).
Proof.
  revert s. induction L as [| i L IH]; intros s Hv Ha; cbn [for_images].
  { by exists s, []. }
  destruct (install_image_lawful i s) as (s1 & out1 & -> & Hr1);
    [auto using list_elem_of_here.. |].
  destruct (IH s1) as (s' & out & -> & Hr2); [auto using list_elem_of_further.. |].
  exists s', (out1 ++ out)%list. split; [done |].
  rewrite Hr2, Hr1. simpl. by rewrite Permutation_middle.
Qed.

(** ** The two differences *)

Lemma elem_of_filter_bool {A} (f : A → bool) x l :
  x ∈ List.filter f l ↔ x ∈ l ∧ f x = true.
Proof. rewrite !list_elem_of_In. apply List.filter_In. Qed.

Lemma NoDup_filter_bool {A} (f : A → bool) (l : list A) : NoDup l → NoDup (List.filter f l).
Proof. rewrite !NoDup_ListNoDup. apply List.NoDup_filter. Qed.

Lemma for_remove_middleware L s :
  (∀ i, i ∈ L → middleware i = true) → for_images remove_image L s = (Ret (), s, []).
Proof.
  induction L as [| i L IH]; intros HL; cbn [for_images]; [done |].
  rewrite remove_image_middleware by auto using list_elem_of_here.
  by rewrite IH by auto using list_elem_of_further.
Qed.

(** Nothing happens when the images are the desired ones and middleware. *)
Lemma process_stable cfg d node s D K :
  d !! NodeHostname cfg = Some node → desired cfg node = Ret D →
  NoDup (map Name D) → (∀ i, i ∈ K → middleware i = true) →
  NoDup (map Name (D ++ K)) → managed_images (running s) ≡ₚ D ++ K →
  ∃ s', process cfg d s = (Ret (), s', []) ∧ running s' ≡ₚ running s.
Proof.
  intros Hd HD Hnd HK HndK Hrun.
  destruct (law_Containers s) as (cs & s1 & Hcs & Hup & Hrun1).
  rewrite <- Hup, managed_images_up in Hrun.
  exists s1. split; [| done].
  unfold process. rewrite Hd, Hcs, plan_eq, HD. cbn [mbind outcome_bind].
  rewrite diff_NoDup by done.
  rewrite for_remove_middleware.
  - rewrite diff_NoDup; [| by rewrite Hrun].
    replace (List.filter _ D) with ([] : list Image); [done |].
    symmetry. apply elem_of_nil_inv. intros i.
    rewrite elem_of_filter_bool, bool_decide_eq_true, Hrun, elem_of_app. tauto.
  - intros i. rewrite elem_of_filter_bool, bool_decide_eq_true, Hrun, elem_of_app.
    intros [[? | ?] ?]; [done | auto].
Qed.

Lemma elem_of_other_middleware D R i :
  i ∈ other_middleware D R ↔ i ∈ R ∧ middleware i = true ∧ i ∉ D.
Proof.
  unfold other_middleware. by rewrite elem_of_filter_bool, andb_true_iff, bool_decide_eq_true.
Qed.

#[export] Instance other_middleware_Permutation D : Proper ((≡ₚ) ==> (≡ₚ)) (other_middleware D).
Proof. intros R1 R2 HR. by apply filter_bool_Permutation. Qed.

(** When the desired middleware runs, names of middleware are not repeated. *)
Lemma NoDup_names_middleware D R :
  (∀ i, i ∈ D → middleware i = true → i ∈ R) →
  NoDup (map Name D) → NoDup (map Name R) →
  NoDup (map Name (D ++ other_middleware D R)).
Proof.
  intros HD HndD HndR. rewrite map_app. apply NoDup_app. split_and!; [done | |].
  - intros n Hn Hn'. apply list_elem_of_fmap in Hn as (i & -> & Hi), Hn' as (j & Hij & Hj).
    apply elem_of_other_middleware in Hj as (Hj & Hm & HjD). apply HjD.
    assert (middleware i = true) as Hmi by (unfold middleware in *; congruence).
    assert (i = j) as <-; [| done]. by apply (NoDup_map_inj Name R); [| apply HD | |].
  - eapply sublist_NoDup; [exact HndR |].
    apply fmap_sublist, filter_bool_sublist.
Qed.

(** What is running after the removals and the installations. *)
Lemma reconciled_images D R R2 :
  NoDup D → NoDup R → NoDup R2 →
  (∀ i, i ∈ R2 ↔
     i ∈ R ∧ (i ∈ List.filter (λ i, bool_decide (i ∉ D)) R → middleware i = true)) →
  List.filter (λ i, bool_decide (i ∉ R)) D ++ R2 ≡ₚ D ++ other_middleware D R.
Proof.
  intros HD HR HR2 Heq. apply NoDup_Permutation.
  - apply NoDup_app. split_and!; [by apply NoDup_filter_bool | | done].
    intros i. rewrite elem_of_filter_bool, bool_decide_eq_true, Heq. tauto.
  - apply NoDup_app. split_and!; [done | | by apply NoDup_filter_bool].
    intros i Hi. rewrite elem_of_other_middleware. tauto.
  - intros i. rewrite !elem_of_app, Heq, elem_of_other_middleware, !elem_of_filter_bool, !bool_decide_eq_true.
    destruct (decide (i ∈ D)), (decide (i ∈ R)); tauto.
Qed.

Lemma converges cfg d node s D :
  d !! NodeHostname cfg = Some node → desired cfg node = Ret D →
  NoDup (map Name D) →
  (∀ i, i ∈ D → if middleware i then i ∈ managed_images (running s)
                 else available (image_identifier i)) →
  NoDup (up_images (running s)) → NoDup (map Name (managed_images (running s))) →
  ∃ s' out, process cfg d s = (Ret (), s', out)
    ∧ managed_images (running s')
        ≡ₚ D ++ other_middleware D (managed_images (running s))
    ∧ ∃ s'', process cfg d s' = (Ret (), s'', []) ∧ running s'' ≡ₚ running s'.
Proof.
  intros Hd HD Hnames Hok Hup HnR.
  destruct (law_Containers s) as (cs & s1 & Hcs & Hcup & Hrun1).
  assert (Hlist : managed_images (running s) ≡ₚ managed_images cs)
    by by rewrite <- Hcup, managed_images_up.
  assert (HR : NoDup (managed_images (running s))) by by apply managed_images_NoDup.
  assert (Hother := other_middleware_Permutation D _ _ Hlist).
  assert (Hmw : ∀ i, i ∈ D → middleware i = true → i ∈ managed_images cs).
  { intros i Hi Hm. specialize (Hok i Hi). rewrite Hm in Hok. by rewrite <- Hlist. }
  assert (Hav : ∀ i, i ∈ D → i ∉ managed_images cs → available (image_identifier i)).
  { intros i Hi Hno. specialize (Hok i Hi). rewrite <- Hlist in Hno. by destruct (middleware i). }
  rewrite Hlist in HR, HnR.
  set (R := managed_images cs) in *.
  assert (HR1 : managed_images (running s1) ≡ₚ R) by by rewrite Hrun1.
  destruct (for_remove_lawful (diff D R) s1) as (s2 & out2 & Hrm & Hnd2 & Heq).
  { rewrite diff_NoDup by done. by apply NoDup_filter_bool. }
  { intros i. rewrite diff_NoDup, elem_of_filter_bool by done. intros [Hi _].
    apply elem_of_managed_images in Hi as (c & _ & _ & <-). apply image_of_version_no_colon. }
  { by rewrite Hrun1. }
  { intros i. rewrite diff_NoDup, elem_of_filter_bool by done. rewrite HR1. tauto. }
  destruct (for_install_lawful (diff R D) s2) as (s3 & out3 & Hin & HR3).
  { intros i. rewrite diff_NoDup, elem_of_filter_bool by done. intros [Hi _].
    by eapply desired_versions. }
  { intros i. rewrite diff_NoDup, elem_of_filter_bool, bool_decide_eq_true by done.
    intros [Hi Hno]. auto. }
  assert (Hfinal : managed_images (running s3) ≡ₚ D ++ other_middleware D R).
  { rewrite HR3, diff_NoDup by done. apply reconciled_images; [| done | |].
    - by apply NoDup_fmap_1 in Hnames.
    - by apply managed_images_NoDup.
    - intros i. rewrite Heq, HR1, diff_NoDup by done. done. }
  exists s3, (out2 ++ out3)%list. split_and!; [| by rewrite Hother |].
  - unfold process. rewrite Hd, Hcs, plan_eq, HD. cbn [mbind outcome_bind].
    fold R. by rewrite Hrm, Hin.
  - eapply (process_stable cfg d node s3 D (other_middleware D R)); [done.. | | |].
    + intros i Hi. by apply elem_of_other_middleware in Hi as (_ & ? & _).
    + by apply NoDup_names_middleware.
    + done.
Qed.
(** C2. Convergence: with a lawful engine on which every desired image can be
    installed, or is middleware that runs already, when every image runs in at
    most one container and neither the desired nor the running images repeat a
    name, one call of [process] returns no error and leaves exactly the desired
    images and the Envoy middleware that was running; and a second call with
    the same configuration announces nothing and changes nothing. *)
Theorem process_converges cfg d node s D :
  d !! NodeHostname cfg = Some node → desired cfg node = Ret D →
  NoDup (map Name D) →
  (∀ i, i ∈ D → if middleware i then i ∈ managed_images (running s)
                 else available (image_identifier i)) →
  NoDup (up_images (running s)) → NoDup (map Name (managed_images (running s))) →
  ∃ s' out, process cfg d s = (Ret (), s', out)
    ∧ managed_images (running s')
        ≡ₚ D ++ other_middleware D (managed_images (running s))
    ∧ ∃ s'', process cfg d s' = (Ret (), s'', []) ∧ running s'' ≡ₚ running s'.
Proof. apply converges. Qed.
End reconcile.

(** ** The small manager is lawful *)

Definition toy_running (l : list Container) : list Container := List.filter is_up l.

Lemma toy_Remove_lawful name v (l : list Container) :
  let '(r, l') := toy_remove name v l in
  is_panic r = false
  ∧ ((∃ c, is_up c = true ∧ image c = image_of name ∧ toy_running l ≡ₚ c :: toy_running l')
     ∨ (is_fail r = true ∧ toy_running l' ≡ₚ toy_running l
        ∧ (v = false → ∀ c, c ∈ toy_running l → is_up c = true → image c ≠ image_of name))).
Proof.
  assert (Hcons : ∀ c l, toy_running (c :: l) =
    if is_up c then c :: toy_running l else toy_running l) by done.
  induction l as [| c l IH]; cbn [toy_remove].
  { split; [done |]. right. split_and!; [done.. |]. intros _ c Hc. by apply elem_of_nil in Hc. }
  destruct (bool_decide (image_of (Container_Image c) = image_of name)
            && HasPrefix (Status c) "Up") eqn:E.
  { apply andb_true_iff in E as [Hi%bool_decide_eq_true Hup].
    assert (Hd := toy_describe_no_panic name v). destruct (toy_describe name v) as [x | e | p] eqn:Hv.
    - split; [done |]. left. exists c. rewrite Hcons. unfold is_up. by rewrite Hup.
    - split; [done |]. right. split_and!; [done.. |]. by intros ->.
    - by destruct (Hd p). }
  destruct (toy_remove name v l) as [r l'].
  destruct IH as [Hp [(d & Hd & Hdi & Hl) | (Hf & Hl & Hno)]]; (split; [done |]); rewrite !Hcons.
  - left. exists d. split_and!; [done | done |].
    destruct (is_up c); rewrite Hl; [constructor | done].
  - right. split_and!; [done | by destruct (is_up c); rewrite Hl |].
    intros Hv e He Hup Hi. destruct (is_up c) eqn:Hc; [| by apply (Hno Hv e)].
    apply elem_of_cons in He as [-> | He]; [| by apply (Hno Hv e)].
    unfold is_up in Hc. unfold image in Hi. rewrite Hi, Hc, bool_decide_true in E; done.
Qed.

Lemma toy_running_snoc l c : is_up c = true → toy_running (l ++ [c]) ≡ₚ c :: toy_running l.
Proof.
  intros Hc. unfold toy_running. rewrite List.filter_app. cbn [List.filter]. rewrite Hc.
  by rewrite Permutation_app_comm.
Qed.

#[refine] Definition toy_lawful : @LawfulManager (list Container) toy_manager := {|
  running := toy_running |}.
Proof.
  - intros l. by exists l, l.
  - apply toy_Remove_lawful.
  - intros name args pb v l. split.
    + assert (Hd := toy_describe_no_panic name v). cbn.
      destruct (toy_describe name v) as [| | p]; [done | done | by destruct (Hd p)].
    + left. exists (up_container name). split_and!; [done | done | by apply toy_running_snoc].
Defined.

Lemma toy_available name : @available _ toy_manager toy_lawful name.
Proof.
  intros args pb v l. exists (up_container name). split_and!; [done | done |].
  by apply toy_running_snoc.
Qed.

(** The desired images list the middleware that runs, as the reports of a node
    do. *)
Lemma process_converges_witness :
  let s := [up_container "gcr.io/app:v1"; up_container "docker.io/envoyproxy/envoy:v1"] in
  let images := ["gcr.io/app:v2"; "docker.io/envoyproxy/envoy:v1"] in
  let D := map image_of images in
  ∃ s' out,
    @process familiar_reference _ toy_manager toy_config (toy_node images) s
      = (Ret (), s', out)
    ∧ managed_images (toy_running s') ≡ₚ D ++ other_middleware D (managed_images (toy_running s))
    ∧ ∃ s'', @process familiar_reference _ toy_manager toy_config (toy_node images) s'
        = (Ret (), s'', []) ∧ toy_running s'' ≡ₚ toy_running s'.
Proof.
  intros s images D.
  apply (@process_converges familiar_reference _ toy_manager toy_lawful toy_config
    (toy_node images) {| State := NodeStateRunning; Images := Some images |}).
  - done.
  - by vm_compute.
  - decide_vm.
  - intros i Hi. destruct (middleware i) eqn:Hm; [| apply toy_available].
    unfold D, images in Hi. cbn [map] in Hi. rewrite !elem_of_cons, elem_of_nil in Hi.
    destruct Hi as [-> | [-> | []]]; [by vm_compute in Hm | decide_vm].
  - decide_vm.
  - decide_vm.
Defined.

(** ** Repeated names *)

Fixpoint process_many `{ReferencePkg} {S} `{Manager S} (n : nat) (cfg : Config)
    (d : DeploymentConfig) (s : S) : S :=
  match n with
  | 0 => s
  | Datatypes.S n => process_many n cfg d (process cfg d s).1.2
  end.

Definition app1 : Container := up_container "gcr.io/app:v1".
Definition app2 : Container := up_container "gcr.io/app:v2".
Definition app_v1 : Image := {| Name := "gcr.io/app"; Version := "v1" |}.
Definition app_v2 : Image := {| Name := "gcr.io/app"; Version := "v2" |}.
Definition both_versions : DeploymentConfig := toy_node ["gcr.io/app:v1"; "gcr.io/app:v2"].

Lemma managed_app2 m l :
  managed_images (repeat app2 m ++ l)%list = (repeat app_v2 m ++ managed_images l)%list.
Proof.
  induction m as [| m IH]; [done |]. cbn [repeat app]. rewrite managed_images_cons, IH.
  by assert (is_managed app2 = true) as -> by by vm_compute.
Qed.

Lemma repeat_snoc {A} (x : A) m : (repeat x m ++ [x])%list = repeat x (S m).
Proof. induction m as [| m IH]; simpl; [done |]. by rewrite IH. Qed.

Lemma remember_versions_1 m :
  remember (repeat app_v2 m ++ [app_v1])%list !! "gcr.io/app" = Some "v1".
Proof. by rewrite remember_snoc, lookup_insert_eq. Qed.

Lemma remember_versions_2 m :
  remember (repeat app_v2 (S m)) !! "gcr.io/app" = Some "v2".
Proof. by rewrite <- repeat_snoc, remember_snoc, lookup_insert_eq. Qed.

Lemma filter_repeat {A} (f : A → bool) x m :
  List.filter f (repeat x m) = if f x then repeat x m else [].
Proof.
  induction m as [| m IH]; simpl; [by destruct (f x) |].
  rewrite IH. by destruct (f x).
Qed.

Lemma diff_accumulated m :
  diff [app_v1; app_v2] (repeat app_v2 m ++ [app_v1])%list = [app_v1]
  ∧ diff (repeat app_v2 m ++ [app_v1])%list [app_v1; app_v2] = [app_v2]
  ∧ diff [app_v1; app_v2] (repeat app_v2 m) = []
  ∧ diff (repeat app_v2 (S m)) [app_v1; app_v2] = [app_v1].
Proof.
  rewrite !diff_filter. rewrite List.filter_app, !filter_repeat.
  split_and!; try by vm_compute.
  - cbn [List.filter]. unfold is_missing. cbn [Name app_v1 app_v2].
    by rewrite remember_versions_1.
  - cbn [List.filter]. unfold is_missing. cbn [Name app_v1 app_v2].
    by rewrite remember_versions_2.
Qed.

(** [process] in terms of the two differences. *)
Lemma process_eq `{ReferencePkg} {S} `{Manager S} cfg d node (s s1 s2 s3 : S) cs D out1 out2 :
  d !! NodeHostname cfg = Some node → Containers s = (Ret cs, s1) → desired cfg node = Ret D →
  for_images remove_image (diff D (managed_images cs)) s1 = (Ret (), s2, out1) →
  for_images install_image (diff (managed_images cs) D) s2 = (Ret (), s3, out2) →
  process cfg d s = (Ret (), s3, (out1 ++ out2)%list).
Proof.
  intros Hd Hcs HD Hr Hi. unfold process. rewrite Hd, Hcs, plan_eq, HD.
  cbn [mbind outcome_bind]. by rewrite Hr, Hi.
Qed.

Local Abbreviation toy_step := (@process familiar_reference _ toy_manager toy_config both_versions).

Lemma toy_desired :
  @desired familiar_reference toy_config
    {| State := NodeStateRunning; Images := Some ["gcr.io/app:v1"; "gcr.io/app:v2"] |} =
  Ret [app_v1; app_v2].
Proof. by vm_compute. Qed.

Lemma toy_remove_app1 m :
  toy_remove "gcr.io/app:v1" true (repeat app2 m ++ [app1])%list =
    (Ret ("gcr.io/app", 80%Z), repeat app2 m).
Proof.
  induction m as [| m IH]; [by vm_compute |]. cbn [repeat app toy_remove].
  rewrite bool_decide_false by by vm_compute. cbn [andb]. by rewrite IH.
Qed.

Definition both_node : NodeConfig :=
  {| State := NodeStateRunning; Images := Some ["gcr.io/app:v1"; "gcr.io/app:v2"] |}.

(** A step from [m] containers of the second version and one of the first
    removes the first version and installs the second again; the next step
    installs the first version again. *)
Lemma toy_step_remove m :
  ∃ out, toy_step (repeat app2 m ++ [app1])%list = (Ret (), repeat app2 (S m), out).
Proof.
  destruct (diff_accumulated m) as (H1 & H2 & _).
  assert (Hm : managed_images (repeat app2 m ++ [app1])%list = (repeat app_v2 m ++ [app_v1])%list)
    by by rewrite managed_app2.
  eexists. apply (@process_eq familiar_reference _ toy_manager _ _ both_node) with
    (s1 := (repeat app2 m ++ [app1])%list) (s2 := repeat app2 m)
    (cs := (repeat app2 m ++ [app1])%list) (D := [app_v1; app_v2])
    (out1 := [AnnounceUnregistered "gcr.io/app" 80])
    (out2 := [AnnounceRegistered "gcr.io/app" 80]); [done | done | exact toy_desired | |].
  - rewrite Hm, H1. cbn [for_images]. unfold remove_image. rewrite is_middleware_eq.
    change (HasSuffix (Name app_v1) "envoyproxy/envoy") with false.
    change (@RemoveImageAndContainer _ toy_manager (image_identifier app_v1))
      with (toy_remove "gcr.io/app:v1").
    by rewrite toy_remove_app1.
  - rewrite Hm, H2, <- repeat_snoc. done.
Qed.

Lemma toy_step_install m :
  ∃ out, toy_step (repeat app2 (S m)) = (Ret (), (repeat app2 (S m) ++ [app1])%list, out).
Proof.
  destruct (diff_accumulated m) as (_ & _ & _ & H4).
  destruct (diff_accumulated (S m)) as (_ & _ & H3 & _).
  assert (Hm : managed_images (repeat app2 (S m)) = repeat app_v2 (S m)).
  { rewrite <- (app_nil_r (repeat app2 (S m))), managed_app2. apply app_nil_r. }
  eexists. apply (@process_eq familiar_reference _ toy_manager _ _ both_node) with
    (s1 := repeat app2 (S m)) (s2 := repeat app2 (S m))
    (cs := repeat app2 (S m)) (D := [app_v1; app_v2])
    (out1 := []) (out2 := [AnnounceRegistered "gcr.io/app" 80]);
    [done | done | exact toy_desired | |].
  - by rewrite Hm, H3.
  - by rewrite Hm, H4.
Qed.

Lemma process_many_snoc `{ReferencePkg} {S} `{Manager S} n cfg d (s : S) :
  process_many (Datatypes.S n) cfg d s = (process cfg d (process_many n cfg d s)).1.2.
Proof. revert s. induction n as [| n IH]; intros s; [done | exact (IH _)]. Qed.

(** Whatever runs, one of two versions of a name differs from the last image of
    this name. *)
Lemma diff_repeated R D i j :
  i ∈ D → j ∈ D → Name i = Name j → Version i ≠ Version j → diff R D ≠ [].
Proof.
  intros Hi Hj Hn Hv. rewrite diff_filter. intros E.
  assert (Hno : ∀ k, k ∈ D → is_missing (remember R) k = false).
  { intros k Hk. destruct (is_missing (remember R) k) eqn:Hm; [| done].
    assert (k ∈ List.filter (is_missing (remember R)) D) as Hin by by apply elem_of_filter_bool.
    rewrite E in Hin. by apply elem_of_nil in Hin. }
  specialize (Hno i Hi) as Hno1. specialize (Hno j Hj) as Hno2. unfold is_missing in *.
  rewrite Hn in Hno1. destruct (remember R !! Name j) as [v |]; [| done].
  apply bool_decide_eq_false in Hno1, Hno2. destruct Hv.
  by rewrite <- (dec_stable Hno1), <- (dec_stable Hno2).
Qed.

Definition is_pull (e : call * answer) : bool :=
  match e.1 with CallPull _ _ _ _ => true | _ => false end.

(** C39. A configuration that lists two versions of one image never settles:
    whatever runs and whatever else it lists, every call of [process] with it
    tries to install an image, so [n] calls make at least [n] attempts, with
    every lawful manager.  ([repeated_name_accumulates]: where the containers
    are listed in the order in which they were made, each second call leaves
    one more container.) *)
Theorem repeated_name_never_settles `{ReferencePkg} {S} `{LawfulManager S} cfg d node D i j n (s : S) :
  d !! NodeHostname cfg = Some node → desired cfg node = Ret D →
  i ∈ D → j ∈ D → Name i = Name j → Version i ≠ Version j →
  ∃ calls,
    @process_many _ _ traced n cfg d (s, []) = (process_many n cfg d s, calls)
    ∧ (n ≤ length (List.filter is_pull calls))%nat.
Proof.
  intros Hd HD Hi Hj Hn Hv. induction n as [| n (calls & IH & Hlen)]; [by exists [] |].
  rewrite !process_many_snoc, IH. set (t := process_many n cfg d s).
  destruct (law_Containers t) as (cs & t1 & Hcs & _).
  assert (Hpull : ∀ name args pb v (s : S) p, (PullImageAndCreateContainer name args pb v s).1 ≠ Panic p).
  { intros name args pb v s' p. assert (L := law_Pull name args pb v s').
    by destruct (PullImageAndCreateContainer name args pb v s') as [[] ?]; destruct L. }
  assert (Hrm : ∀ name v (s : S) p, (RemoveImageAndContainer name v s).1 ≠ Panic p).
  { intros name v s' p. assert (L := law_Remove name v s').
    by destruct (RemoveImageAndContainer name v s') as [[] ?]; destruct L. }
  destruct (process_trace Hpull Hrm cfg d node t t1 cs D calls Hd Hcs HD)
    as (t' & calls' & removals & installs & -> & -> & Hcalls & _ & Hinst).
  exists (calls ++ calls')%list. split; [done |].
  assert (Hnew := diff_repeated (managed_images cs) D i j Hi Hj Hn Hv).
  destruct Hinst as [| k e ks es (r & -> & _) _]; [done |].
  rewrite Hcalls, List.filter_app, length_app. cbn [List.filter is_pull fst].
  rewrite List.filter_app, length_app. cbn. lia.
Qed.

Lemma repeated_name_never_settles_witness :
  ∃ calls,
    @process_many familiar_reference _ (@traced _ toy_manager) 3 toy_config both_versions
      ([up_container "docker.io/envoyproxy/envoy:v1"], []) =
      (@process_many familiar_reference _ toy_manager 3 toy_config both_versions
         [up_container "docker.io/envoyproxy/envoy:v1"], calls)
    ∧ (3 ≤ length (List.filter is_pull calls))%nat.
Proof.
  apply (@repeated_name_never_settles familiar_reference _ toy_manager toy_lawful) with
    (node := both_node) (D := [app_v1; app_v2]) (i := app_v1) (j := app_v2);
    [done | exact toy_desired | decide_vm | decide_vm | done | done].
Defined.

(** Two versions of one image with the small manager, which lists the
    containers in the order in which they were made: every second call of
    [process] leaves one more container of the second version, so the
    containers accumulate without bound. *)
Theorem repeated_name_accumulates n :
  @process_many familiar_reference _ toy_manager (2 * n) toy_config both_versions [app2; app1]
  = (repeat app2 (S n) ++ [app1])%list.
Proof.
  induction n as [| n IH]; [done |].
  replace (2 * S n)%nat with (S (S (2 * n))) by lia.
  rewrite !process_many_snoc, IH.
  destruct (toy_step_remove (S n)) as [out1 ->]. cbn [fst snd].
  by destruct (toy_step_install (S n)) as [out2 ->].
Qed.

(** ** The debug manager *)

Section debug.
Context `{ReferencePkg}.
Context (order : nat → gmap string virtualContainer → list (string * virtualContainer)).
Context (port_order : PortMap → list (string * list PortBinding)).
Context (Intn : nat → nat).
Context (order_ranges : ∀ n m, ranges m (order n m)).
Context (Intn_lt : ∀ n, (Intn n < 52)%nat).

Local Abbreviation M := (debug_manager order port_order Intn).

(** No status of the debug manager starts with [Up]. *)
Lemma debug_listing_unmanaged d n K cs d' :
  debug_wf d n K → debug_Containers order d = (Ret cs, d') → managed_images cs = [].
Proof.
  intros [_ _ _ Hdom Hlive _] Hc. unfold debug_Containers in Hc. simpl in Hc. simplify_eq.
  apply elem_of_nil_inv. intros i (c & Hc & Hm & _)%elem_of_managed_images.
  apply list_elem_of_fmap in Hc as ([id vc] & -> & Hin).
  apply (ranges_elem_of _ _ _ _ (order_ranges _ _)) in Hin.
  assert (is_Some (K !! id)) as [k Hk].
  { apply elem_of_dom. rewrite Hdom. by apply elem_of_dom_2 in Hin. }
  destruct (Hlive id k vc Hk Hin) as (_ & _ & _ & _ & Hst).
  apply managed_is_up in Hm. unfold is_up in Hm. simpl in Hm.
  by destruct Hst as [E | E]; rewrite E in Hm.
Qed.

(** The announcement of the [k]-th installation after [n] pulls. *)
Definition debug_announcement (n k : nat) : announcement :=
  AnnounceRegistered (bundleIDFormat (int32 (appIdxBase + Z.of_nat (n + k))))
    (int32 (servicePortBase + Z.of_nat (n + k))).

Lemma debug_install_all D d n K :
  debug_wf d n K →
  ∃ d' K', @for_images _ (@install_image _ M) D d =
      (Ret (), d', imap (λ k _, debug_announcement n k) D)
    ∧ debug_wf d' (n + length D) K'.
Proof.
  revert d n K. induction D as [| i D IH]; intros d n K Hwf; cbn [for_images].
  { exists d, K. by rewrite Nat.add_0_r. }
  assert (Hpull := Pull_eq order port_order Intn Intn_lt (image_identifier i) [] ∅ true d).
  assert (Hwf1 := debug_wf_pull order port_order Intn Intn_lt d n K
    (image_identifier i) [] ∅ true Hwf).
  assert (@install_image _ M i d =
    (Ret (), (debug_PullImageAndCreateContainer order port_order Intn
                (image_identifier i) [] ∅ true d).2, [debug_announcement n 0])) as ->.
  { unfold install_image.
    change (@PullImageAndCreateContainer _ M)
      with (debug_PullImageAndCreateContainer order port_order Intn).
    rewrite Hpull. destruct Hwf as [_ Ha Hp _ _ _].
    unfold debug_announcement. by rewrite Nat.add_0_r, Ha, Hp. }
  destruct (IH _ _ _ Hwf1) as (d' & K' & -> & Hwf').
  exists d', K'. replace (n + length (i :: D))%nat with (S n + length D)%nat by (simpl; lia).
  split; [| done]. simpl. do 2 f_equal.
  apply imap_ext. intros k j _. unfold debug_announcement. simpl. by rewrite Nat.add_succ_r.
Qed.

(** With the emulated runtime the orchestrator never recognises what it has
    deployed: in every reachable state of the debug manager [process] installs
    every desired image again, under new bundle identifiers and ports, and
    removes nothing. *)
Theorem debug_manager_reinstalls cs cfg d node D :
  d !! NodeHostname cfg = Some node → desired cfg node = Ret D →
  let s := @perform_all _ M cs NewDebugContainerManager in
  ∃ s' K, @process _ _ M cfg d s =
      (Ret (), s', imap (λ k _, debug_announcement (count_pulls cs) k) D)
    ∧ debug_wf s' (count_pulls cs + length D) K.
Proof.
  intros Hd HD s.
  destruct (reachable_wf order port_order Intn order_ranges Intn_lt cs) as [K Hwf].
  fold s in Hwf.
  destruct (debug_Containers order s) as [r s1] eqn:Hc.
  assert (∃ l, r = Ret l) as [l ->] by (unfold debug_Containers in Hc; simplify_eq/=; eauto).
  assert (Hm := debug_listing_unmanaged _ _ _ _ _ Hwf Hc).
  assert (Hwf1 : debug_wf s1 (count_pulls cs) K).
  { unfold debug_Containers in Hc. simplify_eq/=. by destruct Hwf. }
  destruct (debug_install_all D s1 _ _ Hwf1) as (s' & K' & Hin & Hwf').
  exists s', K'. split; [| done].
  apply (@process_eq _ _ M cfg d node s s1 s1 s' l D [] _ Hd Hc HD).
  - by rewrite Hm.
  - rewrite Hm. rewrite diff_filter.
    by replace (List.filter (is_missing (remember [])) D) with D
      by (clear; induction D as [| i D IH]; simpl; f_equal; auto).
Qed.
End debug.

Lemma debug_manager_reinstalls_witness :
  let M := debug_manager list_order port_list_order cyclic_draws in
  let s := @perform_all _ M [CallPull "gcr.io/app:v1" [] ∅ true] NewDebugContainerManager in
  ∃ s' K, @process familiar_reference _ M toy_config (toy_node ["gcr.io/app:v1"]) s =
      (Ret (), s', imap (λ k _, debug_announcement 1 k) [app_v1])
    ∧ debug_wf s' (1 + 1) K.
Proof.
  apply (@debug_manager_reinstalls familiar_reference list_order port_list_order cyclic_draws
    list_order_ranges cyclic_draws_lt [CallPull "gcr.io/app:v1" [] ∅ true] toy_config
    (toy_node ["gcr.io/app:v1"])
    {| State := NodeStateRunning; Images := Some ["gcr.io/app:v1"] |}).
  - done.
  - by vm_compute.
Defined.
