(* ===== verification/DockerManager.v ===== *)
(** Package [pkg/container], file [docker_container_manager.go]: the container
    manager in front of a Docker-compatible engine.

    The engine's client is the class [DockerClient]: one state-passing
    operation per call the manager makes, with the result types of the Docker
    SDK that the manager looks at.  An archive is given by what successive
    calls of [tar.Reader.Next] return. *)
From S2P Require Import Prelude GoStrings Json JsonParse Deployment Config Container Orchestrator Reconcile.

Local Open Scope string_scope.

(** ** Types of the Docker SDK *)
Record DockerPort := {
  IP : string;
  PrivatePort : Z;
  PublicPort : Z;
  PortType : string;
}.

Record Summary := {
  Summary_ID : string;
  Names : list string;
  Summary_Image : string;
  ImageID : string;
  Summary_Ports : list DockerPort;
  Summary_Status : string;
}.

(** The options of a listing: all containers, or the running ones that descend
    from an image. *)
Inductive ListOptions :=
| ListAll
| ListAncestor (imageName : string).

(** What [tar.Reader.Next] returns: an entry with its type flag, its name and
    the result of reading it, or an error.  The end of the list is [io.EOF]. *)
Inductive tar_item :=
| TarEntry (regular : bool) (name : string) (content : outcome string)
| TarError (err : error).

Class DockerClient (S : Type) := {
  ContainerList : ListOptions → S → outcome (list Summary) * S;
  ContainerStart : string → S → outcome unit * S;
  ContainerStop : string → S → outcome unit * S;
  ImagePull : string → S → outcome (list (outcome string)) * S;  (* the reads of its reader *)
  ContainerCreate : string → list string → PortMap → S → outcome string * S;
  CopyFromContainer : string → string → S → outcome (list tar_item) * S;
  ContainerInspect : string → S → outcome (list (string * list PortBinding)) * S;
  ContainerRemove : string → S → outcome unit * S;
  ImageRemove : string → S → outcome unit * S;
  Client_Close : S → outcome unit * S;
}.

(** ** Formatting *)

Definition format_port (port : DockerPort) : string :=
  let ip := if decide (0 < len (IP port))%Z then IP port else wildcardIP in
  ip +:+ ":" +:+ Itoa (PublicPort port) +:+ "->" +:+ Itoa (PrivatePort port) +:+ "/"
    +:+ PortType port.

Fixpoint format_ports_from (idx : nat) (ports : list DockerPort) : string :=
  match ports with
  | [] => ""
  | port :: ports =>
      (if decide (idx ≠ 0) then ", " else "")
      +:+ format_port port +:+ format_ports_from (S idx) ports
  end.

Definition formatPorts (ports : list DockerPort) : string := format_ports_from 0 ports.

(** ** The bundle descriptor *)

(** [json.Unmarshal] into a [BundleConfig]. *)
Fixpoint decode_bundle_members (b : BundleConfig) (kvs : list (string * json))
    : outcome BundleConfig :=
  match kvs with
  | [] => Ret b
  | (key, v) :: kvs =>
      if names_field "bundle_id" key then
        match v with
        | JString s => decode_bundle_members {| BundleID := s |} kvs
        | JNull => decode_bundle_members b kvs
        | _ => Fail UnmarshalTypeError
        end
      else decode_bundle_members b kvs
  end.

Definition BundleConfigFromJSON (s : string) : outcome BundleConfig :=
  match parse_json s with
  | Some JNull => Ret {| BundleID := "" |}
  | Some (JObject kvs) => decode_bundle_members {| BundleID := "" |} kvs
  | Some _ => Fail UnmarshalTypeError
  | None => Fail SyntaxError
  end.

Definition errorNoDescriptor (containerID : string) : error :=
  ErrorNew ("cannot extract deployment config from container " +:+ containerID).

(** The loop over the archive. *)
Fixpoint read_archive (containerID : string) (items : list tar_item) : outcome BundleConfig :=
  match items with
  | [] => Fail (errorNoDescriptor containerID)
  | TarError err :: _ => Fail err
  | TarEntry true name content :: items =>
      if decide (name ≠ bundleConfigFileName) then read_archive containerID items
      else b ← content; BundleConfigFromJSON b
  | TarEntry false _ _ :: items => read_archive containerID items
  end.

(** The loop that waits for the end of a download: any error ends it. *)
Fixpoint drain (reads : list (outcome string)) : unit :=
  match reads with
  | Ret _ :: reads => drain reads
  | _ => ()
  end.

Section docker.
Context {S : Type} `{DockerClient S}.

(** [if err != nil { return ..., err }] on a call of the client. *)
Definition call_client {A B} (f : S → outcome A * S) (s : S) (k : A → S → outcome B * S)
    : outcome B * S :=
  match f s with
  | (Ret a, s) => k a s
  | (Fail err, s) => (Fail err, s)
  | (Panic p, s) => (Panic p, s)
  end.

(** [NewDockerContainerManager]: the results of making the client and of its
    call [Info], which tells whether an engine answers. *)
Definition NewDockerContainerManager (created : outcome S) (Info : S → outcome unit * S)
    : outcome S :=
  s ← created;
  (call_client Info s (λ _ s, (Ret s, s))).1.

Definition bundleConfiguration (containerID : string) (s : S) : outcome BundleConfig * S :=
  call_client (CopyFromContainer containerID bundleConfigFileName) s
    (λ items s, (read_archive containerID items, s)).

(** The first binding of the map, in the order of this execution. *)
Definition first_port (bindings : list (string * list PortBinding)) : outcome Z :=
  match bindings with
  | [] => Ret (-1)%Z
  | (_, binding) :: _ =>
      b ← index_or_panic binding 0;
      servicePort ← Atoi (HostPort b);
      Ret (int32 servicePort)
  end.

Definition containerServicePort (id : string) (s : S) : outcome Z * S :=
  call_client (ContainerInspect id) s (λ bindings s, (first_port bindings, s)).

Definition summary_container (c : Summary) : outcome Container :=
  name ← index_or_panic (Names c) 0;
  Ret {| ID := Summary_ID c; FirstName := name; Container_Image := Summary_Image c;
         Ports := formatPorts (Summary_Ports c); Status := Summary_Status c |}.

Definition docker_Containers (s : S) : outcome (list Container) * S :=
  call_client (ContainerList ListAll) s
    (λ containerList s, (mapM_outcome summary_container containerList, s)).

Definition docker_StartContainer (id : string) (s : S) : outcome unit * S :=
  call_client (ContainerStart id) s (λ _ s, (Ret (), s)).

Definition docker_StopContainer (id : string) (s : S) : outcome unit * S :=
  call_client (ContainerStop id) s (λ _ s, (Ret (), s)).

(** The bundle identifier and the service port of a container. *)
Definition describe (verifyBundleConfig : bool) (id : string) (s : S)
    : outcome (string * Z) * S :=
  if verifyBundleConfig then
    call_client (bundleConfiguration id) s (λ bundleConfig s,
      call_client (containerServicePort id) s (λ servicePort s,
        (Ret (BundleID bundleConfig, servicePort), s)))
  else (Ret ("", (-1)%Z), s).

Definition docker_PullImageAndCreateContainer (name : string) (args : list string)
    (portBindings : PortMap) (verifyBundleConfig : bool) (s : S) : outcome (string * Z) * S :=
  call_client (ImagePull name) s (λ reader s,
    let _ := drain reader in
    call_client (ContainerCreate name args portBindings) s (λ id s,
      call_client (ContainerStart id) s (λ _ s, describe verifyBundleConfig id s))).

Definition errorNoContainer : error :=
  ErrorNew "can not not find container(s) running the supplied image".

Definition docker_RemoveImageAndContainer (imageName : string) (verifyBundleConfig : bool) (s : S)
    : outcome (string * Z) * S :=
  call_client (ContainerList (ListAncestor imageName)) s (λ containerList s,
    match containerList with
    | [] => (Fail errorNoContainer, s)
    | c :: _ =>
        call_client (describe verifyBundleConfig (Summary_ID c)) s (λ described s,
          call_client (ContainerRemove (Summary_ID c)) s (λ _ s,
            call_client (ImageRemove (ImageID c)) s (λ _ s, (Ret described, s))))
    end).

Definition docker_Close (s : S) : outcome unit * S :=
  call_client Client_Close s (λ _ s, (Ret (), s)).

#[export] Instance docker_manager : Manager S := {|
  Containers := docker_Containers;
  StartContainer := docker_StartContainer;
  StopContainer := docker_StopContainer;
  PullImageAndCreateContainer := docker_PullImageAndCreateContainer;
  RemoveImageAndContainer := docker_RemoveImageAndContainer;
  Close := docker_Close;
|}.
End docker.

(** ** A lawful engine

    [up s] are the containers that run in the state [s], [local s id a] the
    images in its store, by identifier and name; [built_on s a b] says that the
    image [a] is the image [b] or has it among its ancestors.  The engine
    answers every listing; a listing by ancestor gives the running containers
    whose image is built on the one that is named.  Creating a container does
    not run it, and starting one that was created runs it under its image name;
    both may fail without a change, as may the download, the reading of the
    archive, the inspection and the removal of an image.  Removing a running
    container by force succeeds, and leaves its image in the store. *)
Definition represents (c : Summary) (d : Container) : Prop := summary_container c = Ret d.

Class LawfulEngine (S : Type) `{DockerClient S} := {
  up : S → list Container;
  created : S → string → string → Prop;
  local : S → string → string → Prop;
  built_on : S → string → string → Prop;
  engine_ListAll s : ∃ l cs s',
    ContainerList ListAll s = (Ret l, s') ∧ Forall2 represents l cs
    ∧ List.filter is_up cs ≡ₚ up s ∧ up s' ≡ₚ up s;
  engine_ListAncestor name s : ∃ l cs s',
    ContainerList (ListAncestor name) s = (Ret l, s') ∧ Forall2 represents l cs
    ∧ (∀ c, c ∈ cs ↔ c ∈ up s ∧ built_on s (Container_Image c) name) ∧ up s' ≡ₚ up s;
  engine_built_on c name s : c ∈ up s → image c = image_of name → built_on s (Container_Image c) name;
  engine_up_local c s : c ∈ up s → ∃ id, local s id (Container_Image c);
  engine_Pull name s :
    is_panic (ImagePull name s).1 = false ∧ up (ImagePull name s).2 ≡ₚ up s;
  engine_Create name args pb s :
    let '(r, s') := ContainerCreate name args pb s in
    is_panic r = false ∧ up s' ≡ₚ up s ∧ ∀ id, r = Ret id → created s' id name;
  engine_Start id name s : created s id name →
    let '(r, s') := ContainerStart id s in
    is_panic r = false
    ∧ (is_ret r = true → ∃ c, is_managed c = true ∧ Container_Image c = name
         ∧ up s' ≡ₚ c :: up s)
    ∧ (is_fail r = true → up s' ≡ₚ up s);
  engine_Copy id path s :
    let '(r, s') := CopyFromContainer id path s in
    is_panic r = false ∧ up s' ≡ₚ up s
    ∧ ∀ items name content p, r = Ret items → TarEntry true name content ∈ items →
        content ≠ Panic p;
  engine_Inspect id s :
    let '(r, s') := ContainerInspect id s in
    is_panic r = false ∧ up s' ≡ₚ up s
    ∧ ∀ bindings port binding, r = Ret bindings → (port, binding) ∈ bindings → binding ≠ [];
  engine_Remove c s : c ∈ up s →
    ∃ s' c', ContainerRemove (ID c) s = (Ret (), s') ∧ ID c' = ID c ∧ image c' = image c
      ∧ is_up c' = true ∧ up s ≡ₚ c' :: up s';
  engine_ImageRemove id s :
    is_panic (ImageRemove id s).1 = false ∧ up (ImageRemove id s).2 ≡ₚ up s;
}.

(** No image in the store is built on another one in it: the applications are
    built on base images that are not deployed themselves.  (Otherwise the
    removal of an image can hit a container of another one:
    [removal_takes_first_listed].) *)
Class UnrelatedImages (S : Type) `{LawfulEngine S} : Prop :=
  unrelated s id a b : local s id a → built_on s a b → image_of a = image_of b.

Section docker_lawful.
Context {S : Type} `{LawfulEngine S}.
Implicit Types (s : S).

Lemma read_archive_no_panic id items p :
  (∀ name content q, TarEntry true name content ∈ items → content ≠ Panic q) →
  read_archive id items ≠ Panic p.
Proof.
  assert (Hjson : ∀ b q, BundleConfigFromJSON b ≠ Panic q).
  { intros b q. unfold BundleConfigFromJSON. destruct (parse_json b) as [[] |]; try done.
    generalize {| BundleID := "" |}. induction kvs as [| [key v] kvs IH]; intros d; [done |].
    cbn [decode_bundle_members]. destruct (names_field "bundle_id" key); [destruct v |];
      try done; apply IH. }
  induction items as [| [[] name content | err] items IH]; intros Hc; cbn [read_archive];
    [done | | | done].
  - case_decide.
    + apply IH. intros. eapply Hc. by apply list_elem_of_further.
    + intros [Hp | (b & _ & Hp)]%bind_Panic_inv; [| by apply Hjson in Hp].
      by apply (Hc name content p); [apply list_elem_of_here |].
  - apply IH. intros. eapply Hc. by apply list_elem_of_further.
Qed.

Lemma first_port_no_panic bindings p :
  (∀ port binding, (port, binding) ∈ bindings → binding ≠ []) → first_port bindings ≠ Panic p.
Proof.
  destruct bindings as [| [port [| b bs]] l]; intros Hb; [done | |].
  - by destruct (Hb port []); [apply list_elem_of_here |].
  - cbn. intros [Hp | (n & _ & Hp)]%bind_Panic_inv; [| done]. revert Hp. apply Atoi_no_panic.
Qed.

(** Describing a container neither panics nor changes what runs. *)
Lemma describe_lawful v id s :
  is_panic (describe v id s).1 = false ∧ up (describe v id s).2 ≡ₚ up s
  ∧ (v = false → is_ret (describe v id s).1 = true).
Proof.
  unfold describe. destruct v; [| by split_and!].
  unfold bundleConfiguration, containerServicePort, call_client.
  assert (L1 := engine_Copy id bundleConfigFileName s).
  destruct (CopyFromContainer id bundleConfigFileName s) as [[items | e | p] s1];
    destruct L1 as (Hp1 & Hu1 & Hc); [| by split_and! | done].
  destruct (read_archive id items) as [b | e | p] eqn:Hb; [| by split_and! |].
  2: { exfalso. revert Hb. apply read_archive_no_panic. intros name content q.
       apply (Hc items name content q eq_refl). }
  assert (L2 := engine_Inspect id s1).
  destruct (ContainerInspect id s1) as [[bindings | e | p] s2];
    destruct L2 as (Hp2 & Hu2 & Hb2); [| split_and!; [done | by rewrite Hu2 | done] | done].
  destruct (first_port bindings) as [port | e | p] eqn:Hport;
    [split_and!; [done | by rewrite Hu2 | done].. |].
  exfalso. revert Hport. apply first_port_no_panic. intros port binding.
  by apply (Hb2 bindings).
Qed.

Lemma docker_Containers_lawful s :
  ∃ cs s', docker_Containers s = (Ret cs, s') ∧ List.filter is_up cs ≡ₚ up s ∧ up s' ≡ₚ up s.
Proof.
  destruct (engine_ListAll s) as (l & cs & s' & Hl & Hcs & Hup & Hs').
  exists cs, s'. split_and!; [| done | done]. unfold docker_Containers, call_client. rewrite Hl.
  by apply mapM_outcome_Ret in Hcs as ->.
Qed.

Lemma docker_Pull_lawful name args pb v s :
  let '(r, s') := docker_PullImageAndCreateContainer name args pb v s in
  is_panic r = false
  ∧ ((∃ c, is_managed c = true ∧ Container_Image c = name ∧ up s' ≡ₚ c :: up s)
     ∨ (is_fail r = true ∧ up s' ≡ₚ up s)).
Proof.
  unfold docker_PullImageAndCreateContainer, call_client.
  destruct (engine_Pull name s) as [Hp1 Hu1].
  destruct (ImagePull name s) as [[reader | e | p] s1]; cbn [fst snd] in *;
    [| by split; [| right] | done].
  assert (L2 := engine_Create name args pb s1).
  destruct (ContainerCreate name args pb s1) as [[id | e | p] s2];
    destruct L2 as (Hp2 & Hu2 & Hcr);
    [| by split; [| right; rewrite Hu2] | done].
  assert (L3 := engine_Start id name s2 (Hcr id eq_refl)).
  destruct (ContainerStart id s2) as [[[] | e | p] s3]; destruct L3 as (Hp3 & Hret & Hfail);
    [| by split; [| right; rewrite (Hfail eq_refl), Hu2] | done].
  destruct (Hret eq_refl) as (c & Hm & Hc & Hu3).
  destruct (describe_lawful v id s3) as (Hp4 & Hu4 & _).
  destruct (describe v id s3) as [r s4]. split; [done |]. left. exists c.
  split_and!; [done | done |]. simpl in Hu4. by rewrite Hu4, Hu3, Hu2, Hu1.
Qed.

Lemma removal_takes_first name v s s1 c l :
  ContainerList (ListAncestor name) s = (Ret (c :: l), s1) →
  is_ret (describe v (Summary_ID c) s1).1 = true →
  ∃ d d', summary_container c = Ret d ∧ d ∈ up s ∧ built_on s (Container_Image d) name
    ∧ ID d' = ID d ∧ image d' = image d
    ∧ up s ≡ₚ d' :: up (docker_RemoveImageAndContainer name v s).2.
Proof.
  intros Hlist Hdesc. unfold docker_RemoveImageAndContainer. unfold call_client at 1.
  destruct (engine_ListAncestor name s) as (l' & cs & s1' & Hlist' & Hl & Hcs & Hu1).
  rewrite Hlist in Hlist'. injection Hlist' as <- <-. rewrite Hlist.
  inversion Hl as [| c0 d l0 cs' Hcd _ E1 E2]; subst.
  destruct (proj1 (Hcs d)) as [Hd Hb]; [apply list_elem_of_here |].
  assert (Hid : ID d = Summary_ID c) by (unfold represents, summary_container in Hcd; by outcome_inv).
  unfold call_client at 1. destruct (describe_lawful v (Summary_ID c) s1) as (_ & Hu2 & _).
  destruct (describe v (Summary_ID c) s1) as [[r2 | e | p] s2]; cbn [fst snd] in *; try done.
  assert (Hd2 : d ∈ up s2) by by rewrite Hu2, Hu1.
  destruct (engine_Remove d s2 Hd2) as (s3 & d' & Hrm & Hid' & Hi' & _ & Hu3).
  unfold call_client at 1. rewrite <- Hid, Hrm.
  destruct (engine_ImageRemove (ImageID c) s3) as [_ Hu4]. exists d, d'.
  split_and!; [done.. |]. unfold call_client.
  destruct (ImageRemove (ImageID c) s3) as [[r4 | e | p] s4]; cbn [fst snd] in *;
    by rewrite Hu4, <- Hu3, Hu2, Hu1.
Qed.

Context `{!UnrelatedImages S}.

Lemma unrelated_up c name s :
  c ∈ up s → built_on s (Container_Image c) name ↔ image c = image_of name.
Proof.
  intros Hc. split; [| by apply engine_built_on]. intros Hb.
  destruct (engine_up_local c s Hc) as [id Hl]. by apply (unrelated s id).
Qed.

Lemma docker_Remove_lawful name v s :
  let '(r, s') := docker_RemoveImageAndContainer name v s in
  is_panic r = false
  ∧ ((∃ c, is_up c = true ∧ image c = image_of name ∧ up s ≡ₚ c :: up s')
     ∨ (is_fail r = true ∧ up s' ≡ₚ up s
        ∧ (v = false → ∀ c, c ∈ up s → is_up c = true → image c ≠ image_of name))).
Proof.
  unfold docker_RemoveImageAndContainer. unfold call_client at 1.
  destruct (engine_ListAncestor name s) as (l & cs & s1 & -> & Hl & Hcs & Hu1).
  destruct Hl as [| c d l cs Hcd Hl].
  { split; [done |]. right. split_and!; [done | done |]. intros _ c Hc _ Hi.
    assert (Hno : c ∈ []) by by apply Hcs; split; [| apply unrelated_up].
    by apply elem_of_nil in Hno. }
  destruct (proj1 (Hcs d)) as [Hd Hi]; [apply list_elem_of_here |].
  apply unrelated_up in Hi; [| done]. rewrite <- Hu1 in Hd.
  assert (Hid : ID d = Summary_ID c).
  { unfold represents, summary_container in Hcd. by outcome_inv. }
  unfold call_client at 1.
  destruct (describe_lawful v (Summary_ID c) s1) as (Hp2 & Hu2 & Hv2).
  destruct (describe v (Summary_ID c) s1) as [[r2 | e | p] s2]; cbn [fst snd] in *; [| | done].
  2: { split; [done |]. right. split_and!; [done | by rewrite Hu2 |].
       intros ->. by specialize (Hv2 eq_refl). }
  rewrite <- Hu2 in Hd. destruct (engine_Remove d s2 Hd) as (s3 & c' & Hrm & _ & Hi' & Hup' & Hu3).
  unfold call_client at 1. rewrite <- Hid, Hrm.
  destruct (engine_ImageRemove (ImageID c) s3) as [Hp4 Hu4].
  unfold call_client. destruct (ImageRemove (ImageID c) s3) as [[r4 | e | p] s4];
    cbn [fst snd] in *; [| | done]; (split; [done |]); left; exists c';
    (split_and!; [done | congruence | by rewrite Hu4, <- Hu3, Hu2]).
Qed.

#[export, refine] Instance docker_lawful : LawfulManager S := {| running := up |}.
Proof.
  - apply docker_Containers_lawful.
  - apply docker_Remove_lawful.
  - apply docker_Pull_lawful.
Defined.
End docker_lawful.

(** ** A small engine, for the witnesses

    Its state is the list of the image names that run; the identifier of a
    container is its image name. *)
Definition engine_summary (name : string) : Summary :=
  {| Summary_ID := name; Names := ["/brave_turing"]; Summary_Image := name; ImageID := name;
     Summary_Ports := []; Summary_Status := "Up 1 second" |}.

Definition engine_container (name : string) : Container :=
  {| ID := name; FirstName := "/brave_turing"; Container_Image := name; Ports := "";
     Status := "Up 1 second" |}.

Definition engine_remove (id : string) (l : list string) : outcome unit * list string :=
  match list_find (λ n, n = id) l with
  | Some (k, _) => (Ret (), delete k l)
  | None => (Fail (ErrorNew "No such container"), l)
  end.

Definition engine_list (o : ListOptions) (l : list string) : list Summary :=
  match o with
  | ListAll => map engine_summary l
  | ListAncestor name =>
      map engine_summary (List.filter (λ n, bool_decide (image_of n = image_of name)) l)
  end.

(** [descriptor id] is the content of [info.json] in the container [id]. *)
Definition toy_client (descriptor : string → outcome string) : DockerClient (list string) := {|
  ContainerList o l := (Ret (engine_list o l), l);
  ContainerStart id l := (Ret (), l ++ [id])%list;
  ContainerStop id l := (Ret (), l);
  ImagePull name l := (Ret [Ret "layer"; Fail EOF], l);
  ContainerCreate name args pb l := (Ret name, l);
  CopyFromContainer id path l :=
    (match descriptor id with
     | Panic _ => Fail (ErrorNew "Could not find the file info.json in container")
     | d => Ret [TarEntry false "." (Ret ""); TarEntry true "info.json" d]
     end, l);
  ContainerInspect id l := (Ret [], l);
  ContainerRemove := engine_remove;
  ImageRemove id l := (Ret (), l);
  Client_Close l := (Ret (), l);
|}.

Lemma engine_represents l : Forall2 represents (map engine_summary l) (map engine_container l).
Proof. induction l as [| n l IH]; simpl; constructor; done. Qed.

Lemma filter_engine_containers l :
  List.filter is_up (map engine_container l) = map engine_container l.
Proof.
  induction l as [| n l IH]; [done |]. cbn [map List.filter].
  change (is_up (engine_container n)) with true. cbv iota. by rewrite IH.
Qed.

#[refine] Definition toy_engine descriptor :
    @LawfulEngine (list string) (toy_client descriptor) := {|
  up l := map engine_container l;
  created l id name := id = name;
  local l id name := id = name;
  built_on l a b := image_of a = image_of b |}.
Proof.
  all: cbn [ContainerList ContainerStart ImagePull ContainerCreate CopyFromContainer
            ContainerInspect ContainerRemove ImageRemove toy_client].
  - intros l. exists (map engine_summary l), (map engine_container l), l.
    split_and!; [done | apply engine_represents | by rewrite filter_engine_containers | done].
  - intros name l. do 2 eexists. exists l.
    split_and!; [done | apply engine_represents | | done].
    intros c. rewrite !list_elem_of_fmap. split.
    + intros (n & -> & [Hn Hi%bool_decide_eq_true]%elem_of_filter_bool). split; [by exists n | done].
    + intros [(n & -> & Hn) Hi]. exists n. split; [done |].
      apply elem_of_filter_bool. by rewrite bool_decide_eq_true.
  - done.
  - intros c l _. by eexists.
  - by split.
  - intros name args pb l. split_and!; [done | done |]. intros id E. by injection E.
  - intros id name l ->. split_and!; [done | | done]. intros _.
    exists (engine_container name). split_and!; [done | done |].
    rewrite map_app. by rewrite Permutation_app_comm.
  - intros id path l. split_and!; [by destruct (descriptor id) | done |].
    intros items name content p Hitems Hin. assert (Hno : ∀ x, content = x → is_panic x = false → content ≠ Panic p) by (by intros ? <-; destruct content).
    destruct (descriptor id) as [d | e | q]; [| | done]; injection Hitems as <-;
      apply elem_of_cons in Hin as [Hin | Hin%list_elem_of_singleton]; try discriminate Hin;
      injection Hin as -> ->; by eapply Hno.
  - intros id l. split_and!; [done | done |]. intros bindings port b [= <-] Hin.
    by apply elem_of_nil in Hin.
  - intros c l (n & -> & Hn)%list_elem_of_fmap. unfold engine_remove. cbn [ID engine_container].
    destruct (list_find (λ m, m = n) l) as [[k m] |] eqn:E.
    + apply list_find_Some in E as (Hk & -> & _). exists (delete k l), (engine_container n).
      split_and!; [done.. |].
      change (engine_container n :: map engine_container (delete k l))
        with (map engine_container (n :: delete k l)).
      by apply Permutation_map, delete_Permutation.
    + apply list_find_None in E. rewrite Forall_forall in E. by destruct (E n Hn).
  - by split.
Defined.

Lemma toy_unrelated descriptor : @UnrelatedImages _ (toy_client descriptor) (toy_engine descriptor).
Proof. by intros l id a b. Qed.

(** ** Properties *)

(** C30. A removal takes away one container only, the first one the engine lists
    - although a listing has all running containers whose image is built on the
    named one: all others keep running, those of the same image included, and
    the one that goes may be one of another image. *)
Theorem removal_takes_first_listed {S} `{LawfulEngine S} name v (s s1 : S) c l :
  ContainerList (ListAncestor name) s = (Ret (c :: l), s1) →
  is_ret (describe v (Summary_ID c) s1).1 = true →
  ∃ d d', summary_container c = Ret d ∧ d ∈ up s ∧ built_on s (Container_Image d) name
    ∧ ID d' = ID d ∧ image d' = image d
    ∧ up s ≡ₚ d' :: up (docker_RemoveImageAndContainer name v s).2.
Proof. apply removal_takes_first. Qed.

(** Two containers of an image: one keeps running. *)
Lemma removal_takes_first_listed_witness :
  let C := toy_client (λ _, Ret "{}") in
  let s := ["gcr.io/app:v1"; "gcr.io/app:v1"] in
  ∃ d d', summary_container (engine_summary "gcr.io/app:v1") = Ret d
    ∧ d ∈ map engine_container s ∧ image_of (Container_Image d) = image_of "gcr.io/app:v1"
    ∧ ID d' = ID d ∧ image d' = image d
    ∧ map engine_container s ≡ₚ
        d' :: map engine_container (@docker_RemoveImageAndContainer _ C "gcr.io/app:v1" false s).2.
Proof.
  intros C s.
  apply (@removal_takes_first_listed _ C (toy_engine (λ _, Ret "{}")) "gcr.io/app:v1" false s s
    (engine_summary "gcr.io/app:v1") [engine_summary "gcr.io/app:v1"]); by vm_compute.
Defined.

(** The orchestrator on Docker: with a lawful engine behind the Docker manager
    one call of [process] leaves exactly the desired images and the Envoy
    middleware running, and a second one changes nothing. *)
Theorem docker_process_converges `{ReferencePkg} {S} `{UnrelatedImages S} cfg d node (s : S) D :
  d !! NodeHostname cfg = Some node → desired cfg node = Ret D →
  NoDup (map Name D) →
  (∀ i, i ∈ D → if middleware i then i ∈ managed_images (up s)
                 else available (image_identifier i)) →
  NoDup (up_images (up s)) → NoDup (map Name (managed_images (up s))) →
  ∃ s' out, process cfg d s = (Ret (), s', out)
    ∧ managed_images (up s') ≡ₚ D ++ other_middleware D (managed_images (up s))
    ∧ ∃ s'', process cfg d s' = (Ret (), s'', []) ∧ up s'' ≡ₚ up s'.
Proof. exact (@converges _ _ docker_manager (docker_lawful) cfg d node s D). Qed.

(** A JSON object with one string member. *)
Definition quoted_object (key v : string) : string := print_indent 0 (JObject [(key, JString v)]).

Definition sample_engine : @LawfulEngine (list string) (toy_client (λ _, Ret "{}")) :=
  toy_engine (λ _, Ret "{}").

Lemma docker_process_converges_witness :
  let E := sample_engine in
  let C := toy_client (λ _, Ret "{}") in
  let s := ["gcr.io/app:v1"; "docker.io/envoyproxy/envoy:v1"] in
  let D := [{| Name := "gcr.io/app"; Version := "v2" |}] in
  let P := @process familiar_reference _ (@docker_manager _ C) toy_config
             (toy_node ["gcr.io/app:v2"]) in
  ∃ s' out, P s = (Ret (), s', out)
    ∧ managed_images (map engine_container s')
        ≡ₚ D ++ other_middleware D (managed_images (map engine_container s))
    ∧ ∃ s'', P s' = (Ret (), s'', [])
        ∧ map engine_container s'' ≡ₚ map engine_container s'.
Proof.
  intros E C s D P.
  apply (@docker_process_converges familiar_reference _ C E (toy_unrelated _) toy_config
    (toy_node ["gcr.io/app:v2"])
    {| State := NodeStateRunning; Images := Some ["gcr.io/app:v2"] |}).
  - done.
  - by vm_compute.
  - decide_vm.
  - intros i Hi. destruct (middleware i) eqn:Hm.
    { apply list_elem_of_singleton in Hi as ->. by vm_compute in Hm. }
    intros args pb v l. exists (engine_container (image_identifier i)).
    split_and!; [done | done |].
    assert ((@PullImageAndCreateContainer _ (@docker_manager _ C) (image_identifier i) args pb v l).2
      = (l ++ [image_identifier i])%list) as -> by by destruct v.
    cbn [running docker_lawful up sample_engine toy_engine E].
    rewrite map_app. by rewrite Permutation_app_comm.
  - decide_vm.
  - decide_vm.
Defined.

(** A bundle whose descriptor cannot be read after it was started: the call of
    the manager fails with the error of the descriptor, the container keeps
    running, and [process] neither announces the bundle nor stops it - and
    since its image is running from then on, no later call installs it. *)
Theorem unverified_bundle_runs_unannounced {S} `{LawfulEngine S} i (s s1 s2 s3 : S) reads id e :
  has_byte ":" (Version i) = false →
  ImagePull (image_identifier i) s = (Ret reads, s1) →
  ContainerCreate (image_identifier i) [] ∅ s1 = (Ret id, s2) →
  ContainerStart id s2 = (Ret (), s3) →
  (describe true id s3).1 = Fail e →
  ∃ s' c, install_image i s = (Ret (), s', [])
    ∧ image c = i ∧ is_managed c = true ∧ up s' ≡ₚ c :: up s.
Proof.
  intros Hv Hpull Hcreate Hstart Hdesc.
  assert (Hp : docker_PullImageAndCreateContainer (image_identifier i) [] ∅ true s =
    (Fail e, (describe true id s3).2)).
  { unfold docker_PullImageAndCreateContainer, call_client. rewrite Hpull, Hcreate, Hstart.
    destruct (describe true id s3). simpl in *. congruence. }
  destruct (engine_Pull (image_identifier i) s) as [_ Hu1]. rewrite Hpull in Hu1.
  assert (L2 := engine_Create (image_identifier i) [] ∅ s1). rewrite Hcreate in L2.
  destruct L2 as (_ & Hu2 & Hcr).
  assert (L3 := engine_Start id _ s2 (Hcr id eq_refl)). rewrite Hstart in L3.
  destruct L3 as (_ & Hret & _). destruct (Hret eq_refl) as (c & Hm & Hc & Hu3).
  destruct (describe_lawful true id s3) as (_ & Hu4 & _).
  exists (describe true id s3).2, c. split_and!.
  - unfold install_image.
    change (PullImageAndCreateContainer (image_identifier i) [] ∅ true s)
      with (docker_PullImageAndCreateContainer (image_identifier i) [] ∅ true s).
    by rewrite Hp.
  - unfold image. by rewrite Hc, image_of_identifier.
  - done.
  - by rewrite Hu4, Hu3, Hu2, Hu1.
Qed.

Lemma unverified_bundle_runs_unannounced_witness :
  let C := toy_client (λ _, Ret "not json") in
  let E := toy_engine (λ _, Ret "not json") in
  ∃ s' c, @install_image _ (@docker_manager _ C) {| Name := "gcr.io/app"; Version := "v1" |} [] =
      (Ret (), s', [])
    ∧ image c = {| Name := "gcr.io/app"; Version := "v1" |} ∧ is_managed c = true
    ∧ map engine_container s' ≡ₚ c :: map engine_container [].
Proof.
  intros C E.
  apply (@unverified_bundle_runs_unannounced _ C E
    {| Name := "gcr.io/app"; Version := "v1" |} [] [] [] ["gcr.io/app:v1"]
    [Ret "layer"; Fail EOF] "gcr.io/app:v1" SyntaxError); [done | done | done | done |].
  by vm_compute.
Defined.

(** What a successful installation answers: the bundle identifier of the first
    regular file [info.json] of the archive, and the host port of the first
    port binding of the container as a 32-bit number - or -1, without an
    error, when the engine lists no port bindings. *)
Theorem docker_Pull_answers {S} `{DockerClient S} name args pb (s s1 s2 s3 s4 s5 : S)
    reads id items b bindings :
  ImagePull name s = (Ret reads, s1) →
  ContainerCreate name args pb s1 = (Ret id, s2) →
  ContainerStart id s2 = (Ret (), s3) →
  CopyFromContainer id bundleConfigFileName s3 = (Ret items, s4) →
  read_archive id items = Ret b →
  ContainerInspect id s4 = (Ret bindings, s5) →
  docker_PullImageAndCreateContainer name args pb true s =
    (match bindings with
     | [] => Ret (BundleID b, (-1)%Z)
     | (_, []) :: _ => Panic IndexOutOfRange
     | (_, binding :: _) :: _ =>
         port ← Atoi (HostPort binding); Ret (BundleID b, int32 port)
     end, s5).
Proof.
  intros Hpull Hcreate Hstart Hcopy Hread Hinspect.
  unfold docker_PullImageAndCreateContainer, describe, bundleConfiguration,
    containerServicePort, call_client.
  rewrite Hpull, Hcreate, Hstart, Hcopy, Hread, Hinspect.
  destruct bindings as [| [port [| binding bs]] l]; [done | done |].
  cbn [first_port index_or_panic lookup list_lookup mbind outcome_bind].
  by destruct (Atoi (HostPort binding)).
Qed.

Lemma docker_Pull_answers_witness :
  let C := toy_client (λ _, Ret (quoted_object "bundle_id" "com.example.app")) in
  @docker_PullImageAndCreateContainer _ C "gcr.io/app:v1" [] ∅ true [] =
    (Ret ("com.example.app", (-1)%Z), ["gcr.io/app:v1"]).
Proof.
  intros C.
  apply (@docker_Pull_answers _ C "gcr.io/app:v1" [] ∅ [] [] [] ["gcr.io/app:v1"]
    ["gcr.io/app:v1"] ["gcr.io/app:v1"] [Ret "layer"; Fail EOF] "gcr.io/app:v1"
    [TarEntry false "." (Ret "");
     TarEntry true "info.json" (Ret (quoted_object "bundle_id" "com.example.app"))]
    {| BundleID := "com.example.app" |} []); done.
Defined.

(** The port lists of the tests. *)
Example formatPorts_test :
  formatPorts [{| IP := ""; PrivatePort := 80; PublicPort := 8080; PortType := "tcp" |};
               {| IP := "127.0.0.1"; PrivatePort := 80; PublicPort := 8080; PortType := "tcp" |}]
  = "0.0.0.0:8080->80/tcp, 127.0.0.1:8080->80/tcp".
Proof. vm_compute. reflexivity. Qed.
