(* ===== verification/Message.v ===== *)
(** Package [pkg/udp], file [message.go]: the messages of the discovery
    protocol.  A message is the magic string, one byte for its type and the
    [gob] encoding of its contents; packets are byte strings. *)
From S2P Require Import Prelude GoStrings.

Local Open Scope string_scope.

(** [type MessageType byte] *)
Definition MessageType := Z.
Definition Invalid : MessageType := 0%Z.
Definition Broadcast : MessageType := 1%Z.

Definition magicString : string := "$CARISMA$".

Record BroadcastMessage := {
  Hostname : string;
}.

Definition NewBroadcastMessage (hostname : string) : BroadcastMessage :=
  {| Hostname := hostname |}.

(** [encoding/gob] for the one type the program sends: what [Encode] writes
    for a value, and what [Decode] reads back from the front of a stream. *)
Class GobPkg := {
  gob_Encode : BroadcastMessage → outcome string;
  gob_Decode : string → outcome BroadcastMessage;
  gob_Encode_Ret g : ∃ bytes, gob_Encode g = Ret bytes;
  gob_Decode_Encode g bytes : gob_Encode g = Ret bytes → gob_Decode bytes = Ret g;
  gob_Decode_no_panic bytes p : gob_Decode bytes ≠ Panic p;
}.

(** The byte of a value below 256. *)
Definition byte_char (z : Z) : ascii := ascii_of_nat (Z.to_nat z).

(** [b[i]] *)
Definition byte_at (i : Z) (b : string) : outcome Z :=
  match String.get (Z.to_nat i) b with
  | Some c => Ret (Z.of_nat (nat_of_ascii c))
  | None => Panic IndexOutOfRange
  end.

Definition IsCARISMAMessage (b : string) : outcome bool :=
  if decide (len b < len magicString)%Z then Ret false
  else
    prefix ← take_bytes (String.length magicString) b;
    Ret (prefix =? magicString).

(** [GetMessageType]: [msg_Bytes] is the result of the method [Bytes] of the
    message. *)
Definition GetMessageType (msg_Bytes : outcome string) : outcome MessageType :=
  b ← msg_Bytes;
  t ← byte_at (len magicString) b;
  Ret (if decide (t = Broadcast) then Broadcast else Invalid).

Section gob.
Context `{GobPkg}.

Definition DecodeBroadcastMessage (msg : string) : outcome BroadcastMessage :=
  buf ← drop_bytes (String.length magicString + 1) msg;
  gob_Decode buf.

Definition Bytes (g : BroadcastMessage) : outcome string :=
  enc ← gob_Encode g;
  Ret (magicString +:+ String (byte_char Broadcast) "" +:+ enc).
End gob.

(** ** Lemmas *)

Lemma drop_bytes_short i s :
  (String.length s < i)%nat → drop_bytes i s = Panic SliceOutOfRange.
Proof.
  revert s. induction i as [| i IH]; intros [| c s] Hs; simpl in *; try lia; [done |].
  apply IH. lia.
Qed.

(** [IsCARISMAMessage] decides whether the packet starts with the magic
    string, and never panics. *)
Lemma IsCARISMAMessage_eq b : IsCARISMAMessage b = Ret (HasPrefix b magicString).
Proof.
  unfold IsCARISMAMessage, len. case_decide as Hlen.
  - f_equal. symmetry. apply not_true_iff_false. rewrite HasPrefix_spec.
    intros [t ->]. rewrite str_length_app in Hlen. lia.
  - destruct (take_bytes_ok (String.length magicString) b) as (a & c & -> & Ha & -> & _); [lia |].
    cbn [mbind outcome_bind]. f_equal. apply eq_true_iff_eq.
    rewrite String.eqb_eq, HasPrefix_spec. split; [intros ->; by exists c |].
    intros [t E]. assert (Hx := take_bytes_app magicString t).
    rewrite <- E, <- Ha, take_bytes_app in Hx. congruence.
Qed.

Section gob_lemmas.
Context `{GobPkg}.

Lemma Bytes_Ret g :
  ∃ enc, gob_Encode g = Ret enc
    ∧ Bytes g = Ret (magicString +:+ String (byte_char Broadcast) enc).
Proof.
  destruct (gob_Encode_Ret g) as [enc Henc]. exists enc. split; [done |].
  unfold Bytes. by rewrite Henc.
Qed.

Lemma Decode_header enc :
  DecodeBroadcastMessage (magicString +:+ String (byte_char Broadcast) enc) = gob_Decode enc.
Proof.
  unfold DecodeBroadcastMessage.
  change (magicString +:+ String (byte_char Broadcast) enc)
    with ((magicString +:+ String (byte_char Broadcast) "") +:+ enc).
  change (String.length magicString + 1)%nat
    with (String.length (magicString +:+ String (byte_char Broadcast) "")).
  by rewrite drop_bytes_app.
Qed.

(** ** Properties *)

(** Every broadcast message is recognised, typed and decoded: its bytes start
    with the magic string, its type is [Broadcast], and decoding returns the
    message itself. *)
Theorem broadcast_round_trip hostname :
  ∃ b, Bytes (NewBroadcastMessage hostname) = Ret b
    ∧ IsCARISMAMessage b = Ret true
    ∧ GetMessageType (Ret b) = Ret Broadcast
    ∧ DecodeBroadcastMessage b = Ret (NewBroadcastMessage hostname).
Proof.
  destruct (Bytes_Ret (NewBroadcastMessage hostname)) as (enc & Henc & ->).
  eexists. split_and!; [done | | | ].
  - by rewrite IsCARISMAMessage_eq.
  - done.
  - rewrite Decode_header. by apply gob_Decode_Encode.
Qed.

(** Decoding a packet that [IsCARISMAMessage] accepts panics exactly when the
    packet is the bare magic string: the byte of the type is skipped without a
    test of the length. *)
Theorem bare_magic_string_panics b :
  IsCARISMAMessage b = Ret true →
  (∃ p, DecodeBroadcastMessage b = Panic p) ↔ b = magicString.
Proof.
  rewrite IsCARISMAMessage_eq. intros H1.
  assert (Hp : HasPrefix b magicString = true) by congruence. clear H1.
  apply HasPrefix_spec in Hp as [t ->].
  destruct t as [| c t].
  - rewrite str_app_nil_r. split; [done |]. intros _. exists SliceOutOfRange.
    unfold DecodeBroadcastMessage. by rewrite drop_bytes_short by (simpl; lia).
  - split.
    + intros [p Hp]. exfalso. unfold DecodeBroadcastMessage in Hp.
      change (magicString +:+ String c t) with ((magicString +:+ String c "") +:+ t) in Hp.
      change (String.length magicString + 1)%nat
        with (String.length (magicString +:+ String c "")) in Hp.
      rewrite drop_bytes_app in Hp. by apply gob_Decode_no_panic in Hp.
    + intros E. apply (f_equal String.length) in E. rewrite str_length_app in E.
      simpl in E. lia.
Qed.
End gob_lemmas.

(** A length-prefixed encoding, for the witnesses. *)
#[refine] Definition sample_gob : GobPkg := {|
  gob_Encode g := Ret ("s" +:+ Hostname g);
  gob_Decode bytes :=
    match bytes with
    | String _ s => Ret {| Hostname := s |}
    | EmptyString => Fail EOF
    end |}.
Proof.
  - intros g. by eexists.
  - intros [h] bytes [= <-]. done.
  - by intros [| c s] p.
Defined.

Lemma broadcast_round_trip_witness :
  ∃ b, @Bytes sample_gob (NewBroadcastMessage "127.0.0.1") = Ret b
    ∧ IsCARISMAMessage b = Ret true
    ∧ GetMessageType (Ret b) = Ret Broadcast
    ∧ @DecodeBroadcastMessage sample_gob b = Ret (NewBroadcastMessage "127.0.0.1").
Proof. apply (@broadcast_round_trip sample_gob "127.0.0.1"). Defined.

Lemma bare_magic_string_panics_witness :
  (∃ p, @DecodeBroadcastMessage sample_gob "$CARISMA$" = Panic p) ↔ "$CARISMA$" = magicString.
Proof. by apply (@bare_magic_string_panics sample_gob). Defined.
