(* ===== verification/Broadcast.v ===== *)
(** Package [pkg/udp], file [broadcast.go]: the UDP socket a node broadcasts on
    and listens to.

    The operating system answers the calls on the socket; times are in
    nanoseconds, as those of the package [time], and a duration is a 64-bit
    integer, so that converting seconds wraps.  The datagrams that reach the
    socket are a list with the times of their arrival. *)
From S2P Require Import Prelude GoStrings Config Message.

Local Open Scope string_scope.

Definition defaultUDPBroadcastAddr : string := "255.255.255.255".
Definition packet_size : nat := 1024.

Definition errClosed : error := ErrExternal "use of closed network connection".
Definition errTimeout : error := ErrExternal "i/o timeout".
Definition errInvalidPort : error := ErrExternal "invalid port".

(** ** Durations *)

(** [config.TimeUnit], which is [time.Second]. *)
Definition TimeUnit : Z := 1000000000.

(** [time.Duration(n)*config.TimeUnit] *)
Definition duration (n : Z) : Z := int64 (n * TimeUnit).

(** [time.NewTicker] panics unless the duration is positive. *)
Definition NewTicker (d : Z) : outcome unit :=
  if decide (0 < d)%Z then Ret () else Panic (ExplicitPanic "non-positive interval for NewTicker").

(** ** Addresses *)

(** The port of an address in package [net]: a number from 0 to 65535. *)
Definition lookup_port (port : string) : outcome Z :=
  n ← Atoi port;
  if decide (0 ≤ n ≤ 65535)%Z then Ret n else Fail errInvalidPort.

(** [net.ResolveUDPAddr("udp4", net.JoinHostPort(host, port))] for a numeric
    [host]. *)
Definition ResolveUDPAddr (host port : string) : outcome (string * Z) :=
  n ← lookup_port port; Ret (host, n).

(** ** The socket *)

Inductive sockopt := SO_REUSEADDR | SO_REUSEPORT.

(** What the operating system answers when the socket is set up. *)
Record network := {
  RawConn_Control : outcome unit;
  SetsockoptInt : sockopt → outcome unit;
  bind : list sockopt → Z → outcome unit;
}.

Record BroadcastService := {
  options : list sockopt;
  bound_port : Z;
  closed : bool;
}.

(** The function given to [c.Control]: the options that are set.  Its errors
    end it, and are not returned. *)
Definition reuse_options (net : network) : list sockopt :=
  match SetsockoptInt net SO_REUSEADDR with
  | Ret _ =>
      SO_REUSEADDR :: match SetsockoptInt net SO_REUSEPORT with
                      | Ret _ => [SO_REUSEPORT]
                      | _ => []
                      end
  | _ => []
  end.

(** [lc.Control] *)
Definition Control (net : network) : outcome (list sockopt) :=
  _ ← RawConn_Control net; Ret (reuse_options net).

Definition NewBroadcastService (cfg : Config) (net : network) : outcome BroadcastService :=
  port ← lookup_port (Itoa (UDPPort cfg));
  opts ← (if EnableDebugMode cfg then Control net else Ret []);
  _ ← bind net opts port;
  Ret {| options := opts; bound_port := port; closed := false |}.

Definition Close (b : BroadcastService) : outcome unit * BroadcastService :=
  if closed b then (Fail errClosed, b)
  else (Ret (), {| options := options b; bound_port := bound_port b; closed := true |}).

(** ** [RepeatedlyWriteMessage]

    What the [select] of the loop sees: the end of the context, or a tick
    together with the result of the write. *)
Inductive write_event :=
| ContextDone
| Tick (write : outcome unit).

Section write.
Context `{GobPkg}.

(** The datagrams sent, and the result of the call once it has returned. *)
Fixpoint write_loop (port : string) (msg : BroadcastMessage) (events : list write_event)
    : list string * option (outcome unit) :=
  match events with
  | [] => ([], None)
  | ContextDone :: _ => ([], Some (Ret ()))
  | Tick write :: events =>
      match ResolveUDPAddr defaultUDPBroadcastAddr port with
      | Fail err => ([], Some (Panic (ExplicitPanic "ResolveUDPAddr")))
      | Panic p => ([], Some (Panic p))
      | Ret addr =>
          match Bytes msg with
          | Fail err => ([], Some (Fail err))
          | Panic p => ([], Some (Panic p))
          | Ret data =>
              match write with
              | Fail err => ([], Some (Fail err))
              | Panic p => ([], Some (Panic p))
              | Ret _ => let '(sent, r) := write_loop port msg events in (data :: sent, r)
              end
          end
      end
  end.

Definition RepeatedlyWriteMessage (port : string) (msg : BroadcastMessage) (delay : Z)
    (events : list write_event) : list string * option (outcome unit) :=
  match NewTicker delay with
  | Ret _ => write_loop port msg events
  | Fail err => ([], Some (Fail err))
  | Panic p => ([], Some (Panic p))
  end.
End write.

(** ** [ReadPacketWithTimeout]

    [SetReadDeadline] and [ReadFrom] of the socket; a datagram longer than the
    buffer is cut off. *)
Fixpoint cut (n : nat) (s : string) : string :=
  match n, s with
  | S n, String c s => String c (cut n s)
  | _, _ => ""
  end.

Definition ReadPacketWithTimeout (deadline : outcome unit) (datagram : outcome string)
    : outcome string :=
  _ ← deadline;
  d ← datagram;
  Ret (cut packet_size d).

(** [ReadFrom] of a socket with a deadline, called at the time [now]: a
    deadline that has passed fails at once, otherwise the first datagram that
    is there, or arrives until the deadline, is returned.  With the time of
    the return and the datagrams that are left. *)
Definition ReadFrom (deadline now : Z) (arrivals : list (Z * string))
    : outcome string * Z * list (Z * string) :=
  if decide (deadline ≤ now)%Z then (Fail errTimeout, now, arrivals)
  else
    match arrivals with
    | (t, d) :: rest =>
        if decide (t ≤ deadline)%Z then (Ret d, Z.max now t, rest)
        else (Fail errTimeout, deadline, arrivals)
    | [] => (Fail errTimeout, deadline, [])
    end.

(** [ReadPacketWithTimeout], called on an open socket at the time [now]. *)
Definition read_packet_at (timeout now : Z) (arrivals : list (Z * string))
    : outcome string * Z * list (Z * string) :=
  let '(datagram, t, rest) := ReadFrom (now + timeout) now arrivals in
  (ReadPacketWithTimeout (Ret ()) datagram, t, rest).

(** ** Lemmas *)

Lemma cut_id n s : (String.length s ≤ n)%nat → cut n s = s.
Proof.
  revert s. induction n as [| n IH]; intros [| c s] Hs; simpl in *; try done; [lia |].
  rewrite IH by lia. done.
Qed.

(** A socket is bound to a valid port, which resolves as a target, too. *)
Lemma service_port cfg net b :
  fits_int (UDPPort cfg) → NewBroadcastService cfg net = Ret b →
  closed b = false
  ∧ ∀ host, ResolveUDPAddr host (Itoa (UDPPort cfg)) = Ret (host, bound_port b).
Proof.
  intros Hfit Hb. unfold NewBroadcastService in Hb.
  destruct (lookup_port (Itoa (UDPPort cfg))) as [port | |] eqn:Hport; [| done ..].
  cbn [mbind outcome_bind] in Hb.
  destruct (if EnableDebugMode cfg then _ else _) as [opts | |]; [| done ..].
  cbn [mbind outcome_bind] in Hb. destruct (bind net opts port); [| done ..].
  injection Hb as <-. split; [done |]. intros host. unfold ResolveUDPAddr. by rewrite Hport.
Qed.

(** No socket is bound to a port out of range. *)
Lemma service_port_range cfg net b :
  fits_int (UDPPort cfg) → NewBroadcastService cfg net = Ret b →
  bound_port b = UDPPort cfg ∧ (0 ≤ UDPPort cfg ≤ 65535)%Z.
Proof.
  intros Hfit Hb. unfold NewBroadcastService, lookup_port in Hb.
  rewrite Atoi_Itoa in Hb by done. cbn [mbind outcome_bind] in Hb.
  case_decide as Hrange; [| done]. cbn [mbind outcome_bind] in Hb.
  destruct (if EnableDebugMode cfg then _ else _) as [opts | |]; [| done ..].
  cbn [mbind outcome_bind] in Hb. destruct (bind net opts (UDPPort cfg)); [| done ..].
  by injection Hb as <-.
Qed.

(** The duration of a number of seconds that fits. *)
Lemma duration_id n : fits_int (n * TimeUnit) → duration n = (n * TimeUnit)%Z.
Proof.
  unfold duration, int64, fits_int, int_min, int_max. intros Hn. rewrite Z.mod_small; lia.
Qed.
