(* ===== verification/Discovery.v ===== *)
(** Package [cmd/carisma-orchestrator/app], file [discovery.go]: how a node
    finds the central node.

    A central node starts a goroutine that broadcasts on every tick; closing
    the socket makes its writes fail.  The goroutine and the function that
    started it run concurrently: their interleavings are lists of events.  A
    satellite node reads packets until one is a broadcast message or none has
    arrived for too long; this is modelled twice, on the results of its reads,
    for the program that follows, and in time. *)
From S2P Require Import Prelude GoStrings Config Message Broadcast.

Local Open Scope string_scope.

Section discovery.
Context `{GobPkg}.

(** ** [handleDiscovery] on a central node

    The function starts the goroutine, has nothing else to do, and its deferred
    call closes the socket: [CloseSocket] is that call in the interleaving.
    A tick has the error of its write to the socket while it is open. *)
Inductive central_event :=
| CloseSocket
| ContextEnd
| BroadcastTick (err : option error).

Fixpoint central_writes (b : BroadcastService) (events : list central_event) : list write_event :=
  match events with
  | [] => []
  | CloseSocket :: events => central_writes (Close b).2 events
  | ContextEnd :: events => ContextDone :: central_writes b events
  | BroadcastTick err :: events =>
      let write := match err with Some err => Fail err | None => Ret () end in
      Tick (if closed b then Fail errClosed else write) :: central_writes b events
  end.

Definition discovery_message (cfg : Config) : BroadcastMessage :=
  NewBroadcastMessage (JoinHostPort (NodeHostname cfg) (Itoa (GRPCPort cfg))).

Definition central_discovery (b : BroadcastService) (cfg : Config) (events : list central_event)
    : list string * option (outcome unit) :=
  RepeatedlyWriteMessage (Itoa (UDPPort cfg)) (discovery_message cfg) (duration (UDPDelay cfg))
    (central_writes b events).

(** ** [handleDiscovery] on a satellite node

    [packets] are the results of the successive calls of
    [ReadPacketWithTimeout].  The result is the configuration when the loop
    has ended, [None] while it waits for more packets. *)
Fixpoint discovery_loop (cfg : Config) (packets : list (outcome string))
    : outcome (option Config) :=
  match packets with
  | [] => Ret None
  | packet :: packets =>
      match packet with
      | Fail err => Ret (Some cfg)
      | Panic p => Panic p
      | Ret msg =>
          match IsCARISMAMessage msg with
          | Panic p => Panic p
          | Fail _ | Ret false => discovery_loop cfg packets
          | Ret true =>
              match DecodeBroadcastMessage msg with
              | Panic p => Panic p
              | Fail err => discovery_loop cfg packets
              | Ret decodedMessage =>
                  Ret (Some (set_CentralNodeHostname (Hostname decodedMessage) cfg))
              end
          end
      end
  end.

(** [handleDiscovery], apart from the goroutine of a central node: [listen] is
    the result of [NewBroadcastService]. *)
Definition handleDiscovery (cfg : Config) (listen : outcome unit)
    (packets : list (outcome string)) : outcome (option Config) :=
  match listen with
  | Fail err => Ret (Some cfg)
  | Panic p => Panic p
  | Ret _ =>
      if EnableCentralMode cfg then Ret (Some cfg)
      else if decide (CentralNodeHostname cfg = "") then discovery_loop cfg packets
      else Ret (Some cfg)
  end.

(** The results of the reads when these datagrams arrive in time, and then none. *)
Definition read_packets (datagrams : list string) : list (outcome string) :=
  (map (λ d, ReadPacketWithTimeout (Ret ()) (Ret d)) datagrams ++ [Fail errTimeout])%list.

(** The loop in time: started at [now], with the datagrams that arrive.  Every
    packet read sets a new deadline.  The result comes with the time of the
    return; [None] only if [fuel] reads are not enough. *)
Fixpoint discovery_at (fuel : nat) (cfg : Config) (timeout now : Z) (arrivals : list (Z * string))
    : option (outcome Config * Z) :=
  match fuel with
  | 0 => None
  | S fuel =>
      let '(packet, t, rest) := read_packet_at timeout now arrivals in
      match packet with
      | Fail err => Some (Ret cfg, t)
      | Panic p => Some (Panic p, t)
      | Ret msg =>
          match IsCARISMAMessage msg with
          | Panic p => Some (Panic p, t)
          | Fail _ | Ret false => discovery_at fuel cfg timeout t rest
          | Ret true =>
              match DecodeBroadcastMessage msg with
              | Panic p => Some (Panic p, t)
              | Fail err => discovery_at fuel cfg timeout t rest
              | Ret decodedMessage =>
                  Some (Ret (set_CentralNodeHostname (Hostname decodedMessage) cfg), t)
              end
          end
      end
  end.

Definition handleDiscovery_at (fuel : nat) (cfg : Config) (net : network) (now : Z)
    (arrivals : list (Z * string)) : option (outcome Config * Z) :=
  match NewBroadcastService cfg net with
  | Fail err => Some (Ret cfg, now)
  | Panic p => Some (Panic p, now)
  | Ret _ =>
      if EnableCentralMode cfg then Some (Ret cfg, now)
      else if decide (CentralNodeHostname cfg = "")
      then discovery_at fuel cfg (duration (UDPTimeout cfg)) now arrivals
      else Some (Ret cfg, now)
  end.

(** The target the orchestrator dials afterwards (app.go). *)
Definition control_plane_target (cfg : Config) : string :=
  JoinHostPort (CentralNodeHostname cfg) (Itoa (GRPCPort cfg)).

(** ** Lemmas *)

(** Ticks until the socket is closed or the context ends. *)
Fixpoint open_ticks (events : list central_event) : nat :=
  match events with
  | BroadcastTick _ :: events => S (open_ticks events)
  | _ => 0
  end.

(** The loop of the broadcast, with an address that resolves. *)
Section writing.
Context (port : string) (addr : string * Z) (msg : BroadcastMessage) (data : string).
Context (Hport : ResolveUDPAddr defaultUDPBroadcastAddr port = Ret addr).
Context (Hdata : Bytes msg = Ret data).

Lemma write_tick write events :
  write_loop port msg (Tick write :: events) =
    match write with
    | Fail err => ([], Some (Fail err))
    | Panic p => ([], Some (Panic p))
    | Ret _ => let '(sent, r) := write_loop port msg events in (data :: sent, r)
    end.
Proof. cbn [write_loop]. by rewrite Hport, Hdata. Qed.

Lemma write_ticks b n events :
  closed b = false →
  write_loop port msg (central_writes b (repeat (BroadcastTick None) n ++ events)) =
    ((repeat data n ++ (write_loop port msg (central_writes b events)).1)%list,
     (write_loop port msg (central_writes b events)).2).
Proof.
  intros Hb. induction n as [| n IH]; cbn [repeat app central_writes].
  { by destruct (write_loop port msg _). }
  by rewrite Hb, write_tick, IH.
Qed.

(** Nothing is sent through a closed socket, and no event makes the loop panic. *)
Lemma write_closed b events :
  closed b = true →
  (write_loop port msg (central_writes b events)).1 = []
  ∧ ∀ p, (write_loop port msg (central_writes b events)).2 ≠ Some (Panic p).
Proof.
  intros Hb. induction events as [| [| | err] events IH]; cbn [central_writes].
  - done.
  - unfold Close. by rewrite Hb.
  - done.
  - by rewrite Hb, write_tick.
Qed.

Lemma write_open b events :
  closed b = false →
  (∃ k, (k ≤ open_ticks events)%nat
        ∧ (write_loop port msg (central_writes b events)).1 = repeat data k)
  ∧ ∀ p, (write_loop port msg (central_writes b events)).2 ≠ Some (Panic p).
Proof.
  intros Hb. induction events as [| [| | err] events IH]; cbn [central_writes open_ticks].
  - split; [by exists 0 | done].
  - unfold Close. rewrite Hb. cbn [snd].
    destruct (write_closed {| options := options b; bound_port := bound_port b; closed := true |}
      events) as [-> Hp]; [done |]. split; [by exists 0 | exact Hp].
  - split; [by exists 0 | done].
  - rewrite Hb, write_tick. destruct err as [err |]; [split; [exists 0; split; [lia | done] | done] |].
    destruct IH as [(k & Hk & E) Hp]. destruct (write_loop port msg _) as [sent r].
    split; [| exact Hp]. exists (S k). split; [lia |]. cbn in *. by rewrite E.
Qed.
End writing.

(** The ticker accepts the delay exactly if the number of nanoseconds is
    positive after wrapping. *)
Lemma duration_positive n : (0 < n ≤ 9223372036)%Z → duration n = (n * TimeUnit)%Z.
Proof.
  intros Hn. apply duration_id. unfold fits_int, int_min, int_max, TimeUnit. lia.
Qed.

Lemma duration_not_positive n :
  (-9223372036 ≤ n ≤ 0 ∨ 9223372037 ≤ n ≤ 18446744073)%Z → (duration n ≤ 0)%Z.
Proof.
  intros [Hn | Hn].
  - rewrite duration_id by (unfold fits_int, int_min, int_max, TimeUnit; lia).
    unfold TimeUnit. lia.
  - unfold duration, int64, TimeUnit.
    replace (n * 1000000000 + 2 ^ 63)%Z with (n * 1000000000 + 2 ^ 63 - 2 ^ 64 + 1 * 2 ^ 64)%Z by lia.
    rewrite Z.mod_add, Z.mod_small; lia.
Qed.

(** Packets the loop passes over. *)
Definition foreign (packet : outcome string) : Prop :=
  ∃ msg, packet = Ret msg
    ∧ (HasPrefix msg magicString = false
       ∨ HasPrefix msg magicString = true ∧ ∃ err, DecodeBroadcastMessage msg = Fail err).

Lemma discovery_loop_foreign cfg packets rest :
  Forall foreign packets → discovery_loop cfg (packets ++ rest) = discovery_loop cfg rest.
Proof.
  induction 1 as [| packet packets (msg & -> & Hmsg) _ IH]; cbn [app discovery_loop]; [done |].
  rewrite IsCARISMAMessage_eq. destruct Hmsg as [-> | [-> [err ->]]]; done.
Qed.

Lemma host_port_has_colon host port : has_byte ":" (JoinHostPort host port) = true.
Proof.
  unfold JoinHostPort. destruct (has_byte ":" host) eqn:E; rewrite !has_byte_app.
  - by rewrite E, orb_true_r.
  - by rewrite orb_true_r.
Qed.

(** The first broadcast message is taken. *)
Lemma discovery_loop_message cfg central d rest :
  Bytes (discovery_message central) = Ret d → (String.length d ≤ packet_size)%nat →
  discovery_loop cfg (ReadPacketWithTimeout (Ret ()) (Ret d) :: rest) =
    Ret (Some (set_CentralNodeHostname (Hostname (discovery_message central)) cfg)).
Proof.
  intros Hd Hlen. unfold ReadPacketWithTimeout. cbn [mbind outcome_bind discovery_loop].
  rewrite cut_id, IsCARISMAMessage_eq by done.
  destruct (Bytes_Ret (discovery_message central)) as (enc & Henc & Hb).
  assert (d = magicString +:+ String (byte_char Broadcast) enc) as -> by congruence.
  assert (HasPrefix (magicString +:+ String (byte_char Broadcast) enc) magicString = true) as ->
    by (apply HasPrefix_spec; by eexists).
  by rewrite Decode_header, (gob_Decode_Encode (discovery_message central) enc Henc).
Qed.

Lemma bracketed_target cfg central :
  control_plane_target
      (set_CentralNodeHostname (Hostname (discovery_message central)) cfg) =
    "[" +:+ JoinHostPort (NodeHostname central) (Itoa (GRPCPort central)) +:+ "]:"
      +:+ Itoa (GRPCPort cfg).
Proof.
  unfold control_plane_target, JoinHostPort at 1. simpl.
  by rewrite host_port_has_colon.
Qed.

Lemma bracketed_target_differs cfg central :
  control_plane_target (set_CentralNodeHostname (Hostname (discovery_message central)) cfg) ≠
    JoinHostPort (NodeHostname central) (Itoa (GRPCPort central)).
Proof.
  rewrite bracketed_target. intros E. apply (f_equal String.length) in E.
  rewrite !str_length_app in E. cbn in E. lia.
Qed.

(** ** Discovery in time

    The datagrams that arrive before the first silence that is too long, and
    the time at which the last of them has been read. *)
Fixpoint in_time (timeout now : Z) (arrivals : list (Z * string)) : list string :=
  match arrivals with
  | (t, d) :: rest =>
      if decide (0 < timeout ∧ t ≤ now + timeout)%Z
      then d :: in_time timeout (Z.max now t) rest else []
  | [] => []
  end.

Fixpoint last_read (timeout now : Z) (arrivals : list (Z * string)) : Z :=
  match arrivals with
  | (t, d) :: rest =>
      if decide (0 < timeout ∧ t ≤ now + timeout)%Z
      then last_read timeout (Z.max now t) rest else now
  | [] => now
  end.

Lemma last_read_later timeout now arrivals : (now ≤ last_read timeout now arrivals)%Z.
Proof.
  revert now. induction arrivals as [| [t d] rest IH]; intros now; cbn [last_read]; [lia |].
  case_decide; [| lia]. specialize (IH (Z.max now t)). lia.
Qed.

(** A packet that is read is the next one in time; a read that fails ends the
    time. *)
Lemma read_packet_at_cases timeout now arrivals :
  (∃ t d rest, arrivals = (t, d) :: rest ∧ (0 < timeout ∧ t ≤ now + timeout)%Z
     ∧ read_packet_at timeout now arrivals =
         (ReadPacketWithTimeout (Ret ()) (Ret d), Z.max now t, rest))
  ∨ in_time timeout now arrivals = [] ∧ last_read timeout now arrivals = now
    ∧ ∃ t rest, read_packet_at timeout now arrivals = (Fail errTimeout, t, rest)
        ∧ (now ≤ t ≤ now + Z.max 0 timeout)%Z.
Proof.
  unfold read_packet_at, ReadFrom. case_decide as Hd.
  - right. split_and!; [| | eexists _, _; split; [done | lia]];
      destruct arrivals as [| [t d] rest]; cbn; try done; by rewrite decide_False by lia.
  - destruct arrivals as [| [t d] rest].
    { right. split_and!; [done | done |]. eexists _, _. split; [done | lia]. }
    case_decide as Ht.
    + left. exists t, d, rest. split_and!; [done | lia | lia | done].
    + right. cbn. rewrite !decide_False by lia. split_and!; [done | done |].
      eexists _, _. split; [done | lia].
Qed.

(** The loop in time ends, with the result of the loop on the packets that
    arrive in time, at most one timeout after the last of them was read. *)
Lemma discovery_at_ends fuel cfg timeout now arrivals :
  (length arrivals < fuel)%nat →
  ∃ r t, discovery_at fuel cfg timeout now arrivals = Some (r, t)
    ∧ discovery_loop cfg (read_packets (in_time timeout now arrivals)) = Some <$> r
    ∧ (now ≤ t ≤ last_read timeout now arrivals + Z.max 0 timeout)%Z.
Proof.
  revert now arrivals. induction fuel as [| fuel IH]; intros now arrivals Hlen; [lia |].
  cbn [discovery_at].
  destruct (read_packet_at_cases timeout now arrivals)
    as [(t & d & rest & -> & Ht & ->) | (-> & -> & t & rest & -> & Ht)].
  2: { eexists _, _. split_and!; [done | done | lia | lia]. }
  cbn [in_time last_read]. rewrite !decide_True by done.
  destruct (IH (Z.max now t) rest) as (r & t' & E & Hr & Ht'); [simpl in Hlen; lia |].
  assert (Hnow := last_read_later timeout (Z.max now t) rest).
  unfold read_packets in *. cbn [map app discovery_loop].
  destruct (ReadPacketWithTimeout (Ret ()) (Ret d)) as [msg | err | p];
    [| by eexists _, _; split_and!; [done | done | lia | lia] ..].
  destruct (IsCARISMAMessage msg) as [[] | err | p];
    [| by exists r, t'; split_and!; [done | done | lia | lia]
     | by exists r, t'; split_and!; [done | done | lia | lia]
     | by eexists _, _; split_and!; [done | done | lia | lia]].
  destruct (DecodeBroadcastMessage msg) as [g | err | p];
    [by eexists _, _; split_and!; [done | done | lia | lia]
    | by exists r, t'; split_and!; [done | done | lia | lia]
    | by eexists _, _; split_and!; [done | done | lia | lia]].
Qed.

(** One foreign packet per timeout. *)
Fixpoint pings (timeout now : Z) (n : nat) : list (Z * string) :=
  match n with
  | 0 => []
  | S n => ((now + timeout)%Z, "ping") :: pings timeout (now + timeout) n
  end.

Lemma pings_length timeout now n : length (pings timeout now n) = n.
Proof. revert now. induction n as [| n IH]; intros now; simpl; by rewrite ?IH. Qed.

Lemma discovery_at_pings cfg timeout n now fuel :
  (0 < timeout)%Z → n < fuel →
  discovery_at fuel cfg timeout now (pings timeout now n) =
    Some (Ret cfg, now + Z.of_nat (S n) * timeout)%Z.
Proof.
  intros Ht. revert now fuel. induction n as [| n IH]; intros now [| fuel] Hf; try lia;
    cbn [discovery_at pings]; unfold read_packet_at, ReadFrom; rewrite decide_False by lia.
  - cbn. f_equal. f_equal. lia.
  - rewrite decide_True, Z.max_r by lia. cbn -[discovery_at Z.of_nat Z.mul]. rewrite IH by lia. f_equal. f_equal. lia.
Qed.

(** ** Properties *)

(** C34. What a central node broadcasts.  A socket that was opened is bound to a
    port that resolves, so that the goroutine only panics for the interval of
    its ticker: it does for no delay from 1 to 9223372036 seconds, and for
    every delay that is zero or negative or whose number of nanoseconds wraps.
    Otherwise it sends the message of the node, once for each of the ticks
    before the function that started it closes the socket, or less if a write
    fails; the next tick ends it with the error of a closed socket. *)
Theorem central_broadcast cfg net b :
  fits_int (UDPPort cfg) → NewBroadcastService cfg net = Ret b →
  ∃ data,
    Bytes (discovery_message cfg) = Ret data
    ∧ ((-9223372036 ≤ UDPDelay cfg ≤ 0 ∨ 9223372037 ≤ UDPDelay cfg ≤ 18446744073)%Z →
        ∀ events, ∃ p, central_discovery b cfg events = ([], Some (Panic p)))
    ∧ ((0 < UDPDelay cfg ≤ 9223372036)%Z →
        (∀ events,
           (∃ k, (k ≤ open_ticks events)%nat ∧ (central_discovery b cfg events).1 = repeat data k)
           ∧ ∀ p, (central_discovery b cfg events).2 ≠ Some (Panic p))
        ∧ ∀ n err later,
            central_discovery b cfg
                (repeat (BroadcastTick None) n ++ CloseSocket :: BroadcastTick err :: later)
            = (repeat data n, Some (Fail errClosed))).
Proof.
  intros Hfit Hb. destruct (service_port cfg net b Hfit Hb) as [Hopen Haddr].
  destruct (Bytes_Ret (discovery_message cfg)) as (enc & _ & Hd).
  eexists. split; [exact Hd |]. unfold central_discovery, RepeatedlyWriteMessage. split.
  { intros Hdelay%duration_not_positive events. unfold NewTicker. rewrite decide_False by lia.
    by eexists. }
  intros Hdelay. rewrite duration_positive by done. unfold NewTicker.
  rewrite decide_True by (unfold TimeUnit; lia). split.
  { intros events. by apply (write_open _ _ _ _ (Haddr _) Hd). }
  intros n err later. rewrite (write_ticks _ _ _ _ (Haddr _) Hd) by done.
  cbn [central_writes]. unfold Close. rewrite Hopen. cbn [snd closed].
  rewrite (write_tick _ _ _ _ (Haddr _) Hd). cbn [fst snd]. by rewrite app_nil_r.
Qed.

(** C35. Discovery in time.  Started with finitely many datagrams to come it
    returns: with the result of the loop on the packets that arrive before the
    first silence longer than the timeout, and at most one timeout after the
    last of them; a timeout that is not positive - zero, negative or wrapped -
    ends it at once without reading anything.  The timeout does not bound the
    discovery itself: every packet, whatever it is, starts it anew, so that
    foreign packets keep a satellite node in it beyond any time. *)
Theorem discovery_waits_for_silence cfg net now :
  let timeout := duration (UDPTimeout cfg) in
  (∀ fuel arrivals,
     (length arrivals < fuel)%nat →
     ∃ r t, handleDiscovery_at fuel cfg net now arrivals = Some (r, t)
       ∧ handleDiscovery cfg (const () <$> NewBroadcastService cfg net)
           (read_packets (in_time timeout now arrivals)) = Some <$> r
       ∧ (now ≤ t ≤ last_read timeout now arrivals + Z.max 0 timeout)%Z
       ∧ ((timeout ≤ 0)%Z → t = now ∧ in_time timeout now arrivals = []))
  ∧ ∀ b later,
      NewBroadcastService cfg net = Ret b → EnableCentralMode cfg = false →
      CentralNodeHostname cfg = "" → (0 < UDPTimeout cfg ≤ 9223372036)%Z → (now ≤ later)%Z →
      ∃ arrivals t, Forall (λ a, foreign (Ret a.2)) arrivals
        ∧ handleDiscovery_at (S (length arrivals)) cfg net now arrivals = Some (Ret cfg, t)
        ∧ (later < t)%Z.
Proof.
  intros timeout. split.
  - intros fuel arrivals Hlen. unfold handleDiscovery_at, handleDiscovery.
    assert (Hlast := last_read_later timeout now arrivals).
    assert (Hneg : (timeout ≤ 0)%Z → in_time timeout now arrivals = []
                    ∧ last_read timeout now arrivals = now).
    { intros Ht. destruct arrivals as [| [a d] rest]; [done |].
      cbn. by rewrite !decide_False by lia. }
    destruct (discovery_at_ends fuel cfg timeout now arrivals Hlen) as (r & t & E & Hr & Ht).
    destruct (NewBroadcastService cfg net) as [b | err | p];
      [| by eexists _, _; split_and!; [done | done | lia | lia | naive_solver] ..].
    cbn [fmap outcome_fmap].
    destruct (EnableCentralMode cfg); [by eexists _, _; split_and!; [done | done | lia | lia | naive_solver] |].
    case_decide; [| by eexists _, _; split_and!; [done | done | lia | lia | naive_solver]].
    exists r, t. split_and!; [done | done | lia | lia |].
    intros Hn. destruct (Hneg Hn) as [Hin Hl]. split; [lia | done].
  - intros b later Hb Hcm He Ht Hl.
    assert (Hpos : (0 < timeout)%Z) by (unfold timeout; rewrite duration_positive by done; unfold TimeUnit; lia).
    set (n := Z.to_nat (later - now)). exists (pings timeout now n), (now + Z.of_nat (S n) * timeout)%Z.
    split_and!; [| | nia].
    + clearbody n. clear Hl. revert now. induction n as [| n IH]; intros now; constructor; [| apply IH].
      exists "ping". split; [done | by left].
    + unfold handleDiscovery_at. rewrite Hb, Hcm, decide_True, pings_length by done.
      by rewrite discovery_at_pings by (done || lia).
Qed.

(** Discovery on a satellite node whose central node is not configured: it
    passes over every packet that is not a broadcast message, stops without a
    change when a read fails or times out, and otherwise takes over the
    contents of the first broadcast message; whenever the central node is
    configured - as it is by default - no packet is read. *)
Theorem discovery_takes_first_message cfg packets central d :
  EnableCentralMode cfg = false →
  Forall foreign packets →
  Bytes (discovery_message central) = Ret d → (String.length d ≤ packet_size)%nat →
  (CentralNodeHostname cfg ≠ "" → ∀ ps, handleDiscovery cfg (Ret ()) ps = Ret (Some cfg))
  ∧ (CentralNodeHostname cfg = "" →
      (∀ err rest,
         handleDiscovery cfg (Ret ()) (packets ++ Fail err :: rest) = Ret (Some cfg))
      ∧ ∀ rest,
         handleDiscovery cfg (Ret ())
           (packets ++ ReadPacketWithTimeout (Ret ()) (Ret d) :: rest) =
         Ret (Some (set_CentralNodeHostname (Hostname (discovery_message central)) cfg))).
Proof.
  intros Hm Hf Hd Hlen. unfold handleDiscovery. rewrite Hm. split.
  { intros Hne ps. by rewrite decide_False. }
  intros He. split; intros; rewrite decide_True, discovery_loop_foreign by done.
  { done. }
  by apply discovery_loop_message.
Qed.

(** What a satellite node dials after it has discovered a central node is not
    the address of that node: the broadcast contents already hold the port,
    and joining them with the port once more brackets them like an IPv6
    address. *)
Theorem discovered_target_is_bracketed cfg central :
  control_plane_target
      (set_CentralNodeHostname (Hostname (discovery_message central)) cfg) =
    "[" +:+ JoinHostPort (NodeHostname central) (Itoa (GRPCPort central)) +:+ "]:"
      +:+ Itoa (GRPCPort cfg).
Proof. apply bracketed_target. Qed.
End discovery.

(** A network on which everything succeeds. *)
Definition open_network : network :=
  {| RawConn_Control := Ret (); SetsockoptInt := λ _, Ret (); bind := λ _ _, Ret () |}.

Lemma central_broadcast_witness :
  let cfg := Default (Ret "hpc-1") in
  let b := {| options := []; bound_port := 8829; closed := false |} in
  NewBroadcastService cfg open_network = Ret b
  ∧ ∃ data,
    @Bytes sample_gob (discovery_message cfg) = Ret data
    ∧ ((-9223372036 ≤ UDPDelay cfg ≤ 0 ∨ 9223372037 ≤ UDPDelay cfg ≤ 18446744073)%Z →
        ∀ events, ∃ p, @central_discovery sample_gob b cfg events = ([], Some (Panic p)))
    ∧ ((0 < UDPDelay cfg ≤ 9223372036)%Z →
        (∀ events,
           (∃ k, (k ≤ open_ticks events)%nat
                 ∧ (@central_discovery sample_gob b cfg events).1 = repeat data k)
           ∧ ∀ p, (@central_discovery sample_gob b cfg events).2 ≠ Some (Panic p))
        ∧ ∀ n err later,
            @central_discovery sample_gob b cfg
                (repeat (BroadcastTick None) n ++ CloseSocket :: BroadcastTick err :: later)
            = (repeat data n, Some (Fail errClosed))).
Proof.
  intros cfg b. split; [vm_compute; reflexivity |].
  apply (@central_broadcast sample_gob cfg open_network); [by vm_compute | vm_compute; reflexivity].
Defined.

Lemma discovery_takes_first_message_witness :
  let cfg := set_CentralNodeHostname "" (Default (Ret "hpc-2")) in
  let central := Default (Ret "hpc-1") in
  let d := "$CARISMA$" +:+ String (byte_char Broadcast) "shpc-1:8016" in
  (CentralNodeHostname cfg ≠ "" →
     ∀ ps, @handleDiscovery sample_gob cfg (Ret ()) ps = Ret (Some cfg))
  ∧ (CentralNodeHostname cfg = "" →
      (∀ err rest,
         @handleDiscovery sample_gob cfg (Ret ()) ([Ret "ping"] ++ Fail err :: rest)
           = Ret (Some cfg))
      ∧ ∀ rest,
         @handleDiscovery sample_gob cfg (Ret ())
           ([Ret "ping"] ++ ReadPacketWithTimeout (Ret ()) (Ret d) :: rest) =
         Ret (Some (set_CentralNodeHostname (Hostname (discovery_message central)) cfg))).
Proof.
  apply (@discovery_takes_first_message sample_gob); [done | | by vm_compute | vm_compute; lia].
  repeat constructor. exists "ping". split; [done | by left].
Defined.

(** A satellite node that is kept waiting for more than a day. *)
Lemma discovery_waits_for_silence_witness :
  let cfg := set_CentralNodeHostname "" (Default (Ret "hpc-2")) in
  ∃ arrivals t,
    @handleDiscovery_at sample_gob (S (length arrivals)) cfg open_network 0 arrivals
      = Some (Ret cfg, t)
    ∧ (86400 * TimeUnit < t)%Z.
Proof.
  intros cfg.
  destruct (proj2 (@discovery_waits_for_silence sample_gob cfg open_network 0)
    {| options := []; bound_port := 8829; closed := false |} (86400 * TimeUnit)%Z)
    as (arrivals & t & _ & E & Ht);
    [vm_compute; reflexivity | done | done | cbn; lia | by vm_compute |].
  exists arrivals, t. split; [exact E | exact Ht].
Defined.
