(* ===== verification/OrchestratorApp.v ===== *)
(** Package [cmd/carisma-orchestrator/app], files [app.go] and [envoy.go]: the
    program around [process].

    [Run] is the main goroutine, from the configuration and the manager on: it
    cleans up, discovers the central node, registers the node there, runs Envoy
    and processes the messages of the control plane until the stream ends; its
    deferred calls run when it returns or panics.  A panic of another goroutine
    ends the program without them; here it can come whenever the main goroutine
    waits for the network, and [NodeProgram] has it at any point.  The other
    goroutines are given by what one round of them does: [report_state] is a
    tick, and [merge_message] a message received by the goroutine of a central
    node.  Log messages are left out. *)
From S2P Require Import Prelude GoStrings Json JsonParse Deployment DeploymentJson Config Envoy Message Broadcast Discovery Container NodeRegistry Orchestrator.

Local Open Scope string_scope.

(** ** envoy.go *)
Section envoy.
Context `{AnyPkg} `{GobPkg} `{ReferencePkg} {S : Type} `{Manager S}.
Context (protojson_Format : Bootstrap → string).

(** [portMap[nat.Port(strconv.Itoa(p))] = {{HostPort: strconv.Itoa(p)}}] *)
Definition bind_port (p : Z) (m : PortMap) : PortMap :=
  <[Itoa p := [{| HostIP := ""; HostPort := Itoa p |}]]> m.

Definition envoy_ports (cfg : Config) : PortMap :=
  bind_port (AdminPort cfg) (bind_port (EgressPort cfg) (bind_port (IngressPort cfg) ∅)).

(** A failing step before the manager is called. *)
Definition with_image {A} (cfg : Config) (s : S) (k : string → outcome A * S) : outcome A * S :=
  match ParseFQIN envoyContainerImageName (DefaultContainerRegistryDomain cfg) with
  | Ret imgName => k imgName
  | Fail err => (Fail err, s)
  | Panic p => (Panic p, s)
  end.

Definition runEnvoy (cfg : Config) (nodeID : string) (s : S) : outcome unit * S :=
  match EnvoyBootstrapConfigWithNodeID protojson_Format cfg nodeID with
  | Ret envoyBootstrapCfg =>
      with_image cfg s (λ imgName,
        match PullImageAndCreateContainer imgName ["--config-yaml"; envoyBootstrapCfg]
                (envoy_ports cfg) false s with
        | (Ret _, s) => (Ret (), s)
        | (Fail err, s) => (Fail err, s)
        | (Panic p, s) => (Panic p, s)
        end)
  | Fail err => (Fail err, s)
  | Panic p => (Panic p, s)
  end.

Definition stopEnvoy (cfg : Config) (s : S) : outcome unit * S :=
  with_image cfg s (λ imgName,
    match RemoveImageAndContainer imgName false s with
    | (Ret _, s) => (Ret (), s)
    | (Fail err, s) => (Fail err, s)
    | (Panic p, s) => (Panic p, s)
    end).

(** ** The receive loop of the main goroutine

    Every message is processed, whatever its state type says. *)
Definition main_message (cfg : Config) (msgDplmCfg : DeploymentConfiguration) (s : S)
    : outcome unit * S * list announcement :=
  match DeploymentConfigFromJSON (Json msgDplmCfg) with
  | (_, Some err) => (Ret (), s, [])
  | (dplmCfg, None) =>
      match process cfg (default ∅ dplmCfg) s with
      | (Panic p, s, out) => (Panic p, s, out)
      | (_, s, out) => (Ret (), s, out)
      end
  end.

Fixpoint main_loop (cfg : Config) (recvs : list (recv DeploymentConfiguration)) (s : S)
    : outcome unit * S * list announcement :=
  match recvs with
  | [] | RecvErr _ :: _ => (Ret (), s, [])
  | RecvMsg msgDplmCfg :: recvs =>
      match main_message cfg msgDplmCfg s with
      | (Ret _, s, out) =>
          let '(r, s, out') := main_loop cfg recvs s in (r, s, (out ++ out')%list)
      | (r, s, out) => (r, s, out)
      end
  end.

(** ** [Run]

    What the network, the control plane and the file system answer.
    [listening] is the result of [NewBroadcastService], and [packets] are
    the datagrams that arrive before a read fails or times out; [dialed] is the
    result of [grpc.NewClient] for a target, [registered] that of [Register] at
    it: as the call waits for a connection ([WaitForReady]), there is none
    when no connection comes about, unless a signal ends the context
    ([interrupted]).  [service_channel] and [node_channel] are the results of
    the two [OpenChannel] calls - the error of the second is not looked at, and
    its stream is then nil - and [watched] that of [NewFileWatcher].
    [panicked] is the panic of another goroutine, if one panics, and the moment
    at which it does. *)
Inductive moment :=
| Registering                (* in [Register] *)
| Receiving (n : nat).       (* in [stream.Recv()], after [n] messages *)

Record peers := {
  listening : outcome unit;
  packets : list string;
  dialed : string → outcome unit;
  registered : string → RegisterRequest → option (outcome string);
  interrupted : bool;
  service_channel : outcome unit;
  node_channel : outcome unit;
  watched : outcome unit;
  received : list (recv DeploymentConfiguration);
  panicked : option (moment * panic);
}.

(** How a run ends: the function ends, after its deferred calls; another
    goroutine panics; or it waits for a connection for ever. *)
Inductive exit :=
| RunReturned (r : outcome unit)
| RunKilled (p : panic)
| RunBlocked.

(** [if cfg.EnableDiscovery { handleDiscovery(ctx, cfg) }] *)
Definition discovered (cfg : Config) (p : peers) : outcome Config :=
  if EnableDiscovery cfg then
    c ← handleDiscovery cfg (listening p) (read_packets (packets p));
    Ret (default cfg c)
  else Ret cfg.

(** The connection to the control plane and the registration. *)
Definition node_request (cfg : Config) : RegisterRequest :=
  {| Address := NodeHostname cfg; RequestPort := int32 (IngressPort cfg) |}.

Definition register_at (target : string) (request : RegisterRequest) (p : peers)
    : option (outcome string) :=
  match dialed p target with
  | Ret _ =>
      match registered p target request with
      | Some r => Some r
      | None => if interrupted p then Some (Fail (StatusError Canceled "context canceled")) else None
      end
  | Fail err => Some (Fail err)
  | Panic e => Some (Panic e)
  end.

Definition register_node (cfg : Config) (p : peers) : option (outcome string) :=
  register_at (control_plane_target cfg) (node_request cfg) p.

(** Another goroutine panics while the main goroutine is in [Register]. *)
Definition killed_registering (cfg : Config) (p : peers) : option panic :=
  match dialed p (control_plane_target cfg), panicked p with
  | Ret _, Some (Registering, e) => Some e
  | _, _ => None
  end.

(** A deferred call with the result [e] while the function ends with [r]: its
    error is logged, its panic replaces an earlier one. *)
Definition after_deferred (e r : outcome unit) : outcome unit :=
  match e with Panic p => Panic p | _ => r end.

(** [defer logging.LogErr(containerManager.Close())] *)
Definition close_manager (r : outcome unit * S * list announcement)
    : outcome unit * S * list announcement :=
  let '(r, s, out) := r in let '(e, s) := Close s in (after_deferred e r, s, out).

(** [defer stopEnvoy(...)]: runs on every way out, a panic included. *)
Definition defer_stopEnvoy (cfg : Config) (r : outcome unit * S * list announcement)
    : outcome unit * S * list announcement :=
  let '(r, s, out) := r in let '(e, s) := stopEnvoy cfg s in (after_deferred e r, s, out).

(** From the service channel on, with Envoy running. *)
Definition serve (cfg : Config) (p : peers) (s : S) : outcome unit * S * list announcement :=
  match service_channel p with
  | Ret _ =>
      if EnableCentralMode cfg && is_fail (watched p) then (Ret (), s, [])
      else match node_channel p with
           | Ret _ => main_loop cfg (received p) s
           | _ => (Panic NilDereference, s, [])
           end
  | _ => (Ret (), s, [])
  end.

(** The main goroutine waits for its next message after [n] ones. *)
Definition in_loop (n : nat) (p : peers) : bool :=
  (n <=? length (received p))%nat
  && forallb (λ r, match r with RecvMsg _ => true | RecvErr _ => false end) (take n (received p)).

(** Another goroutine panics while the main goroutine is in [stream.Recv()]. *)
Definition killed_serving (cfg : Config) (p : peers) (s : S)
    : option (panic * S * list announcement) :=
  match service_channel p, panicked p with
  | Ret _, Some (Receiving n, e) =>
      if EnableCentralMode cfg && is_fail (watched p) then None
      else if negb (in_loop n p) then None
      else match main_loop cfg (take n (received p)) s with
           | (Ret _, s, out) => Some (e, s, out)
           | _ => None
           end
  | _, _ => None
  end.

Definition returns (r : outcome unit * S * list announcement) : exit * S * list announcement :=
  let '(r, s, out) := close_manager r in (RunReturned r, s, out).

Definition Run (cfg : Config) (p : peers) (s : S) : exit * S * list announcement :=
  let '(r, s) := stopEnvoy cfg s in
  match r with
  | Panic e => returns (Panic e, s, [])
  | _ =>
      match discovered cfg p with
      | Panic e => returns (Panic e, s, [])
      | Fail _ => returns (Ret (), s, [])
      | Ret cfg =>
          match killed_registering cfg p, register_node cfg p with
          | Some e, _ => (RunKilled e, s, [])
          | None, None => (RunBlocked, s, [])
          | None, Some (Panic e) => returns (Panic e, s, [])
          | None, Some (Fail _) => returns (Ret (), s, [])
          | None, Some (Ret id) =>
              match runEnvoy cfg id s with
              | (Panic e, s) => returns (Panic e, s, [])
              | (Fail _, s) => returns (Ret (), s, [])
              | (Ret _, s) =>
                  match killed_serving cfg p s with
                  | Some (e, s, out) => (RunKilled e, s, out)
                  | None => returns (defer_stopEnvoy cfg (serve cfg p s))
                  end
              end
          end
      end
  end.

(** ** The report of a tick

    The message sent, if any: an error of the manager ends the goroutine. *)
Definition report_state (cfg : Config) (s : S)
    : outcome (option DeploymentConfiguration) * S :=
  match Containers s with
  | (Fail err, s) => (Ret None, s)
  | (Panic p, s) => (Panic p, s)
  | (Ret currContainers, s) =>
      (currContainers ← filter_containers currContainers;
       currDeploymentConfig ← ExtractImageList currContainers;
       let images := map image_identifier currDeploymentConfig in
       let dplmCfg : DeploymentConfig :=
         {[ NodeHostname cfg := {| State := NodeStateRunning; Images := Some images |} ]} in
       match JSON (Some dplmCfg) with
       | Ret j => Ret (Some {| Json := j; StateType := STATE_TYPE_ACTUAL |})
       | Fail _ => Ret None
       | Panic p => Panic p
       end, s)
  end.

(** ** The handler of the desired state (central mode)

    [HandleDiff] is called with the old and the new contents of the file. *)
Definition handle_desired (cfg : Config) (a b : string) (s : S)
    : outcome unit * S * list announcement * list DeploymentConfiguration :=
  if a =? b then (Ret (), s, [], [])
  else match DeploymentConfigFromJSON b with
       | (_, Some err) => (Ret (), s, [], [])
       | (dplmCfg, None) =>
           let sent := [{| Json := b; StateType := STATE_TYPE_DESIRED |}] in
           match process cfg (default ∅ dplmCfg) s with
           | (Panic p, s, out) => (Panic p, s, out, sent)
           | (_, s, out) => (Ret (), s, out, sent)
           end
       end.
End envoy.

(** ** The goroutine that collects the actual state (central mode) *)

(** The update of the collected states, and the number of forced diffs. *)
Definition collect_node (size : nat) (acc : DeploymentConfig * nat) (e : string * NodeConfig)
    : DeploymentConfig * nat :=
  let '(globalActual, diffs) := acc in
  let '(hostname, node) := e in
  if decide (State node = NodeStateStarting) then
    (globalActual, if decide (size = 1) then S diffs else diffs)
  else if decide (State node = NodeStateRunning ∨ State node = NodeStateStopped) then
    (<[hostname := node]> globalActual, diffs)
  else (globalActual, diffs).

(** The state written for a node whose file entry is [prev]. *)
Definition keep_state (prev node : NodeConfig) : NodeConfig :=
  let node :=
    if decide (State prev = NodeStateStopping ∧ State node = NodeStateRunning)
    then {| State := NodeStateStopping; Images := Images node |} else node in
  if decide (State prev = NodeStateStarting ∧ State node = NodeStateStopped)
  then {| State := NodeStateStarting; Images := Images node |} else node.

(** An assignment to a nil map panics. *)
Definition merge_node (prevGlobalActual : option DeploymentConfig) (e : string * NodeConfig)
    : outcome (option DeploymentConfig) :=
  let '(hostname, node) := e in
  let node := keep_state (node_of (default ∅ prevGlobalActual) hostname) node in
  match prevGlobalActual with
  | Some prev => Ret (Some (<[hostname := node]> prev))
  | None => Panic NilMapAssignment
  end.

(** What the file holds before the update: a file that cannot be read counts
    as an empty map, one that cannot be parsed as what the parser returns. *)
Definition previous_state (j : outcome string) : option DeploymentConfig :=
  match j with
  | Ret j => (DeploymentConfigFromJSON j).1
  | _ => Some ∅
  end.

(** One message: [order] gives the order in which the maps are visited, [j] is
    the result of reading the file.  The result is the collected states, the
    number of forced diffs and the text that is written, if any. *)
Definition merge_message (order : DeploymentConfig → list (string * NodeConfig))
    (msg : DeploymentConfiguration) (j : outcome string) (globalActual : DeploymentConfig)
    : outcome (DeploymentConfig * nat * option string) :=
  if decide (StateType msg ≠ STATE_TYPE_ACTUAL) then Ret (globalActual, 0, None)
  else match DeploymentConfigFromJSON (Json msg) with
  | (_, Some err) => Ret (globalActual, 0, None)
  | (dplmCfg, None) =>
      let dplmCfg := default ∅ dplmCfg in
      let '(globalActual, diffs) :=
        foldl (collect_node (size dplmCfg)) (globalActual, 0) (order dplmCfg) in
      prev ← foldM merge_node (previous_state j) (order globalActual);
      match JSON prev with
      | Ret text => Ret (globalActual, diffs, Some text)
      | Fail _ => Ret (globalActual, diffs, None)
      | Panic p => Panic p
      end
  end.

(** ** Specifications *)

(** The states a message contributes. *)
Definition reported (node : NodeConfig) : bool :=
  bool_decide (State node = NodeStateRunning ∨ State node = NodeStateStopped).

(** The collected states after a message: the latest report of every node. *)
Definition collected (d globalActual : DeploymentConfig) : DeploymentConfig :=
  filter (λ e, reported e.2) d ∪ globalActual.

(** The contents of the file after a message: collected nodes in their kept
    state, the other entries as they were. *)
Definition merged (prev globalActual : DeploymentConfig) : DeploymentConfig :=
  map_imap (λ hostname node, Some (keep_state (node_of prev hostname) node)) globalActual ∪ prev.

(** The forced diffs a message asks for: one if its only node is starting. *)
Definition starting (d : DeploymentConfig) : DeploymentConfig :=
  filter (λ e, State e.2 = NodeStateStarting) d.
Definition forced (d : DeploymentConfig) : nat :=
  if decide (size d = 1 ∧ starting d ≠ ∅) then 1 else 0.

(** ** Lemmas *)

Lemma collected_lookup d g h :
  collected d g !! h =
    match d !! h with
    | Some n => if reported n then Some n else g !! h
    | None => g !! h
    end.
Proof.
  unfold collected. destruct (d !! h) as [n |] eqn:Hd; [destruct (reported n) eqn:E |].
  - apply lookup_union_Some_l, map_lookup_filter_Some. split; [done |]. simpl. by rewrite E.
  - apply lookup_union_r, map_lookup_filter_None. right.
    intros m Hm. assert (m = n) as -> by congruence. simpl. rewrite E. by intros [].
  - apply lookup_union_r, map_lookup_filter_None. by left.
Qed.

Lemma merged_lookup p g h :
  merged p g !! h =
    match g !! h with
    | Some n => Some (keep_state (node_of p h) n)
    | None => p !! h
    end.
Proof.
  unfold merged. rewrite lookup_union, map_lookup_imap.
  destruct (g !! h); simpl; by destruct (p !! h).
Qed.

Lemma collect_step size g n h node :
  collect_node size (g, n) (h, node) =
    (if reported node then <[h := node]> g else g,
     n + if decide (size = 1 ∧ State node = NodeStateStarting) then 1 else 0).
Proof.
  unfold collect_node, reported.
  destruct (decide (State node = NodeStateStarting)) as [E | E].
  - rewrite E, bool_decide_false by (by intros [|]). f_equal.
    destruct (decide (size = 1)); [rewrite decide_True by done | rewrite decide_False by tauto]; lia.
  - rewrite (decide_False (P := _ ∧ _)) by tauto. rewrite Nat.add_0_r.
    case_decide; [by rewrite bool_decide_true | by rewrite bool_decide_false].
Qed.

Lemma collect_fold_lookup size (entries : list (string * NodeConfig)) g n h :
  NoDup entries.*1 →
  (foldl (collect_node size) (g, n) entries).1 !! h =
    match (list_to_map entries : DeploymentConfig) !! h with
    | Some node => if reported node then Some node else g !! h
    | None => g !! h
    end.
Proof.
  revert g n. induction entries as [| [h' node] entries IH]; intros g n Hnd; [done |].
  apply NoDup_cons in Hnd as [Hh Hnd]. cbn [foldl]. rewrite collect_step, IH by done.
  rewrite list_to_map_cons. destruct (decide (h' = h)) as [-> | Hne].
  - rewrite (not_elem_of_list_to_map_1 entries h) by done. rewrite lookup_insert_eq.
    destruct (reported node); [by rewrite lookup_insert_eq | done].
  - rewrite lookup_insert_ne by done.
    destruct (list_to_map entries !! h) as [m |] eqn:E; [destruct (reported m); [done |] |];
      (destruct (reported node); [by rewrite lookup_insert_ne | done]).
Qed.

Lemma merge_fold prev (entries : list (string * NodeConfig)) :
  NoDup entries.*1 →
  ∃ m, foldM merge_node (Some prev) entries = Ret (Some m)
    ∧ ∀ h, m !! h =
        match (list_to_map entries : DeploymentConfig) !! h with
        | Some n => Some (keep_state (node_of prev h) n)
        | None => prev !! h
        end.
Proof.
  revert prev. induction entries as [| [h' node] entries IH]; intros prev Hnd; [by exists prev |].
  apply NoDup_cons in Hnd as [Hh Hnd]. cbn [foldM merge_node from_option id mbind outcome_bind].
  destruct (IH (<[h' := keep_state (node_of prev h') node]> prev) Hnd) as (m & Hm & Hl).
  exists m. split; [exact Hm |]. intros h. rewrite Hl, list_to_map_cons.
  destruct (decide (h' = h)) as [-> | Hne].
  - rewrite (not_elem_of_list_to_map_1 entries h) by done. by rewrite !lookup_insert_eq.
  - rewrite !lookup_insert_ne by done. unfold node_of. by rewrite lookup_insert_ne.
Qed.

(** The counter of forced diffs. *)
Lemma collect_fold_diffs size (entries : list (string * NodeConfig)) g n :
  (foldl (collect_node size) (g, n) entries).2 =
    n + if decide (size = 1)
        then length (List.filter (λ e, bool_decide (State e.2 = NodeStateStarting)) entries)
        else 0.
Proof.
  revert g n. induction entries as [| [h' node] entries IH]; intros g n.
  { simpl. case_decide; lia. }
  cbn [foldl]. rewrite collect_step, IH. cbn [List.filter snd].
  destruct (decide (size = 1)), (decide (State node = NodeStateStarting)) as [E | E].
  - rewrite decide_True, bool_decide_true by done. simpl. lia.
  - rewrite decide_False, bool_decide_false by tauto. lia.
  - rewrite decide_False by tauto. lia.
  - rewrite decide_False by tauto. lia.
Qed.

Section merge_lemmas.
Context (order : DeploymentConfig → list (string * NodeConfig)).
Context (order_ranges : ∀ d, ranges d (order d)).

Lemma order_NoDup d : NoDup (order d).*1.
Proof. eapply ranges_NoDup, order_ranges. Qed.

Lemma order_to_map d : list_to_map (order d) = d.
Proof.
  rewrite <- (list_to_map_to_list d) at 2. apply list_to_map_proper; [apply order_NoDup |].
  apply order_ranges.
Qed.

Lemma collect_eq d g :
  foldl (collect_node (size d)) (g, 0) (order d) = (collected d g, forced d).
Proof.
  destruct (foldl _ (g, 0) (order d)) as [g' n] eqn:E. f_equal.
  - apply map_eq. intros h. rewrite collected_lookup.
    assert (H := collect_fold_lookup (size d) (order d) g 0 h (order_NoDup d)).
    by rewrite E, order_to_map in H.
  - assert (H := collect_fold_diffs (size d) (order d) g 0). rewrite E in H. simpl in H.
    rewrite H. unfold forced, starting. case_decide as Hs; [| by rewrite decide_False by tauto].
    assert (Hlen : length (order d) = 1) by by rewrite (Permutation_length (order_ranges d)), length_map_to_list.
    assert (Hd := order_to_map d).
    destruct (order d) as [| [h node] [|]]; [done | | done]. cbn [list_to_map foldr uncurry] in Hd.
    change (<[h := node]> (∅ : DeploymentConfig) = d) in Hd. rewrite insert_empty in Hd.
    subst d.
    cbn [List.filter snd]. destruct (decide (State node = NodeStateStarting)) as [Ht | Ht].
    + rewrite bool_decide_true by done. rewrite decide_True; [done |].
      split; [by rewrite map_size_singleton |].
      rewrite map_filter_singleton_True by done. apply map_non_empty_singleton.
    + rewrite bool_decide_false by done. rewrite decide_False; [done |].
      rewrite map_filter_singleton_False by done. tauto.
Qed.

Lemma merge_eq prev g :
  foldM merge_node (Some prev) (order g) = Ret (Some (merged prev g)).
Proof.
  destruct (merge_fold prev (order g) (order_NoDup g)) as (m & -> & Hl).
  do 2 f_equal. apply map_eq. intros h. by rewrite Hl, merged_lookup, order_to_map.
Qed.
End merge_lemmas.

(** The collected states are running or stopped. *)
Definition all_reported (g : DeploymentConfig) : Prop :=
  map_Forall (λ _ n, reported n = true) g.

Lemma collected_all_reported d g : all_reported g → all_reported (collected d g).
Proof.
  intros Hg h n. rewrite collected_lookup. destruct (d !! h) as [m |]; [| apply Hg].
  destruct (reported m) eqn:E; [by intros [= <-] | apply Hg].
Qed.

Lemma keep_state_spec prev n :
  State (keep_state prev n) =
    (if decide (State prev = NodeStateStopping ∧ State n = NodeStateRunning)
     then NodeStateStopping
     else if decide (State prev = NodeStateStarting ∧ State n = NodeStateStopped)
     then NodeStateStarting else State n)
  ∧ Images (keep_state prev n) = Images n.
Proof.
  destruct prev as [ps pi], n as [s i].
  unfold keep_state, NodeStateStopping, NodeStateRunning, NodeStateStarting, NodeStateStopped.
  simpl. repeat (case_decide; simpl in *; try tauto); destruct_and?; congruence.
Qed.

Lemma keep_state_idemp prev node :
  reported node = true → keep_state (keep_state prev node) node = keep_state prev node.
Proof.
  intros Hr. apply bool_decide_eq_true in Hr. destruct node as [s im], prev as [ps pim].
  unfold keep_state, NodeStateStopping, NodeStateRunning, NodeStateStarting, NodeStateStopped in *.
  simpl in *. repeat (case_decide; simpl in *; try tauto); destruct_and?;
    destruct Hr; congruence.
Qed.

Lemma collected_idemp d g : collected d (collected d g) = collected d g.
Proof.
  apply map_eq. intros h. rewrite !collected_lookup.
  destruct (d !! h) as [n |]; [| done]. by destruct (reported n).
Qed.

Lemma merged_idemp p g : all_reported g → merged (merged p g) g = merged p g.
Proof.
  intros Hg. apply map_eq. intros h. rewrite !merged_lookup.
  destruct (g !! h) as [n |] eqn:E; [| done].
  f_equal. unfold node_of at 1. rewrite merged_lookup, E. simpl.
  apply keep_state_idemp. by apply (Hg h).
Qed.

Lemma merge_message_eq order msg j g d prev :
  (∀ d, ranges d (order d)) →
  StateType msg = STATE_TYPE_ACTUAL →
  DeploymentConfigFromJSON (Json msg) = (d, None) →
  previous_state j = Some prev →
  merge_message order msg j g =
    Ret (collected (default ∅ d) g, forced (default ∅ d),
         Some (MarshalIndent (deployment_to_json (merged prev (collected (default ∅ d) g))))).
Proof.
  intros Horder Ht Hd Hp. unfold merge_message. rewrite decide_False, Hd by tauto.
  by rewrite collect_eq, Hp, merge_eq.
Qed.

(** ** Properties *)

(** C11. One message of the actual state, when the file could be parsed: whatever
    the order of the maps, the collected states take over the running and
    stopped nodes of the message, a single starting node forces one diff, and
    the text written holds every collected node - a running one that the file
    has as stopping stays stopping, a stopped one that the file has as
    starting stays starting - and the other entries of the file unchanged. *)
Theorem merge_message_spec order msg j g d prev :
  (∀ d, ranges d (order d)) →
  StateType msg = STATE_TYPE_ACTUAL →
  DeploymentConfigFromJSON (Json msg) = (d, None) →
  previous_state j = Some prev →
  let g' := collected (default ∅ d) g in
  ∃ text, JSON (Some (merged prev g')) = Ret text
    ∧ merge_message order msg j g = Ret (g', forced (default ∅ d), Some text)
    ∧ (∀ h n, g' !! h = Some n →
         State (node_of (merged prev g') h) =
           (if decide (State (node_of prev h) = NodeStateStopping ∧ State n = NodeStateRunning)
            then NodeStateStopping
            else if decide (State (node_of prev h) = NodeStateStarting ∧ State n = NodeStateStopped)
            then NodeStateStarting else State n)
         ∧ Images (node_of (merged prev g') h) = Images n)
    ∧ (∀ h, g' !! h = None → merged prev g' !! h = prev !! h).
Proof.
  intros Horder Ht Hd Hp g'. eexists. split; [done |]. split_and!.
  - by rewrite (merge_message_eq order msg j g d prev).
  - intros h n Hn.
    assert (node_of (merged prev g') h = keep_state (node_of prev h) n) as ->
      by (unfold node_of at 1; by rewrite merged_lookup, Hn).
    apply keep_state_spec.
  - intros h Hh. by rewrite merged_lookup, Hh.
Qed.

(** Processing a message a second time, on the file that the first time wrote,
    writes the same file and collects the same states. *)
Theorem merge_message_idempotent order msg j g d prev :
  (∀ d, ranges d (order d)) →
  all_reported g → StateType msg = STATE_TYPE_ACTUAL →
  DeploymentConfigFromJSON (Json msg) = (d, None) →
  previous_state j = Some prev →
  utf8_deployment (merged prev (collected (default ∅ d) g)) →
  ∃ g' n text,
    merge_message order msg j g = Ret (g', n, Some text)
    ∧ merge_message order msg (Ret text) g' = Ret (g', n, Some text).
Proof.
  intros Horder Hg Ht Hd Hp Hu.
  destruct (JSON_reads_back (Some _) Hu) as (text & Hj & Hback).
  do 3 eexists. split; [by apply merge_message_eq |].
  rewrite (merge_message_eq order msg _ _ d (merged prev (collected (default ∅ d) g)));
    [| done | done | done |].
  - rewrite collected_idemp, merged_idemp; [done |]. by apply collected_all_reported.
  - unfold JSON in Hj. injection Hj as ->. unfold previous_state. by rewrite Hback.
Qed.

(** A file that is not JSON - the empty file of an interrupted write included -
    or that holds null makes the goroutine panic at the first message that
    leaves a collected node: the assignment goes to the nil map the parser
    returned. *)
Lemma unreadable_file_panics order msg j g d :
  (∀ d, ranges d (order d)) →
  StateType msg = STATE_TYPE_ACTUAL →
  DeploymentConfigFromJSON (Json msg) = (d, None) →
  parse_json j = None ∨ parse_json j = Some JNull →
  collected (default ∅ d) g ≠ ∅ →
  merge_message order msg (Ret j) g = Panic NilMapAssignment.
Proof.
  intros Horder Ht Hd Hj Hne. unfold merge_message. rewrite decide_False, Hd by tauto.
  rewrite collect_eq by done.
  assert (previous_state (Ret j) = None) as ->.
  { unfold previous_state, DeploymentConfigFromJSON. by destruct Hj as [-> | ->]. }
  destruct (order (collected (default ∅ d) g)) as [| [h n] l] eqn:E; [| done].
  assert (H := Horder (collected (default ∅ d) g)). rewrite E in H.
  by apply ranges_nil_inv in H.
Qed.

(** ** [Run] with a recording manager *)
Section run.
Context `{AnyPkg} `{GobPkg} `{ReferencePkg} {S : Type} `{Manager S}.
Context (protojson_Format : Bootstrap → string).
Context (no_panic_remove : ∀ name v (s : S) p, (RemoveImageAndContainer name v s).1 ≠ Panic p).
Context (no_panic_close : ∀ (s : S) p, (Close s).1 ≠ Panic p).

Definition forget {A} (m : outcome A) : outcome unit := (λ _, ()) <$> m.

Lemma stopEnvoy_recorded cfg img s log :
  ParseFQIN envoyContainerImageName (DefaultContainerRegistryDomain cfg) = Ret img →
  @stopEnvoy _ _ recorded cfg (s, log) =
    (forget (RemoveImageAndContainer img false s).1,
     ((RemoveImageAndContainer img false s).2, (log ++ [CallRemove img false])%list)).
Proof.
  intros Himg. unfold stopEnvoy, with_image. rewrite Himg. simpl. unfold record. simpl.
  by destruct (RemoveImageAndContainer img false s) as [[] ?].
Qed.

Lemma runEnvoy_recorded cfg img boot id s log :
  ParseFQIN envoyContainerImageName (DefaultContainerRegistryDomain cfg) = Ret img →
  EnvoyBootstrapConfigWithNodeID protojson_Format cfg id = Ret boot →
  let args := ["--config-yaml"; boot] in
  let pulled := PullImageAndCreateContainer img args (envoy_ports cfg) false s in
  @runEnvoy _ _ _ recorded protojson_Format cfg id (s, log) =
    (forget pulled.1, (pulled.2, (log ++ [CallPull img args (envoy_ports cfg) false])%list)).
Proof.
  intros Himg Hboot args pulled. unfold runEnvoy. rewrite Hboot. unfold with_image.
  rewrite Himg. simpl. unfold record. simpl. fold args pulled. by destruct pulled as [[] ?].
Qed.

Lemma Close_recorded (r : outcome unit) s log out :
  @close_manager _ recorded (r, (s, log), out) =
    (r, ((Close s).2, (log ++ [CallClose])%list), out).
Proof.
  unfold close_manager. simpl. unfold record. simpl. assert (Hc := no_panic_close s).
  destruct (Close s) as [[u | e | p] s']; [done | done | by destruct (Hc p)].
Qed.

Lemma returns_recorded (r : outcome unit) s log out :
  @returns _ recorded (r, (s, log), out) =
    (RunReturned r, ((Close s).2, (log ++ [CallClose])%list), out).
Proof. unfold returns. by rewrite Close_recorded. Qed.

Lemma defer_stopEnvoy_recorded cfg img (r : outcome unit) s log out :
  ParseFQIN envoyContainerImageName (DefaultContainerRegistryDomain cfg) = Ret img →
  @defer_stopEnvoy _ _ recorded cfg (r, (s, log), out) =
    (r, ((RemoveImageAndContainer img false s).2, (log ++ [CallRemove img false])%list), out).
Proof.
  intros Himg. unfold defer_stopEnvoy. rewrite (stopEnvoy_recorded cfg img) by done.
  assert (Hp := no_panic_remove img false s).
  destruct (RemoveImageAndContainer img false s) as [[x | e | p] s']; [done | done | by destruct (Hp p)].
Qed.

(** Discovery changes the name of the central node only. *)
Lemma discovery_loop_domain cfg events c :
  discovery_loop cfg events = Ret (Some c) →
  DefaultContainerRegistryDomain c = DefaultContainerRegistryDomain cfg.
Proof.
  induction events as [| e events IH]; cbn [discovery_loop]; [done |].
  intros Hc. repeat case_match; simplify_eq; auto.
Qed.

Lemma discovered_domain cfg p c :
  discovered cfg p = Ret c →
  DefaultContainerRegistryDomain c = DefaultContainerRegistryDomain cfg.
Proof.
  unfold discovered. destruct (EnableDiscovery cfg); [| by intros [= <-]].
  intros (o & Ho & [= <-])%bind_Ret_inv. destruct o as [c |]; [| done].
  unfold handleDiscovery in Ho. repeat case_match; simplify_eq; try done.
  by eapply discovery_loop_domain.
Qed.

(** C32. Envoy is stopped before anything else, and an Envoy that was started is
    stopped again, before the manager is closed, on every way out of the main
    goroutine: the end of the stream, an error, a panic.  The calls of [Run]
    are a removal of the Envoy image; then, if discovery did not panic and the
    node was registered, the start of Envoy on its three ports; if that
    succeeded, the calls of the message loop and another removal of the Envoy
    image; finally the manager is closed.  Only a panic of another goroutine
    ends the program without the removal and the closing, after the calls the
    main goroutine has made so far; and without a connection to the control
    plane it waits, with the manager open. *)
Theorem Run_stops_envoy cfg p s img boot :
  ParseFQIN envoyContainerImageName (DefaultContainerRegistryDomain cfg) = Ret img →
  (∀ cfg id, EnvoyBootstrapConfigWithNodeID protojson_Format cfg id = Ret (boot cfg id)) →
  let '(x, (_, calls), out) := @Run _ _ _ _ recorded protojson_Format cfg p (s, []) in
  let s1 := (RemoveImageAndContainer img false s).2 in
  match discovered cfg p with
  | Ret c =>
      match killed_registering c p, register_node c p with
      | Some e, _ => x = RunKilled e ∧ calls = [CallRemove img false]
      | None, None => x = RunBlocked ∧ calls = [CallRemove img false]
      | None, Some (Ret id) =>
          let args := ["--config-yaml"; boot c id] in
          let '(pulled, s2) := PullImageAndCreateContainer img args (envoy_ports c) false s1 in
          let started := [CallRemove img false; CallPull img args (envoy_ports c) false] in
          match pulled, @killed_serving _ _ recorded c p (s2, started) with
          | Ret _, Some (e, (_, served), out') => x = RunKilled e ∧ calls = served ∧ out = out'
          | Ret _, None =>
              let '(r, (_, served), out') := @serve _ _ recorded c p (s2, started) in
              x = RunReturned r ∧ out = out'
              ∧ calls = (served ++ [CallRemove img false; CallClose])%list
          | _, _ => calls = (started ++ [CallClose])%list
          end
      | None, Some _ => calls = [CallRemove img false; CallClose] ∧ out = []
      end
  | _ => calls = [CallRemove img false; CallClose] ∧ out = []
  end.
Proof.
  intros Himg Hboot. unfold Run. rewrite (stopEnvoy_recorded cfg img) by done.
  assert (Hp := no_panic_remove img false s).
  destruct (RemoveImageAndContainer img false s) as [rm s1]. cbn [fst snd] in *.
  destruct rm as [x | e | p0]; cbn [forget fmap outcome_fmap]; [| | by destruct (Hp p0)].
  all: destruct (discovered cfg p) as [c | e1 | p1] eqn:Hc; [| by rewrite returns_recorded..].
  all: destruct (killed_registering c p); [done |].
  all: destruct (register_node c p) as [[id | e1 | p1] |]; [| by rewrite returns_recorded.. | done].
  all: assert (Himg' : ParseFQIN envoyContainerImageName (DefaultContainerRegistryDomain c) = Ret img)
    by by rewrite (discovered_domain _ _ _ Hc).
  all: rewrite (runEnvoy_recorded c img (boot c id)) by done;
    destruct (PullImageAndCreateContainer _ _ _ _ s1) as [[y | e2 | p2] s2]; cbn [fst snd];
    cbn [forget fmap outcome_fmap]; [| by rewrite returns_recorded..].
  all: destruct (killed_serving c p (s2, _)) as [[[q [s3 served]] out'] |]; [done |].
  all: destruct (serve c p (s2, _)) as [[r' [s3 served]] out'];
    rewrite (defer_stopEnvoy_recorded c img), returns_recorded by done; by rewrite <- app_assoc.
Qed.

(** C33. An orchestrator that has to discover its central node never registers:
    the target it dials is the address it heard of in brackets, with its own
    port behind it, and not this address; with no connection from there it
    waits in [Register] - until a signal ends it, when it closes the manager -
    and Envoy is never started. *)
Theorem discovered_node_is_not_reached cfg p s img central d foreign_packets later :
  ParseFQIN envoyContainerImageName (DefaultContainerRegistryDomain cfg) = Ret img →
  EnableDiscovery cfg = true → EnableCentralMode cfg = false → CentralNodeHostname cfg = "" →
  listening p = Ret () → packets p = (foreign_packets ++ d :: later)%list →
  Forall (λ d, foreign (Ret (cut packet_size d))) foreign_packets →
  Bytes (discovery_message central) = Ret d → (String.length d ≤ packet_size)%nat →
  let addr := JoinHostPort (NodeHostname central) (Itoa (GRPCPort central)) in
  (∀ target, target ≠ addr → registered p target (node_request cfg) = None) →
  (∀ target, is_panic (dialed p target) = false) → panicked p = None →
  ∃ c, discovered cfg p = Ret c
    ∧ control_plane_target c = "[" +:+ addr +:+ "]:" +:+ Itoa (GRPCPort cfg)
    ∧ control_plane_target c ≠ addr
    ∧ let '(x, (_, calls), out) := @Run _ _ _ _ recorded protojson_Format cfg p (s, []) in
      out = []
      ∧ if is_fail (dialed p (control_plane_target c)) || interrupted p
        then x = RunReturned (Ret ()) ∧ calls = [CallRemove img false; CallClose]
        else x = RunBlocked ∧ calls = [CallRemove img false].
Proof.
  intros Himg Hd Hcm He Hl Hp Hf Hb Hlen addr Hreg Hdial Hpanic.
  set (c := set_CentralNodeHostname (Hostname (discovery_message central)) cfg). exists c.
  assert (Hc : discovered cfg p = Ret c).
  { unfold discovered. rewrite Hd, Hl, Hp. unfold handleDiscovery. rewrite Hcm, decide_True by done.
    unfold read_packets. rewrite map_app, <- app_assoc, discovery_loop_foreign
      by by apply Forall_map. cbn [map app].
    by rewrite (discovery_loop_message _ central d). }
  assert (Hne := bracketed_target_differs cfg central). fold c in Hne.
  split_and!; [done | apply bracketed_target | done |].
  specialize (Hdial (control_plane_target c)). specialize (Hreg _ Hne).
  change (node_request cfg) with (node_request c) in Hreg.
  unfold Run. rewrite (stopEnvoy_recorded cfg img), Hc by done.
  unfold killed_registering, register_node, register_at. rewrite Hpanic, Hreg.
  assert (Hnp := no_panic_remove img false s).
  destruct (RemoveImageAndContainer img false s) as [[x | e | p0] s1]; cbn [fst snd] in *;
    cbn [forget fmap outcome_fmap]; [| | by destruct (Hnp p0)].
  all: destruct (dialed p (control_plane_target c)) as [[] | err |]; [| | done];
    [destruct (interrupted p) |]; cbn [is_fail orb]; by rewrite ?returns_recorded.
Qed.
End run.

(** ** The reports of a node *)

(** The report of a tick is an [ACTUAL] message that reads back as the node
    running exactly the images of its managed containers. *)
Theorem report_reads_back {S} `{Manager S} cfg (s s1 : S) cs :
  Containers s = (Ret cs, s1) →
  utf8 (NodeHostname cfg) →
  Forall utf8 (map image_identifier (managed_images cs)) →
  ∃ m, report_state cfg s = (Ret (Some m), s1)
    ∧ StateType m = STATE_TYPE_ACTUAL
    ∧ DeploymentConfigFromJSON (Json m) =
        (Some {[ NodeHostname cfg :=
                   {| State := NodeStateRunning;
                      Images := Some (map image_identifier (managed_images cs)) |} ]}, None).
Proof.
  intros Hcs Hh Him. unfold report_state. rewrite Hcs, filter_containers_eq.
  cbn [mbind outcome_bind]. rewrite ExtractImageList_eq. cbn [mbind outcome_bind].
  fold (managed_images cs).
  destruct (JSON_reads_back (Some {[ NodeHostname cfg :=
    {| State := NodeStateRunning;
       Images := Some (map image_identifier (managed_images cs)) |} ]})) as (j & Hj & Hback).
  { intros h n Hn. apply lookup_singleton_Some in Hn as [<- <-].
    split; [done |]. split; [by apply utf8_ascii | done]. }
  rewrite Hj. by eexists.
Qed.

Lemma report_reads_back_witness :
  let cs := [up_container "gcr.io/app:v1"] in
  ∃ m, @report_state _ toy_manager toy_config cs = (Ret (Some m), cs)
    ∧ StateType m = STATE_TYPE_ACTUAL
    ∧ DeploymentConfigFromJSON (Json m) =
        (Some {[ NodeHostname toy_config :=
                   {| State := NodeStateRunning;
                      Images := Some (map image_identifier (managed_images cs)) |} ]}, None).
Proof.
  intros cs. apply (@report_reads_back _ toy_manager toy_config cs cs cs); [done | |].
  - by apply utf8_ascii.
  - repeat apply Forall_cons_2; [by apply utf8_ascii | done].
Defined.

(** The receive loop does not look at the state type of a message, and the
    control plane relays reports to every node, their sender included: a
    report sent before a new configuration was deployed undoes that deployment
    when it arrives after it. *)
Theorem stale_report_is_deployed :
  let v1 := [up_container "gcr.io/app:v1"] in
  let v2 := [up_container "gcr.io/app:v2"] in
  let desired := {| Json := match JSON (Some (toy_node ["gcr.io/app:v2"])) with
                            | Ret j => j | _ => "" end;
                    StateType := STATE_TYPE_DESIRED |} in
  ∃ report,
    @report_state _ toy_manager toy_config v1 = (Ret (Some report), v1)
    ∧ StateType report = STATE_TYPE_ACTUAL
    ∧ (@main_loop familiar_reference _ toy_manager toy_config [RecvMsg desired] v1).1.2 = v2
    ∧ (@main_loop familiar_reference _ toy_manager toy_config
         [RecvMsg desired; RecvMsg report] v1).1.2 = v1.
Proof. intros v1 v2 desired. eexists. split; [by vm_compute |]. by vm_compute. Qed.

(** ** Witnesses of the properties above *)

Definition sample_report : DeploymentConfiguration :=
  {| Json := match JSON (Some (toy_node ["gcr.io/app:v2"])) with Ret j => j | _ => "" end;
     StateType := STATE_TYPE_ACTUAL |}.

Definition sample_file : outcome string :=
  JSON (Some {[ "hpc-1" := {| State := NodeStateStopping; Images := Some [] |} ]}).

Lemma sample_order_ranges (d : DeploymentConfig) : ranges d (map_to_list d).
Proof. apply ranges_canonical. Qed.

Lemma merge_message_spec_witness :
  let prev : DeploymentConfig := {[ "hpc-1" := {| State := NodeStateStopping; Images := Some [] |} ]} in
  let g' := collected (toy_node ["gcr.io/app:v2"]) ∅ in
  ∃ text, JSON (Some (merged prev g')) = Ret text
    ∧ merge_message map_to_list sample_report sample_file ∅ =
        Ret (g', forced (toy_node ["gcr.io/app:v2"]), Some text)
    ∧ (∀ h n, g' !! h = Some n →
         State (node_of (merged prev g') h) =
           (if decide (State (node_of prev h) = NodeStateStopping ∧ State n = NodeStateRunning)
            then NodeStateStopping
            else if decide (State (node_of prev h) = NodeStateStarting ∧ State n = NodeStateStopped)
            then NodeStateStarting else State n)
         ∧ Images (node_of (merged prev g') h) = Images n)
    ∧ (∀ h, g' !! h = None → merged prev g' !! h = prev !! h).
Proof.
  intros prev g'.
  apply (merge_message_spec map_to_list sample_report sample_file ∅
           (Some (toy_node ["gcr.io/app:v2"])) prev).
  - apply sample_order_ranges.
  - done.
  - by vm_compute.
  - by vm_compute.
Defined.

Lemma merge_message_idempotent_witness :
  ∃ g' n text,
    merge_message map_to_list sample_report sample_file ∅ = Ret (g', n, Some text)
    ∧ merge_message map_to_list sample_report (Ret text) g' = Ret (g', n, Some text).
Proof.
  apply (merge_message_idempotent map_to_list sample_report sample_file ∅
           (Some (toy_node ["gcr.io/app:v2"]))
           {[ "hpc-1" := {| State := NodeStateStopping; Images := Some [] |} ]}).
  - apply sample_order_ranges.
  - apply map_Forall_empty.
  - done.
  - by vm_compute.
  - by vm_compute.
  - intros h n Hn.
    assert (Hm : merged {[ "hpc-1" := {| State := NodeStateStopping; Images := Some [] |} ]}
        (collected (toy_node ["gcr.io/app:v2"]) ∅) =
      {[ "hpc-1" := {| State := NodeStateStopping; Images := Some ["gcr.io/app:v2"] |} ]})
      by by vm_compute.
    simpl in Hn. rewrite Hm in Hn. apply lookup_singleton_Some in Hn as [<- <-].
    split; [by apply utf8_ascii |]. split; [by apply utf8_ascii |].
    repeat apply Forall_cons_2; [by apply utf8_ascii | done].
Defined.

Definition with_discovery (c : Config) : Config :=
  match c with
  | Build_Config dm em cm _ ch nh sp gp up ud ut ip ep ap rd =>
      Build_Config dm em cm true ch nh sp gp up ud ut ip ep ap rd
  end.

(** Peers of a node whose control plane answers at one target; the second
    channel cannot be opened. *)
Definition peers_at (target : string) (datagrams : list string) : peers :=
  {| listening := Ret (); packets := datagrams; dialed _ := Ret ();
     registered t _ := if t =? target then Some (Ret "node-0") else None; interrupted := false;
     service_channel := Ret (); node_channel := Fail EOF; watched := Ret (); received := [];
     panicked := None |}.

(** The main goroutine panics with the nil stream. *)
Lemma Run_stops_envoy_witness :
  let img := "docker.io/envoyproxy/envoy:distroless-v1.27-latest" in
  let args := ["--config-yaml"; "node: node-0"] in
  let p := peers_at "carisma-central:8016" [] in
  let ports := envoy_ports toy_config in
  let started := [CallRemove img false; CallPull img args ports false] in
  let '(x, (_, calls), out) :=
    @Run any_instance sample_gob familiar_reference _ (@recorded _ toy_manager)
      (λ b, "node: " +:+ Node_Id b) toy_config p ([], []) in
  let '(r, (_, served), out') :=
    @serve familiar_reference _ (@recorded _ toy_manager) toy_config p
      ([up_container img], started) in
  x = RunReturned r ∧ out = out' ∧ calls = (served ++ [CallRemove img false; CallClose])%list.
Proof.
  intros img args p ports started.
  apply (@Run_stops_envoy any_instance sample_gob familiar_reference _ toy_manager
    (λ b, "node: " +:+ Node_Id b)) with (s := []) (img := img) (boot := λ _ id, "node: " +:+ id).
  - intros name v s q. apply toy_remove_no_panic.
  - done.
  - by vm_compute.
  - done.
Defined.

Lemma discovered_node_is_not_reached_witness :
  let cfg := with_discovery (set_CentralNodeHostname "" (Default (Ret "hpc-2"))) in
  let p := peers_at "hpc-1:8016" ["ping"; "$CARISMA$" +:+ String (byte_char Broadcast) "shpc-1:8016"] in
  ∃ c, @discovered sample_gob cfg p = Ret c
    ∧ control_plane_target c = "[hpc-1:8016]:8016"
    ∧ control_plane_target c ≠ "hpc-1:8016"
    ∧ let '(x, (_, calls), out) :=
        @Run any_instance sample_gob familiar_reference _ (@recorded _ toy_manager)
          (λ b, "node: " +:+ Node_Id b) cfg p ([], []) in
      out = []
      ∧ if is_fail (dialed p (control_plane_target c)) || interrupted p
        then x = RunReturned (Ret ())
             ∧ calls = [CallRemove "docker.io/envoyproxy/envoy:distroless-v1.27-latest" false; CallClose]
        else x = RunBlocked
             ∧ calls = [CallRemove "docker.io/envoyproxy/envoy:distroless-v1.27-latest" false].
Proof.
  intros cfg p.
  apply (@discovered_node_is_not_reached any_instance sample_gob familiar_reference _ toy_manager
    (λ b, "node: " +:+ Node_Id b)) with (central := Default (Ret "hpc-1"))
    (d := "$CARISMA$" +:+ String (byte_char Broadcast) "shpc-1:8016")
    (foreign_packets := ["ping"]) (later := []); try by vm_compute.
  - intros name v s q. apply toy_remove_no_panic.
  - apply Forall_singleton. exists "ping". split; [done | by left].
  - vm_compute. lia.
  - intros target Ht. cbn. apply String.eqb_neq in Ht.
    change (JoinHostPort (NodeHostname (Default (Ret "hpc-1")))
              (Itoa (GRPCPort (Default (Ret "hpc-1"))))) with "hpc-1:8016" in Ht.
    by rewrite Ht.
Defined.
