(* ===== verification/System.v ===== *)
(** The way of a configuration through the system: from the file of the desired
    state on the central node, over the message of the control plane, through
    [process] on a node with a lawful container manager, and back as a report
    into the file of the actual state. *)
From S2P Require Import Prelude GoStrings Json JsonParse Deployment DeploymentJson Config Container NodeRegistry Orchestrator Reconcile OrchestratorApp.

Local Open Scope string_scope.

(** The message that announces the text [j] of a desired state. *)
Definition desired_message (j : string) : DeploymentConfiguration :=
  {| Json := j; StateType := STATE_TYPE_DESIRED |}.

(** The handler of the file sends the text as it is, whatever its own call of
    [process] does. *)
Lemma handle_desired_sends `{ReferencePkg} {S} `{Manager S} cfg a j (s : S) d :
  a ≠ j → DeploymentConfigFromJSON j = (d, None) →
  (handle_desired cfg a j s).2 = [desired_message j].
Proof.
  intros Ha Hj. unfold handle_desired. apply String.eqb_neq in Ha as ->. rewrite Hj.
  by destruct (process cfg (default ∅ d) s) as [[[] s'] out].
Qed.

(** A message is processed as the configuration it reads back as. *)
Lemma main_message_process `{ReferencePkg} {S} `{Manager S} cfg msg (s s' : S) d out :
  DeploymentConfigFromJSON (Json msg) = (Some d, None) →
  process cfg d s = (Ret (), s', out) →
  main_message cfg msg s = (Ret (), s', out).
Proof. intros Hd Hp. unfold main_message. rewrite Hd. cbn. by rewrite Hp. Qed.

(** The report of a node lists what its lawful manager runs. *)
Lemma report_lists_running {S} `{LawfulManager S} cfg (s : S) :
  utf8 (NodeHostname cfg) →
  Forall utf8 (map image_identifier (managed_images (running s))) →
  ∃ report s' imgs,
    report_state cfg s = (Ret (Some report), s')
    ∧ StateType report = STATE_TYPE_ACTUAL
    ∧ imgs ≡ₚ map image_identifier (managed_images (running s))
    ∧ DeploymentConfigFromJSON (Json report) =
        (Some {[ NodeHostname cfg :=
                   {| State := NodeStateRunning; Images := Some imgs |} ]}, None).
Proof.
  intros Hh Hu. destruct (law_Containers s) as (cs & s1 & Hcs & Hcup & _).
  assert (Hperm : managed_images cs ≡ₚ managed_images (running s))
    by by rewrite <- Hcup, managed_images_up.
  destruct (report_reads_back cfg s s1 cs) as (m & Hm & Ht & Hback); [done | done | |].
  { by rewrite (Permutation_map image_identifier Hperm). }
  do 3 eexists. split_and!; [done | done | | done]. by apply Permutation_map.
Qed.

(** The report of a single node, in the file of the actual state. *)
Lemma merged_report h n prev g :
  State n = NodeStateRunning → State (node_of prev h) ≠ NodeStateStopping →
  node_of (merged prev (collected {[ h := n ]} g)) h = n.
Proof.
  intros Hn Hp. unfold node_of at 1.
  assert (collected {[ h := n ]} g !! h = Some n) as Hg.
  { rewrite collected_lookup, lookup_singleton_eq. unfold reported.
    by rewrite bool_decide_eq_true_2 by (left; done). }
  rewrite merged_lookup, Hg. cbn. unfold keep_state.
  destruct (decide (_ ∧ State n = NodeStateRunning)) as [[? _] |]; [done |].
  rewrite Hn, decide_False; [done |]. by intros [_ ?].
Qed.

(** It forces no diff. *)
Lemma forced_running h n : State n = NodeStateRunning → forced (default ∅ (Some {[ h := n ]})) = 0.
Proof.
  intros Hn. unfold forced. rewrite decide_False; [done |]. intros [_ Hne]. apply Hne.
  apply map_filter_singleton_False. cbn. by rewrite Hn.
Qed.

(** ** Property *)

(** C3. A desired state takes effect and is reported.  Let the central node find
    the JSON text of a configuration in its file.  Its handler sends this text
    as a message of a desired state.  A node that receives the message, runs a
    lawful container manager and can install its images, then runs exactly its
    desired images and the middleware that was there; its next report lists
    just these; and the central node, whose file of the actual state can be
    read and does not have the node as stopping, writes a file that has the
    node running just these. *)
Theorem desired_state_takes_effect `{ReferencePkg} {Sc} `{Manager Sc} {S} `{LawfulManager S}
    (ccfg cfg : Config) (d prev g : DeploymentConfig) node D (a j : string) (file : outcome string) order (sc : Sc) (s : S) :
  let h := NodeHostname cfg in
  JSON (Some d) = Ret j → utf8_deployment d → a ≠ j →
  d !! h = Some node → desired cfg node = Ret D →
  NoDup (map Name D) →
  (∀ i, i ∈ D → if middleware i then i ∈ managed_images (running s)
                 else available (image_identifier i)) →
  NoDup (up_images (running s)) → NoDup (map Name (managed_images (running s))) →
  let goal := (D ++ other_middleware D (managed_images (running s)))%list in
  Forall utf8 (map image_identifier goal) →
  (∀ d, ranges d (order d)) → previous_state file = Some prev →
  State (node_of prev h) ≠ NodeStateStopping →
  (handle_desired ccfg a j sc).2 = [desired_message j]
  ∧ ∃ s' out report s'' imgs actual text,
      main_message cfg (desired_message j) s = (Ret (), s', out)
      ∧ managed_images (running s') ≡ₚ goal
      ∧ report_state cfg s' = (Ret (Some report), s'')
      ∧ imgs ≡ₚ map image_identifier goal
      ∧ merge_message order report file g =
          Ret (collected {[ h := {| State := NodeStateRunning; Images := Some imgs |} ]} g,
               0, Some text)
      ∧ JSON (Some actual) = Ret text
      ∧ node_of actual h = {| State := NodeStateRunning; Images := Some imgs |}.
Proof.
  intros h Hj Hu Ha Hd HD Hnames Hok Hup HnR goal Hgoal Horder Hfile Hstate.
  destruct (JSON_reads_back (Some d) Hu) as (j' & Hj' & Hback).
  rewrite Hj in Hj'. injection Hj' as <-.
  split; [by apply (handle_desired_sends ccfg a j sc (Some d)) |].
  destruct (converges cfg d node s D) as (s' & out & Hproc & Hrun & _); [done .. |].
  destruct (report_lists_running cfg s') as (report & s'' & imgs & Hrep & Htype & Himgs & Hread).
  { by apply (Hu h node). }
  { by rewrite (Permutation_map image_identifier Hrun). }
  exists s', out, report, s'', imgs. do 2 eexists. split_and!; [| done | done | | | |].
  - by apply (main_message_process cfg (desired_message j) s s' d).
  - rewrite Himgs. by apply Permutation_map.
  - rewrite (merge_message_eq order report file g _ prev) by done.
    by rewrite forced_running.
  - done.
  - by apply merged_report.
Qed.

(** The images of a report are desired as they are. *)
Definition qualified `{ReferencePkg} (cfg : Config) (i : Image) : Prop :=
  has_byte ":" (Version i) = false
  ∧ ParseFQIN (Name i) (DefaultContainerRegistryDomain cfg) = Ret (Name i).

Lemma report_desired `{ReferencePkg} cfg imgs L :
  imgs ≡ₚ map image_identifier L → (∀ i, i ∈ L → qualified cfg i) →
  ∃ D, desired cfg {| State := NodeStateRunning; Images := Some imgs |} = Ret D ∧ D ≡ₚ L.
Proof.
  intros Hi Hq. exists (map image_of imgs). split.
  - unfold desired. cbn [image_list Images default].
    rewrite <- (map_id (map image_of imgs)) at 1. rewrite map_id.
    rewrite (mapM_outcome_pure _ (λ i, i)); [by rewrite map_id |].
    intros i (str & -> & Hstr)%list_elem_of_fmap. rewrite Hi in Hstr.
    apply list_elem_of_fmap in Hstr as (j & -> & Hj). destruct (Hq j Hj) as [Hv Hfqin].
    rewrite image_of_identifier by done. unfold qualify. rewrite Hfqin. by destruct j.
  - rewrite (Permutation_map image_of Hi), map_map. apply Permutation_refl'.
    clear Hi. induction L as [| i L IH]; [done |]. cbn [map].
    rewrite image_of_identifier by (apply Hq, list_elem_of_here).
    by rewrite IH by auto using list_elem_of_further.
Qed.

(** C26. A node's own report does it no harm.  The control plane relays the
    report of a node back to it, and its main loop processes it like an order;
    as long as the same containers run, whatever happened in between, this
    announces nothing and changes nothing - provided that the names of the
    running images are fully qualified and that no image name runs twice.
    (With other containers it undoes what was deployed since:
    [stale_report_is_deployed].) *)
Theorem own_report_changes_nothing `{ReferencePkg} {S} `{LawfulManager S} cfg (s s' : S) :
  utf8 (NodeHostname cfg) →
  Forall utf8 (map image_identifier (managed_images (running s))) →
  (∀ i, i ∈ managed_images (running s) → qualified cfg i) →
  NoDup (map Name (managed_images (running s))) → running s' ≡ₚ running s →
  ∃ report s1 s'', report_state cfg s = (Ret (Some report), s1)
    ∧ main_message cfg report s' = (Ret (), s'', []) ∧ running s'' ≡ₚ running s'.
Proof.
  intros Hh Hu Hq Hnames Hrun.
  destruct (report_lists_running cfg s Hh Hu) as (report & s1 & imgs & Hrep & _ & Himgs & Hjson).
  destruct (report_desired cfg imgs _ Himgs Hq) as (D & HD & HDp).
  destruct (process_stable cfg {[NodeHostname cfg := {| State := NodeStateRunning; Images := Some imgs |}]}
    {| State := NodeStateRunning; Images := Some imgs |} s' D []) as (s'' & Hproc & Hrun').
  { apply lookup_singleton_eq. }
  { done. }
  { by rewrite HDp. }
  { by intros i ?%elem_of_nil. }
  { by rewrite app_nil_r, HDp. }
  { by rewrite app_nil_r, HDp, Hrun. }
  exists report, s1, s''. split_and!; [done | by eapply main_message_process | done].
Qed.

(** ** A run with the small manager: version 1 of an application is replaced by
    version 2, and the report overwrites the old entry of the file. *)
Definition sample_desired : DeploymentConfig := toy_node ["gcr.io/app:v2"].
Definition sample_text : string := MarshalIndent (deployment_to_json sample_desired).
Definition sample_previous : DeploymentConfig :=
  {[ "hpc-1" := {| State := NodeStateRunning; Images := Some ["gcr.io/app:v1"] |} ]}.
Definition sample_running : list Container :=
  [up_container "gcr.io/app:v1"; up_container "docker.io/envoyproxy/envoy:v1"].
Definition sample_goal : list Image := [{| Name := "gcr.io/app"; Version := "v2" |}].

Lemma desired_state_takes_effect_witness :
  let goal := (sample_goal ++ other_middleware sample_goal (managed_images (toy_running sample_running)))%list in
  (@handle_desired familiar_reference _ toy_manager toy_config "" sample_text sample_running).2
    = [desired_message sample_text]
  ∧ ∃ s' out report s'' imgs actual text,
      @main_message familiar_reference _ toy_manager toy_config (desired_message sample_text)
        sample_running = (Ret (), s', out)
      ∧ managed_images (toy_running s') ≡ₚ goal
      ∧ @report_state _ toy_manager toy_config s' = (Ret (Some report), s'')
      ∧ imgs ≡ₚ map image_identifier goal
      ∧ merge_message map_to_list report (JSON (Some sample_previous)) ∅ =
          Ret (collected {[ "hpc-1" := {| State := NodeStateRunning; Images := Some imgs |} ]} ∅,
               0, Some text)
      ∧ JSON (Some actual) = Ret text
      ∧ node_of actual "hpc-1" = {| State := NodeStateRunning; Images := Some imgs |}.
Proof.
  apply (@desired_state_takes_effect familiar_reference _ toy_manager _ toy_manager toy_lawful
    toy_config toy_config sample_desired sample_previous ∅
    {| State := NodeStateRunning; Images := Some ["gcr.io/app:v2"] |} sample_goal "" sample_text
    (JSON (Some sample_previous)) map_to_list sample_running sample_running).
  - done.
  - intros h n Hn. unfold sample_desired, toy_node in Hn.
    apply lookup_singleton_Some in Hn as [<- <-].
    split; [by apply utf8_ascii |]. split; [by apply utf8_ascii |].
    apply Forall_singleton. by apply utf8_ascii.
  - by vm_compute.
  - done.
  - by vm_compute.
  - decide_vm.
  - intros i Hi. destruct (middleware i) eqn:Hm; [| apply toy_available].
    apply list_elem_of_singleton in Hi as ->. by vm_compute in Hm.
  - decide_vm.
  - decide_vm.
  - match goal with |- Forall _ ?l =>
      assert (l = ["gcr.io/app:v2"; "docker.io/envoyproxy/envoy:v1"]) as -> by by vm_compute
    end.
    apply Forall_cons_2; [by apply utf8_ascii |]. apply Forall_singleton. by apply utf8_ascii.
  - apply ranges_canonical.
  - by vm_compute.
  - by vm_compute.
Defined.

(** The report lists the application and Envoy; a container that has exited
    meanwhile does not matter. *)
Lemma own_report_changes_nothing_witness :
  let exited := {| ID := "1"; FirstName := "/once"; Container_Image := "gcr.io/once:v1"; Ports := "";
                   Status := "Exited (0) 2 minutes ago" |} in
  ∃ report s1 s'',
    @report_state _ toy_manager toy_config sample_running = (Ret (Some report), s1)
    ∧ @main_message familiar_reference _ toy_manager toy_config report (exited :: sample_running)
        = (Ret (), s'', [])
    ∧ toy_running s'' ≡ₚ toy_running (exited :: sample_running).
Proof.
  intros exited.
  assert (Himg : managed_images (toy_running sample_running)
    = map image_of ["gcr.io/app:v1"; "docker.io/envoyproxy/envoy:v1"]) by by vm_compute.
  apply (@own_report_changes_nothing familiar_reference _ toy_manager toy_lawful toy_config
    sample_running (exited :: sample_running)).
  - by apply utf8_ascii.
  - change (@running _ toy_manager toy_lawful) with toy_running. rewrite Himg.
    repeat apply Forall_cons_2; [by apply utf8_ascii | by apply utf8_ascii | done].
  - intros i. change (@running _ toy_manager toy_lawful) with toy_running. rewrite Himg. cbn [map].
    rewrite !elem_of_cons, elem_of_nil. intros [-> | [-> | []]]; split; by vm_compute.
  - decide_vm.
  - done.
Defined.
