(* ===== verification/NodeProgram.v ===== *)
(** The goroutines of an orchestrator ([cmd/carisma-orchestrator/app/app.go]):
    the main loop, the ticker, and on a central node the handler of the file of
    the desired state and the goroutine that collects reports.

    They share the container manager, and the main loop and the collecting
    goroutine receive from the same stream.  [process] is split into the calls
    of the manager it makes: an [activity] is a call of [process] in progress,
    and its steps are the points at which goroutines interleave.  A panic of
    any goroutine ends the program. *)
From S2P Require Import Prelude GoStrings Json JsonParse Deployment DeploymentJson Config Container NodeRegistry Orchestrator OrchestratorApp.

Local Open Scope list_scope.

(** ** [process], call by call *)

(** About to list the containers; with images still to remove, or to remove
    without verification after a failure, and the images to install then; with
    images still to install; returned. *)
Inductive activity :=
| Listing (node : NodeConfig)
| Removing (removedImages newImages : list Image)
| Retrying (i : Image) (removedImages newImages : list Image)
| Installing (newImages : list Image)
| Ended (r : outcome unit).

Definition start (cfg : Config) (dplmCfg : DeploymentConfig) : activity :=
  match dplmCfg !! NodeHostname cfg with
  | Some node => Listing node
  | None => Ended (Ret ())
  end.

Section work.
Context `{ReferencePkg} {S : Type} `{Manager S}.

(** One step: at most one call of the manager. *)
Definition work (cfg : Config) (act : activity) (s : S) : activity * S * list announcement :=
  match act with
  | Listing node =>
      match Containers s with
      | (Fail err, s) => (Ended (Fail err), s, [])
      | (Panic p, s) => (Ended (Panic p), s, [])
      | (Ret currContainers, s) =>
          (match plan cfg node currContainers with
           | Fail err => Ended (Fail err)
           | Panic p => Ended (Panic p)
           | Ret (removedImages, newImages) => Removing removedImages newImages
           end, s, [])
      end
  | Removing [] newImages => (Installing newImages, s, [])
  | Removing (i :: removedImages) newImages =>
      match is_middleware i with
      | Ret true => (Removing removedImages newImages, s, [])
      | Ret false =>
          match RemoveImageAndContainer (image_identifier i) true s with
          | (Ret (bundleID, servicePort), s) =>
              (Removing removedImages newImages, s, [AnnounceUnregistered bundleID servicePort])
          | (Fail err, s) => (Retrying i removedImages newImages, s, [])
          | (Panic p, s) => (Ended (Panic p), s, [])
          end
      | Fail err => (Ended (Fail err), s, [])
      | Panic p => (Ended (Panic p), s, [])
      end
  | Retrying i removedImages newImages =>
      match RemoveImageAndContainer (image_identifier i) false s with
      | (Panic p, s) => (Ended (Panic p), s, [])
      | (_, s) => (Removing removedImages newImages, s, [])
      end
  | Installing [] => (Ended (Ret ()), s, [])
  | Installing (i :: newImages) =>
      match PullImageAndCreateContainer (image_identifier i) [] ∅ true s with
      | (Ret (bundleID, servicePort), s) =>
          (Installing newImages, s, [AnnounceRegistered bundleID servicePort])
      | (Fail err, s) => (Installing newImages, s, [])
      | (Panic p, s) => (Ended (Panic p), s, [])
      end
  | Ended r => (Ended r, s, [])
  end.

(** An activity that is not disturbed. *)
Fixpoint undisturbed (n : nat) (cfg : Config) (act : activity) (s : S)
    : activity * S * list announcement :=
  match n with
  | 0 => (act, s, [])
  | Datatypes.S n =>
      let '(act, s, out) := work cfg act s in
      let '(act, s, out') := undisturbed n cfg act s in (act, s, out ++ out')
  end.

(** ** The program *)

(** The deferred calls of [Run] that are still to come. *)
Inductive stage := StopEnvoy | CloseManager | Returned.

(** The main loop and the handler are idle or have an activity.  [leaving] is
    [None] as long as [Run] is in its main loop, and then the result it will
    return with and how far its deferred calls are; [over] is the result once
    the program has ended.  [actual_file] is what reading the file of the
    actual state answers; [delivered], [main_got] and [collect_got] record the
    messages of the stream and who received them, [outbox] and [announced] the
    arguments of [Send] on the two streams. *)
Record Program := {
  manager : S;
  main : option activity;
  handler : option activity;
  leaving : option (outcome unit * stage);
  globalActual : DeploymentConfig;
  actual_file : outcome string;
  unwritten : bool;            (* a write of the file has failed *)
  forced_diffs : nat;
  collecting : bool;           (* the collecting goroutine runs *)
  ticking : bool;              (* the goroutine of the ticker runs *)
  inbox : list DeploymentConfiguration;
  outbox : list DeploymentConfiguration;
  announced : list announcement;
  over : option (outcome unit);
  delivered : list DeploymentConfiguration;
  main_got : list DeploymentConfiguration;
  collect_got : list DeploymentConfiguration;
}.

Definition started (s : S) (file : outcome string) : Program :=
  {| manager := s; main := None; handler := None; leaving := None; globalActual := ∅;
     actual_file := file; unwritten := false; forced_diffs := 0; collecting := true;
     ticking := true; inbox := []; outbox := []; announced := []; over := None;
     delivered := []; main_got := []; collect_got := [] |}.

(** Assignments. *)
Definition set_manager (x : S) (st : Program) : Program :=
  {| manager := x; main := main st; handler := handler st; leaving := leaving st;
     globalActual := globalActual st; actual_file := actual_file st; unwritten := unwritten st;
     forced_diffs := forced_diffs st; collecting := collecting st; ticking := ticking st;
     inbox := inbox st; outbox := outbox st; announced := announced st; over := over st;
     delivered := delivered st; main_got := main_got st; collect_got := collect_got st |}.
Definition set_main (x : option activity) (st : Program) : Program :=
  {| manager := manager st; main := x; handler := handler st; leaving := leaving st;
     globalActual := globalActual st; actual_file := actual_file st; unwritten := unwritten st;
     forced_diffs := forced_diffs st; collecting := collecting st; ticking := ticking st;
     inbox := inbox st; outbox := outbox st; announced := announced st; over := over st;
     delivered := delivered st; main_got := main_got st; collect_got := collect_got st |}.
Definition set_handler (x : option activity) (st : Program) : Program :=
  {| manager := manager st; main := main st; handler := x; leaving := leaving st;
     globalActual := globalActual st; actual_file := actual_file st; unwritten := unwritten st;
     forced_diffs := forced_diffs st; collecting := collecting st; ticking := ticking st;
     inbox := inbox st; outbox := outbox st; announced := announced st; over := over st;
     delivered := delivered st; main_got := main_got st; collect_got := collect_got st |}.
Definition set_leaving (x : option (outcome unit * stage)) (st : Program) : Program :=
  {| manager := manager st; main := main st; handler := handler st; leaving := x;
     globalActual := globalActual st; actual_file := actual_file st; unwritten := unwritten st;
     forced_diffs := forced_diffs st; collecting := collecting st; ticking := ticking st;
     inbox := inbox st; outbox := outbox st; announced := announced st; over := over st;
     delivered := delivered st; main_got := main_got st; collect_got := collect_got st |}.
Definition set_globalActual (x : DeploymentConfig) (st : Program) : Program :=
  {| manager := manager st; main := main st; handler := handler st; leaving := leaving st;
     globalActual := x; actual_file := actual_file st; unwritten := unwritten st;
     forced_diffs := forced_diffs st; collecting := collecting st; ticking := ticking st;
     inbox := inbox st; outbox := outbox st; announced := announced st; over := over st;
     delivered := delivered st; main_got := main_got st; collect_got := collect_got st |}.
Definition set_actual_file (x : outcome string) (st : Program) : Program :=
  {| manager := manager st; main := main st; handler := handler st; leaving := leaving st;
     globalActual := globalActual st; actual_file := x; unwritten := unwritten st;
     forced_diffs := forced_diffs st; collecting := collecting st; ticking := ticking st;
     inbox := inbox st; outbox := outbox st; announced := announced st; over := over st;
     delivered := delivered st; main_got := main_got st; collect_got := collect_got st |}.
Definition set_unwritten (x : bool) (st : Program) : Program :=
  {| manager := manager st; main := main st; handler := handler st; leaving := leaving st;
     globalActual := globalActual st; actual_file := actual_file st; unwritten := x;
     forced_diffs := forced_diffs st; collecting := collecting st; ticking := ticking st;
     inbox := inbox st; outbox := outbox st; announced := announced st; over := over st;
     delivered := delivered st; main_got := main_got st; collect_got := collect_got st |}.
Definition set_forced_diffs (x : nat) (st : Program) : Program :=
  {| manager := manager st; main := main st; handler := handler st; leaving := leaving st;
     globalActual := globalActual st; actual_file := actual_file st; unwritten := unwritten st;
     forced_diffs := x; collecting := collecting st; ticking := ticking st; inbox := inbox st;
     outbox := outbox st; announced := announced st; over := over st; delivered := delivered st;
     main_got := main_got st; collect_got := collect_got st |}.
Definition set_collecting (x : bool) (st : Program) : Program :=
  {| manager := manager st; main := main st; handler := handler st; leaving := leaving st;
     globalActual := globalActual st; actual_file := actual_file st; unwritten := unwritten st;
     forced_diffs := forced_diffs st; collecting := x; ticking := ticking st; inbox := inbox st;
     outbox := outbox st; announced := announced st; over := over st; delivered := delivered st;
     main_got := main_got st; collect_got := collect_got st |}.
Definition set_ticking (x : bool) (st : Program) : Program :=
  {| manager := manager st; main := main st; handler := handler st; leaving := leaving st;
     globalActual := globalActual st; actual_file := actual_file st; unwritten := unwritten st;
     forced_diffs := forced_diffs st; collecting := collecting st; ticking := x;
     inbox := inbox st; outbox := outbox st; announced := announced st; over := over st;
     delivered := delivered st; main_got := main_got st; collect_got := collect_got st |}.
Definition set_inbox (x : list DeploymentConfiguration) (st : Program) : Program :=
  {| manager := manager st; main := main st; handler := handler st; leaving := leaving st;
     globalActual := globalActual st; actual_file := actual_file st; unwritten := unwritten st;
     forced_diffs := forced_diffs st; collecting := collecting st; ticking := ticking st;
     inbox := x; outbox := outbox st; announced := announced st; over := over st;
     delivered := delivered st; main_got := main_got st; collect_got := collect_got st |}.
Definition set_outbox (x : list DeploymentConfiguration) (st : Program) : Program :=
  {| manager := manager st; main := main st; handler := handler st; leaving := leaving st;
     globalActual := globalActual st; actual_file := actual_file st; unwritten := unwritten st;
     forced_diffs := forced_diffs st; collecting := collecting st; ticking := ticking st;
     inbox := inbox st; outbox := x; announced := announced st; over := over st;
     delivered := delivered st; main_got := main_got st; collect_got := collect_got st |}.
Definition set_announced (x : list announcement) (st : Program) : Program :=
  {| manager := manager st; main := main st; handler := handler st; leaving := leaving st;
     globalActual := globalActual st; actual_file := actual_file st; unwritten := unwritten st;
     forced_diffs := forced_diffs st; collecting := collecting st; ticking := ticking st;
     inbox := inbox st; outbox := outbox st; announced := x; over := over st;
     delivered := delivered st; main_got := main_got st; collect_got := collect_got st |}.
Definition set_over (x : option (outcome unit)) (st : Program) : Program :=
  {| manager := manager st; main := main st; handler := handler st; leaving := leaving st;
     globalActual := globalActual st; actual_file := actual_file st; unwritten := unwritten st;
     forced_diffs := forced_diffs st; collecting := collecting st; ticking := ticking st;
     inbox := inbox st; outbox := outbox st; announced := announced st; over := x;
     delivered := delivered st; main_got := main_got st; collect_got := collect_got st |}.
Definition set_delivered (x : list DeploymentConfiguration) (st : Program) : Program :=
  {| manager := manager st; main := main st; handler := handler st; leaving := leaving st;
     globalActual := globalActual st; actual_file := actual_file st; unwritten := unwritten st;
     forced_diffs := forced_diffs st; collecting := collecting st; ticking := ticking st;
     inbox := inbox st; outbox := outbox st; announced := announced st; over := over st;
     delivered := x; main_got := main_got st; collect_got := collect_got st |}.
Definition set_main_got (x : list DeploymentConfiguration) (st : Program) : Program :=
  {| manager := manager st; main := main st; handler := handler st; leaving := leaving st;
     globalActual := globalActual st; actual_file := actual_file st; unwritten := unwritten st;
     forced_diffs := forced_diffs st; collecting := collecting st; ticking := ticking st;
     inbox := inbox st; outbox := outbox st; announced := announced st; over := over st;
     delivered := delivered st; main_got := x; collect_got := collect_got st |}.
Definition set_collect_got (x : list DeploymentConfiguration) (st : Program) : Program :=
  {| manager := manager st; main := main st; handler := handler st; leaving := leaving st;
     globalActual := globalActual st; actual_file := actual_file st; unwritten := unwritten st;
     forced_diffs := forced_diffs st; collecting := collecting st; ticking := ticking st;
     inbox := inbox st; outbox := outbox st; announced := announced st; over := over st;
     delivered := delivered st; main_got := main_got st; collect_got := x |}.

Definition announce (out : list announcement) (st : Program) : Program :=
  set_announced (announced st ++ out) st.
Definition send (ms : list DeploymentConfiguration) (st : Program) : Program :=
  set_outbox (outbox st ++ ms) st.

(** A message arrives on the stream. *)
Definition deliver (msg : DeploymentConfiguration) (st : Program) : Program :=
  set_inbox (inbox st ++ [msg]) (set_delivered (delivered st ++ [msg]) st).

(** The activity for a text, if it can be read. *)
Definition activity_for (cfg : Config) (text : string) : option activity :=
  match DeploymentConfigFromJSON text with
  | (_, Some err) => None
  | (dplmCfg, None) => Some (start cfg (default ∅ dplmCfg))
  end.

(** The main loop receives a message. *)
Definition main_recv (cfg : Config) (msg : DeploymentConfiguration)
    (rest : list DeploymentConfiguration) (st : Program) : Program :=
  set_main (activity_for cfg (Json msg)) (set_inbox rest (set_main_got (main_got st ++ [msg]) st)).

(** What is left of an activity: a result is logged, a panic is not recovered. *)
Definition remaining (act : activity) : option activity :=
  match act with Ended _ => None | _ => Some act end.
Definition crash_of (act : activity) : option panic :=
  match act with Ended (Panic p) => Some p | _ => None end.

(** A panic of the main goroutine runs its deferred calls. *)
Definition main_work (cfg : Config) (act : activity) (st : Program) : Program :=
  let '(act, s, out) := work cfg act (manager st) in
  set_leaving match crash_of act with Some p => Some (Panic p, StopEnvoy) | None => leaving st end
    (set_main (remaining act) (announce out (set_manager s st))).

(** The main loop leaves: [stream.Recv()] returned an error. *)
Definition main_end (st : Program) : Program := set_leaving (Some (Ret (), StopEnvoy)) st.

(** The next deferred call; after the last one the program ends. *)
Definition deferred (cfg : Config) (r : outcome unit) (g : stage) (st : Program) : Program :=
  match g with
  | StopEnvoy =>
      let '(e, s) := stopEnvoy cfg (manager st) in
      set_leaving (Some (after_deferred e r, CloseManager)) (set_manager s st)
  | CloseManager =>
      let '(e, s) := Close (manager st) in
      set_over (Some (after_deferred e r))
        (set_leaving (Some (after_deferred e r, Returned)) (set_manager s st))
  | Returned => st
  end.

(** A panic of another goroutine ends the program at once. *)
Definition crash (p : option panic) (st : Program) : Program :=
  set_over (Panic <$> p) st.

Definition handler_work (cfg : Config) (act : activity) (st : Program) : Program :=
  let '(act, s, out) := work cfg act (manager st) in
  crash (crash_of act) (set_handler (remaining act) (announce out (set_manager s st))).

(** The handler is called with the contents [a] and [b]. *)
Definition handler_call (cfg : Config) (a b : string) (st : Program) : Program :=
  let act := if (a =? b)%string then None else activity_for cfg b in
  set_handler act
    (send match act with Some _ => [{| Json := b; StateType := STATE_TYPE_DESIRED |}] | None => [] end
       st).

(** What reading the file answers after the write of [text]: the text, or
    after an error [w] whatever is left of the file. *)
Definition write_file (text : option string) (w : option (outcome string)) (st : Program) : Program :=
  match text, w with
  | None, _ => st
  | Some text, None => set_actual_file (Ret text) st
  | Some _, Some answer => set_unwritten true (set_actual_file answer st)
  end.

(** The collecting goroutine receives a message. *)
Definition collect (order : DeploymentConfig → list (string * NodeConfig))
    (w : option (outcome string)) (msg : DeploymentConfiguration)
    (rest : list DeploymentConfiguration) (st : Program) : Program :=
  let st := set_inbox rest (set_collect_got (collect_got st ++ [msg]) st) in
  match merge_message order msg (actual_file st) (globalActual st) with
  | Ret (g, n, text) =>
      write_file text w (set_globalActual g (set_forced_diffs (forced_diffs st + n) st))
  | Fail _ => st
  | Panic p => crash (Some p) st
  end.

(** A tick: the goroutine returns when the containers cannot be listed. *)
Definition tick (cfg : Config) (st : Program) : Program :=
  let '(r, s) := report_state cfg (manager st) in
  crash match r with Panic p => Some p | _ => None end
    (send match r with Ret (Some m) => [m] | _ => [] end
      (set_ticking (negb (is_fail (Containers (manager st)).1)) (set_manager s st))).

(** When [Run] leaves its main loop it calls [stop()]: from then on calls with
    the context [ctx] fail, and the goroutine of the ticker and a call of
    [process] by the handler end. *)
Inductive program_step (cfg : Config) : Program → Program → Prop :=
| step_deliver st msg : over st = None → program_step cfg st (deliver msg st)
| step_main_recv st msg rest :
    over st = None → leaving st = None → main st = None → inbox st = msg :: rest →
    program_step cfg st (main_recv cfg msg rest st)
| step_main_work st act :
    over st = None → main st = Some act → program_step cfg st (main_work cfg act st)
| step_main_end st :
    over st = None → leaving st = None → main st = None → program_step cfg st (main_end st)
| step_deferred st r g :
    over st = None → leaving st = Some (r, g) → program_step cfg st (deferred cfg r g st)
| step_handler_call st a b :
    over st = None → EnableCentralMode cfg = true → handler st = None →
    program_step cfg st (handler_call cfg a b st)
| step_handler_work st act :
    over st = None → handler st = Some act → program_step cfg st (handler_work cfg act st)
| step_handler_cancelled st g :
    over st = None → leaving st = Some (Ret (), g) → program_step cfg st (set_handler None st)
| step_collect st order w msg rest :
    over st = None → EnableCentralMode cfg = true → collecting st = true →
    (∀ d, ranges d (order d)) → inbox st = msg :: rest →
    program_step cfg st (collect order w msg rest st)
| step_collect_end st :
    over st = None → EnableCentralMode cfg = true → program_step cfg st (set_collecting false st)
| step_tick st :
    over st = None → ticking st = true → program_step cfg st (tick cfg st)
| step_tick_cancelled st g :
    over st = None → leaving st = Some (Ret (), g) → program_step cfg st (set_ticking false st).

(** [Run] is in its main loop. *)
Definition serving (st : Program) : Prop := over st = None ∧ leaving st = None.
End work.
Arguments Program : clear implicits.

(** ** Undisturbed activities *)
Section undisturbed_lemmas.
Context `{ReferencePkg} {S : Type} `{Manager S}.
Implicit Types (s : S).

Lemma undisturbed_S n cfg act s act' s' out :
  work cfg act s = (act', s', out) →
  undisturbed (Datatypes.S n) cfg act s =
    let '(act, s, out') := undisturbed n cfg act' s' in (act, s, out ++ out').
Proof. intros E. cbn [undisturbed]. by rewrite E. Qed.

Lemma undisturbed_ended n cfg r s : undisturbed n cfg (Ended r) s = (Ended r, s, []).
Proof. induction n as [| n IH]; [done |]. cbn [undisturbed work]. by rewrite IH. Qed.

(** The activity returns [r], in the state [s'] and with the announcements
    [out], after some number of steps, and does nothing from then on. *)
Definition finishes cfg (act : activity) (s : S) (r : outcome unit) (s' : S)
    (out : list announcement) : Prop :=
  ∃ n, ∀ k, undisturbed (n + k) cfg act s = (Ended r, s', out).

Lemma finishes_ended cfg r s : finishes cfg (Ended r) s r s [].
Proof. exists 0. intros k. apply undisturbed_ended. Qed.

Lemma finishes_step cfg act s act' s1 out1 r s' out :
  work cfg act s = (act', s1, out1) → finishes cfg act' s1 r s' out →
  finishes cfg act s r s' (out1 ++ out).
Proof.
  intros E [n Hn]. exists (Datatypes.S n). intros k.
  change (Datatypes.S n + k) with (Datatypes.S (n + k)).
  by rewrite (undisturbed_S _ _ _ _ _ _ _ E), Hn.
Qed.

Lemma finishes_step_nil cfg act s act' s1 r s' out :
  work cfg act s = (act', s1, []) → finishes cfg act' s1 r s' out → finishes cfg act s r s' out.
Proof. apply (finishes_step cfg act s act' s1 []). Qed.

Lemma finishes_functional cfg act s r1 s1 out1 r2 s2 out2 :
  finishes cfg act s r1 s1 out1 → finishes cfg act s r2 s2 out2 →
  r1 = r2 ∧ s1 = s2 ∧ out1 = out2.
Proof.
  intros [n1 H1] [n2 H2]. specialize (H1 n2). specialize (H2 n1).
  rewrite Nat.add_comm in H2. rewrite H1 in H2. by simplify_eq.
Qed.

Lemma finishes_installing cfg images s :
  let '(r, s', out) := for_images install_image images s in
  finishes cfg (Installing images) s r s' out.
Proof.
  revert s. induction images as [| i images IH]; intros s; cbn [for_images].
  { eapply finishes_step_nil; [done | apply finishes_ended]. }
  unfold install_image at 1.
  destruct (PullImageAndCreateContainer (image_identifier i) [] ∅ true s)
    as [[[bundleID servicePort] | err | p] s1] eqn:E; cbn.
  - specialize (IH s1). destruct (for_images install_image images s1) as [[r s'] out]; cbn.
    eapply (finishes_step _ _ _ _ _ [_]); [cbn; by rewrite E | done].
  - specialize (IH s1). destruct (for_images install_image images s1) as [[r s'] out]; cbn.
    eapply finishes_step_nil; [cbn; by rewrite E | done].
  - eapply finishes_step_nil; [cbn; by rewrite E | apply finishes_ended].
Qed.

Lemma finishes_remove_one cfg i images new s :
  let '(r, s1, out1) := remove_image i s in
  match r with
  | Ret _ => ∀ r' s' out, finishes cfg (Removing images new) s1 r' s' out →
               finishes cfg (Removing (i :: images) new) s r' s' (out1 ++ out)
  | _ => finishes cfg (Removing (i :: images) new) s r s1 out1
  end.
Proof.
  unfold remove_image. destruct (is_middleware i) as [[] | err | p] eqn:Hi.
  - intros r' s' out Hf. eapply finishes_step_nil; [cbn; by rewrite Hi | exact Hf].
  - destruct (RemoveImageAndContainer (image_identifier i) true s)
      as [[[bundleID servicePort] | err | p] s1] eqn:E.
    + intros r' s' out Hf.
      refine (finishes_step _ _ _ _ _ [_] _ _ _ _ Hf). cbn. by rewrite Hi, E.
    + assert (Hretry : work cfg (Removing (i :: images) new) s = (Retrying i images new, s1, []))
        by (cbn; by rewrite Hi, E).
      destruct (RemoveImageAndContainer (image_identifier i) false s1)
        as [[x | err' | p] s2] eqn:E2.
      * intros r' s' out Hf. eapply finishes_step_nil; [exact Hretry |].
        eapply finishes_step_nil; [cbn; by rewrite E2 | exact Hf].
      * intros r' s' out Hf. eapply finishes_step_nil; [exact Hretry |].
        eapply finishes_step_nil; [cbn; by rewrite E2 | exact Hf].
      * eapply finishes_step_nil; [exact Hretry |].
        eapply finishes_step_nil; [cbn; by rewrite E2 | apply finishes_ended].
    + eapply finishes_step_nil; [cbn; by rewrite Hi, E | apply finishes_ended].
  - eapply finishes_step_nil; [cbn; by rewrite Hi | apply finishes_ended].
  - eapply finishes_step_nil; [cbn; by rewrite Hi | apply finishes_ended].
Qed.

Lemma finishes_removing cfg images new s :
  let '(r, s1, out1) := for_images remove_image images s in
  match r with
  | Ret _ => ∀ r' s' out, finishes cfg (Installing new) s1 r' s' out →
               finishes cfg (Removing images new) s r' s' (out1 ++ out)
  | _ => finishes cfg (Removing images new) s r s1 out1
  end.
Proof.
  revert s. induction images as [| i images IH]; intros s; cbn [for_images].
  { intros r' s' out Hf. by eapply finishes_step_nil. }
  assert (H1 := finishes_remove_one cfg i images new s).
  destruct (remove_image i s) as [[[u | err | p] s1] out1]; [| exact H1 | exact H1].
  specialize (IH s1). destruct (for_images remove_image images s1) as [[[u' | err | p] s2] out2].
  - intros r' s' out Hf. rewrite <- app_assoc. by apply H1, IH.
  - by apply H1.
  - by apply H1.
Qed.

(** An undisturbed call of [process] does what [process] does. *)
Lemma finishes_process cfg d s :
  let '(r, s', out) := process cfg d s in finishes cfg (start cfg d) s r s' out.
Proof.
  unfold process, start. destruct (d !! NodeHostname cfg) as [node |]; [| apply finishes_ended].
  destruct (Containers s) as [[cs | err | p] s1] eqn:E;
    try (eapply finishes_step_nil; [cbn; by rewrite E | apply finishes_ended]).
  destruct (plan cfg node cs) as [[removed new] | err | p] eqn:Hp;
    try (eapply finishes_step_nil; [cbn; by rewrite E, Hp | apply finishes_ended]).
  assert (Hr := finishes_removing cfg removed new s1).
  destruct (for_images remove_image removed s1) as [[[u | err | p] s2] out].
  - assert (Hi := finishes_installing cfg new s2).
    destruct (for_images install_image new s2) as [[r s'] out'].
    eapply finishes_step_nil; [cbn; by rewrite E, Hp | by apply Hr].
  - eapply finishes_step_nil; [cbn; by rewrite E, Hp | done].
  - eapply finishes_step_nil; [cbn; by rewrite E, Hp | done].
Qed.
End undisturbed_lemmas.

(** ** The main loop, message by message *)
Section main_loop_lemmas.
Context `{ReferencePkg} {S : Type} `{Manager S}.
Implicit Types (s : S).

(** An error of [process] is logged, a panic is not recovered. *)
Definition logged (r : outcome unit) : outcome unit :=
  match r with Panic p => Panic p | _ => Ret () end.

Lemma main_loop_snoc cfg got msg s s1 out1 r s2 out2 :
  main_loop cfg (map RecvMsg got) s = (Ret (), s1, out1) →
  main_message cfg msg s1 = (logged r, s2, out2) →
  main_loop cfg (map RecvMsg (got ++ [msg])) s = (logged r, s2, out1 ++ out2).
Proof.
  revert s out1. induction got as [| m got IH]; intros s out1 Hgot Hmsg; simpl in *.
  { simplify_eq. rewrite Hmsg. by destruct r; cbn; rewrite ?app_nil_r. }
  destruct (main_message cfg m s) as [[[u | e | p] sm] outm]; [| done | done].
  destruct (main_loop cfg (map RecvMsg got) sm) as [[rr sr] outr] eqn:E. simplify_eq.
  rewrite (IH _ _ E Hmsg). by rewrite app_assoc.
Qed.

(** The error that ends the loop changes nothing. *)
Lemma main_loop_end cfg got err s :
  main_loop cfg (map RecvMsg got ++ [RecvErr err]) s = main_loop cfg (map RecvMsg got) s.
Proof.
  revert s. induction got as [| m got IH]; intros s; [done |]. cbn.
  destruct (main_message cfg m s) as [[[u | e | p] sm] outm]; [by rewrite IH | done | done].
Qed.

(** A message that cannot be read is skipped; another one is an activity whose
    result is that of the message. *)
Lemma activity_for_None cfg msg s :
  activity_for cfg (Json msg) = None → main_message cfg msg s = (Ret (), s, []).
Proof.
  unfold activity_for, main_message.
  by destruct (DeploymentConfigFromJSON (Json msg)) as [d [e |]].
Qed.

Lemma activity_for_finishes cfg msg act s r s' out :
  activity_for cfg (Json msg) = Some act → finishes cfg act s r s' out →
  main_message cfg msg s = (logged r, s', out).
Proof.
  unfold activity_for, main_message.
  destruct (DeploymentConfigFromJSON (Json msg)) as [d [e |]]; [done |].
  intros [= <-] Hf. assert (Hp := finishes_process cfg (default ∅ d) s).
  destruct (process cfg (default ∅ d) s) as [[r1 s1] out1].
  destruct (finishes_functional _ _ _ _ _ _ _ _ _ Hp Hf) as (-> & -> & ->). by destruct r.
Qed.
End main_loop_lemmas.

(** ** Who receives a message *)
Section receivers.
Context `{ReferencePkg} {S : Type} `{Manager S}.
Implicit Types (st : Program S).

(** [l] is an interleaving of [l1] and [l2]. *)
Inductive interleaved {A} : list A → list A → list A → Prop :=
| interleaved_nil : interleaved [] [] []
| interleaved_left l l1 l2 a : interleaved l l1 l2 → interleaved (l ++ [a]) (l1 ++ [a]) l2
| interleaved_right l l1 l2 a : interleaved l l1 l2 → interleaved (l ++ [a]) l1 (l2 ++ [a]).

Definition received_by (st : Program S) : Prop :=
  ∃ l, delivered st = l ++ inbox st ∧ interleaved l (main_got st) (collect_got st).

(** Steps that neither take nor get a message. *)
Definition same_messages (st st' : Program S) : Prop :=
  delivered st' = delivered st ∧ inbox st' = inbox st
  ∧ main_got st' = main_got st ∧ collect_got st' = collect_got st.

Lemma same_messages_received st st' : same_messages st st' → received_by st → received_by st'.
Proof.
  intros (Hd & Hi & Hm & Hc) (l & Hl & Hin). exists l. by rewrite Hd, Hi, Hm, Hc.
Qed.

Lemma main_work_messages cfg act st : same_messages st (main_work cfg act st).
Proof. unfold main_work. by destruct (work cfg act (manager st)) as [[? ?] ?]. Qed.

Lemma handler_work_messages cfg act st : same_messages st (handler_work cfg act st).
Proof. unfold handler_work. by destruct (work cfg act (manager st)) as [[? ?] ?]. Qed.

Lemma deferred_messages cfg r g st : same_messages st (deferred cfg r g st).
Proof.
  unfold deferred. destruct g; [| | done];
    [by destruct (stopEnvoy cfg (manager st)) | by destruct (Close (manager st))].
Qed.

Lemma tick_messages cfg st : same_messages st (tick cfg st).
Proof. unfold tick. by destruct (report_state cfg (manager st)). Qed.

Lemma collect_messages order w msg rest st :
  delivered (collect order w msg rest st) = delivered st
  ∧ inbox (collect order w msg rest st) = rest
  ∧ main_got (collect order w msg rest st) = main_got st
  ∧ collect_got (collect order w msg rest st) = collect_got st ++ [msg].
Proof.
  unfold collect. cbn.
  destruct (merge_message order msg _ _) as [[[g n] [text |]] | e | p]; [by destruct w | done ..].
Qed.

Lemma received_by_step cfg st st' : received_by st → program_step cfg st st' → received_by st'.
Proof.
  intros Hrec Hstep.
  destruct Hstep as [st msg _ | st msg rest _ _ _ Hin | st act _ _ | st _ _ _ | st r g _ _
    | st a b _ _ _ | st act _ _ | st g _ _ | st order w msg rest _ _ _ _ Hin | st _ _ | st _ _
    | st g _ _];
    try by eapply same_messages_received, Hrec.
  - destruct Hrec as (l & Hl & Hi). exists l. cbn. by rewrite Hl, app_assoc.
  - destruct Hrec as (l & Hl & Hi). exists (l ++ [msg]). cbn. rewrite Hl, Hin, <- app_assoc.
    split; [done | by constructor].
  - eapply same_messages_received, Hrec. apply main_work_messages.
  - eapply same_messages_received, Hrec. apply deferred_messages.
  - eapply same_messages_received, Hrec. apply handler_work_messages.
  - destruct Hrec as (l & Hl & Hi). destruct (collect_messages order w msg rest st) as (Hd & Hr & Hm & Hc).
    exists (l ++ [msg]). rewrite Hd, Hr, Hm, Hc, Hl, Hin, <- app_assoc. split; [done | by constructor].
  - eapply same_messages_received, Hrec. apply tick_messages.
Qed.
End receivers.

(** ** A satellite runs the main loop *)
Section satellite.
Context `{ReferencePkg} {S : Type} `{Manager S}.
Context (cfg : Config) (s0 : S).
Context (satellite : EnableCentralMode cfg = false).
Context (listing_pure : ∀ s : S, (Containers s).2 = s).

(** What [main_loop] did with the messages before the one in progress, and
    that completing the activity completes the message. *)
Definition in_progress (st : Program S) : Prop :=
  match main st with
  | None => main_loop cfg (map RecvMsg (main_got st)) s0 = (Ret (), manager st, announced st)
  | Some act =>
      ∃ got msg s1 out1 outp,
        main_got st = got ++ [msg]
        ∧ main_loop cfg (map RecvMsg got) s0 = (Ret (), s1, out1)
        ∧ announced st = out1 ++ outp
        ∧ ∀ r s' out, finishes cfg act (manager st) r s' out →
            main_message cfg msg s1 = (logged r, s', outp ++ out)
  end.

(** The main loop and the deferred calls that were made so far. *)
Definition left_loop (r : outcome unit) (g : stage) (st : Program S) : Prop :=
  let loop := main_loop cfg (map RecvMsg (main_got st)) s0 in
  let now := (r, manager st, announced st) in
  main st = None ∧
  match g with
  | StopEnvoy => loop = now
  | CloseManager => defer_stopEnvoy cfg loop = now
  | Returned => close_manager (defer_stopEnvoy cfg loop) = now ∧ over st = Some r
  end.

Definition satellite_inv (st : Program S) : Prop :=
  handler st = None ∧ collect_got st = []
  ∧ match leaving st with
    | None => over st = None → in_progress st
    | Some (r, g) => left_loop r g st
    end.

Lemma report_state_pure s : (report_state cfg s).2 = s.
Proof.
  unfold report_state. rewrite <- (listing_pure s) at 2.
  by destruct (Containers s) as [[] ?].
Qed.

Lemma in_progress_recv st msg rest :
  main st = None → in_progress st → in_progress (main_recv cfg msg rest st).
Proof.
  unfold in_progress. intros -> Hloop. cbn.
  destruct (activity_for cfg (Json msg)) as [act |] eqn:E.
  - exists (main_got st), msg, (manager st), (announced st), [].
    rewrite app_nil_r. split_and!; [done .. |]. intros r s' out Hf.
    by apply (activity_for_finishes cfg msg act).
  - rewrite (main_loop_snoc _ _ _ _ _ _ (Ret ()) (manager st) [] Hloop) by by apply activity_for_None.
    by rewrite app_nil_r.
Qed.

Lemma in_progress_work st act :
  leaving st = None → main st = Some act → in_progress st →
  match leaving (main_work cfg act st) with
  | None => in_progress (main_work cfg act st)
  | Some (r, g) => left_loop r g (main_work cfg act st)
  end.
Proof.
  unfold in_progress at 1. intros Hl -> (got & msg & s1 & out1 & outp & Hgot & Hloop & Hout & Hfin).
  unfold main_work. destruct (work cfg act (manager st)) as [[act' s'] out] eqn:Hw.
  assert (Hnext : ∀ r s'' out', finishes cfg act' s' r s'' out' →
      main_message cfg msg s1 = (logged r, s'', (outp ++ out) ++ out')).
  { intros r s'' out' Hf. rewrite <- app_assoc. apply Hfin. by eapply finishes_step. }
  unfold in_progress. cbn. rewrite Hl. destruct act' as [n | ri ni | i ri ni | ni | r]; cbn.
  1-4: exists got, msg, s1, out1, (outp ++ out); rewrite Hout, app_assoc; by split_and!.
  specialize (Hnext r s' [] (finishes_ended cfg r s')). rewrite app_nil_r in Hnext.
  assert (Hend := main_loop_snoc _ _ _ _ _ _ _ _ _ Hloop Hnext).
  destruct r as [[] | e | p]; unfold left_loop; cbn; rewrite Hgot, Hout, <- app_assoc; by rewrite Hend.
Qed.

Lemma left_loop_deferred r g st :
  over st = None → left_loop r g st →
  ∃ r' g', leaving (deferred cfg r g st) = Some (r', g') ∧ left_loop r' g' (deferred cfg r g st).
Proof.
  intros Hover [Hm Hloop]. unfold left_loop, deferred. destruct g.
  - destruct (stopEnvoy cfg (manager st)) as [e s'] eqn:E. do 2 eexists. split; [done |].
    split; [done |]. cbn [main_got set_leaving set_manager]. rewrite Hloop.
    cbn [defer_stopEnvoy]. by rewrite E.
  - destruct (Close (manager st)) as [e s'] eqn:E. do 2 eexists. split; [done |].
    split; [done |]. cbn [main_got set_over set_leaving set_manager]. rewrite Hloop.
    cbn [close_manager]. by rewrite E.
  - destruct Hloop. congruence.
Qed.

(** The ticker lists the containers and reports. *)
Lemma satellite_tick st :
  manager (tick cfg st) = manager st ∧ main (tick cfg st) = main st
  ∧ handler (tick cfg st) = handler st ∧ collect_got (tick cfg st) = collect_got st
  ∧ main_got (tick cfg st) = main_got st ∧ announced (tick cfg st) = announced st
  ∧ leaving (tick cfg st) = leaving st.
Proof.
  unfold tick. assert (Hs := report_state_pure (manager st)).
  destruct (report_state cfg (manager st)) as [r s']. simpl in Hs. by subst s'.
Qed.

(** Steps that do not concern the main goroutine. *)
Lemma satellite_inv_frame st st' :
  satellite_inv st → over st = None →
  manager st' = manager st → main st' = main st → handler st' = None →
  collect_got st' = collect_got st → main_got st' = main_got st → announced st' = announced st →
  leaving st' = leaving st → satellite_inv st'.
Proof.
  unfold satellite_inv, left_loop, in_progress.
  intros (Hh & Hcol & Hp) Hover -> -> Hh' -> -> -> ->. split_and!; [done | done |].
  destruct (leaving st) as [[r g] |]; [| by intros _; apply Hp].
  destruct Hp as [Hm Hg]. split; [done |]. destruct g; [done | done |]. destruct Hg. congruence.
Qed.

Lemma satellite_inv_step st st' :
  satellite_inv st → program_step cfg st st' → satellite_inv st'.
Proof.
  intros Hinv Hstep. assert (Hinv' := Hinv). destruct Hinv' as (Hh & Hcol & Hp).
  destruct Hstep as [st msg Hc | st msg rest Hc Hl Hm Hin | st act Hc Hm | st Hc Hl Hm
    | st r g Hc Hl | st a b _ Hcm _ | st act _ Hact | st g Hc _ | st order w msg rest _ Hcm _ _ _
    | st _ Hcm | st Hc _ | st g Hc Hl]; try congruence.
  - by apply (satellite_inv_frame st).
  - rewrite Hl in Hp. split_and!; [done | done |]. cbn. rewrite Hl. intros _.
    apply in_progress_recv; auto.
  - assert (Hl : leaving st = None).
    { destruct (leaving st) as [[r g] |]; [| done]. destruct Hp as [Hno _]. congruence. }
    rewrite Hl in Hp. destruct (main_work_messages cfg act st) as (_ & _ & _ & Hcol').
    split_and!; [| by rewrite Hcol' |].
    { unfold main_work. by destruct (work cfg act (manager st)) as [[? ?] ?]. }
    assert (Hw := in_progress_work st act Hl Hm (Hp Hc)).
    by destruct (leaving (main_work cfg act st)) as [[r g] |].
  - rewrite Hl in Hp. split_and!; [done | done |]. split; [done |]. cbn.
    specialize (Hp Hc). unfold in_progress in Hp. by rewrite Hm in Hp.
  - rewrite Hl in Hp. destruct (left_loop_deferred r g st Hc Hp) as (r' & g' & Hl' & Hp').
    destruct (deferred_messages cfg r g st) as (_ & _ & _ & Hcol').
    split_and!; [| by rewrite Hcol' | by rewrite Hl'].
    unfold deferred. destruct g; [| | done];
      [by destruct (stopEnvoy cfg (manager st)) | by destruct (Close (manager st))].
  - by apply (satellite_inv_frame st).
  - destruct (satellite_tick st) as (? & ? & Hht & ? & ? & ? & ?).
    apply (satellite_inv_frame st); congruence.
  - by apply (satellite_inv_frame st).
Qed.

Lemma satellite_inv_reachable file st :
  rtc (program_step cfg) (started s0 file) st → satellite_inv st.
Proof.
  intros Hr. eapply (rtc_invariant (program_step cfg) satellite_inv); [| exact Hr |].
  - intros x y. apply satellite_inv_step.
  - done.
Qed.
End satellite.
(** On a satellite the main loop gets all messages. *)
Lemma satellite_messages `{ReferencePkg} {S} `{Manager S} cfg (s0 : S) file st :
  EnableCentralMode cfg = false → (∀ s : S, (Containers s).2 = s) →
  rtc (program_step cfg) (started s0 file) st → delivered st = main_got st ++ inbox st.
Proof.
  intros Hc Hpure Hr. destruct (satellite_inv_reachable cfg s0 Hc Hpure file st Hr) as (_ & Hcol & _).
  assert (received_by st) as (l & -> & Hi).
  { eapply (rtc_invariant (program_step cfg)); [apply received_by_step | exact Hr |].
    exists []. split; [done | constructor]. }
  f_equal. clear -Hi Hcol. revert Hcol. induction Hi as [| l l1 l2 a _ IH | l l1 l2 a _ _]; intros E.
  - done.
  - by rewrite IH.
  - by apply app_nil in E as [_ E].
Qed.

(** What the main loop of a satellite has done between two messages. *)
Lemma satellite_main_loop `{ReferencePkg} {S} `{Manager S} cfg (s0 : S) file st :
  EnableCentralMode cfg = false → (∀ s : S, (Containers s).2 = s) →
  rtc (program_step cfg) (started s0 file) st → serving st → main st = None →
  main_loop cfg (map RecvMsg (main_got st)) s0 = (Ret (), manager st, announced st).
Proof.
  intros Hc Hpure Hr [Hover Hleaving] Hm.
  destruct (satellite_inv_reachable cfg s0 Hc Hpure file st Hr) as (_ & _ & Hp).
  rewrite Hleaving in Hp. specialize (Hp Hover). unfold in_progress in Hp. by rewrite Hm in Hp.
Qed.

(** What it has done when [Run] has returned. *)
Lemma satellite_returned `{ReferencePkg} {S} `{Manager S} cfg (s0 : S) file st r :
  EnableCentralMode cfg = false → (∀ s : S, (Containers s).2 = s) →
  rtc (program_step cfg) (started s0 file) st → leaving st = Some (r, Returned) →
  over st = Some r
  ∧ close_manager (defer_stopEnvoy cfg (main_loop cfg (map RecvMsg (main_got st)) s0))
    = (r, manager st, announced st).
Proof.
  intros Hc Hpure Hr Hl.
  destruct (satellite_inv_reachable cfg s0 Hc Hpure file st Hr) as (_ & _ & Hp).
  rewrite Hl in Hp. by destruct Hp as (_ & Hp & Hover).
Qed.

(** ** Properties *)

(** A call of [process] that no other goroutine disturbs does, call by call,
    what [process] does as a whole: after some number of steps the activity
    has returned its result and left its state and its announcements, and the
    steps after that change nothing. *)
Theorem activity_performs_process `{ReferencePkg} {S} `{Manager S} cfg d (s : S) :
  ∃ n, ∀ k, let '(r, s', out) := process cfg d s in
    undisturbed (n + k) cfg (start cfg d) s = (Ended r, s', out).
Proof.
  assert (Hf := finishes_process cfg d s). destruct (process cfg d s) as [[r s'] out]. exact Hf.
Qed.

(** C12. The goroutines of a node without central mode refine [Run].  However
    the ticker, the arrival of messages and the loss of the stream interleave
    with the calls of the main loop, every message was received by the main
    loop in order or still waits; whenever the main loop is between two
    messages the manager and the announcements are those of [main_loop] on the
    messages received; and when the program has returned, its result, the
    manager and the announcements are those of [serve] and the deferred calls
    on these messages and the error that ended the stream - also if a message
    made it panic. *)
Theorem satellite_refines_Run `{ReferencePkg} {S} `{Manager S} cfg (s0 : S) file st :
  EnableCentralMode cfg = false → (∀ s : S, (Containers s).2 = s) →
  rtc (program_step cfg) (started s0 file) st →
  delivered st = main_got st ++ inbox st
  ∧ (serving st → main st = None →
     main_loop cfg (map RecvMsg (main_got st)) s0 = (Ret (), manager st, announced st))
  ∧ ∀ r p err, leaving st = Some (r, Returned) →
      service_channel p = Ret () → node_channel p = Ret () →
      received p = map RecvMsg (main_got st) ++ [RecvErr err] →
      over st = Some r
      ∧ close_manager (defer_stopEnvoy cfg (serve cfg p s0)) = (r, manager st, announced st).
Proof.
  intros Hc Hpure Hr. split_and!.
  - by apply (satellite_messages cfg s0 file).
  - by apply (satellite_main_loop cfg s0 file).
  - intros r p err Hl Hs Hn Hp. unfold serve.
    rewrite Hs, Hn, Hp, Hc, main_loop_end. by apply (satellite_returned cfg s0 file).
Qed.

(** On every node, each message that arrived and was received has gone to
    exactly one of the two receivers, the main loop and the collecting
    goroutine, in its order.  What the main loop received the collecting
    goroutine never merges into the file of the actual state. *)
Theorem each_message_has_one_receiver `{ReferencePkg} {S} `{Manager S} cfg (s0 : S) file st :
  rtc (program_step cfg) (started s0 file) st →
  ∃ l, delivered st = l ++ inbox st ∧ interleaved l (main_got st) (collect_got st).
Proof.
  intros Hr. eapply (rtc_invariant (program_step cfg) received_by); [| exact Hr |].
  - intros x y. apply received_by_step.
  - exists []. split; [done | constructor].
Qed.

(** ** Two receivers on a central node *)
Definition central_config : Config :=
  match toy_config with
  | Build_Config dm em _ ed ch nh sp gp up ud ut ip ep ap rd =>
      Build_Config dm em true ed ch nh sp gp up ud ut ip ep ap rd
  end.

Definition v1_text : string := MarshalIndent (deployment_to_json (toy_node ["gcr.io/app:v1"])).
Definition v1_message : DeploymentConfiguration :=
  {| Json := v1_text; StateType := STATE_TYPE_DESIRED |}.

(** C23. On a central node the handler of the file and the main loop call [process]
    without a lock.  The message that the handler sends comes back from the
    control plane; if the main loop lists the containers before the handler has
    installed its image, both install it, and two containers of one desired
    image run. *)
Theorem concurrent_processing_installs_twice :
  ∃ st : Program (list Container),
    rtc (@program_step familiar_reference _ toy_manager central_config) (started [] (Ret "{}")) st
    ∧ outbox st = [v1_message] ∧ delivered st = outbox st
    ∧ main st = None ∧ handler st = None ∧ serving st
    ∧ manager st = [up_container "gcr.io/app:v1"; up_container "gcr.io/app:v1"].
Proof.
  eexists. split.
  - eapply rtc_l; [apply (step_handler_call _ _ "" v1_text); reflexivity |].
    eapply rtc_l; [eapply step_handler_work; reflexivity |]. (* the handler lists *)
    eapply rtc_l; [apply (step_deliver _ _ v1_message); reflexivity |].
    eapply rtc_l; [eapply step_main_recv; reflexivity |].
    eapply rtc_l; [eapply step_main_work; reflexivity |]. (* the main loop lists *)
    do 3 (eapply rtc_l; [eapply step_handler_work; vm_compute; reflexivity |]).
    do 3 (eapply rtc_l; [eapply step_main_work; vm_compute; reflexivity |]).
    apply rtc_refl.
  - vm_compute. done.
Qed.

(** ** Witnesses *)

(** The peers of a program whose stream ended after [got]. *)
Definition peers_until (got : list DeploymentConfiguration) : peers :=
  {| listening := Ret (); packets := []; dialed _ := Ret ();
     registered _ _ := Some (Ret "node-0"); interrupted := false; service_channel := Ret ();
     node_channel := Ret (); watched := Ret (); received := map RecvMsg got ++ [RecvErr EOF];
     panicked := None |}.

(** A tick between the calls of the main loop, and a second message that
    is not received before the stream ends. *)
Lemma satellite_refines_Run_witness :
  let E := up_container "docker.io/envoyproxy/envoy:distroless-v1.27-latest" in
  ∃ st : Program (list Container),
    main_got st = [v1_message] ∧ delivered st = [v1_message; v1_message]
    ∧ over st = Some (Ret ()) ∧ manager st = [up_container "gcr.io/app:v1"]
    ∧ @close_manager _ toy_manager (@defer_stopEnvoy familiar_reference _ toy_manager toy_config
        (@serve familiar_reference _ toy_manager toy_config (peers_until (main_got st)) [E])) =
        (Ret (), manager st, announced st).
Proof.
  intros E. assert (Hrun : ∃ st : Program (list Container),
    rtc (@program_step familiar_reference _ toy_manager toy_config) (started [E] (Ret "{}")) st
    ∧ leaving st = Some (Ret (), Returned) ∧ main_got st = [v1_message]
    ∧ inbox st = [v1_message] ∧ manager st = [up_container "gcr.io/app:v1"]).
  { eexists. split.
    - do 2 (eapply rtc_l; [apply (step_deliver _ _ v1_message); reflexivity |]).
      eapply rtc_l; [eapply step_main_recv; reflexivity |].
      eapply rtc_l; [eapply step_main_work; vm_compute; reflexivity |].
      eapply rtc_l; [eapply step_tick; vm_compute; reflexivity |].
      do 4 (eapply rtc_l; [eapply step_main_work; vm_compute; reflexivity |]).
      eapply rtc_l; [eapply step_main_end; vm_compute; reflexivity |].
      do 2 (eapply rtc_l; [eapply step_deferred; vm_compute; reflexivity |]).
      apply rtc_refl.
    - vm_compute. done. }
  destruct Hrun as (st & Hr & Hl & Hgot & Hin & Hs). exists st.
  destruct (@satellite_refines_Run familiar_reference _ toy_manager toy_config [E] (Ret "{}") st)
    as (Hd & _ & Hend); [done | done | exact Hr |].
  destruct (Hend (Ret ()) (peers_until (main_got st)) EOF Hl) as [Hover Heq]; [done .. |].
  split_and!; [done | by rewrite Hd, Hgot, Hin | done | done | exact Heq].
Defined.

(** The report of another node goes to the main loop, the next one is
    collected. *)
Lemma each_message_has_one_receiver_witness :
  ∃ st : Program (list Container),
    main_got st = [sample_report] ∧ collect_got st = [sample_report]
    ∧ ∃ l, delivered st = l ++ inbox st ∧ interleaved l (main_got st) (collect_got st).
Proof.
  assert (Hrun : ∃ st : Program (list Container),
    rtc (@program_step familiar_reference _ toy_manager central_config) (started [] (Ret "{}")) st
    ∧ main_got st = [sample_report] ∧ collect_got st = [sample_report]).
  { eexists. split.
    - do 2 (eapply rtc_l; [apply (step_deliver _ _ sample_report); reflexivity |]).
      eapply rtc_l; [eapply step_main_recv; reflexivity |].
      eapply rtc_l; [eapply (step_collect _ _ map_to_list None); first [exact sample_order_ranges | reflexivity] |].
      apply rtc_refl.
    - done. }
  destruct Hrun as (st & Hr & Hm & Hc). exists st. split_and!; [done .. |].
  exact (@each_message_has_one_receiver familiar_reference _ toy_manager central_config [] (Ret "{}") st Hr).
Defined.
