(* ===== verification/StateFile.v ===== *)
(** The file of the actual state while an orchestrator runs: what its
    collecting goroutine writes it can read again, and what a failed write leads
    to. *)
From S2P Require Import Prelude GoStrings Json JsonParse Deployment DeploymentJson Config Container NodeRegistry Orchestrator OrchestratorApp NodeProgram.

(** ** Well-formed states *)

Lemma utf8_node_of d h : utf8_deployment d → utf8_node (node_of d h).
Proof.
  intros Hd. unfold node_of. destruct (d !! h) as [n |] eqn:E; [by apply (Hd h n) |].
  split; constructor.
Qed.

Lemma utf8_collected d g : utf8_deployment d → utf8_deployment g → utf8_deployment (collected d g).
Proof.
  intros Hd Hg h n. rewrite collected_lookup. destruct (d !! h) as [m |] eqn:E; [| by apply Hg].
  destruct (reported m); [| by apply Hg]. intros [= <-]. by apply (Hd h m).
Qed.

Lemma utf8_keep_state prev n : utf8_node n → utf8_node (keep_state prev n).
Proof.
  intros [Hs Hi]. unfold keep_state.
  repeat case_decide; (split; [| exact Hi]); try exact Hs; by apply utf8_ascii.
Qed.

Lemma utf8_merged p g : utf8_deployment p → utf8_deployment g → utf8_deployment (merged p g).
Proof.
  intros Hp Hg h n. rewrite merged_lookup. destruct (g !! h) as [m |] eqn:E; [| by apply Hp].
  intros [= <-]. destruct (Hg h m E). split; [done | by apply utf8_keep_state].
Qed.

(** What is taken from the file is well formed. *)
Lemma utf8_previous_state file prev : previous_state file = Some prev → utf8_deployment prev.
Proof.
  destruct file as [text | e | p]; cbn; [apply DeploymentConfigFromJSON_utf8 | |];
    by intros [= <-].
Qed.

(** ** One message *)
Section merge.
Context (order : DeploymentConfig → list (string * NodeConfig)).
Context (order_ranges : ∀ d, ranges d (order d)).

(** The text that is written, if any, reads back without an error. *)
Definition readable_text (text : option string) : Prop :=
  ∀ t, text = Some t → ∃ d, DeploymentConfigFromJSON t = (Some d, None).

Lemma merge_message_well_formed msg file g :
  previous_state file ≠ None → utf8_deployment g →
  ∃ g' n text, merge_message order msg file g = Ret (g', n, text)
    ∧ utf8_deployment g' ∧ readable_text text.
Proof.
  intros Hfile Hg. destruct (previous_state file) as [prev |] eqn:Hprev; [| done].
  destruct (decide (StateType msg = STATE_TYPE_ACTUAL)) as [Ht | Ht].
  2:{ exists g, 0, None. unfold merge_message. by rewrite decide_True. }
  destruct (DeploymentConfigFromJSON (Json msg)) as [d [e |]] eqn:Hd.
  { exists g, 0, None. unfold merge_message. rewrite decide_False by tauto. by rewrite Hd. }
  rewrite (merge_message_eq order msg file g d prev) by done.
  assert (Hu : utf8_deployment (default ∅ d)).
  { destruct d as [d |]; [| done]. apply (DeploymentConfigFromJSON_utf8 (Json msg)). by rewrite Hd. }
  assert (Hc := utf8_collected _ g Hu Hg).
  do 3 eexists. split; [done |]. split; [done |]. intros t [= <-].
  destruct (JSON_reads_back (Some (merged prev (collected (default ∅ d) g)))) as (j & Hj & Hback).
  { apply utf8_merged; [by eapply utf8_previous_state | done]. }
  unfold JSON in Hj. injection Hj as <-. by eexists.
Qed.
End merge.

(** ** The running program *)
Section program.
Context `{ReferencePkg} {S : Type} `{Manager S}.

(** As long as every write succeeded. *)
Definition file_ok (st : Program S) : Prop :=
  unwritten st = false → previous_state (actual_file st) ≠ None ∧ utf8_deployment (globalActual st).

(** Steps that do not concern the file. *)
Lemma file_ok_frame st st' :
  actual_file st' = actual_file st → globalActual st' = globalActual st →
  unwritten st' = unwritten st → file_ok st → file_ok st'.
Proof. unfold file_ok. by intros -> -> ->. Qed.

Lemma file_ok_collect order w msg rest st :
  (∀ d, ranges d (order d)) → file_ok st → file_ok (collect order w msg rest st).
Proof.
  intros Horder Hok. unfold file_ok, collect. cbn.
  destruct (merge_message order msg (actual_file st) (globalActual st)) as [[[g n] text] | e | p] eqn:Hm;
    [| exact Hok ..].
  destruct (unwritten st) eqn:Hu; [destruct text, w; cbn; congruence |].
  destruct (Hok Hu) as [Hf Hg].
  destruct (merge_message_well_formed order Horder msg _ _ Hf Hg) as (g' & n' & text' & Hm' & Hg' & Ht).
  rewrite Hm in Hm'. injection Hm' as <- <- <-.
  destruct text as [t |]; [| done]. destruct w as [answer |]; [done |].
  intros _. destruct (Ht t eq_refl) as [d Hd]. cbn. by rewrite Hd.
Qed.

Lemma file_ok_step cfg st st' : file_ok st → program_step cfg st st' → file_ok st'.
Proof.
  intros Hok Hstep.
  destruct Hstep as [st msg _ | st msg rest _ _ _ _ | st act _ _ | st _ _ _ | st r g _ _
    | st a b _ _ _ | st act _ _ | st g _ _ | st order w msg rest _ _ _ Horder _ | st _ _ | st _ _
    | st g _ _];
    try exact Hok; [.. | by apply file_ok_collect |]; revert Hok; apply file_ok_frame.
  all: unfold main_work, handler_work, deferred, tick; repeat case_match; done.
Qed.

Lemma file_ok_reachable cfg s0 file st :
  previous_state file ≠ None → rtc (program_step cfg) (started s0 file) st → file_ok st.
Proof.
  intros Hf Hr. eapply (rtc_invariant (program_step cfg) file_ok); [| exact Hr | done].
  intros x y. apply file_ok_step.
Qed.
End program.

(** ** Properties *)

(** C27. The file of the actual state stays readable.  If it is missing or holds
    a map when the orchestrator starts and no write of it has failed, then at
    any time, however its goroutines interleave, the file holds such a text,
    and whatever message the collecting goroutine gets next - broken text and
    texts with invalid bytes included - it does not panic and what it writes
    reads back without an error. *)
Theorem state_file_stays_readable `{ReferencePkg} {S} `{Manager S} cfg (s0 : S) file st order msg :
  previous_state file ≠ None →
  rtc (program_step cfg) (started s0 file) st → unwritten st = false →
  (∀ d, ranges d (order d)) →
  previous_state (actual_file st) ≠ None
  ∧ ∃ g n text, merge_message order msg (actual_file st) (globalActual st) = Ret (g, n, text)
      ∧ ∀ t, text = Some t → ∃ d, DeploymentConfigFromJSON t = (Some d, None).
Proof.
  intros Hf Hr Hu Horder. destruct (file_ok_reachable cfg s0 file st Hf Hr Hu) as [Hp Hg].
  split; [done |].
  destruct (merge_message_well_formed order Horder msg _ _ Hp Hg) as (g & n & text & Hm & _ & Ht).
  by exists g, n, text.
Qed.

(** C40. A failed write of that file ends the program.  When the write after a
    report fails and leaves the file empty - as one does that finds the disk
    full, after the file was truncated - the error is only logged; the next
    report that can be read then finds a file that is not JSON, and the
    assignment to the nil map ends the program of the central node without its
    deferred calls. *)
Theorem interrupted_write_crashes {S} order order' msg msg' rest rest' w' g n text d' (st : Program S) :
  (∀ d, ranges d (order' d)) →
  merge_message order msg (actual_file st) (globalActual st) = Ret (g, n, Some text) → g ≠ ∅ →
  StateType msg' = STATE_TYPE_ACTUAL → DeploymentConfigFromJSON (Json msg') = (d', None) →
  let st' := collect order (Some (Ret "")) msg rest st in
  over st' = over st ∧ over (collect order' w' msg' rest' st') = Some (Panic NilMapAssignment).
Proof.
  intros Horder Hm Hg Ht Hd st'.
  assert (Hst' : over st' = over st ∧ actual_file st' = Ret "" ∧ globalActual st' = g)
    by (unfold st', collect; cbn; by rewrite Hm).
  destruct Hst' as (Hover & Hfile & Hglobal). split; [done |].
  unfold collect. cbn. rewrite Hfile, Hglobal.
  rewrite (unreadable_file_panics order' msg' "" g d'); [done | done | done | done | by left |].
  intros He. apply Hg, map_eq. intros h. rewrite lookup_empty.
  assert (Hh : collected (default ∅ d') g !! h = None) by by rewrite He, lookup_empty.
  rewrite collected_lookup in Hh. by destruct (default ∅ d' !! h) as [m |]; [destruct (reported m) |].
Qed.

(** The report of a node arrives when there is no file yet. *)
Lemma state_file_stays_readable_witness :
  ∃ st : Program (list Container),
    collect_got st = [sample_report] ∧ actual_file st ≠ Fail EOF
    ∧ previous_state (actual_file st) ≠ None
    ∧ ∃ g n text, merge_message map_to_list sample_report (actual_file st) (globalActual st)
                    = Ret (g, n, text)
        ∧ ∀ t, text = Some t → ∃ d, DeploymentConfigFromJSON t = (Some d, None).
Proof.
  assert (Hrun : ∃ st : Program (list Container),
    rtc (@program_step familiar_reference _ toy_manager central_config) (started [] (Fail EOF)) st
    ∧ unwritten st = false ∧ collect_got st = [sample_report] ∧ actual_file st ≠ Fail EOF).
  { eexists. split.
    - eapply rtc_l; [apply (step_deliver _ _ sample_report); reflexivity |].
      eapply rtc_l; [eapply (step_collect _ _ map_to_list None);
        first [exact sample_order_ranges | reflexivity] |].
      apply rtc_refl.
    - by vm_compute. }
  destruct Hrun as (st & Hr & Hu & Hc & Hne). exists st. split; [done |]. split; [done |].
  apply (@state_file_stays_readable familiar_reference _ toy_manager central_config []
    (Fail EOF) st map_to_list sample_report); [done | exact Hr | exact Hu | exact sample_order_ranges].
Defined.

(** Two reports; the write after the first one fails. *)
Lemma interrupted_write_crashes_witness :
  let st : Program (list Container) := started [] (Ret "{}") in
  let st' := collect map_to_list (Some (Ret "")) sample_report [] st in
  over st' = None ∧ over (collect map_to_list None sample_report [] st') = Some (Panic NilMapAssignment).
Proof.
  intros st st'.
  destruct (merge_message map_to_list sample_report (actual_file st) (globalActual st))
    as [[[g n] [text |]] | e | p] eqn:Hm; [| by vm_compute in Hm ..].
  apply (interrupted_write_crashes map_to_list map_to_list sample_report sample_report [] [] None
    g n text (Some (toy_node ["gcr.io/app:v2"])) st);
    [exact sample_order_ranges | exact Hm | | done | by vm_compute].
  intros ->. by vm_compute in Hm.
Defined.
