(* ===== verification/Fleet.v ===== *)
(** The orchestrators of all nodes and the node channels of the control plane
    as one system.

    Every node has a session at the control plane and a program, both with the
    number of the session.  A stream delivers in order: the session receives
    what the program sent ([outbox]), message by message, and the program
    receives what the session sent.  So the state of a stream is given by the
    two histories, and no further queue is needed.  Everything else are the
    steps of the node channels and of the programs. *)
From S2P Require Import Prelude GoStrings Json JsonParse Deployment DeploymentJson Config Container NodeRegistry Orchestrator OrchestratorApp Broker NodeChannels NodeProgram.

Local Open Scope list_scope.

Section fleet.
Context `{ReferencePkg} {S : Type} `{Manager S}.
Context (cfg : nat → Config) (s0 : nat → S) (file : nat → outcome string).

Record Fleet := {
  channels : NodeChannels;
  programs : gmap nat (Program S);
}.

Definition new_fleet : Fleet := {| channels := NewNodeChannels; programs := ∅ |}.

(** A step of the control plane that neither opens a channel nor receives. *)
Definition internal_step (c c' : NodeChannels) : Prop :=
  channel_step c c'
  ∧ ∀ sid, received <$> sessions c' !! sid = received <$> sessions c !! sid.

Inductive fleet_step : Fleet → Fleet → Prop :=
| fleet_internal f c' :
    internal_step (channels f) c' →
    fleet_step f {| channels := c'; programs := programs f |}
| fleet_open f sid nodeID i node :
    ValidateNodeID (registry (channels f)) nodeID = Ret i →
    index_int (nodes (registry (channels f))) i = Ret node →
    Host node = NodeHostname (cfg sid) →
    readers (broker (channels f)) !! sid = None →
    fleet_step f
      {| channels := set_session sid (new_session (Host node))
                       (set_broker (Read_make sid (broker (channels f))) (channels f));
         programs := <[sid := started (s0 sid) (file sid)]> (programs f) |}
| fleet_Recv f sid x p msg :
    sessions (channels f) !! sid = Some x → phase x = Receiving → to_write x = [] →
    programs f !! sid = Some p → outbox p !! length (received x) = Some msg →
    fleet_step f
      {| channels := set_session sid (recv_message msg x) (channels f); programs := programs f |}
| fleet_deliver f sid x p msg :
    sessions (channels f) !! sid = Some x → programs f !! sid = Some p → over p = None →
    sent x !! length (delivered p) = Some msg →
    fleet_step f
      {| channels := channels f; programs := <[sid := deliver msg p]> (programs f) |}
| fleet_program f sid p p' :
    programs f !! sid = Some p → program_step (cfg sid) p p' → delivered p' = delivered p →
    fleet_step f {| channels := channels f; programs := <[sid := p']> (programs f) |}.

Definition reachable_fleet (f : Fleet) : Prop := rtc fleet_step new_fleet f.

(** ** Lemmas on the two parts *)

(** A program only adds to what it has sent. *)
Lemma program_step_outbox c p p' : program_step c p p' → outbox p `prefix_of` outbox p'.
Proof.
  intros Hstep. destruct Hstep as [p msg _ | p msg rest _ _ _ _ | p act _ _ | p _ _ _ | p r g _ _
    | p a b _ _ _ | p act _ _ | p g _ _ | p order w msg rest _ _ _ _ _ | p _ _ | p _ _ | p g _ _];
    try done.
  - unfold main_work. by destruct (work c act (manager p)) as [[? ?] ?].
  - unfold deferred. by repeat case_match.
  - by eexists.
  - unfold handler_work. by destruct (work c act (manager p)) as [[? ?] ?].
  - unfold collect, write_file. by repeat case_match.
  - unfold tick. destruct (report_state c (manager p)). by eexists.
Qed.

(** A session only adds to what it has sent, and stays. *)
Lemma channel_step_session c c' sid x :
  channels_ok c → channel_step c c' → sessions c !! sid = Some x →
  ∃ x', sessions c' !! sid = Some x' ∧ sent x `prefix_of` sent x'.
Proof.
  intros Hok Hstep Hx.
  assert (Hset : ∀ sid' y y' b l, sessions c !! sid' = Some y → sent y `prefix_of` sent y' →
    ∃ x', sessions {| registry := registry c; broker := b;
                      sessions := <[sid' := y']> (sessions c); log := l |} !! sid = Some x'
      ∧ sent x `prefix_of` sent x').
  { intros sid' y y' b l Hy Hp. cbn. destruct (decide (sid' = sid)) as [-> | Hne].
    - rewrite lookup_insert_eq. exists y'. by simplify_eq.
    - rewrite lookup_insert_ne by done. by exists x. }
  destruct Hstep as [c req s' n resp _ | c sid' nodeID i node _ _ Hfresh
    | c sid' y rest Hy _ _ _ | c sid' y msg Hy _ _ | c sid' y err Hy _ _
    | c sid' y msg ms Hy _ _ | c sid' y r Hy _ _ | c sid' y r msg rest Hy _ _ _
    | c sid' y Hy | c sid' y Hy _ _ | c b' _]; try (by eapply Hset).
  - by exists x.
  - exists x. split; [| done]. cbn. rewrite lookup_insert_ne; [done |]. intros ->.
    destruct Hok as [_ _ Hs _]. destruct (Hs _ _ Hx) as (_ & Hg & _). by rewrite Hfresh in Hg.
  - eapply Hset; [done |]. by eexists.
  - by exists x.
Qed.

(** What a session has sent are messages that were written, in their order. *)
Lemma sent_sublist c sid x :
  reachable_channels c → sessions c !! sid = Some x → sent x `sublist_of` (log c).*2.
Proof.
  intros Hc Hx. destruct (reachable_channels_ok c Hc) as [Hb Hl Hs _].
  destruct (Hs _ _ Hx) as (_ & Hg & _).
  destruct (readers (broker c) !! sid) as [r |] eqn:Hr; [| done]. injection Hg as <-.
  destruct (reachable_ok _ Hb) as [Hfifo Hrs _ _ _]. destruct (Hrs _ _ Hr) as [[_ Hord _ _] Hj].
  rewrite <- Hl, <- Hfifo. unfold joined_ok in Hj. destruct (joined r) as [j |].
  - destruct Hj as (_ & _ & Hj).
    etrans; [by apply (sublist_inserts_r (buffer r)) |]. etrans; [exact Hord |].
    etrans; [by apply (sublist_inserts_r (in_flight (broker c) sid)) |]. rewrite <- Hj.
    etrans; [apply sublist_drop |]. by apply sublist_inserts_r.
  - destruct Hj as [Hj _]. rewrite Hj in Hord. apply sublist_nil_r, app_nil in Hord as [-> _].
    apply sublist_nil_l.
Qed.

(** Every message in the log was written by a session. *)
Lemma log_sessions c e :
  reachable_channels c → e ∈ log c → is_Some (sessions c !! e.1).
Proof.
  intros Hc. revert e.
  cut (channels_ok c ∧ ∀ e, e ∈ log c → is_Some (sessions c !! e.1)); [by intros [] |].
  eapply (rtc_invariant channel_step
    (λ c, channels_ok c ∧ ∀ e, e ∈ log c → is_Some (sessions c !! e.1))); [| exact Hc |].
  - intros c1 c2 [Hok Hl] Hstep. split; [by eapply channels_ok_step |].
    assert (Hold : ∀ e, e ∈ log c1 → is_Some (sessions c2 !! e.1)).
    { intros e [x Hx]%Hl. destruct (channel_step_session c1 c2 e.1 x) as (x' & Hx' & _);
        [done | done | done | by eexists]. }
    destruct Hstep; try exact Hold.
    intros e [He | ->%list_elem_of_singleton]%elem_of_app; [by apply Hold |].
    cbn. by rewrite lookup_insert_eq.
  - split; [apply channels_ok_new | by intros e ?%elem_of_nil].
Qed.

Lemma elem_of_origin sid m (l : list (nat * Message)) : (sid, m) ∈ l → m ∈ origin sid l.
Proof.
  intros Hin. unfold origin. apply list_elem_of_fmap. exists (sid, m). split; [done |].
  by apply list_elem_of_filter.
Qed.

(** ** Internal steps *)

Lemma keeps_received c sid x x' :
  sessions c !! sid = Some x → received x' = received x →
  ∀ sid', received <$> <[sid := x']> (sessions c) !! sid' = received <$> sessions c !! sid'.
Proof.
  intros Hx Hr sid'. destruct (decide (sid = sid')) as [<- | Hne].
  - rewrite lookup_insert_eq, Hx. cbn. by rewrite Hr.
  - by rewrite lookup_insert_ne.
Qed.

Lemma fleet_Register f req s' n resp :
  Register (registry (channels f)) req = Ret (s', n, resp) →
  fleet_step f {| channels := set_registry s' (channels f); programs := programs f |}.
Proof. intros Hr. apply fleet_internal. split; [by eapply step_Register | done]. Qed.

Lemma fleet_Listen f b' :
  NodeChannels.listening (broker (channels f)) b' →
  fleet_step f {| channels := set_broker b' (channels f); programs := programs f |}.
Proof. intros Hb. apply fleet_internal. split; [by apply step_Listen | done]. Qed.

Lemma fleet_Read f sid x rest :
  let c := channels f in
  sessions c !! sid = Some x → phase x = Reading →
  pending (broker c) ≡ₚ sid :: rest → length (destinations (broker c)) < destinations_cap →
  fleet_step f
    {| channels := set_session sid (start_session x) (set_broker (Read_send sid rest (broker c)) c);
       programs := programs f |}.
Proof.
  intros c Hx Hp Hr Hd. apply fleet_internal. split; [by apply step_Read |].
  by apply (keeps_received c sid x).
Qed.

Lemma fleet_Write f sid x msg ms :
  let c := channels f in
  sessions c !! sid = Some x → to_write x = msg :: ms → length (source (broker c)) < source_cap →
  fleet_step f
    {| channels := set_session sid (set_to_write ms x)
                     (log_write sid msg (set_broker (Write msg (broker c)) c));
       programs := programs f |}.
Proof.
  intros c Hx Hw Hs. apply fleet_internal. split; [by apply step_Write |].
  by apply (keeps_received c sid x).
Qed.

Lemma fleet_forward f sid x r msg rest :
  let c := channels f in
  sessions c !! sid = Some x → forwarding x = true →
  readers (broker c) !! sid = Some r → buffer r = msg :: rest →
  fleet_step f
    {| channels := set_session sid (send_message msg x)
         (set_broker (set_listen (listen (broker c)) (<[sid := receive r msg rest]> (readers (broker c)))
                        (broker c)) c);
       programs := programs f |}.
Proof.
  intros c Hx Hf Hr Hb. apply fleet_internal. split; [by apply step_forward |].
  by apply (keeps_received c sid x).
Qed.

(** ** The invariant *)

(** One node: the program is one that [program_step] reaches, the two ends of
    its stream agree. *)
Definition node_ok (f : Fleet) (sid : nat) (p : Program S) : Prop :=
  rtc (program_step (cfg sid)) (started (s0 sid) (file sid)) p
  ∧ ∃ x, sessions (channels f) !! sid = Some x
      ∧ delivered p `prefix_of` sent x ∧ received x `prefix_of` outbox p.

Definition fleet_ok (f : Fleet) : Prop :=
  reachable_channels (channels f)
  ∧ (∀ sid p, programs f !! sid = Some p → node_ok f sid p)
  ∧ ∀ sid x, sessions (channels f) !! sid = Some x → is_Some (programs f !! sid).

Lemma prefix_snoc_lookup {A} (l k : list A) a :
  l `prefix_of` k → k !! length l = Some a → l ++ [a] `prefix_of` k.
Proof.
  intros [m ->] Hl. rewrite lookup_app_r, Nat.sub_diag in Hl by lia.
  destruct m as [| b m]; simplify_eq/=. exists m. by rewrite <- app_assoc.
Qed.

(** The program of another node. *)
Lemma node_ok_session f f' sid p x x' :
  node_ok f sid p → sessions (channels f) !! sid = Some x →
  sessions (channels f') !! sid = Some x' →
  sent x `prefix_of` sent x' → received x' = received x → node_ok f' sid p.
Proof.
  intros [Hr (y & Hy & Hd & Ho)] Hx Hx' Hs Hrec. split; [done |]. exists x'. simplify_eq.
  split_and!; [done | by etrans | by rewrite Hrec].
Qed.

(** A step of one program. *)
Lemma fleet_ok_program f sid p p' :
  fleet_ok f → programs f !! sid = Some p → node_ok f sid p' →
  fleet_ok {| channels := channels f; programs := <[sid := p']> (programs f) |}.
Proof.
  intros (Hc & Hp & Hs) Hsid Hok. split_and!; [done | |].
  - intros sid' q Hq. cbn in Hq. destruct (decide (sid = sid')) as [<- | Hne].
    + rewrite lookup_insert_eq in Hq. by injection Hq as <-.
    + rewrite lookup_insert_ne in Hq by done. by apply Hp.
  - intros sid' y Hy. cbn. destruct (decide (sid = sid')) as [<- | Hne];
      [by rewrite lookup_insert_eq | rewrite lookup_insert_ne by done; by eapply Hs].
Qed.

Lemma fleet_ok_step f f' : fleet_ok f → fleet_step f f' → fleet_ok f'.
Proof.
  intros Hf Hstep. assert (Hf' := Hf). destruct Hf' as (Hc & Hp & Hs).
  assert (Hcok := reachable_channels_ok _ Hc).
  destruct Hstep as [f c' [Hcs Hrec] | f sid nodeID i node Hid Hnode Hhost Hfresh
    | f sid x p msg Hx Hph Hw Hpr Hmsg | f sid x p msg Hx Hpr Hcr Hmsg | f sid p p' Hpr Hps Hdel].
  - split_and!; [by eapply rtc_r | | ].
    2:{ cbn. intros sid x Hx. specialize (Hrec sid). rewrite Hx in Hrec.
        destruct (sessions (channels f) !! sid) eqn:E; [by eapply Hs | discriminate Hrec]. }
    intros sid p Hsid.
    assert (Hok := Hp _ _ Hsid). assert (Hok' := Hok). destruct Hok' as [_ (x & Hx & _)].
    destruct (channel_step_session _ c' sid x Hcok Hcs Hx) as (x' & Hx' & Hsent).
    eapply node_ok_session; [exact Hok | exact Hx | exact Hx' | exact Hsent |].
    specialize (Hrec sid). rewrite Hx, Hx' in Hrec. by injection Hrec.
  - split_and!; [eapply rtc_r; [exact Hc | by eapply step_open] | |].
    2:{ cbn. intros sid' x Hx. destruct (decide (sid = sid')) as [<- | Hne];
        [by rewrite lookup_insert_eq | rewrite lookup_insert_ne in Hx by done; rewrite lookup_insert_ne by done; by eapply Hs]. }
    intros sid' p Hsid'. cbn in Hsid'.
    destruct (decide (sid = sid')) as [<- | Hne].
    + rewrite lookup_insert_eq in Hsid'. injection Hsid' as <-. split; [done |].
      exists (new_session (Host node)). cbn. by rewrite lookup_insert_eq.
    + rewrite lookup_insert_ne in Hsid' by done. destruct (Hp _ _ Hsid') as [Hr (x & Hx & Hrest)].
      split; [done |]. exists x. cbn. by rewrite lookup_insert_ne.
  - split_and!; [eapply rtc_r; [exact Hc | by eapply step_Recv] | |].
    2:{ cbn. intros sid' y Hy. destruct (decide (sid = sid')) as [<- | Hne];
        [by eapply Hs | rewrite lookup_insert_ne in Hy by done; by eapply Hs]. }
    intros sid' q Hsid'. cbn in Hsid'.
    destruct (Hp _ _ Hsid') as [Hr (y & Hy & Hd & Ho)]. split; [done |].
    destruct (decide (sid = sid')) as [<- | Hne].
    + exists (recv_message msg x). cbn. rewrite lookup_insert_eq. simplify_eq.
      split_and!; [done | done | by apply prefix_snoc_lookup].
    + exists y. cbn. by rewrite lookup_insert_ne.
  - apply (fleet_ok_program f sid p); [done | done |].
    destruct (Hp _ _ Hpr) as [Hr (y & Hy & Hd & Ho)]. simplify_eq.
    split; [eapply rtc_r; [exact Hr | by apply step_deliver] |]. exists x.
    split_and!; [done | by apply prefix_snoc_lookup | done].
  - apply (fleet_ok_program f sid p); [done | done |].
    destruct (Hp _ _ Hpr) as [Hr (y & Hy & Hd & Ho)].
    split; [by eapply rtc_r |]. exists y. split_and!; [done | by rewrite Hdel |].
    etrans; [exact Ho | by eapply program_step_outbox].
Qed.

Lemma reachable_fleet_ok f : reachable_fleet f → fleet_ok f.
Proof.
  intros Hf. eapply (rtc_invariant fleet_step fleet_ok); [| exact Hf |].
  - intros x y. apply fleet_ok_step.
  - split_and!; [apply rtc_refl | done | done].
Qed.

(** What the main loop of a satellite did, and that it got everything once
    nothing is on the way and its reader lost nothing. *)
Lemma satellite_in_fleet f sid p :
  reachable_fleet f → programs f !! sid = Some p →
  EnableCentralMode (cfg sid) = false → (∀ s : S, (Containers s).2 = s) →
  let c := channels f in
  (serving p → main p = None →
   main_loop (cfg sid) (map RecvMsg (main_got p)) (s0 sid) = (Ret (), manager p, announced p))
  ∧ (∀ r, leaving p = Some (r, Returned) →
     over p = Some r
     ∧ close_manager (defer_stopEnvoy (cfg sid)
         (main_loop (cfg sid) (map RecvMsg (main_got p)) (s0 sid))) = (r, manager p, announced p))
  ∧ ∃ x, sessions c !! sid = Some x ∧ main_got p `prefix_of` sent x
    ∧ ∀ r j, readers (broker c) !! sid = Some r →
        joined r = Some j → listen (broker c) = Selecting → lost r = 0 →
        buffer r = [] → delivered p = sent x → inbox p = [] →
        main_got p = drop j (taken (broker c)).
Proof.
  intros Hf Hp Hcm Hpure c. destruct (reachable_fleet_ok f Hf) as (Hc & Hps & _).
  destruct (Hps _ _ Hp) as [Hrun (x & Hx & [k Hd] & _)].
  assert (Hdel := satellite_messages (cfg sid) (s0 sid) (file sid) p Hcm Hpure Hrun).
  split; [by apply (satellite_main_loop (cfg sid) (s0 sid) (file sid)) |].
  split; [intros r; by apply (satellite_returned (cfg sid) (s0 sid) (file sid)) |].
  exists x. split_and!; [done | |].
  { exists (inbox p ++ k). by rewrite Hd, Hdel, <- app_assoc. }
  intros r j Hr Hj Hl Hlost Hbuf Hsent Hin.
  destruct (reachable_channels_ok _ Hc) as [Hb _ Hs _].
  destruct (Broker.delivered (broker c) sid r j) as (_ & _ & _ & Hall & _); [done .. |].
  destruct (Hs _ _ Hx) as (_ & Hg & _). fold c in Hg. rewrite Hr in Hg. injection Hg as Hg.
  rewrite <- (Hall Hlost), Hbuf, app_nil_r, Hg, <- Hsent, Hdel, Hin. by rewrite app_nil_r.
Qed.

(** ** Properties *)

(** C15. What the nodes do is determined by one sequence of messages.  In every
    reachable state of the orchestrators and the node channels, each message
    that was written to the broker had been sent by the orchestrator of its
    session, and those of one orchestrator are in the order it sent them.  On a
    node without central mode the state of the manager and the announcements
    are, between two messages, those of the main loop run alone on a
    subsequence of this sequence, and if nothing is on the way and its reader
    lost nothing, on all messages taken since the node joined; when its program
    has ended with [Run], those of the main loop and the deferred calls. *)
Theorem satellites_replay_common_sequence f sid p :
  reachable_fleet f → programs f !! sid = Some p →
  EnableCentralMode (cfg sid) = false → (∀ s : S, (Containers s).2 = s) →
  let c := channels f in
  let loop := main_loop (cfg sid) (map RecvMsg (main_got p)) (s0 sid) in
  (∀ sid' m, (sid', m) ∈ log c → ∃ p', programs f !! sid' = Some p' ∧ m ∈ outbox p')
  ∧ (∀ sid' p', programs f !! sid' = Some p' → origin sid' (log c) `prefix_of` outbox p')
  ∧ main_got p `sublist_of` (log c).*2
  ∧ (serving p → main p = None → loop = (Ret (), manager p, announced p))
  ∧ (∀ r, leaving p = Some (r, Returned) →
     over p = Some r
     ∧ close_manager (defer_stopEnvoy (cfg sid) loop) = (r, manager p, announced p))
  ∧ ∀ x r j, sessions c !! sid = Some x → readers (broker c) !! sid = Some r →
      joined r = Some j → listen (broker c) = Selecting → lost r = 0 →
      buffer r = [] → delivered p = sent x → inbox p = [] →
      main_got p = drop j (taken (broker c)).
Proof.
  intros Hf Hp Hcm Hpure c loop. destruct (reachable_fleet_ok f Hf) as (Hc & Hps & Hsp).
  assert (Horigin : ∀ sid' p', programs f !! sid' = Some p' →
    origin sid' (log c) `prefix_of` outbox p').
  { intros sid' p' Hp'. destruct (Hps _ _ Hp') as [_ (x & Hx & _ & Ho)].
    destruct (reachable_channels_ok _ Hc) as [_ _ Hs _]. destruct (Hs _ _ Hx) as (Hr & _).
    etrans; [| exact Ho]. rewrite Hr. by eexists. }
  destruct (satellite_in_fleet f sid p) as (Hloop & Hret & x & Hx & [k Hpre] & Hall); [done .. |].
  split; [| split; [exact Horigin | split; [| split; [exact Hloop | split; [exact Hret |]]]]].
  - intros sid' m Hin. destruct (log_sessions c (sid', m) Hc Hin) as [y Hy].
    destruct (Hsp _ _ Hy) as [p' Hp']. exists p'. split; [done |].
    destruct (Horigin _ _ Hp') as [l ->]. apply elem_of_app. left. by apply elem_of_origin.
  - etrans; [| by apply (sent_sublist c sid x)]. rewrite Hpre. by apply sublist_inserts_r.
  - intros x' r j Hx' Hr Hj Hl Hlost Hbuf Hsent Hin.
    assert (x' = x) as -> by (unfold c in Hx'; congruence). by eapply Hall.
Qed.
End fleet.
Arguments Fleet : clear implicits.

(** ** An execution: a node registers, opens its channel and reports; the report
    comes back, and the main loop has handled it. *)
Definition fleet_config (sid : nat) : Config := toy_config.
Definition fleet_images : list string :=
  ["gcr.io/app:v1"; "docker.io/envoyproxy/envoy:distroless-v1.27-latest"].
Definition fleet_start (sid : nat) : list Container := map up_container fleet_images.
Definition fleet_file (sid : nat) : outcome string := Fail EOF.

#[local] Existing Instance familiar_reference.
#[local] Existing Instance toy_manager.

(** Evaluate the state that is reached. *)
Ltac evaluate :=
  match goal with
  | |- rtc ?R ?s ?f =>
      let s' := eval vm_compute in s in replace s with s' by (vm_compute; reflexivity)
  end.

Tactic Notation "take_step" uconstr(lemma) := eapply rtc_l; [eapply lemma; reflexivity |]; evaluate.
Tactic Notation "take_program_step" uconstr(lemma) :=
  eapply rtc_l; [eapply (fleet_program _ _ _ _ 0); [reflexivity | eapply lemma; reflexivity | reflexivity] |];
  evaluate.

(** The node registers, opens its channel, and its report is written. *)
Ltac write_report :=
  take_step (fleet_Register fleet_config fleet_start fleet_file _ (node_request toy_config));
  take_step (fleet_open fleet_config fleet_start fleet_file _ 0 "node-0");
  eapply rtc_l; [eapply (fleet_Read _ _ _ _ 0); [reflexivity | reflexivity |
      apply Permutation_refl'; reflexivity | cbn; unfold destinations_cap; lia] |]; evaluate;
  eapply rtc_l; [eapply fleet_Listen, listening_register; reflexivity |]; evaluate;
  take_program_step @step_tick;
  take_step (fleet_Recv fleet_config fleet_start fleet_file _ 0);
  eapply rtc_l; [eapply (fleet_Write _ _ _ _ 0); [reflexivity | reflexivity |
      cbn; unfold source_cap; lia] |]; evaluate.

(** It comes back, and the main loop handles it. *)
Ltac handle_report :=
  eapply rtc_l; [eapply fleet_Listen, listening_take; reflexivity |]; evaluate;
  eapply rtc_l; [eapply fleet_Listen, listening_offer; reflexivity |]; evaluate;
  eapply rtc_l; [eapply fleet_Listen, listening_delivered; reflexivity |]; evaluate;
  take_step (fleet_forward fleet_config fleet_start fleet_file _ 0);
  take_step (fleet_deliver fleet_config fleet_start fleet_file _ 0);
  take_program_step @step_main_recv;
  do 3 take_program_step @step_main_work.

Lemma fleet_run :
  ∃ f : Fleet (list Container), ∃ p : Program (list Container),
    @reachable_fleet familiar_reference _ toy_manager fleet_config fleet_start fleet_file f
    ∧ programs f !! 0 = Some p ∧ serving p ∧ main p = None
    ∧ length (main_got p) = 1 ∧ inbox p = [] ∧ listen (broker (channels f)) = Selecting
    ∧ ∃ r x m, readers (broker (channels f)) !! 0 = Some r
        ∧ joined r = Some 0 ∧ lost r = 0 ∧ buffer r = []
        ∧ sessions (channels f) !! 0 = Some x ∧ delivered p = sent x
        ∧ taken (broker (channels f)) = [m]
        ∧ DeploymentConfigFromJSON (Json m) = (Some (toy_node fleet_images), None).
Proof.
  eexists _, _. split.
  { unfold reachable_fleet.
    write_report.
    handle_report.
    apply rtc_refl. }
  do 6 (split; [by vm_compute |]).
  do 3 eexists. do 7 (split; [vm_compute; reflexivity |]). by vm_compute.
Qed.

Lemma satellites_replay_common_sequence_witness :
  ∃ f : Fleet (list Container), ∃ p : Program (list Container),
    programs f !! 0 = Some p ∧ length (main_got p) = 1
    ∧ let c := channels f in
      let loop := @main_loop familiar_reference _ toy_manager (fleet_config 0)
                    (map RecvMsg (main_got p)) (fleet_start 0) in
      (∀ sid' m, (sid', m) ∈ log c → ∃ p', programs f !! sid' = Some p' ∧ m ∈ outbox p')
      ∧ (∀ sid' p', programs f !! sid' = Some p' → origin sid' (log c) `prefix_of` outbox p')
      ∧ main_got p `sublist_of` (log c).*2
      ∧ (serving p → main p = None → loop = (Ret (), manager p, announced p))
      ∧ (∀ r, leaving p = Some (r, Returned) →
         over p = Some r
         ∧ @close_manager _ toy_manager (@defer_stopEnvoy familiar_reference _ toy_manager
             (fleet_config 0) loop) = (r, manager p, announced p))
      ∧ ∀ x r j, sessions c !! 0 = Some x → readers (broker c) !! 0 = Some r →
          joined r = Some j → listen (broker c) = Selecting → lost r = 0 →
          buffer r = [] → delivered p = sent x → inbox p = [] →
          main_got p = drop j (taken (broker c)).
Proof.
  destruct fleet_run as (f & p & Hf & Hp & _ & _ & Hlen & _). exists f, p.
  split; [exact Hp |]. split; [exact Hlen |].
  apply (@satellites_replay_common_sequence familiar_reference _ toy_manager fleet_config
    fleet_start fleet_file f 0 p Hf Hp); done.
Defined.
