(* ===== verification/Services.v ===== *)
(** The services of a node at the control plane: the announcements that
    [process] makes through [hReg] and [hUnreg] (app.go of
    [cmd/carisma-orchestrator/app]) are the messages of the node's session of
    the service registry, which stores them.

    The node is seen through an interface: a lawful manager whose containers
    have an endpoint, the bundle identifier and the service port it answers
    with.  Its containers then decide what the registry holds. *)
From S2P Require Import Prelude GoStrings Slices Json JsonParse Deployment DeploymentJson Config Container NodeRegistry ServiceRegistry Orchestrator Reconcile OrchestratorApp.

Local Open Scope list_scope.

(** [hReg] and [hUnreg]: the message that is sent for an announcement. *)
Definition to_message (a : announcement) : ServiceAnnouncement :=
  match a with
  | AnnounceRegistered bundleID servicePort =>
      {| BundleId := bundleID; LocalPort := servicePort;
         RegistrationState := REGISTRATION_STATE_REGISTERED |}
  | AnnounceUnregistered bundleID servicePort =>
      {| BundleId := bundleID; LocalPort := servicePort;
         RegistrationState := REGISTRATION_STATE_UNREGISTERED |}
  end.

(** ** The interface

    A [described] container is one of an in-car app, whose image holds a
    descriptor with its [bundle] identifier; Envoy is none.  Its endpoint is
    that identifier with a port.  A removal with the bundle descriptor answers
    with the endpoint of the running container of the image, which it takes
    away; an installation of an [installable] image answers with the endpoint
    of the described container it adds. *)
Class DescribedManager (S : Type) `{LawfulManager S} := {
  endpoint : Container → string * Z;
  bundle : Image → string;
  described : Container → Prop;
  installable : Image → Prop;
  law_bundle c s : c ∈ running s → described c → (endpoint c).1 = bundle (image c);
  law_Remove_endpoint i s :
    has_byte ":" (Version i) = false → i ∈ map image (running s) → NoDup (map image (running s)) →
    (∀ c, c ∈ running s → image c = i → described c) →
    ∃ c s', RemoveImageAndContainer (image_identifier i) true s = (Ret (endpoint c), s')
      ∧ image c = i ∧ running s ≡ₚ c :: running s';
  law_Pull_endpoint i s :
    has_byte ":" (Version i) = false → installable i → i ∉ map image (running s) →
    ∃ c s', PullImageAndCreateContainer (image_identifier i) [] ∅ true s = (Ret (endpoint c), s')
      ∧ is_managed c = true ∧ described c ∧ image c = i ∧ running s' ≡ₚ c :: running s;
}.

Definition register_of (e : string * Z) : announcement := AnnounceRegistered e.1 e.2.
Definition unregister_of (e : string * Z) : announcement := AnnounceUnregistered e.1 e.2.

(** ** Announcements as a set *)

Lemma spec_unregister (A : gset (string * string * Z)) n es a x :
  (a, x.1, x.2) ∈ spec_session A n (map (to_message ∘ unregister_of) es) ↔
    (a, x.1, x.2) ∈ A ∧ ¬ (a = n ∧ x ∈ es).
Proof.
  revert A. induction es as [| e es IH]; intros A; cbn [map spec_session foldl]; [set_solver |].
  unfold spec_session in IH. rewrite IH. unfold spec_announcement. cbn.
  destruct e as [b p], x as [b' p']. cbn. set_solver.
Qed.

Lemma spec_register (A : gset (string * string * Z)) n es a x :
  (a, x.1, x.2) ∈ spec_session A n (map (to_message ∘ register_of) es) ↔
    (a, x.1, x.2) ∈ A ∨ (a = n ∧ x ∈ es).
Proof.
  revert A. induction es as [| e es IH]; intros A; cbn [map spec_session foldl]; [set_solver |].
  unfold spec_session in IH. rewrite IH. unfold spec_announcement. cbn.
  destruct e as [b p], x as [b' p']. cbn. set_solver.
Qed.

Lemma spec_session_app A n l1 l2 :
  spec_session A n (l1 ++ l2) = spec_session (spec_session A n l1) n l2.
Proof. apply foldl_app. Qed.

Section services.
Context `{ReferencePkg} {S : Type} `{DescribedManager S}.
Implicit Types (s : S) (i : Image).

Definition images s : list Image := map image (running s).
Definition is_service (c : Container) : bool := negb (middleware (image c)).
Definition offered s : list (string * Z) := map endpoint (List.filter is_service (running s)).

(** Every running container is one the orchestrator manages, every service has a
    descriptor, no image name is there twice, and no endpoint is. *)
Definition all_described s : Prop := ∀ c, c ∈ running s → is_service c = true → described c.

Definition settled s : Prop :=
  Forall (λ c, is_managed c = true) (running s) ∧ all_described s
  ∧ NoDup (map Name (images s)) ∧ NoDup (offered s).

(** From [s] to [s'] the containers in [removed] are gone and those in [added]
    are there; all of them are services. *)
Definition replaced s (removed added kept : list Container) s' : Prop :=
  running s ≡ₚ removed ++ kept ∧ running s' ≡ₚ added ++ kept
  ∧ Forall (λ c, is_service c = true) removed ∧ Forall (λ c, is_service c = true) added.

(** ** The loops of [process] *)

Lemma remove_one i s :
  middleware i = false → has_byte ":" (Version i) = false → i ∈ images s →
  NoDup (images s) → all_described s →
  ∃ c s', remove_image i s = (Ret (), s', [unregister_of (endpoint c)])
    ∧ image c = i ∧ running s ≡ₚ c :: running s'.
Proof.
  intros Hm Hv Hi Hnd Hdesc. unfold remove_image. rewrite is_middleware_eq.
  assert (Hm' := Hm). unfold middleware in Hm. rewrite Hm.
  destruct (law_Remove_endpoint i s Hv Hi Hnd) as (c & s' & -> & Hc & Hr).
  { intros c Hc Hci. apply Hdesc; [done |]. unfold is_service. by rewrite Hci, Hm'. }
  exists c, s'. unfold unregister_of. by destruct (endpoint c).
Qed.

Lemma remove_all L s :
  NoDup L → (∀ i, i ∈ L → has_byte ":" (Version i) = false) → (∀ i, i ∈ L → i ∈ images s) →
  NoDup (images s) → all_described s →
  ∃ removed s',
    for_images remove_image L s = (Ret (), s', map (unregister_of ∘ endpoint) removed)
    ∧ map image removed = List.filter (λ i, negb (middleware i)) L
    ∧ running s ≡ₚ removed ++ running s'.
Proof.
  revert s. induction L as [| i L IH]; intros s HL Hv Hin Hnd Hdesc; cbn [for_images].
  { by exists [], s. }
  apply NoDup_cons in HL as [HiL HL].
  assert (HvL : ∀ j, j ∈ L → has_byte ":" (Version j) = false) by auto using list_elem_of_further.
  cbn [List.filter]. destruct (middleware i) eqn:Hm; cbn [negb].
  - rewrite remove_image_middleware by done.
    destruct (IH s HL HvL) as (removed & s' & -> & Hi & Hr);
      [auto using list_elem_of_further | done | done |].
    by exists removed, s'.
  - destruct (remove_one i s) as (c & s1 & -> & Hc & Hr1); [done | auto using list_elem_of_here.. |].
    assert (Hnd1 := Hnd). unfold images in Hnd1. rewrite Hr1 in Hnd1.
    apply NoDup_cons in Hnd1 as [_ Hnd1].
    destruct (IH s1 HL HvL) as (removed & s' & -> & Hi & Hr); [| done | |].
    2: { intros d Hd. apply Hdesc. rewrite Hr1. by apply list_elem_of_further. }
    { intros j Hj. assert (j ∈ images s) as Hjs by auto using list_elem_of_further.
      unfold images in *. rewrite Hr1 in Hjs. cbn in Hjs. rewrite Hc in Hjs.
      apply elem_of_cons in Hjs as [-> | ?]; done. }
    exists (c :: removed), s'. cbn [map app]. split_and!; [done | by rewrite Hc, Hi |].
    by rewrite Hr1, Hr.
Qed.

Lemma install_one i s :
  has_byte ":" (Version i) = false → installable i → i ∉ images s →
  ∃ c s', install_image i s = (Ret (), s', [register_of (endpoint c)])
    ∧ is_managed c = true ∧ described c ∧ image c = i ∧ running s' ≡ₚ c :: running s.
Proof.
  intros Hv Ha Hi. unfold install_image.
  destruct (law_Pull_endpoint i s Hv Ha Hi) as (c & s' & -> & Hc).
  exists c, s'. unfold register_of. by destruct (endpoint c).
Qed.

Lemma install_all L s :
  NoDup L → (∀ i, i ∈ L → has_byte ":" (Version i) = false) → (∀ i, i ∈ L → installable i) →
  (∀ i, i ∈ L → i ∉ images s) →
  ∃ added s',
    for_images install_image L s = (Ret (), s', map (register_of ∘ endpoint) added)
    ∧ map image added = L ∧ Forall (λ c, is_managed c = true) added
    ∧ Forall described added ∧ running s' ≡ₚ added ++ running s.
Proof.
  revert s. induction L as [| i L IH]; intros s HL Hv Ha Hi; cbn [for_images].
  { exists [], s. by split_and!. }
  apply NoDup_cons in HL as [HiL HL].
  destruct (install_one i s) as (c & s1 & -> & Hm & Hd & Hc & Hr1);
    [auto using list_elem_of_here.. |].
  destruct (IH s1 HL) as (added & s' & -> & Hi' & Hm' & Hd' & Hr);
    [auto using list_elem_of_further.. | |].
  { intros j Hj. unfold images in *. rewrite Hr1. cbn. rewrite Hc, not_elem_of_cons.
    split; [by intros -> | by apply Hi, list_elem_of_further]. }
  exists (c :: added), s'. cbn [map app].
  split_and!; [done | by rewrite Hc, Hi' | by constructor | by constructor |].
  by rewrite Hr, Hr1, Permutation_middle.
Qed.

Lemma images_settled s : settled s → images s = managed_images (running s).
Proof.
  intros (Hm & _ & _). unfold images, managed_images. f_equal.
  induction (running s) as [| c l IH]; [done |]. apply Forall_cons in Hm as [Hc Hl].
  cbn [List.filter]. rewrite Hc. f_equal. by apply IH.
Qed.

Lemma services_images L cs :
  map image cs = L → (∀ i, i ∈ L → middleware i = false) →
  Forall (λ c, is_service c = true) cs.
Proof.
  intros <- HL. apply Forall_forall. intros c Hc. unfold is_service.
  rewrite HL; [done |]. by apply list_elem_of_fmap_2.
Qed.

(** What a listing says about the images, and the part of them that stays. *)
Lemma kept_images (D R R2 : list Image) removed :
  NoDup R → map image removed = List.filter (λ i, negb (middleware i))
                                  (List.filter (λ i, bool_decide (i ∉ D)) R) →
  R ≡ₚ map image removed ++ R2 →
  NoDup R2 ∧ ∀ i, i ∈ R2 ↔
    i ∈ R ∧ (i ∈ List.filter (λ i, bool_decide (i ∉ D)) R → middleware i = true).
Proof.
  intros HR Hrm Hp. rewrite Hrm in Hp. assert (HR' := HR). rewrite Hp in HR'.
  apply NoDup_app in HR' as (_ & Hdis & HR2). split; [done |]. intros i.
  assert (Hi : i ∈ R ↔ i ∈ List.filter (λ i, negb (middleware i))
      (List.filter (λ i, bool_decide (i ∉ D)) R) ∨ i ∈ R2).
  { rewrite <- elem_of_app. apply elem_of_Permutation_proper, Hp. }
  specialize (Hdis i). rewrite elem_of_filter_bool in Hi, Hdis.
  destruct (middleware i); cbn [negb] in *; naive_solver.
Qed.

(** Desired images that the manager can install, or middleware that runs
    already. *)
Definition obtainable s (D : list Image) : Prop :=
  ∀ i, i ∈ D → if middleware i then i ∈ images s else installable i.

Lemma obtainable_new s D i : obtainable s D → i ∈ D → i ∉ images s → middleware i = false ∧ installable i.
Proof. intros HD Hi Hno. specialize (HD i Hi). by destruct (middleware i). Qed.

(** The bundle identifiers of the services among the images. *)
Definition bundles (D : list Image) : list string :=
  map bundle (List.filter (λ i, negb (middleware i)) D).

#[export] Instance bundles_Permutation : Proper ((≡ₚ) ==> (≡ₚ)) bundles.
Proof. intros l1 l2 Hl. by apply Permutation_map, filter_bool_Permutation. Qed.

Lemma bundles_middleware D R : bundles (D ++ other_middleware D R) = bundles D.
Proof.
  unfold bundles, other_middleware. rewrite List.filter_app, map_app.
  assert (List.filter (λ i, negb (middleware i))
    (List.filter (λ i, middleware i && bool_decide (i ∉ D)) R) = []) as ->; [| by rewrite app_nil_r].
  apply elem_of_nil_inv. intros i. rewrite !elem_of_filter_bool, andb_true_iff.
  destruct (middleware i); naive_solver.
Qed.

(** Distinct bundles have distinct endpoints. *)
Lemma offered_bundles s : all_described s → (offered s).*1 = bundles (images s).
Proof.
  intros Hdesc. unfold offered, bundles, images, all_described in *.
  assert (Hlaw : ∀ c, c ∈ running s → described c → (endpoint c).1 = bundle (image c))
    by (intros c; apply law_bundle).
  revert Hlaw Hdesc. induction (running s) as [| c l IH]; intros Hlaw Hdesc; [done |].
  assert (IH' : (map endpoint (List.filter is_service l)).*1
    = map bundle (List.filter (λ i, negb (middleware i)) (map image l)))
    by (apply IH; intros d Hd; [apply Hlaw | apply Hdesc]; by apply list_elem_of_further).
  cbn [map List.filter]. specialize (Hlaw c (list_elem_of_here _ _)).
  specialize (Hdesc c (list_elem_of_here _ _)). fold (is_service c).
  destruct (is_service c); [| done]. cbn. by rewrite IH', Hlaw by auto.
Qed.

(** The state after the replacement is settled again. *)
Lemma replaced_settled s s2 s3 D removed added :
  settled s → running s ≡ₚ removed ++ running s2 → running s3 ≡ₚ added ++ running s2 →
  Forall (λ c, is_managed c = true) added → Forall described added →
  NoDup (map Name D) → NoDup (bundles D) → obtainable s D →
  images s3 ≡ₚ D ++ other_middleware D (images s) → settled s3.
Proof.
  intros (Hman2 & Hdesc & HnR & _) Hr2 Hr3 Hman3 Hdesc3 Hnames Hb Hmw Hfinal.
  rewrite Hr2, Forall_app in Hman2. destruct Hman2 as [_ Hman2].
  assert (Hall : all_described s3).
  { intros c. rewrite Hr3. intros [Hc | Hc]%elem_of_app Hs; [by eapply Forall_forall in Hdesc3 |].
    apply Hdesc; [| done]. rewrite Hr2. apply elem_of_app. by right. }
  split_and!; [by rewrite Hr3, Forall_app | done | |].
  - rewrite Hfinal. apply NoDup_names_middleware; [| done | done].
    intros i Hi Hm. specialize (Hmw i Hi). by rewrite Hm in Hmw.
  - apply (NoDup_fmap_1 fst). rewrite (offered_bundles s3 Hall), Hfinal.
    by rewrite bundles_middleware.
Qed.

(** ** One configuration *)
Lemma process_services cfg d node s D :
  d !! NodeHostname cfg = Some node → desired cfg node = Ret D →
  NoDup (map Name D) → NoDup (bundles D) → obtainable s D → settled s →
  ∃ removed added kept s',
    process cfg d s =
      (Ret (), s', map (unregister_of ∘ endpoint) removed ++ map (register_of ∘ endpoint) added)
    ∧ replaced s removed added kept s' ∧ settled s'
    ∧ images s' ≡ₚ D ++ other_middleware D (images s)
    ∧ (∀ c, c ∈ removed → image c ∉ D).
Proof.
  intros Hd HD Hnames Hb Hok Hs. assert (Hs0 := Hs). assert (Himg := images_settled s Hs).
  destruct Hs as (Hman & Hdesc & HnR & Hoff).
  destruct (law_Containers s) as (cs & s1 & Hcs & Hcup & Hrun1).
  assert (Hlist : managed_images cs ≡ₚ images s)
    by by rewrite Himg, <- Hcup, managed_images_up.
  set (R := managed_images cs) in *.
  assert (HnR' : NoDup (map Name R)) by by rewrite Hlist.
  assert (HR : NoDup R) by by apply NoDup_fmap_1 in HnR'.
  assert (Hcolon : ∀ i, i ∈ diff D R → has_byte ":" (Version i) = false).
  { intros i. rewrite diff_NoDup, elem_of_filter_bool by done. intros [Hi _].
    apply elem_of_managed_images in Hi as (c & _ & _ & <-). apply image_of_version_no_colon. }
  destruct (remove_all (diff D R) s1) as (removed & s2 & Hrm & Hrimg & Hr2);
    [rewrite diff_NoDup by done; by apply NoDup_filter_bool | done | | | |].
  { intros i. unfold images. rewrite diff_NoDup, elem_of_filter_bool, Hrun1 by done.
    fold (images s). rewrite <- Hlist. tauto. }
  { unfold images. rewrite Hrun1. fold (images s). by apply (NoDup_fmap_1 Name). }
  { intros c. rewrite Hrun1. apply Hdesc. }
  rewrite Hrun1 in Hr2. rewrite diff_NoDup in Hrimg by done.
  assert (HR2 : R ≡ₚ map image removed ++ images s2).
  { rewrite Hlist. unfold images. by rewrite Hr2, map_app. }
  destruct (kept_images D R (images s2) removed HR Hrimg HR2) as [Hnd2 Hel2].
  destruct (install_all (diff R D) s2) as (added & s3 & Hin & Haimg & Hman3 & Hdesc3 & Hr3);
    try (intros i; rewrite diff_NoDup, elem_of_filter_bool by done).
  { rewrite diff_NoDup by done. by apply NoDup_filter_bool, (NoDup_fmap_1 Name). }
  { intros [Hi _]. by eapply desired_versions. }
  { rewrite bool_decide_eq_true, Hlist. intros [Hi Hno]. by apply (obtainable_new s D). }
  { rewrite bool_decide_eq_true, Hel2. tauto. }
  assert (Hnew : ∀ i, i ∈ diff R D → middleware i = false).
  { intros i. rewrite diff_NoDup, elem_of_filter_bool, bool_decide_eq_true, Hlist by done.
    intros [Hi Hno]. by apply (obtainable_new s D). }
  assert (Hadd : Forall (λ c, is_service c = true) added) by by eapply services_images.
  rewrite diff_NoDup in Haimg by done.
  assert (Hfinal : images s3 ≡ₚ D ++ other_middleware D (images s)).
  { unfold images at 1. rewrite Hr3, map_app, Haimg. fold (images s2).
    rewrite <- (other_middleware_Permutation D _ _ Hlist).
    apply reconciled_images; [by apply NoDup_fmap_1 in Hnames | done.. |]. exact Hel2. }
  exists removed, added, (running s2), s3. split_and!; [| | | done |].
  - unfold process. rewrite Hd, Hcs, plan_eq, HD. cbn [mbind outcome_bind].
    fold R. by rewrite Hrm, Hin.
  - split_and!; [done | done | | done]. eapply services_images; [exact Hrimg |].
    intros i [_ Hi]%elem_of_filter_bool. by destruct (middleware i).
  - by eapply (replaced_settled s s2 s3 D).
  - intros c Hc HcD. assert (image c ∈ map image removed) as Hi by by apply list_elem_of_fmap_2.
    rewrite Hrimg, !elem_of_filter_bool, bool_decide_eq_true in Hi. by destruct Hi as [[_ ?] _].
Qed.

(** ** Messages *)

(** What a message orders for the node, if it does. *)
Definition ordered (cfg : Config) (msg : DeploymentConfiguration) : option NodeConfig :=
  match DeploymentConfigFromJSON (Json msg) with
  | (_, Some _) => None
  | (d, None) => default ∅ d !! NodeHostname cfg
  end.

Definition last_order (cfg : Config) (msgs : list DeploymentConfiguration) : option NodeConfig :=
  last (omap (ordered cfg) msgs).

(** An order for images of different names and bundles that the node can get:
    the orders of a desired state - the same bundles in other versions, too -
    and the reports that come back, which list the middleware. *)
Definition deployable (cfg : Config) s (node : NodeConfig) (D : list Image) : Prop :=
  desired cfg node = Ret D ∧ NoDup (map Name D) ∧ NoDup (bundles D) ∧ obtainable s D.

Definition acceptable (cfg : Config) s (msg : DeploymentConfiguration) : Prop :=
  ∀ node, ordered cfg msg = Some node → ∃ D, deployable cfg s node D.

(** The middleware stays, and with it what is acceptable. *)
Definition keeps_middleware s s' : Prop :=
  ∀ i, middleware i = true → i ∈ images s → i ∈ images s'.

Lemma images_keep_middleware D s s' :
  images s' ≡ₚ D ++ other_middleware D (images s) → keeps_middleware s s'.
Proof.
  intros Himg i Hm Hi. rewrite Himg, elem_of_app, elem_of_other_middleware.
  destruct (decide (i ∈ D)); auto.
Qed.

Lemma acceptable_keeps cfg s s' msg :
  keeps_middleware s s' → acceptable cfg s msg → acceptable cfg s' msg.
Proof.
  intros Hk Hmsg node Ho. destruct (Hmsg node Ho) as (D & HD & Hnames & Hb & Hok).
  exists D. split_and!; [done.. |]. intros i Hi. specialize (Hok i Hi).
  destruct (middleware i) eqn:Hm; auto.
Qed.

(** The images after an order, those of the middleware included. *)
Definition images_after (cfg : Config) (order : option NodeConfig) s s' : Prop :=
  match order with
  | None => images s' ≡ₚ images s
  | Some node =>
      ∃ D, desired cfg node = Ret D ∧ images s' ≡ₚ D ++ other_middleware D (images s)
  end.

Lemma main_message_unordered cfg msg s :
  ordered cfg msg = None → main_message cfg msg s = (Ret (), s, []).
Proof.
  unfold ordered, main_message. destruct (DeploymentConfigFromJSON (Json msg)) as [d [err |]]; [done |].
  intros Hn. unfold process. by rewrite Hn.
Qed.

Lemma main_message_ordered cfg msg node s D :
  ordered cfg msg = Some node → deployable cfg s node D → settled s →
  ∃ removed added kept s',
    main_message cfg msg s =
      (Ret (), s', map (unregister_of ∘ endpoint) removed ++ map (register_of ∘ endpoint) added)
    ∧ replaced s removed added kept s' ∧ settled s'
    ∧ images s' ≡ₚ D ++ other_middleware D (images s)
    ∧ (∀ c, c ∈ removed → image c ∉ D).
Proof.
  intros Ho (HD & Hnames & Hb & Hok) Hs. unfold ordered in Ho. unfold main_message.
  destruct (DeploymentConfigFromJSON (Json msg)) as [d [err |]]; [done |].
  destruct (process_services cfg (default ∅ d) node s D) as (removed & added & kept & s' & -> & Hrest);
    [done.. |].
  by exists removed, added, kept, s'.
Qed.

(** Induction on the messages of the main loop: [P] relates what it started
    from, what it has announced and what it has reached. *)
Lemma main_loop_ordered cfg (P : list DeploymentConfiguration → S → list announcement → S → Prop) :
  (∀ s, P [] s [] s) →
  (∀ msg msgs s s' out, ordered cfg msg = None → P msgs s out s' → P (msg :: msgs) s out s') →
  (∀ msg msgs node D s removed added kept s1 out s',
     ordered cfg msg = Some node → deployable cfg s node D → settled s →
     replaced s removed added kept s1 → settled s1 →
     images s1 ≡ₚ D ++ other_middleware D (images s) →
     (∀ c, c ∈ removed → image c ∉ D) →
     P msgs s1 out s' →
     P (msg :: msgs) s
       ((map (unregister_of ∘ endpoint) removed ++ map (register_of ∘ endpoint) added) ++ out) s') →
  ∀ msgs s, Forall (acceptable cfg s) msgs → settled s →
  ∃ s' out, main_loop cfg (map RecvMsg msgs) s = (Ret (), s', out) ∧ settled s' ∧ P msgs s out s'.
Proof.
  intros Hnone Hskip Hstep msgs. induction msgs as [| msg msgs IH]; intros s Hall Hs; cbn [map main_loop].
  { by exists s, []. }
  apply Forall_cons in Hall as [Hmsg Hall].
  destruct (ordered cfg msg) as [node |] eqn:Ho.
  - destruct (Hmsg node Ho) as [D HD].
    destruct (main_message_ordered cfg msg node s D Ho HD Hs)
      as (removed & added & kept & s1 & -> & Hrep & Hs1 & Himg & Hrm).
    assert (Hall1 : Forall (acceptable cfg s1) msgs).
    { eapply Forall_impl; [exact Hall |]. intros m. by eapply acceptable_keeps, images_keep_middleware. }
    destruct (IH s1 Hall1 Hs1) as (s' & out & -> & Hs' & HP).
    eexists s', _. split_and!; [done | done |]. by eapply Hstep.
  - rewrite main_message_unordered by done.
    destruct (IH s Hall Hs) as (s' & out & -> & Hs' & HP).
    exists s', out. split_and!; [done | done |]. by apply Hskip.
Qed.

(** ** The registered services *)

(** The registered endpoints of the node are those of its services. *)
Definition mirrored (n : string) (A : gset (string * string * Z)) s : Prop :=
  ∀ x, (n, x.1, x.2) ∈ A ↔ x ∈ offered s.

Lemma spec_replaced A n removed added a x :
  (a, x.1, x.2) ∈ spec_session A n
      (map to_message (map (unregister_of ∘ endpoint) removed ++ map (register_of ∘ endpoint) added)) ↔
    ((a, x.1, x.2) ∈ A ∧ ¬ (a = n ∧ x ∈ map endpoint removed)) ∨ (a = n ∧ x ∈ map endpoint added).
Proof.
  assert (E : ∀ (f : string * Z → announcement) cs,
    map to_message (map (f ∘ endpoint) cs) = map (to_message ∘ f) (map endpoint cs))
    by (intros f cs; by rewrite !map_map).
  by rewrite map_app, !E, spec_session_app, spec_register, spec_unregister.
Qed.

Lemma filter_all (cs : list Container) :
  Forall (λ c, is_service c = true) cs → List.filter is_service cs = cs.
Proof. induction 1 as [| c cs Hc _ IH]; cbn; [done |]. by rewrite Hc, IH. Qed.

Lemma replaced_offered s removed added kept s' :
  replaced s removed added kept s' →
  offered s ≡ₚ map endpoint removed ++ map endpoint (List.filter is_service kept)
  ∧ offered s' ≡ₚ map endpoint added ++ map endpoint (List.filter is_service kept).
Proof.
  intros (Hr & Ha & Hrs & Has). unfold offered.
  rewrite (filter_bool_Permutation is_service _ _ Hr), (filter_bool_Permutation is_service _ _ Ha).
  rewrite !List.filter_app, !map_app, (filter_all removed), (filter_all added) by done.
  by split.
Qed.

Lemma mirrored_replaced n A s removed added kept s' :
  mirrored n A s → settled s → replaced s removed added kept s' →
  mirrored n (spec_session A n (map to_message
    (map (unregister_of ∘ endpoint) removed ++ map (register_of ∘ endpoint) added))) s'.
Proof.
  intros Hm (_ & _ & _ & Hnd) [Ho Ho']%replaced_offered x.
  rewrite spec_replaced. specialize (Hm x). rewrite Ho, elem_of_app in Hm. rewrite Ho', elem_of_app.
  rewrite Ho in Hnd. apply NoDup_app in Hnd as (_ & Hdis & _). specialize (Hdis x). tauto.
Qed.

(** A container that is kept and whose endpoint is not registered. *)
Definition unregistered (n : string) (A : gset (string * string * Z)) (c : Container) s : Prop :=
  c ∈ running s ∧ is_service c = true ∧ (n, (endpoint c).1, (endpoint c).2) ∉ A.

Lemma unregistered_replaced n A c s removed added kept s' :
  unregistered n A c s → settled s' → replaced s removed added kept s' → c ∉ removed →
  unregistered n (spec_session A n (map to_message
    (map (unregister_of ∘ endpoint) removed ++ map (register_of ∘ endpoint) added))) c s'.
Proof.
  intros (Hc & Hsv & HA) (_ & _ & _ & Hnd) Hrep Hrm.
  destruct (replaced_offered _ _ _ _ _ Hrep) as [_ Ho']. destruct Hrep as (Hr & Ha & _).
  assert (c ∈ kept) as Hk by (rewrite Hr, elem_of_app in Hc; by destruct Hc).
  split_and!; [rewrite Ha; by apply elem_of_app; right | done |].
  rewrite spec_replaced. rewrite Ho' in Hnd. apply NoDup_app in Hnd as (_ & Hdis & _).
  intros [[? _] | [_ Hin]]; [done |]. apply (Hdis _ Hin), list_elem_of_fmap_2.
  by apply elem_of_filter_bool.
Qed.

Lemma spec_session_other (A : gset (string * string * Z)) n l a b p :
  a ≠ n → (a, b, p) ∈ spec_session A n l ↔ (a, b, p) ∈ A.
Proof.
  intros Hn. revert A. induction l as [| m l IH]; intros A; [done |].
  cbn [spec_session foldl]. unfold spec_session in IH. rewrite IH.
  unfold spec_announcement. case_decide; set_solver.
Qed.

Lemma other_middleware_again D D' R :
  NoDup D → NoDup R → (∀ i, i ∈ D → middleware i = true → i ∈ R) →
  other_middleware D' (D ++ other_middleware D R) ≡ₚ other_middleware D' R.
Proof.
  intros HD HR Hmw. apply NoDup_Permutation.
  - apply NoDup_filter_bool, NoDup_app. split_and!; [done | | by apply NoDup_filter_bool].
    intros i Hi. rewrite elem_of_other_middleware. tauto.
  - by apply NoDup_filter_bool.
  - intros i. rewrite !elem_of_other_middleware, elem_of_app, elem_of_other_middleware.
    specialize (Hmw i). destruct (decide (i ∈ D)); tauto.
Qed.

(** Orders in a row: the last one counts. *)
Lemma images_after_cons cfg order node D s s1 s' :
  settled s → deployable cfg s node D → images s1 ≡ₚ D ++ other_middleware D (images s) →
  images_after cfg order s1 s' → images_after cfg (Some (default node order)) s s'.
Proof.
  intros (_ & _ & HR & _) (HD & Hnames & _ & Hok) Himg Hafter. cbn. destruct order as [node' |]; cbn in *.
  - destruct Hafter as (D' & HD' & Himg'). exists D'. split; [done |].
    rewrite Himg', Himg. rewrite other_middleware_again; [done | by eapply NoDup_fmap_1.. |].
    intros i Hi Hm. specialize (Hok i Hi). by rewrite Hm in Hok.
  - exists D. split; [done |]. by rewrite Hafter.
Qed.

Lemma last_order_cons cfg msg node msgs :
  ordered cfg msg = Some node →
  last_order cfg (msg :: msgs) = Some (default node (last_order cfg msgs)).
Proof.
  intros Ho. unfold last_order. cbn [omap list_omap]. rewrite Ho.
  rewrite last_cons. by destruct (last _).
Qed.

Lemma last_order_skip cfg msg msgs :
  ordered cfg msg = None → last_order cfg (msg :: msgs) = last_order cfg msgs.
Proof. intros Ho. unfold last_order. cbn [omap list_omap]. by rewrite Ho. Qed.

(** What the main loop makes of the messages. *)
Lemma main_loop_services cfg n msgs s :
  Forall (acceptable cfg s) msgs → settled s →
  ∃ s' out, main_loop cfg (map RecvMsg msgs) s = (Ret (), s', out) ∧ settled s'
    ∧ images_after cfg (last_order cfg msgs) s s'
    ∧ ∀ A, mirrored n A s → mirrored n (spec_session A n (map to_message out)) s'.
Proof.
  intros Hall Hs.
  destruct (main_loop_ordered cfg (λ msgs s out s', settled s →
    images_after cfg (last_order cfg msgs) s s'
    ∧ ∀ A, mirrored n A s → mirrored n (spec_session A n (map to_message out)) s'))
    with (msgs := msgs) (s := s) as (s' & out & E & Hs' & HP); [| | | done | done |].
  - intros t _. split; [unfold last_order; by cbn | intros A HA; exact HA].
  - intros msg ms t t' out Ho HP Ht. rewrite last_order_skip by done. auto.
  - intros msg ms node D t removed added kept t1 out t' Ho HD Ht Hrep Ht1 Himg _ HP _.
    destruct (HP Ht1) as [Hafter Hmir]. split.
    + rewrite (last_order_cons _ _ node) by done. by eapply images_after_cons.
    + intros A HA. rewrite map_app, spec_session_app. by eapply Hmir, mirrored_replaced.
  - exists s', out. destruct (HP Hs). by split_and!.
Qed.

(** What the registry holds after a session. *)
Lemma session_ports `{SlicesPkg} sent nReg svc A nodeID vs k anns :
  refines svc A → ValidateNodeID nReg nodeID = Ret k →
  ∃ svc' ups,
    ServiceRegistry.OpenChannel sent nReg svc (Some (nodeID :: vs)) (map RecvMsg anns)
      = Ret (svc', ups, None)
    ∧ (∀ b p, p ∈ ports_of svc' nodeID b ↔ (nodeID, b, p) ∈ spec_session A nodeID anns)
    ∧ (∀ n b, n ≠ nodeID → ports_of svc' n b = ports_of svc n b)
    ∧ ∀ err, ServiceRegistry.OpenChannel sent nReg svc (Some (nodeID :: vs))
               (map RecvMsg anns ++ [RecvErr err])
             = Ret (svc', ups, Some (if decide (err = EOF) then sent else Fail err)).
Proof.
  intros Hsvc Hv. destruct (announcement_loop_refines sent svc A nodeID anns Hsvc)
    as (svc' & ups & [Hwf' Hp'] & _ & Heq). exists svc', ups. split_and!.
  - rewrite (service_OpenChannel_valid _ _ _ _ _ k) by done.
    rewrite <- (app_nil_r (map RecvMsg anns)), Heq. cbn. by rewrite app_nil_r.
  - intros b p. apply Hp'.
  - intros n b Hn. destruct Hsvc as [Hwf Hp].
    apply strictly_sorted_unique; [by apply wf_ports.. |].
    intros p. by rewrite Hp', Hp, spec_session_other.
  - intros err. rewrite (service_OpenChannel_valid _ _ _ _ _ k), Heq by done. cbn.
    by rewrite app_nil_r.
Qed.

(** ** Properties *)

(** The service registry follows the node.  When the registry holds exactly
    the endpoints of the services a node runs, then, whatever messages the
    main loop processes that order different images the manager can install:
    it returns, the node runs exactly the images of the last order for it and
    the middleware, and its announcements, received by its session, leave the
    registry with exactly the endpoints of what runs then - also when a new
    version has the endpoint of the old one - and the entries of all other
    nodes as they were. *)
Theorem registry_follows_node `{SlicesPkg} cfg sent nReg svc A nodeID vs k msgs s :
  refines svc A → ValidateNodeID nReg nodeID = Ret k →
  settled s → (∀ b p, p ∈ ports_of svc nodeID b ↔ (b, p) ∈ offered s) →
  Forall (acceptable cfg s) msgs →
  ∃ s' out svc' ups,
    main_loop cfg (map RecvMsg msgs) s = (Ret (), s', out)
    ∧ images_after cfg (last_order cfg msgs) s s'
    ∧ ServiceRegistry.OpenChannel sent nReg svc (Some (nodeID :: vs))
        (map RecvMsg (map to_message out)) = Ret (svc', ups, None)
    ∧ (∀ b p, p ∈ ports_of svc' nodeID b ↔ (b, p) ∈ offered s')
    ∧ ∀ n b, n ≠ nodeID → ports_of svc' n b = ports_of svc n b.
Proof.
  intros Hsvc Hv Hs Hm Hall.
  destruct (main_loop_services cfg nodeID msgs s Hall Hs) as (s' & out & E & _ & Hafter & Hmir).
  destruct (session_ports sent nReg svc A nodeID vs k (map to_message out) Hsvc Hv)
    as (svc' & ups & Hopen & Hports & Hother & _).
  exists s', out, svc', ups. split_and!; [done | done | done | | done].
  destruct Hsvc as [_ Hp]. intros b p. rewrite Hports. apply (Hmir A) with (x := (b, p)).
  intros [b' p']. cbn. by rewrite <- Hp, Hm.
Qed.

(** C24. A service that runs before its node registers stays unknown to the
    control plane.  [process] announces what it installs and removes only: a
    container that is running while the registry does not hold its endpoint -
    as every container is after a restart of the orchestrator, whose node gets
    a new identifier - and that all further orders list keeps running, and its
    endpoint never reaches the registry. *)
Theorem kept_service_stays_unregistered `{SlicesPkg} cfg sent nReg svc A nodeID vs k msgs s c :
  refines svc A → ValidateNodeID nReg nodeID = Ret k → settled s →
  Forall (acceptable cfg s) msgs →
  (∀ msg node D, msg ∈ msgs → ordered cfg msg = Some node → desired cfg node = Ret D →
     image c ∈ D) →
  c ∈ running s → is_service c = true → (endpoint c).2 ∉ ports_of svc nodeID (endpoint c).1 →
  ∃ s' out svc' ups,
    main_loop cfg (map RecvMsg msgs) s = (Ret (), s', out)
    ∧ ServiceRegistry.OpenChannel sent nReg svc (Some (nodeID :: vs))
        (map RecvMsg (map to_message out)) = Ret (svc', ups, None)
    ∧ c ∈ running s' ∧ (endpoint c).2 ∉ ports_of svc' nodeID (endpoint c).1.
Proof.
  intros Hsvc Hv Hs Hall Hlist Hc Hsv Hno.
  destruct (main_loop_ordered cfg (λ msgs s out s',
    (∀ msg node D, msg ∈ msgs → ordered cfg msg = Some node → desired cfg node = Ret D → image c ∈ D) →
    ∀ A, unregistered nodeID A c s →
      unregistered nodeID (spec_session A nodeID (map to_message out)) c s'))
    with (msgs := msgs) (s := s) as (s' & out & E & _ & HP); [| | | done | done |].
  - done.
  - intros msg ms t t' out _ HP Hl. apply HP. intros m node D Hm. apply Hl. by right.
  - intros msg ms node D t removed added kept t1 out t' Ho HD Ht Hrep Ht1 _ Hrm HP Hl B HB.
    rewrite map_app, spec_session_app. apply HP; [intros m node' D' Hm; apply Hl; by right |].
    eapply unregistered_replaced; [done.. |]. intros Hin. apply (Hrm c Hin).
    destruct HD as [HD _]. by eapply Hl; [left | |].
  - destruct (session_ports sent nReg svc A nodeID vs k (map to_message out) Hsvc Hv)
      as (svc' & ups & Hopen & Hports & _).
    destruct (HP Hlist A) as (Hc' & _ & HA'); [split_and!; [done | done |]; by destruct Hsvc as [_ <-] |].
    exists s', out, svc', ups. split_and!; [done | done | done |]. by rewrite Hports.
Qed.
End services.

(** ** The small manager: every image but Envoy is one of an application, whose
    name is its bundle identifier in all its versions. *)
Definition toy_endpoint (c : Container) : string * Z := (Name (image c), 80%Z).

Lemma toy_describe_service i :
  has_byte ":" (Version i) = false → middleware i = false →
  toy_describe (image_identifier i) true = Ret (Name i, 80%Z).
Proof.
  intros Hv Hm. unfold toy_describe. rewrite image_of_identifier by done.
  unfold middleware in Hm. by rewrite Hm.
Qed.

Lemma toy_Remove_endpoint i (l : list Container) :
  has_byte ":" (Version i) = false → middleware i = false → i ∈ map image (toy_running l) →
  ∃ c l', toy_remove (image_identifier i) true l = (Ret (toy_endpoint c), l')
    ∧ image c = i ∧ toy_running l ≡ₚ c :: toy_running l'.
Proof.
  intros Hv Hm. induction l as [| c l IH]; intros Hi; [by apply elem_of_nil in Hi |].
  cbn [toy_remove]. rewrite image_of_identifier, toy_describe_service by done.
  fold (image c). fold (is_up c).
  unfold toy_running in Hi |- *. cbn [List.filter] in Hi |- *. destruct (is_up c) eqn:Hup.
  - destruct (decide (image c = i)) as [E | E].
    + rewrite bool_decide_true by done. exists c, l. split_and!; [| done | done].
      unfold toy_endpoint. by rewrite E.
    + rewrite bool_decide_false by done. cbn [andb]. cbn [map] in Hi.
      apply elem_of_cons in Hi as [Hi | Hi]; [congruence |].
      destruct (IH Hi) as (d & l' & -> & Hd & Hp). exists d, (c :: l').
      split_and!; [done | done |]. unfold toy_running in Hp. cbn [List.filter]. rewrite Hup, Hp.
      constructor.
  - rewrite andb_false_r. destruct (IH Hi) as (d & l' & -> & Hd & Hp). exists d, (c :: l').
    split_and!; [done | done |]. cbn [List.filter]. by rewrite Hup.
Qed.

#[refine] Definition toy_described : @DescribedManager (list Container) toy_manager toy_lawful := {|
  endpoint := toy_endpoint; bundle := Name;
  described c := middleware (image c) = false; installable i := middleware i = false |}.
Proof.
  - done.
  - intros i l Hv Hi _ Hdesc. apply toy_Remove_endpoint; [done | | done].
    apply list_elem_of_fmap in Hi as (c & -> & Hc). by apply Hdesc.
  - intros i l Hv Hm _.
    exists (up_container (image_identifier i)), (l ++ [up_container (image_identifier i)]).
    assert (Himg : image (up_container (image_identifier i)) = i) by by apply image_of_identifier.
    split_and!; [| done | by rewrite Himg | done | by apply toy_running_snoc].
    cbn [PullImageAndCreateContainer toy_manager]. rewrite toy_describe_service by done.
    unfold toy_endpoint. by rewrite Himg.
Defined.

Lemma toy_all_described l : @all_described _ _ toy_lawful toy_described l.
Proof. intros c _ Hs. by apply negb_true_iff in Hs. Qed.

Definition order_message (images : list string) : DeploymentConfiguration :=
  {| Json := match JSON (Some (toy_node images)) with Ret j => j | _ => "" end;
     StateType := STATE_TYPE_DESIRED |}.

Lemma toy_acceptable s images node D :
  @ordered toy_config (order_message images) = Some node →
  @desired familiar_reference toy_config node = Ret D → NoDup (map Name D) →
  Forall (λ i, middleware i = true → i ∈ map image (toy_running s)) D →
  @acceptable familiar_reference _ _ toy_lawful toy_described toy_config s (order_message images).
Proof.
  intros Ho HD Hnd Hm node' Ho'. assert (node' = node) as -> by congruence.
  exists D. split_and!; [done | done | |].
  - eapply sublist_NoDup; [exact Hnd |]. by apply fmap_sublist, filter_bool_sublist.
  - intros i Hi. rewrite Forall_forall in Hm. destruct (middleware i) eqn:E; [by apply Hm | done].
Qed.

(** An upgrade of a registered service. *)
Definition upgrade : list DeploymentConfiguration :=
  [order_message ["gcr.io/app:v1"]; order_message ["gcr.io/app:v2"]].

Definition version (v : string) : Image := {| Name := "gcr.io/app"; Version := v |}.

Lemma upgrade_acceptable s :
  Forall (@acceptable familiar_reference _ _ toy_lawful toy_described toy_config s) upgrade.
Proof.
  constructor; [| constructor; [| constructor]];
    [eapply (toy_acceptable s _ {| State := NodeStateRunning; Images := Some ["gcr.io/app:v1"] |} [version "v1"])
    | eapply (toy_acceptable s _ {| State := NodeStateRunning; Images := Some ["gcr.io/app:v2"] |} [version "v2"])];
    [by vm_compute | by vm_compute | decide_vm | apply Forall_singleton; intros Hm; by vm_compute in Hm
    | by vm_compute | by vm_compute | decide_vm | apply Forall_singleton; intros Hm; by vm_compute in Hm].
Qed.

Definition one_registered : NodeRegistryServer := {| nodes := [{| Host := "hpc-1"; Port := 8000 |}] |}.

(** A node that runs Envoy and version 1 of the application. *)
Definition serving_node : list Container :=
  [up_container "gcr.io/app:v1"; up_container "docker.io/envoyproxy/envoy:v1"].

Lemma serving_node_settled : @settled _ _ toy_lawful toy_described serving_node.
Proof.
  split; [repeat constructor |]. split; [apply toy_all_described |].
  split; decide_vm.
Qed.

Lemma registry_follows_node_witness :
  let s : list Container := [up_container "docker.io/envoyproxy/envoy:v1"] in
  ∃ s' out svc' ups,
    @main_loop familiar_reference _ toy_manager toy_config (map RecvMsg upgrade) s = (Ret (), s', out)
    ∧ @images_after familiar_reference _ _ toy_lawful toy_config (last_order toy_config upgrade) s s'
    ∧ ServiceRegistry.OpenChannel (Ret ()) one_registered ∅ (Some ["node-0"])
        (map RecvMsg (map to_message out)) = Ret (svc', ups, None)
    ∧ (∀ b p, p ∈ ports_of svc' "node-0" b ↔ (b, p) ∈ @offered _ _ toy_lawful toy_described s')
    ∧ ∀ n b, n ≠ "node-0" → ports_of svc' n b = ports_of ∅ n b.
Proof.
  intros s.
  apply (@registry_follows_node familiar_reference _ toy_manager toy_lawful toy_described _
    toy_config (Ret ()) one_registered ∅ ∅ "node-0" [] 0 upgrade s).
  - apply refines_empty.
  - vm_compute. reflexivity.
  - split; [repeat constructor |]. split; [apply toy_all_described |].
    split; decide_vm.
  - intros b p. unfold ports_of. rewrite lookup_empty. cbn. by rewrite !elem_of_nil.
  - exact (upgrade_acceptable s).
Defined.

(** A restart: the container and Envoy run, and its order comes again. *)
Lemma kept_service_stays_unregistered_witness :
  let c := up_container "gcr.io/app:v1" in
  let s := serving_node in
  let msgs := [order_message ["gcr.io/app:v1"]] in
  ∃ s' out svc' ups,
    @main_loop familiar_reference _ toy_manager toy_config (map RecvMsg msgs) s = (Ret (), s', out)
    ∧ ServiceRegistry.OpenChannel (Ret ()) one_registered ∅ (Some ["node-0"])
        (map RecvMsg (map to_message out)) = Ret (svc', ups, None)
    ∧ c ∈ toy_running s' ∧ (toy_endpoint c).2 ∉ ports_of svc' "node-0" (toy_endpoint c).1.
Proof.
  intros c s msgs.
  apply (@kept_service_stays_unregistered familiar_reference _ toy_manager toy_lawful toy_described _
    toy_config (Ret ()) one_registered ∅ ∅ "node-0" [] 0 msgs s c).
  - apply refines_empty.
  - vm_compute. reflexivity.
  - exact serving_node_settled.
  - assert (Hacc := upgrade_acceptable s). apply Forall_cons in Hacc as [Hacc _].
    by constructor.
  - intros msg node D ->%list_elem_of_singleton Ho HD.
    assert (E : ordered toy_config (order_message ["gcr.io/app:v1"]) =
      Some {| State := NodeStateRunning; Images := Some ["gcr.io/app:v1"] |}) by by vm_compute.
    rewrite E in Ho. injection Ho as <-.
    assert (HD' : @desired familiar_reference toy_config
      {| State := NodeStateRunning; Images := Some ["gcr.io/app:v1"] |} = Ret [version "v1"])
      by by vm_compute.
    rewrite HD' in HD. injection HD as <-. apply list_elem_of_here.
  - apply list_elem_of_here.
  - reflexivity.
  - unfold ports_of. rewrite lookup_empty. apply not_elem_of_nil.
Defined.
