(* ===== verification/DockerServices.v ===== *)
(** The services of a node whose containers run on a Docker-compatible engine:
    the manager of [DockerManager] is of the class [DescribedManager] of
    [Services], when the engine is of the class [DescribedEngine].  So what
    the control plane knows of such a node is what the descriptors and the
    port bindings of its containers say. *)
From S2P Require Import Prelude GoStrings Slices Json JsonParse Deployment DeploymentJson Config Container NodeRegistry ServiceRegistry Orchestrator Reconcile DockerManager OrchestratorApp Services.

Local Open Scope list_scope.

(** ** Engines with in-car apps

    Some containers are those of in-car apps ([app], by identifier): they have
    a descriptor, a file of their image with the identifier [bundle_id], and
    fixed port bindings; [label] is what both say.  Nothing is asked of the
    other containers, such as Envoy.  A [runnable] image is one of an in-car
    app that the registry serves and the engine can run.  Looking into a
    container and removing one leave the store of images as it is, and an image
    in the store that no container runs, and on which no other one is built, is
    removed by force. *)
Class DescribedEngine (S : Type) `{LawfulEngine S} := {
  app : string → Prop;
  label : string → string * Z;
  bundle_id : Image → string;
  runnable : string → Prop;
  engine_bundle c s : c ∈ up s → app (ID c) → (label (ID c)).1 = bundle_id (image c);
  engine_descriptor c s : c ∈ up s → app (ID c) →
    ∃ items s', CopyFromContainer (ID c) bundleConfigFileName s = (Ret items, s')
      ∧ read_archive (ID c) items = Ret {| BundleID := (label (ID c)).1 |}
      ∧ ∀ i a, local s i a → local s' i a;
  engine_bindings c s : c ∈ up s → app (ID c) →
    ∃ bindings s', ContainerInspect (ID c) s = (Ret bindings, s')
      ∧ first_port bindings = Ret (label (ID c)).2
      ∧ ∀ i a, local s i a → local s' i a;
  engine_listed name s l s' c :
    ContainerList (ListAncestor name) s = (Ret l, s') → c ∈ l →
    local s' (ImageID c) (Summary_Image c);
  engine_Remove_local id s s' i a :
    ContainerRemove id s = (Ret (), s') → local s i a → local s' i a;
  engine_ImageRemove_unused i a s :
    local s i a → (∀ c, c ∈ up s → ¬ built_on s (Container_Image c) a) →
    (∀ j b, local s j b → built_on s b a → image_of b = image_of a) →
    is_ret (ImageRemove i s).1 = true;
  engine_Pull_ok name s : runnable name → is_ret (ImagePull name s).1 = true;
  engine_Create_ok name s s' reads :
    runnable name → ImagePull name s = (Ret reads, s') →
    is_ret (ContainerCreate name [] ∅ s').1 = true;
  engine_Start_ok id name s :
    created s id name → runnable name →
    ∃ s' c, ContainerStart id s = (Ret (), s') ∧ ID c = id ∧ app id ∧ is_managed c = true
      ∧ Container_Image c = name ∧ up s' ≡ₚ c :: up s;
}.

Section docker_services.
Context {S : Type} `{DescribedEngine S}.
Implicit Types (s : S).

(** A running container of an app is described by its label. *)
Lemma describe_label c s :
  c ∈ up s → app (ID c) →
  ∃ s', describe true (ID c) s = (Ret (label (ID c)), s') ∧ up s' ≡ₚ up s
    ∧ ∀ i a, local s i a → local s' i a.
Proof.
  intros Hc Ha. destruct (engine_descriptor c s Hc Ha) as (items & s1 & Hcopy & Hread & Hk1).
  assert (Hu1 := engine_Copy (ID c) bundleConfigFileName s). rewrite Hcopy in Hu1.
  destruct Hu1 as (_ & Hu1 & _).
  destruct (engine_bindings c s1) as (bindings & s2 & Hins & Hport & Hk2);
    [by rewrite Hu1 | done |].
  assert (Hu2 := engine_Inspect (ID c) s1). rewrite Hins in Hu2. destruct Hu2 as (_ & Hu2 & _).
  exists s2. split_and!; [| by rewrite Hu2 | auto].
  unfold describe, bundleConfiguration, containerServicePort, call_client.
  rewrite Hcopy, Hread, Hins, Hport. cbn. by destruct (label (ID c)).
Qed.

Context `{!UnrelatedImages S}.

(** The image of the only container that ran it can be removed. *)
Lemma unused_image i a s :
  local s i a → image_of a ∉ map image (up s) → is_ret (ImageRemove i s).1 = true.
Proof.
  intros Hl Hno. apply (engine_ImageRemove_unused i a s Hl).
  - intros c Hc Hb. apply Hno. destruct (engine_up_local c s Hc) as [j Hj].
    rewrite <- (unrelated s j _ _ Hj Hb). by apply (list_elem_of_fmap_2 image).
  - intros j b. apply unrelated.
Qed.

Lemma docker_Remove_described i s :
  has_byte ":" (Version i) = false → i ∈ map image (up s) → NoDup (map image (up s)) →
  (∀ c, c ∈ up s → image c = i → app (ID c)) →
  ∃ c s', docker_RemoveImageAndContainer (image_identifier i) true s = (Ret (label (ID c)), s')
    ∧ image c = i ∧ up s ≡ₚ c :: up s'.
Proof.
  intros Hv Hin Hnd Happ. unfold docker_RemoveImageAndContainer. unfold call_client at 1.
  destruct (engine_ListAncestor (image_identifier i) s) as (l & cs & s1 & Hlist & Hl & Hcs & Hu1).
  assert (Hcs' : ∀ c, c ∈ cs ↔ c ∈ up s ∧ image c = i).
  { intros c. rewrite Hcs. assert (Hb := unrelated_up c (image_identifier i) s).
    rewrite image_of_identifier in Hb by done. tauto. }
  rewrite Hlist. destruct Hl as [| c d l cs Hcd _].
  { apply list_elem_of_fmap in Hin as (d & -> & Hd).
    assert (Hno : d ∈ []) by by apply Hcs'. by apply elem_of_nil in Hno. }
  destruct (proj1 (Hcs' d)) as [Hd Hi]; [apply list_elem_of_here |].
  assert (Ha := Happ d Hd Hi). rewrite <- Hu1 in Hd.
  assert (Hsum : ID d = Summary_ID c ∧ Container_Image d = Summary_Image c)
    by (unfold represents, summary_container in Hcd; by outcome_inv).
  destruct Hsum as [Hid Hname].
  assert (Himg := engine_listed _ _ _ _ c Hlist (list_elem_of_here _ _)).
  destruct (describe_label d s1 Hd Ha) as (s2 & Hdesc & Hu2 & Hk2). rewrite <- Hu2 in Hd.
  destruct (engine_Remove d s2 Hd) as (s3 & d' & Hrm & Hid' & Hi' & _ & Hu3).
  assert (Hrun : up s ≡ₚ d' :: up s3) by by rewrite <- Hu3, Hu2.
  assert (Hok : is_ret (ImageRemove (ImageID c) s3).1 = true).
  { apply (unused_image _ (Summary_Image c)); [by eapply engine_Remove_local; [| apply Hk2] |].
    rewrite Hrun in Hnd. apply NoDup_cons in Hnd as [Hno _]. rewrite <- Hname.
    change (image_of (Container_Image d)) with (image d). by rewrite <- Hi'. }
  destruct (engine_ImageRemove (ImageID c) s3) as [_ Hu4].
  destruct (ImageRemove (ImageID c) s3) as [[[] | |] s4] eqn:Hir; try discriminate Hok. cbn in Hu4.
  exists d', s4. split_and!; [| congruence | by rewrite Hu4].
  unfold call_client. by rewrite <- Hid, Hdesc, Hrm, Hir, Hid'.
Qed.

Lemma docker_Pull_described i s :
  has_byte ":" (Version i) = false → runnable (image_identifier i) → i ∉ map image (up s) →
  ∃ c s', docker_PullImageAndCreateContainer (image_identifier i) [] ∅ true s
      = (Ret (label (ID c)), s')
    ∧ is_managed c = true ∧ app (ID c) ∧ image c = i ∧ up s' ≡ₚ c :: up s.
Proof.
  intros Hv Hrun _. set (name := image_identifier i) in *.
  assert (Hok1 := engine_Pull_ok name s Hrun). destruct (engine_Pull name s) as [_ Hu1].
  destruct (ImagePull name s) as [[reads | |] s1] eqn:Hpull; try discriminate Hok1. cbn in Hu1.
  assert (Hok2 := engine_Create_ok name s s1 reads Hrun Hpull).
  assert (Hcr := engine_Create name [] ∅ s1).
  destruct (ContainerCreate name [] ∅ s1) as [[id | |] s2] eqn:Hcreate; try discriminate Hok2.
  destruct Hcr as (_ & Hu2 & Hcr). specialize (Hcr id eq_refl).
  destruct (engine_Start_ok id name s2 Hcr Hrun) as (s3 & c & Hstart & Hid & Ha & Hm & Hc & Hu3).
  rewrite <- Hid in Ha.
  destruct (describe_label c s3) as (s4 & Hdesc & Hu4 & _);
    [rewrite Hu3; apply list_elem_of_here | done |].
  exists c, s4. split_and!; [| done | done | | by rewrite Hu4, Hu3, Hu2, Hu1].
  - unfold docker_PullImageAndCreateContainer, call_client.
    rewrite Hpull, Hcreate, Hstart, <- Hid. by rewrite Hdesc.
  - unfold image. rewrite Hc. by apply image_of_identifier.
Qed.

#[export, refine] Instance docker_described : DescribedManager S := {|
  endpoint c := label (ID c);
  bundle := bundle_id;
  described c := app (ID c);
  installable i := runnable (image_identifier i) |}.
Proof.
  - apply engine_bundle.
  - apply docker_Remove_described.
  - apply docker_Pull_described.
Defined.

(** What a node offers is what the manager reads from its services. *)
Lemma offered_described s b q :
  all_described s →
  (b, q) ∈ offered s ↔
    ∃ c, c ∈ up s ∧ is_service c = true ∧ (describe true (ID c) s).1 = Ret (b, q).
Proof.
  intros Hall. unfold offered. rewrite list_elem_of_fmap. split.
  - intros (c & Hl & [Hc Hs]%elem_of_filter_bool). exists c. split_and!; [done | done |].
    destruct (describe_label c s Hc (Hall c Hc Hs)) as (s' & -> & _). by rewrite Hl.
  - intros (c & Hc & Hs & Hd). exists c. rewrite elem_of_filter_bool. split; [| done].
    destruct (describe_label c s Hc (Hall c Hc Hs)) as (s' & E & _). rewrite E in Hd. by injection Hd.
Qed.
End docker_services.

(** ** The engine of [DockerManager] with descriptors *)

(** Two versions of an application with one bundle identifier; the image of
    Envoy has no descriptor. *)
Definition app_images : list string := ["gcr.io/app:v1"; "gcr.io/app:v2"].

Definition app_descriptor (id : string) : outcome string :=
  if bool_decide (id ∈ app_images) then Ret (quoted_object "bundle_id" "com.example.app")
  else Panic (ExplicitPanic "").

Definition app_client : DockerClient (list string) := toy_client app_descriptor.
Definition app_engine : @LawfulEngine _ app_client := toy_engine app_descriptor.

#[refine] Definition app_described : @DescribedEngine (list string) app_client app_engine := {|
  app id := id ∈ app_images;
  label id := ("com.example.app", (-1)%Z);
  bundle_id i := "com.example.app";
  runnable name := name ∈ app_images |}.
Proof.
  - done.
  - intros c l _ Ha. cbn [CopyFromContainer app_client toy_client]. unfold app_descriptor.
    rewrite bool_decide_eq_true_2 by done. do 2 eexists.
    split_and!; [reflexivity | by vm_compute | done].
  - intros c l _ _. by do 2 eexists.
  - intros name l l' s' c [= <- <-] (n & -> & _)%list_elem_of_fmap. done.
  - done.
  - done.
  - done.
  - done.
  - intros id name l -> Hrun. exists (l ++ [name]), (engine_container name).
    split_and!; [done.. |]. cbn. rewrite map_app. by rewrite Permutation_app_comm.
Defined.

(** ** Properties *)

(** C6. The control plane knows the bundles of a Docker node by their
    descriptors.  When the service registry holds, for each service that runs
    on the engine of a node next to Envoy, exactly what its descriptor and its
    first port binding say, then so it does after the main loop has processed
    messages that order different bundles whose images the engine can run - new
    versions of the running ones included - and their announcements were
    received; and the node then runs exactly the images of the last order for
    it and the middleware.  The entries of other nodes stay as they were.  No
    image in the store of the engine is built on another one in it. *)
Theorem docker_registry_follows_descriptors `{ReferencePkg, SlicesPkg} {S} `{DescribedEngine S, !UnrelatedImages S}
    cfg sent nReg svc A nodeID vs k msgs (s : S) :
  let services s b q :=
    ∃ c, c ∈ up s ∧ is_service c = true ∧ (describe true (ID c) s).1 = Ret (b, q) in
  refines svc A → ValidateNodeID nReg nodeID = Ret k → settled s →
  (∀ b q, q ∈ ports_of svc nodeID b ↔ services s b q) →
  Forall (acceptable cfg s) msgs →
  ∃ s' out svc' ups,
    main_loop cfg (map RecvMsg msgs) s = (Ret (), s', out)
    ∧ images_after cfg (last_order cfg msgs) s s'
    ∧ ServiceRegistry.OpenChannel sent nReg svc (Some (nodeID :: vs))
        (map RecvMsg (map to_message out)) = Ret (svc', ups, None)
    ∧ (∀ b q, q ∈ ports_of svc' nodeID b ↔ services s' b q)
    ∧ ∀ n b, n ≠ nodeID → ports_of svc' n b = ports_of svc n b.
Proof.
  intros services Hsvc Hv Hs Hports Hall.
  destruct (main_loop_services cfg nodeID msgs s Hall Hs) as (s' & out & E & Hs' & Hafter & Hmir).
  destruct (session_ports sent nReg svc A nodeID vs k (map to_message out) Hsvc Hv)
    as (svc' & ups & Hopen & Hports' & Hother & _).
  exists s', out, svc', ups. split_and!; [done | done | done | | done].
  intros b q. rewrite Hports'. unfold services.
  rewrite <- offered_described by apply Hs'.
  destruct Hsvc as [_ Hp]. apply (Hmir A) with (x := (b, q)).
  intros [b' q']. rewrite <- Hp, Hports. unfold services. symmetry. apply offered_described, Hs.
Qed.

(** An upgrade of a registered application. *)
Lemma app_upgrade_acceptable s :
  Forall (@acceptable familiar_reference _ (@docker_manager _ app_client)
            (@docker_lawful _ app_client app_engine (toy_unrelated _))
            (@docker_described _ app_client app_engine app_described (toy_unrelated _)) toy_config s) upgrade.
Proof.
  assert (Hmsg : ∀ v, v ∈ ["v1"; "v2"] → ∀ node,
    ordered toy_config (order_message ["gcr.io/app:" +:+ v]) = Some node →
    @deployable familiar_reference _ (@docker_manager _ app_client)
      (@docker_lawful _ app_client app_engine (toy_unrelated _))
      (@docker_described _ app_client app_engine app_described (toy_unrelated _)) toy_config s node [version v]).
  { intros v Hv node Ho.
    assert (node = {| State := NodeStateRunning; Images := Some ["gcr.io/app:" +:+ v] |}) as ->.
    { rewrite !elem_of_cons, elem_of_nil in Hv.
      by destruct Hv as [-> | [-> | []]]; vm_compute in Ho; injection Ho as <-. }
    split_and!; [| decide_vm | decide_vm |].
    - rewrite !elem_of_cons, elem_of_nil in Hv. destruct Hv as [-> | [-> | []]]; by vm_compute.
    - intros i ->%list_elem_of_singleton.
      destruct (middleware (version v)) eqn:Hm; [by vm_compute in Hm |].
      change (image_identifier (version v) ∈ app_images).
      rewrite !elem_of_cons, elem_of_nil in Hv. destruct Hv as [-> | [-> | []]]; decide_vm. }
  repeat constructor; intros node Ho; eexists.
  - by apply (Hmsg "v1"); [decide_vm |].
  - by apply (Hmsg "v2"); [decide_vm |].
Qed.

Lemma docker_registry_follows_descriptors_witness :
  let s : list string := ["docker.io/envoyproxy/envoy:v1"] in
  let M := @docker_manager _ app_client in
  let services (s : list string) b q :=
    ∃ c, c ∈ map engine_container s ∧ is_service c = true
      ∧ (@describe _ app_client true (ID c) s).1 = Ret (b, q) in
  ∃ s' out svc' ups,
    @main_loop familiar_reference _ M toy_config (map RecvMsg upgrade) s = (Ret (), s', out)
    ∧ @images_after familiar_reference _ M (@docker_lawful _ app_client app_engine (toy_unrelated _)) toy_config
        (last_order toy_config upgrade) s s'
    ∧ ServiceRegistry.OpenChannel (Ret ()) one_registered ∅ (Some ["node-0"])
        (map RecvMsg (map to_message out)) = Ret (svc', ups, None)
    ∧ (∀ b q, q ∈ ports_of svc' "node-0" b ↔ services s' b q)
    ∧ ∀ n b, n ≠ "node-0" → ports_of svc' n b = ports_of ∅ n b.
Proof.
  intros s M services.
  apply (@docker_registry_follows_descriptors familiar_reference _ _ app_client app_engine
    app_described (toy_unrelated _) toy_config (Ret ()) one_registered ∅ ∅ "node-0" [] 0 upgrade s).
  - apply refines_empty.
  - vm_compute. reflexivity.
  - split; [repeat constructor |]. split; [| split; decide_vm].
    intros c ->%list_elem_of_singleton Hc. by vm_compute in Hc.
  - intros b q. unfold ports_of. rewrite lookup_empty. cbn. rewrite elem_of_nil.
    split; [done |]. intros (c & ->%list_elem_of_singleton & Hc & _). by vm_compute in Hc.
  - exact (app_upgrade_acceptable s).
Defined.
