(* ===== verification/Convergence.v ===== *)
(** The whole system: orchestrators and node channels as one step relation
    ([Fleet]), lawful managers behind the orchestrators ([Services]) and the
    service registry.  Once nothing is on the way, the common sequence of
    messages decides what runs on every satellite and what the control plane
    knows of it. *)
From S2P Require Import Prelude GoStrings Slices Json JsonParse Deployment DeploymentJson Config Container NodeRegistry ServiceRegistry Orchestrator Reconcile OrchestratorApp Broker NodeChannels NodeProgram Fleet Services.

Local Open Scope list_scope.

Section convergence.
Context `{ReferencePkg} {S : Type} `{DescribedManager S}.
Context (cfg : nat → Config) (s0 : nat → S) (file : nat → outcome string).

(** Nothing is on the way to the session [sid]: the broker is between two
    messages, the reader is registered since the message [j] and lost nothing,
    its buffer, the stream and the program's own queue are empty. *)
Definition quiet (f : Fleet S) (sid : nat) (p : Program S) (j : nat) : Prop :=
  let c := channels f in
  listen (broker c) = Selecting
  ∧ (∃ r, readers (broker c) !! sid = Some r ∧ joined r = Some j ∧ lost r = 0 ∧ buffer r = [])
  ∧ (∃ x, sessions c !! sid = Some x ∧ delivered p = sent x)
  ∧ inbox p = [] ∧ main p = None ∧ serving p.

(** The main loop of a satellite for which nothing is on the way has handled
    every message since the node joined. *)
Lemma quiet_main_loop f sid p j :
  reachable_fleet cfg s0 file f → programs f !! sid = Some p → quiet f sid p j →
  EnableCentralMode (cfg sid) = false → (∀ s : S, (Containers s).2 = s) →
  main_loop (cfg sid) (map RecvMsg (drop j (taken (broker (channels f))))) (s0 sid)
    = (Ret (), manager p, announced p).
Proof.
  intros Hf Hp (Hl & (r & Hr & Hj & Hlost & Hbuf) & (x & Hx & Hsent) & Hin & Hm & Hcr) Hcm Hpure.
  destruct (satellite_in_fleet cfg s0 file f sid p) as (Hloop & _ & x' & Hx' & _ & Hgot); [done .. |].
  assert (x' = x) as -> by congruence. specialize (Hloop Hcr Hm). by rewrite (Hgot r j) in Hloop by done.
Qed.

(** C4. Eventual agreement.  In every reachable state of the system, a
    satellite for which nothing is on the way runs exactly the images that the
    last message for it in the common sequence orders, counted from where it
    joined, and the middleware it started with; and its announcements, received by
    its session of the service registry, leave there exactly the endpoints of
    what runs - provided that the orders in the sequence name different images
    that its manager can install, and that the registry mirrored the node when
    it started. *)
Theorem satellites_agree `{SlicesPkg} f sid p j :
  reachable_fleet cfg s0 file f → programs f !! sid = Some p → quiet f sid p j →
  EnableCentralMode (cfg sid) = false → (∀ s : S, (Containers s).2 = s) → settled (s0 sid) →
  let msgs := drop j (taken (broker (channels f))) in
  Forall (acceptable (cfg sid) (s0 sid)) msgs →
  images_after (cfg sid) (last_order (cfg sid) msgs) (s0 sid) (manager p)
  ∧ ∀ sent nReg svc A nodeID vs k,
      refines svc A → ValidateNodeID nReg nodeID = Ret k →
      (∀ b q, q ∈ ports_of svc nodeID b ↔ (b, q) ∈ offered (s0 sid)) →
      ∃ svc' ups,
        ServiceRegistry.OpenChannel sent nReg svc (Some (nodeID :: vs))
          (map RecvMsg (map to_message (announced p))) = Ret (svc', ups, None)
        ∧ ∀ b q, q ∈ ports_of svc' nodeID b ↔ (b, q) ∈ offered (manager p).
Proof.
  intros Hf Hp Hq Hcm Hpure Hs msgs Hall.
  assert (Hloop := quiet_main_loop f sid p j Hf Hp Hq Hcm Hpure). fold msgs in Hloop.
  assert (∀ n, images_after (cfg sid) (last_order (cfg sid) msgs) (s0 sid) (manager p)
    ∧ ∀ A, mirrored n A (s0 sid) →
        mirrored n (spec_session A n (map to_message (announced p))) (manager p)) as Hend.
  { intros n. destruct (main_loop_services (cfg sid) n msgs (s0 sid) Hall Hs)
      as (s' & out & E & _ & Hafter & Hmir).
    assert (s' = manager p) as -> by congruence.
    by assert (out = announced p) as -> by congruence. }
  split; [by destruct (Hend "") |].
  intros sent' nReg svc A nodeID vs k Hsvc Hv Hports.
  destruct (session_ports sent' nReg svc A nodeID vs k (map to_message (announced p)) Hsvc Hv)
    as (svc' & ups & Hopen & Hports' & _).
  exists svc', ups. split; [done |]. intros b q. rewrite Hports'.
  destruct (Hend nodeID) as [_ Hmir]. apply (Hmir A) with (x := (b, q)).
  destruct Hsvc as [_ Hrefines]. intros [b' q']. cbn. by rewrite <- Hrefines, Hports.
Qed.
End convergence.

(** ** The node of the execution of [Fleet]: an application and Envoy, and the
    report that lists both *)
Definition fleet_order : NodeConfig := {| State := NodeStateRunning; Images := Some fleet_images |}.

Lemma fleet_settled : @settled _ _ toy_lawful toy_described (fleet_start 0).
Proof.
  split; [decide_vm |]. split; [apply toy_all_described |]. split; decide_vm.
Qed.

Lemma fleet_deployable :
  @deployable familiar_reference _ _ toy_lawful toy_described (fleet_config 0) (fleet_start 0)
    fleet_order (map image_of fleet_images).
Proof.
  split; [by vm_compute |]. split; [decide_vm |]. split; [decide_vm |].
  intros i Hi. destruct (middleware i) eqn:Hm; [| exact Hm].
  assert (images (fleet_start 0) = map image_of fleet_images) as -> by by vm_compute.
  exact Hi.
Qed.

Lemma fleet_acceptable m :
  DeploymentConfigFromJSON (Json m) = (Some (toy_node fleet_images), None) →
  ordered (fleet_config 0) m = Some fleet_order
  ∧ @acceptable familiar_reference _ _ toy_lawful toy_described (fleet_config 0) (fleet_start 0) m.
Proof.
  intros Hjson. assert (Ho : ordered (fleet_config 0) m = Some fleet_order) by (unfold ordered; by rewrite Hjson).
  split; [done |]. intros node Ho'. assert (node = fleet_order) as -> by congruence.
  exists (map image_of fleet_images). exact fleet_deployable.
Qed.

(** Its own report is the last message for it. *)
Lemma satellites_agree_witness :
  let s := fleet_start 0 in
  ∃ (f : Fleet (list Container)) (p : Program (list Container)),
    programs f !! 0 = Some p ∧ quiet f 0 p 0
    ∧ let msgs := drop 0 (taken (broker (channels f))) in
      last_order (fleet_config 0) msgs
        = Some fleet_order
      ∧ @images_after familiar_reference _ _ toy_lawful (fleet_config 0)
          (last_order (fleet_config 0) msgs) s (manager p)
      ∧ ∀ sent nReg svc A nodeID vs k,
          refines svc A → ValidateNodeID nReg nodeID = Ret k →
          (∀ b q, q ∈ ports_of svc nodeID b ↔ (b, q) ∈ @offered _ _ toy_lawful toy_described s) →
          ∃ svc' ups,
            ServiceRegistry.OpenChannel sent nReg svc (Some (nodeID :: vs))
              (map RecvMsg (map to_message (announced p))) = Ret (svc', ups, None)
            ∧ ∀ b q, q ∈ ports_of svc' nodeID b
                ↔ (b, q) ∈ @offered _ _ toy_lawful toy_described (manager p).
Proof.
  intros s. destruct fleet_run as (f & p & Hf & Hp & Hcr & Hm & _ & Hin & Hl
    & r & x & m & Hr & Hj & Hlost & Hbuf & Hx & Hsent & Htaken & Hjson).
  assert (Hq : quiet f 0 p 0) by (split_and!; eauto).
  destruct (fleet_acceptable m Hjson) as [Ho Hacc].
  exists f, p. split; [exact Hp |]. split; [exact Hq |]. split.
  { rewrite Htaken. unfold last_order. cbn. by rewrite Ho. }
  apply (@satellites_agree familiar_reference _ toy_manager toy_lawful toy_described
    fleet_config fleet_start fleet_file _ f 0 p 0 Hf Hp Hq); [done | done | |].
  - exact fleet_settled.
  - rewrite Htaken. constructor; [exact Hacc | constructor].
Defined.
