(* ===== verification/Settling.v ===== *)
(** A satellite can always catch up: from every reachable state of the system
    ([Fleet]) the goroutines can go on, without a new message from any
    orchestrator, until nothing is on the way to it and it runs what the last
    message for it orders.

    The run has three parts: the node channels deliver what is written, with
    the reader emptied before each message is offered to it, so that it loses
    none; the stream delivers; the main loop of the program works off its
    queue. *)
From S2P Require Import Prelude GoStrings Slices Json JsonParse Deployment DeploymentJson Config Container NodeRegistry ServiceRegistry Orchestrator Reconcile OrchestratorApp Broker NodeChannels NodeDelivery NodeProgram Fleet Services Convergence.

Local Open Scope list_scope.

(** ** The node channels *)

(** A run of the node channels without new messages that keeps the session
    [sid] going, and its reader from losing anything. *)
Record keeps_up (sid : nat) (c c' : NodeChannels) : Prop := {
  ku_run : rtc internal_step c c';
  ku_log : log c' = log c;
  ku_reader y r :
    sessions c !! sid = Some y → forwarding y = true → readers (broker c) !! sid = Some r →
    ∃ y' r', sessions c' !! sid = Some y' ∧ forwarding y' = true
      ∧ readers (broker c') !! sid = Some r' ∧ lost r' = lost r ∧ joined r' = joined r;
}.

#[export] Instance keeps_up_preorder sid : PreOrder (keeps_up sid).
Proof.
  split.
  - intros c. split; [done | done |]. intros y r Hy Hf Hr. by exists y, r.
  - intros c1 c2 c3 [R1 L1 S1] [R2 L2 S2]. split; [by etrans | congruence |].
    intros y r Hy Hf Hr. destruct (S1 y r Hy Hf Hr) as (y2 & r2 & Hy2 & Hf2 & Hr2 & Hl2 & Hj2).
    destruct (S2 y2 r2 Hy2 Hf2 Hr2) as (y3 & r3 & Hy3 & Hf3 & Hr3 & Hl3 & Hj3).
    exists y3, r3. split_and!; [done .. | congruence | congruence].
Qed.

Lemma keeps_up_reachable sid c c' :
  reachable_channels c → keeps_up sid c c' → reachable_channels c'.
Proof.
  intros Hc [Hrun _ _]. unfold reachable_channels in *. etrans; [exact Hc |].
  eapply (rtc_congruence (λ x, x)); [| exact Hrun]. by intros x y [? _].
Qed.

(** A step of the broker that leaves the reader's losses alone. *)
Lemma keeps_up_broker sid c b' :
  listening (broker c) b' →
  (∀ r, readers (broker c) !! sid = Some r →
     ∃ r', readers b' !! sid = Some r' ∧ lost r' = lost r ∧ joined r' = joined r) →
  keeps_up sid c (set_broker b' c).
Proof.
  intros Hstep Hr. split; [| done |].
  - apply rtc_once. split; [by apply step_Listen | done].
  - intros y r Hy Hf Hr0. destruct (Hr r Hr0) as (r' & ? & ? & ?). by exists y, r'.
Qed.

(** The reader can be emptied. *)
Lemma empty_reader sid c y r :
  sessions c !! sid = Some y → forwarding y = true → readers (broker c) !! sid = Some r →
  ∃ c' y' r', keeps_up sid c c' ∧ listen (broker c') = listen (broker c)
    ∧ source (broker c') = source (broker c)
    ∧ sessions c' !! sid = Some y' ∧ forwarding y' = true
    ∧ readers (broker c') !! sid = Some r' ∧ buffer r' = [].
Proof.
  remember (buffer r) as buf eqn:Hbuf. revert c y r Hbuf.
  induction buf as [| msg rest IH]; intros c y r Hbuf Hy Hf Hr; [by exists c, y, r |].
  set (b1 := set_listen (listen (broker c))
               (<[sid := receive r msg rest]> (readers (broker c))) (broker c)).
  set (c1 := {| registry := registry c; broker := b1;
                sessions := <[sid := send_message msg y]> (sessions c); log := log c |}).
  assert (H1 : keeps_up sid c c1).
  { split; [| done |].
    - apply rtc_once. split; [by apply (step_forward c sid y r msg rest) |].
      by apply (keeps_received c sid y).
    - intros z q Hz Hfz Hq. assert (z = y) as -> by congruence. assert (q = r) as -> by congruence.
      exists (send_message msg y), (receive r msg rest). cbn. by rewrite !lookup_insert_eq. }
  destruct (IH c1 (send_message msg y) (receive r msg rest)) as (c' & y' & r' & Hk & Hrest);
    [done | cbn; by rewrite lookup_insert_eq | done | cbn; by rewrite lookup_insert_eq |].
  exists c', y', r'. split; [by etrans | exact Hrest].
Qed.

(** A reader with room loses nothing. *)
Lemma offer_keeps_up sid c msg id rest y r :
  listen (broker c) = Delivering msg (id :: rest) →
  sessions c !! sid = Some y → forwarding y = true → readers (broker c) !! sid = Some r →
  ∃ c', keeps_up sid c c' ∧ listen (broker c') = Delivering msg rest
    ∧ source (broker c') = source (broker c).
Proof.
  intros Hl Hy Hf Hr. destruct (decide (id = sid)) as [-> | Hne].
  - destruct (empty_reader sid c y r Hy Hf Hr)
      as (c1 & y1 & r1 & Hk1 & Hl1 & Hs1 & Hy1 & Hf1 & Hr1 & Hb1).
    exists (set_broker (set_listen (Delivering msg rest) (alter (offer msg) sid (readers (broker c1)))
                          (broker c1)) c1).
    split_and!; [| done | done]. etrans; [exact Hk1 |].
    apply keeps_up_broker; [apply listening_offer; congruence |].
    intros q Hq. assert (q = r1) as -> by congruence. exists (offer msg r1). cbn. rewrite lookup_alter_eq, Hr1.
    split_and!; [done | | by rewrite offer_joined].
    unfold offer. by rewrite decide_True by (rewrite Hb1; unfold reader_cap; simpl; lia).
  - eexists. split_and!; [apply keeps_up_broker; [by apply listening_offer |] | done | done].
    intros q Hq. exists q. cbn. by rewrite lookup_alter_ne.
Qed.

Section settle_channel.
Context (sid : nat).

(** The session and its reader are there. *)
Definition attached (c : NodeChannels) : Prop :=
  ∃ y r, sessions c !! sid = Some y ∧ forwarding y = true ∧ readers (broker c) !! sid = Some r.

Lemma attached_keeps_up c c' : attached c → keeps_up sid c c' → attached c'.
Proof.
  intros (y & r & Hy & Hf & Hr) [_ _ Hku].
  destruct (Hku y r Hy Hf Hr) as (y' & r' & ? & ? & ? & _). by exists y', r'.
Qed.

Lemma finish_delivery c msg ids :
  attached c → listen (broker c) = Delivering msg ids →
  ∃ c', keeps_up sid c c' ∧ listen (broker c') = Selecting ∧ source (broker c') = source (broker c).
Proof.
  revert c. induction ids as [| id ids IH]; intros c Ha Hl.
  - eexists. split_and!; [apply keeps_up_broker; [by eapply listening_delivered |] | done | done].
    intros q Hq. by exists q.
  - assert (Ha' := Ha). destruct Ha' as (y & r & Hy & Hf & Hr).
    destruct (offer_keeps_up sid c msg id ids y r Hl Hy Hf Hr) as (c1 & Hk1 & Hl1 & Hs1).
    destruct (IH c1) as (c' & Hk & Hl' & Hs'); [by eapply attached_keeps_up | done |].
    exists c'. split_and!; [by etrans | done | congruence].
Qed.

Lemma finish_source c :
  attached c → listen (broker c) = Selecting →
  ∃ c', keeps_up sid c c' ∧ listen (broker c') = Selecting ∧ source (broker c') = [].
Proof.
  remember (source (broker c)) as msgs eqn:Hs. revert c Hs.
  induction msgs as [| msg msgs IH]; intros c Hs Ha Hl; [by exists c |].
  set (b1 := take_message msg msgs (elements (listeners (broker c))) (broker c)).
  assert (Hk1 : keeps_up sid c (set_broker b1 c)).
  { apply keeps_up_broker; [by apply listening_take |]. intros q Hq. by exists q. }
  destruct (finish_delivery (set_broker b1 c) msg (elements (listeners (broker c))))
    as (c2 & Hk2 & Hl2 & Hs2); [by eapply attached_keeps_up | done |].
  destruct (IH c2) as (c' & Hk & Hl' & Hs');
    [by rewrite Hs2 | eapply attached_keeps_up; [| exact Hk2]; by eapply attached_keeps_up | done |].
  exists c'. split_and!; [| done | done]. by do 2 (etrans; [eassumption |]).
Qed.

Lemma settle_channel c :
  reachable_channels c → attached c →
  ∃ c' r', keeps_up sid c c' ∧ listen (broker c') = Selecting ∧ source (broker c') = []
    ∧ attached c' ∧ readers (broker c') !! sid = Some r' ∧ buffer r' = [].
Proof.
  intros Hc Ha.
  assert (∃ c1, keeps_up sid c c1 ∧ listen (broker c1) = Selecting) as (c1 & Hk1 & Hl1).
  { destruct (listen (broker c)) as [| m ids |] eqn:Hl.
    - by exists c.
    - destruct (finish_delivery c m ids Ha Hl) as (c1 & ? & ? & _). by exists c1.
    - by destruct (never_returns c Hc). }
  destruct (finish_source c1) as (c2 & Hk2 & Hl2 & Hs2); [by eapply attached_keeps_up | done |].
  assert (Ha2 : attached c2).
  { eapply attached_keeps_up; [| exact Hk2]. by eapply attached_keeps_up. }
  assert (Ha2' := Ha2). destruct Ha2' as (y & r & Hy & Hf & Hr).
  destruct (empty_reader sid c2 y r Hy Hf Hr) as (c3 & y3 & r3 & Hk3 & Hl3 & Hs3 & _ & _ & Hr3 & Hb3).
  exists c3, r3. split_and!; [| congruence | congruence | by eapply attached_keeps_up | done | done].
  by do 2 (etrans; [eassumption |]).
Qed.
End settle_channel.

(** ** The program *)
Section settle_program.
Context `{ReferencePkg} {S : Type} `{Manager S}.
Implicit Types (s : S) (p : Program S).

(** Every activity ends. *)
Lemma activity_finishes cfg act s : ∃ r s' out, finishes cfg act s r s' out.
Proof.
  assert (Hinst : ∀ new s, ∃ r s' out, finishes cfg (Installing new) s r s' out).
  { intros new t. assert (Hf := finishes_installing cfg new t).
    destruct (for_images install_image new t) as [[r s'] out]. by exists r, s', out. }
  assert (Hrem : ∀ removed new s, ∃ r s' out, finishes cfg (Removing removed new) s r s' out).
  { intros removed new t. assert (Hf := finishes_removing cfg removed new t).
    destruct (for_images remove_image removed t) as [[[u | err | q] s1] out1]; [| by do 3 eexists ..].
    destruct (Hinst new s1) as (r & s' & out & Hi). do 3 eexists. by apply Hf. }
  destruct act as [node | removed new | i removed new | new | r].
  - assert (Hf := finishes_process cfg {[NodeHostname cfg := node]} s).
    unfold start in Hf. rewrite lookup_singleton_eq in Hf.
    destruct (process cfg _ s) as [[r s'] out]. by exists r, s', out.
  - apply Hrem.
  - destruct (RemoveImageAndContainer (image_identifier i) false s) as [[x | err | q] s1] eqn:E.
    1,2: destruct (Hrem removed new s1) as (r & s' & out & Hf); exists r, s', out;
      (eapply finishes_step_nil; [cbn; by rewrite E | exact Hf]).
    do 3 eexists. eapply finishes_step_nil; [cbn; by rewrite E | apply finishes_ended].
  - apply Hinst.
  - do 3 eexists. apply finishes_ended.
Qed.

(** Steps of the program without a new message. *)
Definition own_step (cfg : Config) (p p' : Program S) : Prop :=
  program_step cfg p p' ∧ delivered p' = delivered p.

Lemma own_main_work cfg act p :
  serving p → main p = Some act → own_step cfg p (main_work cfg act p).
Proof.
  intros [Hc _] Hm. split; [by apply step_main_work |]. by apply main_work_messages.
Qed.

(** The main loop completes what it is doing. *)
Lemma complete_activity cfg act p r s' out :
  serving p → main p = Some act → finishes cfg act (manager p) r s' out →
  is_panic r = false →
  ∃ p', rtc (own_step cfg) p p' ∧ main p' = None ∧ serving p' ∧ inbox p' = inbox p.
Proof.
  intros Hc Hm [n Hn] Hr. specialize (Hn 0). rewrite Nat.add_0_r in Hn.
  revert act p out Hc Hm Hn. induction n as [| n IH]; intros act p out Hc Hm Hn.
  - cbn in Hn. injection Hn as -> _ _. exists (main_work cfg (Ended r) p). split; [by apply rtc_once, own_main_work |].
    split; [done |]. split; [| done]. destruct Hc as [Ho Hl]. split; [done |]. cbn. by destruct r.
  - assert (Hstep := own_main_work cfg act p Hc Hm).
    destruct (work cfg act (manager p)) as [[act1 s1] out1] eqn:Hw.
    rewrite (undisturbed_S _ _ _ _ _ _ _ Hw) in Hn.
    destruct (undisturbed n cfg act1 s1) as [[act2 s2] out2] eqn:Hu. simplify_eq.
    assert (Hmain : main (main_work cfg act p) = remaining act1
      ∧ (crash_of act1 = None → serving (main_work cfg act p)) ∧ manager (main_work cfg act p) = s1
      ∧ inbox (main_work cfg act p) = inbox p).
    { unfold main_work. rewrite Hw. split; [done |]. split; [by intros E; unfold serving; cbn; rewrite E | done]. }
    destruct Hmain as (Hm1 & Hc1 & Hs1 & Hi1).
    destruct act1 as [node | removed new | i removed new | new | r1];
      cbn [remaining crash_of] in Hm1, Hc1.
    1-4: match type of Hm1 with _ = Some ?act1 =>
           destruct (IH act1 (main_work cfg act p) out2) as (p' & Hrun & Hrest);
             [by apply Hc1 | done | by rewrite Hs1 |];
           exists p'; rewrite <- Hi1; split; [by eapply rtc_l | exact Hrest]
         end.
    rewrite undisturbed_ended in Hu. simplify_eq.
    exists (main_work cfg act p). split; [by apply rtc_once |]. split; [done |]. split; [| done].
    apply Hc1. by destruct r.
Qed.

(** Messages the main loop gets through. *)
Definition harmless (cfg : Config) (s0 : S) (msgs : list DeploymentConfiguration) : Prop :=
  ∀ got msg s1 out1, got ++ [msg] `prefix_of` msgs →
    main_loop cfg (map RecvMsg got) s0 = (Ret (), s1, out1) →
    is_panic (main_message cfg msg s1).1.1 = false.

(** The main loop works off its queue. *)
Lemma settle_program cfg (s0 : S) file p :
  EnableCentralMode cfg = false → (∀ s : S, (Containers s).2 = s) →
  rtc (program_step cfg) (started s0 file) p → serving p →
  harmless cfg s0 (delivered p) →
  ∃ p', rtc (own_step cfg) p p' ∧ delivered p' = delivered p
    ∧ main p' = None ∧ inbox p' = [] ∧ serving p'.
Proof.
  intros Hcm Hpure. remember (length (inbox p)) as n eqn:Hn. revert p Hn.
  induction n as [n IH] using lt_wf_ind. intros p Hn Hrun Hc Hsafe.
  assert (Hown : ∀ q q', rtc (own_step cfg) q q' →
    rtc (program_step cfg) q q' ∧ delivered q' = delivered q).
  { induction 1 as [q | q q1 q2 [Hs Hd] _ [IHr IHd]]; [done |]. split; [by eapply rtc_l | congruence]. }
  assert (∃ p1, rtc (own_step cfg) p p1 ∧ main p1 = None ∧ serving p1 ∧ inbox p1 = inbox p)
    as (p1 & H1 & Hm1 & Hc1 & Hi1).
  { destruct (main p) as [act |] eqn:Hm; [| by exists p].
    destruct (satellite_inv_reachable cfg s0 Hcm Hpure file p Hrun) as (_ & _ & Hp).
    assert (Hc' := Hc). destruct Hc' as [Ho Hl]. rewrite Hl in Hp. specialize (Hp Ho).
    unfold in_progress in Hp. rewrite Hm in Hp.
    destruct Hp as (got & msg & s1 & out1 & outp & Hgot & Hloop & _ & Hfin).
    destruct (activity_finishes cfg act (manager p)) as (r & s' & out & Hf).
    apply (complete_activity cfg act p r s' out Hc Hm Hf).
    assert (Hd := satellite_messages cfg s0 file p Hcm Hpure Hrun).
    assert (Hp := Hsafe got msg s1 out1). rewrite (Hfin r s' out Hf) in Hp.
    rewrite Hd, Hgot in Hp. specialize (Hp ltac:(by eexists) Hloop). by destruct r. }
  destruct (Hown _ _ H1) as [Hrun1 Hd1].
  destruct (inbox p) as [| msg rest] eqn:Hin; [by exists p1 |].
  set (p2 := main_recv cfg msg rest p1).
  assert (H2 : own_step cfg p1 p2) by (destruct Hc1; split; [by apply step_main_recv | done]).
  destruct (IH (length rest)) with (p := p2) as (p' & Hrun' & Hd' & Hrest);
    [subst n; cbn; lia | done | | exact Hc1 | by rewrite <- Hd1 in Hsafe |].
  { eapply rtc_r; [etrans; [exact Hrun | exact Hrun1] | apply H2]. }
  exists p'. split; [etrans; [exact H1 | by eapply rtc_l] |].
  split; [by rewrite Hd' | exact Hrest].
Qed.
End settle_program.

(** ** The whole system *)
Section settling.
Context `{ReferencePkg} {S : Type} `{DescribedManager S}.
Context (cfg : nat → Config) (s0 : nat → S) (file : nat → outcome string).
Implicit Types (f : Fleet S) (p : Program S).

(** Acceptable messages are harmless. *)
Lemma acceptable_harmless `{SlicesPkg} c (s : S) msgs :
  Forall (acceptable c s) msgs → settled s → harmless c s msgs.
Proof.
  intros Hall Hs got msg s1 out1 [k ->] Hloop. apply Forall_app in Hall as [Hall _].
  destruct (main_loop_services c "" (got ++ [msg]) s Hall Hs) as (s' & out & E & _).
  destruct (main_message c msg s1) as [[[u | e | p] s2] out2] eqn:Hm; [done | done |].
  by rewrite (main_loop_snoc c got msg s s1 out1 (Panic p) s2 out2 Hloop Hm) in E.
Qed.

(** The parts run as parts of the whole. *)
Lemma fleet_internal_run f c' :
  rtc internal_step (channels f) c' →
  rtc (fleet_step cfg s0 file) f {| channels := c'; programs := programs f |}.
Proof.
  destruct f as [c ps]. cbn. induction 1 as [c | c c1 c2 Hs _ IH]; [done |].
  eapply rtc_l; [| exact IH]. by apply (fleet_internal _ _ _ {| channels := c; programs := ps |}).
Qed.

Lemma fleet_own_run f sid p p' :
  programs f !! sid = Some p → rtc (own_step (cfg sid)) p p' →
  rtc (fleet_step cfg s0 file) f
    {| channels := channels f; programs := <[sid := p']> (programs f) |}.
Proof.
  intros Hp Hrun. revert f Hp. induction Hrun as [p | p p1 p2 [Hs Hd] _ IH]; intros [c ps] Hp; cbn in *.
  - by rewrite insert_id.
  - eapply rtc_l; [by eapply fleet_program |]. cbn.
    specialize (IH {| channels := c; programs := <[sid := p1]> ps |}). cbn in IH.
    rewrite insert_insert_eq in IH. apply IH, lookup_insert_eq.
Qed.

(** The stream delivers all that the session has sent. *)
Lemma fleet_deliver_all f sid p x :
  programs f !! sid = Some p → sessions (channels f) !! sid = Some x → serving p →
  delivered p `prefix_of` sent x →
  ∃ p', rtc (fleet_step cfg s0 file) f
      {| channels := channels f; programs := <[sid := p']> (programs f) |}
    ∧ delivered p' = sent x ∧ serving p'.
Proof.
  intros Hp Hx Hc [k Hk]. revert f p Hp Hx Hc Hk.
  induction k as [| msg k IH]; intros [c ps] p Hp Hx Hc Hk; cbn in *.
  - exists p. rewrite insert_id, Hk, app_nil_r by done. done.
  - destruct (IH {| channels := c; programs := <[sid := deliver msg p]> ps |} (deliver msg p))
      as (p' & Hrun & Hrest); [apply lookup_insert_eq | done | done | |].
    { cbn. by rewrite <- app_assoc. }
    cbn in Hrun. rewrite insert_insert_eq in Hrun. exists p'. split; [| exact Hrest].
    eapply rtc_l; [| exact Hrun]. eapply (fleet_deliver _ _ _ {| channels := c; programs := ps |});
      [done | done | by apply Hc |]. rewrite Hk. cbn. by rewrite lookup_app_r, Nat.sub_diag by lia.
Qed.

Lemma reachable_fleet_run f f' :
  reachable_fleet cfg s0 file f → rtc (fleet_step cfg s0 file) f f' → reachable_fleet cfg s0 file f'.
Proof. unfold reachable_fleet. by etrans. Qed.

(** The node channels and the stream deliver everything that is written. *)
Lemma settle_streams f sid p x r j :
  reachable_fleet cfg s0 file f → programs f !! sid = Some p → serving p →
  sessions (channels f) !! sid = Some x → forwarding x = true →
  readers (broker (channels f)) !! sid = Some r → joined r = Some j → lost r = 0 →
  ∃ f' p', rtc (fleet_step cfg s0 file) f f' ∧ log (channels f') = log (channels f)
    ∧ programs f' !! sid = Some p' ∧ serving p'
    ∧ taken (broker (channels f')) = (log (channels f)).*2
    ∧ delivered p' = drop j (log (channels f)).*2
    ∧ listen (broker (channels f')) = Selecting
    ∧ (∃ r', readers (broker (channels f')) !! sid = Some r'
        ∧ joined r' = Some j ∧ lost r' = 0 ∧ buffer r' = [])
    ∧ ∃ x', sessions (channels f') !! sid = Some x' ∧ delivered p' = sent x'.
Proof.
  intros Hf Hp Hcr Hx Hfw Hr Hj Hlost.
  destruct (reachable_fleet_ok cfg s0 file f Hf) as (Hc & _ & _).
  destruct (settle_channel sid (channels f) Hc) as (c1 & r1 & Hk & Hl1 & Hs1 & _ & Hr1 & Hb1);
    [by exists x, r |].
  destruct Hk as [Hrun1 Hlog1 Hkeep].
  destruct (Hkeep x r Hx Hfw Hr) as (x1 & r1' & Hx1 & _ & Hr1' & Hlost1 & Hj1).
  assert (r1' = r1) as -> by congruence.
  assert (Hfrun := fleet_internal_run f c1 Hrun1).
  set (f1 := {| channels := c1; programs := programs f |}) in *.
  destruct (reachable_fleet_ok cfg s0 file f1) as (Hc1 & Hps1 & _); [by eapply reachable_fleet_run |].
  destruct (Hps1 sid p Hp) as [_ (x1' & Hx1' & Hpre & _)].
  assert (x1' = x1) as -> by (cbn in Hx1'; congruence).
  destruct (fleet_deliver_all f1 sid p x1 Hp Hx1 Hcr Hpre) as (p2 & Hrun2 & Hd2 & Hcr2).
  destruct (reachable_channels_ok _ Hc1) as [Hbr Hlog Hss _]. cbn in Hbr, Hlog, Hss.
  destruct (Broker.delivered (broker c1) sid r1 j) as (Htaken & _ & _ & Hgot & _);
    [done.. | congruence |].
  rewrite Hs1, app_nil_r, Hlog, Hlog1 in Htaken. rewrite Hb1, app_nil_r in Hgot.
  destruct (Hss sid x1 Hx1) as (_ & Hg & _). rewrite Hr1 in Hg. injection Hg as Hg.
  eexists _, p2. split; [by etrans |].
  split_and!; cbn; [done | apply lookup_insert_eq | done | done | | done | |].
  - rewrite Hd2, <- Hg, Hgot by congruence. by rewrite Htaken.
  - exists r1. split_and!; congruence.
  - by exists x1.
Qed.

(** C5. A satellite can always catch up.  From every reachable state of the
    system in which the program of a satellite runs, its node channel is open
    and its reader has lost nothing, the goroutines can go on, without any new
    message of an orchestrator, to a state in which nothing is on the way to
    the satellite and it runs exactly the images that the last message for it
    orders, counted from where it joined, and the middleware it started with -
    provided that the orders name different images that its manager can
    install. *)
Theorem satellites_can_settle `{SlicesPkg} f sid p x r j :
  reachable_fleet cfg s0 file f → programs f !! sid = Some p → serving p →
  sessions (channels f) !! sid = Some x → forwarding x = true →
  readers (broker (channels f)) !! sid = Some r → joined r = Some j → lost r = 0 →
  EnableCentralMode (cfg sid) = false → (∀ s : S, (Containers s).2 = s) → settled (s0 sid) →
  let msgs := drop j (log (channels f)).*2 in
  Forall (acceptable (cfg sid) (s0 sid)) msgs →
  ∃ f' p', rtc (fleet_step cfg s0 file) f f' ∧ log (channels f') = log (channels f)
    ∧ programs f' !! sid = Some p' ∧ quiet f' sid p' j
    ∧ images_after (cfg sid) (last_order (cfg sid) msgs) (s0 sid) (manager p').
Proof.
  intros Hf Hp Hcr Hx Hfw Hr Hj Hlost Hcm Hpure Hs msgs Hall.
  destruct (settle_streams f sid p x r j)
    as (f2 & p2 & Hrun2 & Hlog2 & Hp2 & Hcr2 & Htaken & Hd2 & Hl2 & Hr2 & x2 & Hx2 & Hsent2);
    [done.. |].
  destruct (reachable_fleet_ok cfg s0 file f2) as (_ & Hps2 & _); [by eapply reachable_fleet_run |].
  destruct (Hps2 sid p2 Hp2) as [Hprog2 _].
  destruct (settle_program (cfg sid) (s0 sid) (file sid) p2 Hcm Hpure Hprog2 Hcr2)
    as (p3 & Hrun3 & Hd3 & Hm3 & Hi3 & Hcr3); [rewrite Hd2; by apply acceptable_harmless |].
  assert (Hf3 := fleet_own_run f2 sid p2 p3 Hp2 Hrun3).
  set (f3 := {| channels := channels f2; programs := <[sid := p3]> (programs f2) |}) in *.
  assert (Hrun : rtc (fleet_step cfg s0 file) f f3) by by etrans.
  assert (Hp3 : programs f3 !! sid = Some p3) by apply lookup_insert_eq.
  assert (Hq : quiet f3 sid p3 j).
  { split_and!; [exact Hl2 | exact Hr2 | | done..]. exists x2. split; [exact Hx2 | congruence]. }
  exists f3, p3. split_and!; [exact Hrun | exact Hlog2 | exact Hp3 | exact Hq |].
  assert (Hloop := quiet_main_loop cfg s0 file f3 sid p3 j (reachable_fleet_run f f3 Hf Hrun)
                     Hp3 Hq Hcm Hpure).
  cbn in Hloop. rewrite Htaken in Hloop. fold msgs in Hloop.
  destruct (main_loop_services (cfg sid) "" msgs (s0 sid) Hall Hs) as (s' & out & E & _ & Ha & _).
  by assert (s' = manager p3) as <- by congruence.
Qed.
End settling.

#[local] Existing Instance familiar_reference.
#[local] Existing Instance toy_manager.

(** The execution of [Fleet] up to the point at which the node's report is
    written to the broker: it is still to be delivered. *)
Lemma report_written :
  ∃ f : Fleet (list Container), ∃ p : Program (list Container), ∃ x r m,
    @reachable_fleet familiar_reference _ toy_manager fleet_config fleet_start fleet_file f
    ∧ programs f !! 0 = Some p ∧ serving p
    ∧ sessions (channels f) !! 0 = Some x ∧ forwarding x = true
    ∧ readers (broker (channels f)) !! 0 = Some r ∧ joined r = Some 0 ∧ lost r = 0
    ∧ log (channels f) = [(0, m)] ∧ source (broker (channels f)) = [m] ∧ delivered p = []
    ∧ DeploymentConfigFromJSON (Json m) = (Some (toy_node fleet_images), None).
Proof.
  do 5 eexists. split.
  { unfold reachable_fleet.
    write_report. apply rtc_refl. }
  do 10 (split; [by vm_compute |]). by vm_compute.
Qed.

(** The node reports the container it started with, and keeps it. *)
Lemma satellites_can_settle_witness :
  let s := fleet_start 0 in
  ∃ (f : Fleet (list Container)) (p : Program (list Container)),
    programs f !! 0 = Some p ∧ source (broker (channels f)) ≠ [] ∧ delivered p = []
    ∧ let msgs := drop 0 (log (channels f)).*2 in
      last_order (fleet_config 0) msgs
        = Some fleet_order
      ∧ ∃ f' p', rtc (@fleet_step familiar_reference _ toy_manager fleet_config fleet_start fleet_file) f f'
          ∧ log (channels f') = log (channels f)
          ∧ programs f' !! 0 = Some p' ∧ quiet f' 0 p' 0
          ∧ @images_after familiar_reference _ _ toy_lawful (fleet_config 0)
              (last_order (fleet_config 0) msgs) s (manager p').
Proof.
  intros s. destruct report_written
    as (f & p & x & r & m & Hf & Hp & Hcr & Hx & Hfw & Hr & Hj & Hlost & Hlog & Hsrc & Hd & Hjson).
  destruct (fleet_acceptable m Hjson) as [Ho Hacc].
  exists f, p. split; [exact Hp |]. split; [by rewrite Hsrc |]. split; [exact Hd |]. split.
  { rewrite Hlog. unfold last_order. cbn. by rewrite Ho. }
  apply (@satellites_can_settle familiar_reference _ toy_manager toy_lawful toy_described
    fleet_config fleet_start fleet_file _ f 0 p x r 0 Hf Hp Hcr Hx Hfw Hr Hj Hlost); [done | done | |].
  - exact fleet_settled.
  - rewrite Hlog. cbn. constructor; [exact Hacc | constructor].
Defined.
