(* ===== verification/Departure.v ===== *)
(** What a satellite leaves behind when its program ends: [Run] leaves the main
    loop, after the loss of the connection or a signal, and stops Envoy; its
    session of the service registry ends with the stream
    ([cmd/carisma-orchestrator/app/app.go], [pkg/registry/service_regisry.go]).

    Neither side cleans up: the services keep running without the Envoy that
    makes them reachable, and the registry keeps their endpoints. *)
From S2P Require Import Prelude GoStrings Slices Json JsonParse Deployment DeploymentJson Config Container NodeRegistry ServiceRegistry Orchestrator Reconcile OrchestratorApp Broker NodeChannels NodeProgram Fleet Services Convergence.

Local Open Scope list_scope.

Section departure.
Context `{ReferencePkg} {S : Type} `{DescribedManager S}.
Context (cfg : nat → Config) (s0 : nat → S) (file : nat → outcome string).
Implicit Types (s : S) (f : Fleet S) (p : Program S).

(** Stopping Envoy takes away the container of its image, and no service. *)
Lemma stopEnvoy_services c img s :
  ParseFQIN envoyContainerImageName (DefaultContainerRegistryDomain c) = Ret img →
  middleware (image_of img) = true → settled s →
  ∃ e s', stopEnvoy c s = (e, s') ∧ is_panic e = false
    ∧ offered s' ≡ₚ offered s ∧ image_of img ∉ images s'.
Proof.
  intros Himg Hmw (Hman & _ & Hnames & _). unfold stopEnvoy, with_image. rewrite Himg.
  assert (L := law_Remove img false s).
  destruct (RemoveImageAndContainer img false s) as [r s']. destruct L as [Hp L].
  exists (match r with Ret _ => Ret () | Fail err => Fail err | Panic q => Panic q end), s'.
  split_and!; [by destruct r | by destruct r | |].
  all: destruct L as [(d & _ & Hd & Hr) | (_ & Hr & Hno)].
  - unfold offered. rewrite (filter_bool_Permutation is_service _ _ Hr). cbn [List.filter].
    assert (is_service d = false) as -> by (unfold is_service; by rewrite Hd, Hmw). done.
  - unfold offered. by rewrite (filter_bool_Permutation is_service _ _ Hr).
  - unfold images in *. rewrite Hr in Hnames. apply NoDup_fmap_1 in Hnames. cbn in Hnames.
    apply NoDup_cons in Hnames as [Hnot _]. by rewrite <- Hd.
  - unfold images. rewrite Hr. intros (d & Hi & Hd)%list_elem_of_fmap.
    rewrite Forall_forall in Hman. by apply (Hno eq_refl d Hd (managed_is_up d (Hman d Hd))).
Qed.

(** The deferred calls after the main loop. *)
Lemma returned_services c img r s1 s' out :
  (∀ s : S, is_panic (Close s).1 = false ∧ running (Close s).2 ≡ₚ running s) →
  ParseFQIN envoyContainerImageName (DefaultContainerRegistryDomain c) = Ret img →
  middleware (image_of img) = true →
  close_manager (defer_stopEnvoy c (Ret (), s1, out)) = (r, s', out) → settled s1 →
  r = Ret () ∧ offered s' ≡ₚ offered s1 ∧ image_of img ∉ images s'.
Proof.
  intros Hclose Himg Hmw E Hs1.
  destruct (stopEnvoy_services c img s1 Himg Hmw Hs1) as (e & s2 & Hstop & He & Hoff & Hno).
  unfold close_manager, defer_stopEnvoy in E. rewrite Hstop in E.
  destruct (Hclose s2) as [Hp Hr]. destruct (Close s2) as [e' s3]. cbn [fst snd] in *. simplify_eq.
  split_and!.
  - by destruct e, e'.
  - unfold offered in *. by rewrite (filter_bool_Permutation is_service _ _ Hr).
  - unfold images. by rewrite Hr.
Qed.

(** C25. What a satellite leaves behind.  When the program of a satellite has
    returned - after the messages in the common sequence that it received,
    which order different images it can get - it ended without a panic, its
    Envoy is gone, and the services of the last order keep running; and its
    session of the service registry, ended by the loss of the stream, leaves
    the endpoints of all these services registered. *)
Theorem departed_satellite_stays_registered `{SlicesPkg} f sid p r img :
  reachable_fleet cfg s0 file f → programs f !! sid = Some p → leaving p = Some (r, Returned) →
  EnableCentralMode (cfg sid) = false → (∀ s : S, (Containers s).2 = s) →
  (∀ s : S, is_panic (Close s).1 = false ∧ running (Close s).2 ≡ₚ running s) →
  ParseFQIN envoyContainerImageName (DefaultContainerRegistryDomain (cfg sid)) = Ret img →
  middleware (image_of img) = true → settled (s0 sid) →
  Forall (acceptable (cfg sid) (s0 sid)) (log (channels f)).*2 →
  over p = Some (Ret ())
  ∧ image_of img ∉ images (manager p)
  ∧ (∃ s1, images_after (cfg sid) (last_order (cfg sid) (main_got p)) (s0 sid) s1
       ∧ offered (manager p) ≡ₚ offered s1)
  ∧ ∀ sent nReg svc A nodeID vs k err,
      refines svc A → ValidateNodeID nReg nodeID = Ret k →
      (∀ b q, q ∈ ports_of svc nodeID b ↔ (b, q) ∈ offered (s0 sid)) →
      ∃ svc' ups,
        ServiceRegistry.OpenChannel sent nReg svc (Some (nodeID :: vs))
          (map RecvMsg (map to_message (announced p)) ++ [RecvErr err])
          = Ret (svc', ups, Some (if decide (err = EOF) then sent else Fail err))
        ∧ ∀ b q, q ∈ ports_of svc' nodeID b ↔ (b, q) ∈ offered (manager p).
Proof.
  intros Hf Hp Hleft Hcm Hpure Hclose Himg Hmw Hs Hall.
  destruct (satellite_in_fleet cfg s0 file f sid p) as (_ & Hret & x & Hx & [k0 Hpre] & _); [done .. |].
  destruct (Hret r Hleft) as [Hover Hend]. destruct (reachable_fleet_ok cfg s0 file f Hf) as (Hc & _ & _).
  assert (Hgot : Forall (acceptable (cfg sid) (s0 sid)) (main_got p)).
  { rewrite Forall_forall in Hall |- *. intros m Hm. apply Hall.
    eapply elem_of_sublist; [exact Hm |]. etrans; [| by apply (sent_sublist (channels f) sid x)].
    rewrite Hpre. by apply sublist_inserts_r. }
  assert (Hend' : ∀ n, ∃ s1, close_manager (defer_stopEnvoy (cfg sid) (Ret (), s1, announced p))
      = (r, manager p, announced p)
    ∧ settled s1 ∧ images_after (cfg sid) (last_order (cfg sid) (main_got p)) (s0 sid) s1
    ∧ ∀ A, mirrored n A (s0 sid) →
        mirrored n (spec_session A n (map to_message (announced p))) s1).
  { intros n. destruct (main_loop_services (cfg sid) n (main_got p) (s0 sid) Hgot Hs)
      as (s1 & out & E & Hs1 & Hafter & Hmir). rewrite E in Hend.
    assert (out = announced p) as ->.
    { unfold close_manager, defer_stopEnvoy in Hend. repeat case_match; by simplify_eq. }
    by exists s1. }
  assert (Hleaves : ∀ s1, close_manager (defer_stopEnvoy (cfg sid) (Ret (), s1, announced p))
      = (r, manager p, announced p) → settled s1 →
    r = Ret () ∧ offered (manager p) ≡ₚ offered s1 ∧ image_of img ∉ images (manager p)).
  { intros s1 E Hs1. by apply (returned_services (cfg sid) img r s1 (manager p) (announced p)). }
  destruct (Hend' "") as (s1 & E & Hs1 & Hafter & _).
  destruct (Hleaves s1 E Hs1) as (-> & Hoff & Hno).
  split_and!; [done | done | by exists s1 |].
  intros sent' nReg svc A nodeID vs k err Hsvc Hv Hports.
  destruct (session_ports sent' nReg svc A nodeID vs k (map to_message (announced p)) Hsvc Hv)
    as (svc' & ups & _ & Hports' & _ & Hopen).
  exists svc', ups. split; [apply Hopen |]. intros b q. rewrite Hports'.
  destruct (Hend' nodeID) as (s2 & E2 & Hs2 & _ & Hmir).
  destruct (Hleaves s2 E2 Hs2) as (_ & -> & _).
  apply (Hmir A) with (x := (b, q)). destruct Hsvc as [_ Hrefines].
  intros [b' q']. cbn. by rewrite <- Hrefines, Hports.
Qed.
End departure.

#[local] Existing Instance familiar_reference.
#[local] Existing Instance toy_manager.

(** The execution of [Fleet], after which the stream of the node ends. *)
Lemma node_leaves :
  ∃ f : Fleet (list Container), ∃ p : Program (list Container), ∃ m,
    @reachable_fleet familiar_reference _ toy_manager fleet_config fleet_start fleet_file f
    ∧ programs f !! 0 = Some p ∧ leaving p = Some (Ret (), Returned)
    ∧ length (main_got p) = 1 ∧ manager p = [up_container "gcr.io/app:v1"]
    ∧ log (channels f) = [(0, m)]
    ∧ DeploymentConfigFromJSON (Json m) = (Some (toy_node fleet_images), None).
Proof.
  eexists _, _, _. split.
  { unfold reachable_fleet. write_report. handle_report.
    take_program_step @step_main_end.
    do 2 take_program_step @step_deferred.
    apply rtc_refl. }
  do 5 (split; [by vm_compute |]). by vm_compute.
Qed.

Lemma departed_satellite_stays_registered_witness :
  let img := "docker.io/envoyproxy/envoy:distroless-v1.27-latest" in
  ∃ (f : Fleet (list Container)) (p : Program (list Container)),
    programs f !! 0 = Some p ∧ length (main_got p) = 1
    ∧ over p = Some (Ret ())
    ∧ image_of img ∉ map image (toy_running (manager p))
    ∧ (∃ s1, @images_after familiar_reference _ _ toy_lawful (fleet_config 0)
               (last_order (fleet_config 0) (main_got p)) (fleet_start 0) s1
         ∧ @offered _ _ toy_lawful toy_described (manager p)
             ≡ₚ @offered _ _ toy_lawful toy_described s1)
    ∧ ∀ sent nReg svc A nodeID vs k err,
        refines svc A → ValidateNodeID nReg nodeID = Ret k →
        (∀ b q, q ∈ ports_of svc nodeID b
           ↔ (b, q) ∈ @offered _ _ toy_lawful toy_described (fleet_start 0)) →
        ∃ svc' ups,
          ServiceRegistry.OpenChannel sent nReg svc (Some (nodeID :: vs))
            (map RecvMsg (map to_message (announced p)) ++ [RecvErr err])
            = Ret (svc', ups, Some (if decide (err = EOF) then sent else Fail err))
          ∧ ∀ b q, q ∈ ports_of svc' nodeID b
              ↔ (b, q) ∈ @offered _ _ toy_lawful toy_described (manager p).
Proof.
  intros img. destruct node_leaves as (f & p & m & Hf & Hp & Hl & Hgot & _ & Hlog & Hjson).
  destruct (fleet_acceptable m Hjson) as [_ Hacc].
  exists f, p. split; [exact Hp |]. split; [exact Hgot |].
  apply (@departed_satellite_stays_registered familiar_reference _ toy_manager toy_lawful
    toy_described fleet_config fleet_start fleet_file _ f 0 p (Ret ()) img Hf Hp Hl);
    [done | done | done | by vm_compute | by vm_compute | exact fleet_settled |].
  rewrite Hlog. cbn. constructor; [exact Hacc | constructor].
Defined.
