(* ===== verification/FileWatcher.v ===== *)
(** Package [pkg/io], file [file_watcher.go]: watching a file for changes.

    The first part is the loop of [Watch] on its own: a function of the events
    it receives, each with the answers of the file system.  The second part is
    the loop together with [Diff], which other goroutines call and which
    writes [lastRead] without a lock: a transition system whose steps are the
    accesses of the two to that field. *)
From S2P Require Import Prelude GoStrings.

Local Open Scope string_scope.

(** ** The loop of [Watch] *)

(** [os.Stat]: the file is there, [os.IsNotExist], or another error. *)
Inductive stat_result :=
| StatOk
| StatNotExist
| StatError (err : error).

(** [waitUntilFind] polls the file; [None] while the results so far leave it
    polling. *)
Fixpoint waitUntilFind (stats : list stat_result) : option (outcome unit) :=
  match stats with
  | [] => None
  | StatOk :: _ => Some (Ret ())
  | StatNotExist :: stats => waitUntilFind stats
  | StatError err :: _ => Some (Fail err)
  end.

(** An event of the watcher, with what the file system answers while it is
    handled: whether [event.Op] has the rename bit, the results of [os.Stat]
    and of [os.ReadFile]. *)
Record watch_event := {
  Op_Rename : bool;
  stats : list stat_result;
  read : outcome string;
}.

(** What one event does: the call of the handler, if any, the new [lastRead]
    and whether the path is added to the watcher again. *)
Record watch_effect := {
  call : option (string * string);
  newLastRead : string;
  readd : bool;
}.

Definition handle_event (has_handler : bool) (lastRead : string) (event : watch_event)
    : option watch_effect :=
  match waitUntilFind (stats event) with
  | None => None
  | Some (Ret _) =>
      match read event with
      | Ret content =>
          Some {| call := if has_handler then Some (lastRead, content) else None;
                  newLastRead := content;
                  readd := Op_Rename event |}
      | _ => Some {| call := None; newLastRead := lastRead; readd := false |}
      end
  | Some _ => Some {| call := None; newLastRead := lastRead; readd := false |}
  end.

(** The calls of the handler over a sequence of events, and [lastRead] at the
    end. *)
Fixpoint Watch (has_handler : bool) (lastRead : string) (events : list watch_event)
    : list (string * string) * string :=
  match events with
  | [] => ([], lastRead)
  | event :: events =>
      match handle_event has_handler lastRead event with
      | None => ([], lastRead)
      | Some e =>
          let '(cs, l) := Watch has_handler (newLastRead e) events in
          (match call e with Some c => c :: cs | None => cs end, l)
      end
  end.

(** The handler of the orchestrator does nothing when [bytes.Equal(a, b)]. *)
Definition effective (c : string * string) : bool := negb (c.1 =? c.2).

(** ** [Watch] and [Diff] *)
Inductive watch_pc :=
| AtSelect
| GotEvent
| HasRead (content : string)
| HandlerCalled (content : string).

Record FileWatcher := {
  lastRead : string;
  file : string;             (* the content of the file *)
  pc : watch_pc;             (* where the goroutine of Watch is *)
  sending : bool;            (* a call of Diff waits for its event to be received *)
  calls : list (string * string);
}.

(** [NewFileWatcher], with the results of [fsnotify.NewWatcher] and of its
    [Add]; the handler is set by [HandleDiff], and nothing has been read. *)
Definition NewFileWatcher (watcher added : outcome unit) (content : string)
    : outcome FileWatcher :=
  _ ← watcher;
  _ ← added;
  Ret {| lastRead := ""; file := content; pc := AtSelect; sending := false; calls := [] |}.

(** [Diff(force)] up to its send on the unbuffered channel of events. *)
Definition Diff (force : bool) (w : FileWatcher) : FileWatcher :=
  {| lastRead := if force then "" else lastRead w; file := file w; pc := pc w;
     sending := true; calls := calls w |}.

Definition set_pc (p : watch_pc) (w : FileWatcher) : FileWatcher :=
  {| lastRead := lastRead w; file := file w; pc := p; sending := sending w;
     calls := calls w |}.

(** The event of [Diff] is received. *)
Definition receive_diff (w : FileWatcher) : FileWatcher :=
  {| lastRead := lastRead w; file := file w; pc := GotEvent; sending := false;
     calls := calls w |}.

(** [c.handler.ProcessDiff(c.lastRead, content)] *)
Definition call_handler (content : string) (w : FileWatcher) : FileWatcher :=
  {| lastRead := lastRead w; file := file w; pc := HandlerCalled content;
     sending := sending w; calls := calls w ++ [(lastRead w, content)] |}.

(** [c.lastRead = content] *)
Definition store (content : string) (w : FileWatcher) : FileWatcher :=
  {| lastRead := content; file := file w; pc := AtSelect; sending := sending w;
     calls := calls w |}.

Definition write_file (content : string) (w : FileWatcher) : FileWatcher :=
  {| lastRead := lastRead w; file := content; pc := pc w; sending := sending w;
     calls := calls w |}.

Inductive step : FileWatcher → FileWatcher → Prop :=
| step_write w content : step w (write_file content w)
| step_fs_event w : pc w = AtSelect → step w (set_pc GotEvent w)
| step_diff_event w : pc w = AtSelect → sending w = true → step w (receive_diff w)
| step_read w : pc w = GotEvent → step w (set_pc (HasRead (file w)) w)
| step_handle w content : pc w = HasRead content → step w (call_handler content w)
| step_store w content : pc w = HandlerCalled content → step w (store content w)
| step_Diff w force : sending w = false → step w (Diff force w).

(** ** Lemmas *)

(** Events during whose handling the file is found and read. *)
Definition readable (content : string) (event : watch_event) : Prop :=
  waitUntilFind (stats event) = Some (Ret ()) ∧ read event = Ret content.

Definition failing (event : watch_event) : Prop :=
  (∃ err, waitUntilFind (stats event) = Some (Fail err))
  ∨ (waitUntilFind (stats event) = Some (Ret ()) ∧ ∃ err, read event = Fail err).

(** The pairs of neighbours of a sequence of contents. *)
Fixpoint neighbours (first : string) (contents : list string) : list (string * string) :=
  match contents with
  | [] => []
  | content :: contents => (first, content) :: neighbours content contents
  end.

Lemma waitUntilFind_polls n rest :
  waitUntilFind (repeat StatNotExist n ++ rest) = waitUntilFind rest.
Proof. by induction n. Qed.

(** ** Properties *)

(** C37. The loop of [Watch]: the handler is called once for every event whose file
    can be read, with the content of the event before it and its own content;
    events whose file cannot be read change nothing; so the effective calls
    are exactly the changes of the sequence of contents read. *)
Theorem Watch_calls_neighbours first events contents :
  Forall2 (λ content event,
    match content with Some c => readable c event | None => failing event end)
    contents events →
  Watch true first events =
    (neighbours first (omap id contents), default first (last (omap id contents))).
Proof.
  intros Hev. revert first. induction Hev as [| content event contents events He _ IH];
    intros first; cbn [Watch]; [done |].
  unfold handle_event. destruct content as [c |].
  - destruct He as [-> ->]. cbn [newLastRead call]. rewrite IH.
    change (omap id (Some c :: contents)) with (c :: omap id contents).
    rewrite last_cons. by destruct (last (omap id contents)).
  - destruct He as [[err ->] | [-> [err ->]]]; cbn [newLastRead call]; by rewrite IH.
Qed.

Lemma Watch_calls_neighbours_witness :
  let read c := {| Op_Rename := false; stats := [StatNotExist; StatOk]; read := Ret c |} in
  Watch true "" [read "{}"; read "{}";
                 {| Op_Rename := true; stats := [StatOk]; read := Fail EOF |}; read "[]"] =
    (neighbours "" (omap id [Some "{}"; Some "{}"; None; Some "[]"]),
     default "" (last (omap id [Some "{}"; Some "{}"; None; Some "[]"]))).
Proof.
  apply Watch_calls_neighbours. repeat apply Forall2_cons_2; try done.
  right. split; [done | by exists EOF].
Defined.

(** A forced diff that starts while no event is being handled is seen: the
    next call of the handler, whenever it comes, gets the empty content as the
    old one. *)
Theorem forced_diff_is_seen w w' :
  pc w = AtSelect → sending w = false → rtc step (Diff true w) w' →
  length (FileWatcher.calls w) < length (FileWatcher.calls w') →
  ∃ content, FileWatcher.calls w' !! length (FileWatcher.calls w) = Some ("", content).
Proof.
  intros Hpc Hs Hrun Hlen. set (cs := FileWatcher.calls w) in *.
  assert (Hinv : (FileWatcher.calls w' = cs ∧ lastRead w' = ""
      ∧ ∀ c, pc w' ≠ HandlerCalled c)
    ∨ ∃ content, FileWatcher.calls w' !! length cs = Some ("", content)).
  { revert Hrun. clear Hlen. intros Hrun.
    apply (rtc_invariant step (λ x, (FileWatcher.calls x = cs ∧ lastRead x = ""
        ∧ ∀ c, pc x ≠ HandlerCalled c)
      ∨ ∃ content, FileWatcher.calls x !! length cs = Some ("", content)) (Diff true w) w');
      [| done | left; simpl; split_and!; [done | done | by rewrite Hpc]].
    intros x y [(Hc & Hl & Hh) | [content Hc]] Hstep.
    - destruct Hstep; simpl; try (left; split_and!; done).
      + right. exists content. rewrite Hc, Hl. by apply list_lookup_middle.
      + by destruct (Hh content).
      + left. split_and!; [done | by destruct force | done].
    - right. exists content. destruct Hstep; simpl; try done.
      by apply lookup_app_l_Some. }
  destruct Hinv as [(Hc & _) | ?]; [| done]. rewrite Hc in Hlen. lia.
Qed.

Lemma forced_diff_is_seen_witness :
  let w := {| lastRead := "{}"; file := "{}"; pc := AtSelect; sending := false; calls := [] |} in
  ∃ content,
    FileWatcher.calls (call_handler "{}" (set_pc (HasRead "{}") (receive_diff (Diff true w))))
      !! 0 = Some ("", content).
Proof.
  intros w. apply (forced_diff_is_seen w); [done | done | | simpl; lia].
  eapply rtc_l; [by apply step_diff_event |].
  eapply rtc_l; [by apply (step_read (receive_diff (Diff true w))) |].
  apply rtc_once. by apply (step_handle (set_pc (HasRead "{}") (receive_diff (Diff true w)))).
Defined.

(** The first diff of a new watcher, which the central node asks for when it
    starts, makes the handler see the whole file as new. *)
Lemma first_diff_is_seen content w :
  NewFileWatcher (Ret ()) (Ret ()) content = Ret w →
  ∃ w', rtc step (Diff false w) w' ∧ pc w' = AtSelect ∧ lastRead w' = content
    ∧ FileWatcher.calls w' = [("", content)].
Proof.
  cbn. intros [= <-]. set (w0 := Diff false _). set (w1 := receive_diff w0). set (w2 := set_pc (HasRead content) w1).
  exists (store content (call_handler content w2)). split; [| done].
  eapply rtc_l; [by apply (step_diff_event w0) |]. fold w1.
  eapply rtc_l; [by apply (step_read w1) |].
  eapply rtc_l; [by apply (step_handle w2) |]. apply rtc_once. by apply step_store.
Qed.

(** A forced diff that overlaps the handling of an event can be lost: [Watch]
    stores the content it has read after [Diff] has cleared [lastRead], so
    that the handling of the diff's own event compares the content with
    itself - no call after the diff started is effective, and nothing is left
    to be handled. *)
Theorem forced_diff_can_be_lost content :
  ∃ w w',
    rtc step {| lastRead := content; file := content; pc := AtSelect; sending := false;
                calls := [] |} w
    ∧ sending w = false ∧ rtc step (Diff true w) w'
    ∧ sending w' = false ∧ pc w' = AtSelect
    ∧ length (FileWatcher.calls w) < length (FileWatcher.calls w')
    ∧ Forall (λ c, effective c = false) (FileWatcher.calls w').
Proof.
  set (w0 := {| lastRead := content |}).
  set (w1 := set_pc GotEvent w0). set (w2 := set_pc (HasRead (file w1)) w1).
  set (w3 := call_handler content w2). set (w4 := Diff true w3).
  set (w5 := store content w4). set (w6 := receive_diff w5).
  set (w7 := set_pc (HasRead (file w6)) w6). set (w8 := call_handler content w7).
  exists w3, (store content w8). split_and!; try done.
  - eapply rtc_l; [by apply (step_fs_event w0) |].
    eapply rtc_l; [by apply (step_read w1) |]. apply rtc_once. by apply (step_handle w2).
  - eapply rtc_l; [by apply (step_store w4) |].
    eapply rtc_l; [by apply (step_diff_event w5) |].
    eapply rtc_l; [by apply (step_read w6) |].
    eapply rtc_l; [by apply (step_handle w7) |]. apply rtc_once. by apply (step_store w8).
  - simpl. lia.
  - unfold effective. simpl. repeat constructor; simpl; by rewrite String.eqb_refl.
Qed.
