(* ===== verification/ConfigSources.v ===== *)
(** Package [pkg/config], file [config.go], the sources of a configuration:
    [New] starts from the defaults, reads the configuration file if there is
    one, applies the command line and repairs the result.  The functions of
    the packages [flag], [strconv] and [encoding/json] are written out for the
    uses the program makes of them. *)
From stdpp Require Import pretty.
From S2P Require Import Prelude GoStrings Json JsonParse Config.

Local Open Scope string_scope.

(** ** Fields of the configuration *)
Inductive bool_field := FDebugMode | FEmulate | FCentralMode | FDiscovery.
Inductive string_field := FCentralNode | FNode | FRegistryDomain.
Inductive int_field :=
| FStatusMgrPort | FGRPCPort | FUDPPort | FUDPDelay | FUDPTimeout
| FIngressPort | FEgressPort | FAdminPort.

#[export] Instance bool_field_eq_dec : EqDecision bool_field.
Proof. solve_decision. Defined.
#[export] Instance string_field_eq_dec : EqDecision string_field.
Proof. solve_decision. Defined.
#[export] Instance int_field_eq_dec : EqDecision int_field.
Proof. solve_decision. Defined.

Inductive setting :=
| SetBool (f : bool_field) (b : bool)
| SetString (f : string_field) (s : string)
| SetInt (f : int_field) (z : Z).

(** Assignment to one field. *)
Definition assign_setting (x : setting) (c : Config) : Config :=
  let pick_bool f old := match x with SetBool g b => if decide (g = f) then b else old | _ => old end in
  let pick_string f old := match x with SetString g s => if decide (g = f) then s else old | _ => old end in
  let pick_int f old := match x with SetInt g z => if decide (g = f) then z else old | _ => old end in
  {| EnableDebugMode := pick_bool FDebugMode (EnableDebugMode c);
     EmulateContainerRuntime := pick_bool FEmulate (EmulateContainerRuntime c);
     EnableCentralMode := pick_bool FCentralMode (EnableCentralMode c);
     EnableDiscovery := pick_bool FDiscovery (EnableDiscovery c);
     CentralNodeHostname := pick_string FCentralNode (CentralNodeHostname c);
     NodeHostname := pick_string FNode (NodeHostname c);
     StatusMgrPort := pick_int FStatusMgrPort (StatusMgrPort c);
     GRPCPort := pick_int FGRPCPort (GRPCPort c);
     UDPPort := pick_int FUDPPort (UDPPort c);
     UDPDelay := pick_int FUDPDelay (UDPDelay c);
     UDPTimeout := pick_int FUDPTimeout (UDPTimeout c);
     IngressPort := pick_int FIngressPort (IngressPort c);
     EgressPort := pick_int FEgressPort (EgressPort c);
     AdminPort := pick_int FAdminPort (AdminPort c);
     DefaultContainerRegistryDomain := pick_string FRegistryDomain (DefaultContainerRegistryDomain c) |}.

(** ** The configuration file *)

Inductive field := FieldBool (f : bool_field) | FieldString (f : string_field) | FieldInt (f : int_field).

(** The field a key of the file selects (struct tags, or the name of the field
    without one). *)
Definition json_fields : list (string * field) :=
  [("EnableDebugMode", FieldBool FDebugMode);
   ("EmulateContainerRuntime", FieldBool FEmulate);
   ("enableCentralMode", FieldBool FCentralMode);
   ("enableDiscovery", FieldBool FDiscovery);
   ("centralNode", FieldString FCentralNode);
   ("node", FieldString FNode);
   ("statusMgrPort", FieldInt FStatusMgrPort);
   ("gRPCPort", FieldInt FGRPCPort);
   ("udpPort", FieldInt FUDPPort);
   ("udpDelay", FieldInt FUDPDelay);
   ("udpTimeout", FieldInt FUDPTimeout);
   ("ingressPort", FieldInt FIngressPort);
   ("egressPort", FieldInt FEgressPort);
   ("adminPort", FieldInt FAdminPort);
   ("defaultContainerRegistryDomain", FieldString FRegistryDomain)].

Fixpoint find_field (key : string) (fields : list (string * field)) : option field :=
  match fields with
  | [] => None
  | (name, f) :: fields => if names_field name key then Some f else find_field key fields
  end.

(** A value into a field; null changes nothing, and a number must be an
    integer ([strconv.ParseInt] in base 10). *)
Definition decode_field (f : field) (v : json) : outcome (option setting) :=
  match f, v with
  | _, JNull => Ret None
  | FieldBool f, JBool b => Ret (Some (SetBool f b))
  | FieldString f, JString s => Ret (Some (SetString f s))
  | FieldInt f, JNumber lit =>
      match Atoi lit with
      | Ret z => Ret (Some (SetInt f z))
      | Fail _ => Fail UnmarshalTypeError
      | Panic p => Panic p
      end
  | _, _ => Fail UnmarshalTypeError
  end.

Fixpoint decode_config_members (c : Config) (kvs : list (string * json)) : outcome Config :=
  match kvs with
  | [] => Ret c
  | (key, v) :: kvs =>
      match find_field key json_fields with
      | Some f =>
          x ← decode_field f v;
          decode_config_members (match x with Some x => assign_setting x c | None => c end) kvs
      | None => decode_config_members c kvs
      end
  end.

Definition applyArgumentsFromConfigFileContent (fileContent : string) (c : Config)
    : outcome Config :=
  match parse_json fileContent with
  | None => Fail SyntaxError
  | Some JNull => Ret c
  | Some (JObject kvs) => decode_config_members c kvs
  | Some _ => Fail UnmarshalTypeError
  end.

(** ** Package strconv *)

Definition to_lower (c : ascii) : ascii :=
  if in_range 65 90 c then byte_of (byte_val c + 32) else c.

Definition ParseBool (s : string) : outcome bool :=
  if bool_decide (s ∈ ["1"; "t"; "T"; "true"; "TRUE"; "True"]) then Ret true
  else if bool_decide (s ∈ ["0"; "f"; "F"; "false"; "FALSE"; "False"]) then Ret false
  else Fail (NumError s ErrSyntax).

(** The value of a digit in any base up to 36. *)
Definition digit36 (c : ascii) : option Z :=
  if in_range 48 57 c then Some (byte_val c - 48)%Z
  else if in_range 97 122 (to_lower c) then Some (byte_val (to_lower c) - 87)%Z
  else None.

(** The loop of [strconv.ParseUint] with base 0: underscores are skipped. *)
Fixpoint digits_base (base : Z) (num : string) (acc : Z) (s : string) : outcome Z :=
  match s with
  | EmptyString => Ret acc
  | String c s =>
      if (c =? "_")%char then digits_base base num acc s
      else match digit36 c with
           | Some d =>
               if decide (base ≤ d)%Z then Fail (NumError num ErrSyntax)
               else if decide (base * acc + d < 2 ^ 64)%Z
               then digits_base base num (base * acc + d) s
               else Fail (NumError num ErrRange)
           | None => Fail (NumError num ErrSyntax)
           end
  end.

(** The base a prefix selects, the digits, and the base as [underscoreOK] sees
    it. *)
Definition base_prefix (s : string) : Z * string :=
  match s with
  | String z (String b (String c s')) =>
      if (z =? "0")%char then
        if (to_lower b =? "b")%char then (2%Z, String c s')
        else if (to_lower b =? "o")%char then (8%Z, String c s')
        else if (to_lower b =? "x")%char then (16%Z, String c s')
        else (8%Z, String b (String c s'))
      else (10%Z, s)
  | String z s' => if (z =? "0")%char then (8%Z, s') else (10%Z, s)
  | EmptyString => (10%Z, s)
  end.

(** [underscoreOK]: every underscore stands between digits, a base prefix
    counting as one. *)
Inductive underscore_state := AtStart | AfterDigit | AfterUnderscore | AfterOther.

Fixpoint underscore_loop (hex : bool) (i : underscore_state) (s : string) : bool :=
  match s with
  | EmptyString => match i with AfterUnderscore => false | _ => true end
  | String c s =>
      if in_range 48 57 c || (hex && in_range 97 102 (to_lower c))
      then underscore_loop hex AfterDigit s
      else if (c =? "_")%char then
        match i with AfterDigit => underscore_loop hex AfterUnderscore s | _ => false end
      else match i with AfterUnderscore => false | _ => underscore_loop hex AfterOther s end
  end.

Definition underscoreOK (s : string) : bool :=
  match s with
  | String z (String b s') =>
      if (z =? "0")%char && bool_decide (to_lower b ∈ ["b"; "o"; "x"]%char)
      then underscore_loop (to_lower b =? "x")%char AfterDigit s'
      else underscore_loop false AtStart s
  | _ => underscore_loop false AtStart s
  end.

(** [strconv.ParseInt(s, 0, 64)] *)
Definition ParseInt0 (s : string) : outcome Z :=
  let '(neg, u) := split_sign s in
  match u with
  | EmptyString => Fail (NumError s ErrSyntax)
  | _ =>
      let '(base, ds) := base_prefix u in
      n ← digits_base base s 0 ds;
      if has_byte "_" ds && negb (underscoreOK u) then Fail (NumError s ErrSyntax)
      else
        let z : Z := if neg : bool then (- n)%Z else n in
        if decide (fits_int z) then Ret z else Fail (NumError s ErrRange)
  end.

(** ** Package flag

    The command line is parsed with [ExitOnError]: an error ends the program
    with status 2, a request for help with status 0. *)
Definition flags : list (string * field) :=
  [("enable-debug-mode", FieldBool FDebugMode);
   ("emulate-container-runtime", FieldBool FEmulate);
   ("enable-central-mode", FieldBool FCentralMode);
   ("enable-discovery", FieldBool FDiscovery);
   ("central-node", FieldString FCentralNode);
   ("node", FieldString FNode);
   ("status-manager-port", FieldInt FStatusMgrPort);
   ("grpc-port", FieldInt FGRPCPort);
   ("udp-port", FieldInt FUDPPort);
   ("udp-delay", FieldInt FUDPDelay);
   ("udp-timeout", FieldInt FUDPTimeout);
   ("ingress-port", FieldInt FIngressPort);
   ("egress-port", FieldInt FEgressPort);
   ("default-container-registry-domain", FieldString FRegistryDomain)].

Definition lookup_flag (name : string) : option field :=
  snd <$> List.find (λ e, e.1 =? name) flags.

Inductive parsed (A : Type) :=
| Parsed (a : A)
| Exit (status : Z).
Arguments Parsed {A} a.
Arguments Exit {A} status.

(** [Set] of the flag's value. *)
Definition set_flag (f : field) (value : string) (c : Config) : parsed Config :=
  match f with
  | FieldBool f =>
      match ParseBool value with
      | Ret b => Parsed (assign_setting (SetBool f b) c)
      | _ => Exit 2
      end
  | FieldString f => Parsed (assign_setting (SetString f value) c)
  | FieldInt f =>
      match ParseInt0 value with
      | Ret z => Parsed (assign_setting (SetInt f z) c)
      | _ => Exit 2
      end
  end.

(** [name=value], split at the first equals sign after the first byte. *)
Definition split_value (name : string) : string * option string :=
  match name with
  | String c s =>
      let i := IndexByte s "=" in
      if (i <? 0)%Z then (name, None)
      else match take_bytes (Z.to_nat i) s, drop_bytes (Z.to_nat i + 1) s with
           | Ret a, Ret b => (String c a, Some b)
           | _, _ => (name, None)
           end
  | EmptyString => (name, None)
  end.

(** An argument: not a flag, the end of the flags, malformed, or a flag. *)
Inductive argument :=
| NotAFlag
| EndOfFlags
| BadSyntax
| Flag (name : string) (value : option string).

Definition read_argument (s : string) : argument :=
  match s with
  | String d (String e rest) =>
      if negb (d =? "-")%char then NotAFlag
      else
        let name := if (e =? "-")%char then rest else String e rest in
        match name with
        | EmptyString => EndOfFlags
        | String c _ =>
            if (c =? "-")%char || (c =? "=")%char then BadSyntax
            else let '(name, value) := split_value name in Flag name value
        end
  | _ => NotAFlag
  end.

(** [flag.Parse], setting the variables of the configuration. *)
Fixpoint parse_flags (c : Config) (args : list string) : parsed Config :=
  match args with
  | [] => Parsed c
  | s :: args =>
      match read_argument s with
      | NotAFlag | EndOfFlags => Parsed c
      | BadSyntax => Exit 2
      | Flag name value =>
          match lookup_flag name, value with
          | None, _ => Exit (if (name =? "help") || (name =? "h") then 0 else 2)
          | Some (FieldBool f), None => parse_flags (assign_setting (SetBool f true) c) args
          | Some f, Some v =>
              match set_flag f v c with
              | Parsed c => parse_flags c args
              | Exit status => Exit status
              end
          | Some f, None =>
              match args with
              | [] => Exit 2
              | v :: args =>
                  match set_flag f v c with
                  | Parsed c => parse_flags c args
                  | Exit status => Exit status
                  end
              end
          end
      end
  end.

Definition applyCommandlineFlags (c : Config) (args : list string) : parsed Config :=
  parse_flags c args.

(** ** [New]

    [os_Hostname] is the result of [os.Hostname()], [stat] and [content] those
    of [os.Stat] and [os.ReadFile] on the configuration file. *)
Definition configFilePath : string := "/opt/carisma/conf/carisma.json".

Definition New (os_Hostname : outcome string) (stat : outcome unit) (content : outcome string)
    (args : list string) : outcome (parsed Config) :=
  let cfg := Default os_Hostname in
  cfg ← match stat with
        | Ret _ => c ← content; applyArgumentsFromConfigFileContent c cfg
        | _ => Ret cfg
        end;
  Ret match applyCommandlineFlags cfg args with
      | Parsed cfg => Parsed (fix_config cfg)
      | Exit status => Exit status
      end.

(** The tests of the repository. *)
Definition test_file (members : string) : string :=
  "{ " +:+ members +:+ quote_char +:+ "Node" +:+ quote_char +:+ ": " +:+ quote_char +:+ "localhost"
  +:+ quote_char +:+ ", " +:+ quote_char +:+ "GRPCPort" +:+ quote_char +:+ ": 8042 }".

Example test_central_node :
  New (Ret "hpc-1") (Ret ())
    (Ret (test_file (quote_char +:+ "EnableCentralMode" +:+ quote_char +:+ ": false, ")))
    ["-enable-central-mode=true"] =
  Ret (Parsed (assign_setting (SetBool FCentralMode true)
        (assign_setting (SetString FCentralNode "localhost")
          (assign_setting (SetString FNode "localhost")
            (assign_setting (SetInt FGRPCPort 8042) (Default (Ret "hpc-1"))))))).
Proof. vm_compute. reflexivity. Qed.

Example parse_int_examples :
  ParseInt0 "0x1F90" = Ret 8080%Z ∧ ParseInt0 "010" = Ret 8%Z ∧ ParseInt0 "8_080" = Ret 8080%Z
  ∧ ParseInt0 "-0" = Ret 0%Z ∧ is_fail (ParseInt0 "8__0") = true ∧ is_fail (ParseInt0 "08") = true
  ∧ is_fail (ParseInt0 "9223372036854775808") = true.
Proof. by vm_compute. Qed.

(** ** Numbers on the command line *)

Lemma digit_digit36 c d : digit c = Some d → digit36 c = Some d.
Proof.
  unfold digit, digit36, in_range, byte_val. case_decide as Hc; [| done]. intros [= <-].
  destruct Hc as [H1%Z.leb_le H2%Z.leb_le]. by rewrite H1, H2.
Qed.

Lemma digit_not_underscore c d : digit c = Some d → (c =? "_")%char = false.
Proof. intros Hc. by destruct (Ascii.eqb_spec c "_") as [-> |]. Qed.

(** In base 10 the loop reads what the loop of [Atoi] reads. *)
Lemma digits_base_digits num acc s n :
  digits num acc s = Ret n → digits_base 10 num acc s = Ret n.
Proof.
  revert acc. induction s as [| c s IH]; intros acc; cbn [digits digits_base]; [done |].
  destruct (digit c) as [d |] eqn:Hd; [| done].
  rewrite (digit_not_underscore c d Hd), (digit_digit36 c d Hd).
  apply digit_range in Hd. destruct (decide (10 ≤ d)%Z); [lia |].
  case_decide; [apply IH | done].
Qed.

(** The first digit of a positive number is not zero. *)
Lemma pretty_N_go_head p : ∃ c t, pretty_N_go (N.pos p) "" = String c t ∧ (c =? "0")%char = false.
Proof.
  cut (∀ x s, (0 < x)%N → ∃ c t, pretty_N_go x s = String c t ∧ (c =? "0")%char = false).
  { intros H. by apply H. }
  intros x. induction (N.lt_wf_0 x) as [x _ IH]; intros s Hx.
  rewrite pretty_N_go_step by lia.
  destruct (decide (x < 10)%N) as [Hlt | Hge].
  - rewrite N.div_small, N.mod_small by done. rewrite pretty_N_go_0.
    eexists _, _. split; [done |].
    destruct x as [| q]; [lia |]. do 4 (destruct q as [q | q |]; try done); lia.
  - apply IH; [by apply N.div_lt; lia |]. apply N.div_str_pos. lia.
Qed.

Lemma base_prefix_nonzero c t : (c =? "0")%char = false → base_prefix (String c t) = (10%Z, String c t).
Proof. intros Hc. destruct t as [| b [| d t]]; simpl; by rewrite Hc. Qed.

Lemma digits_base_pretty num p :
  (Z.pos p < 2 ^ 64)%Z → digits_base 10 num 0 (pretty_N_go (N.pos p) "") = Ret (Z.pos p).
Proof. intros Hp. apply digits_base_digits. by rewrite digits_pretty. Qed.

(** [ParseInt] in base 0 reads the decimal numerals that [Itoa] writes. *)
Lemma ParseInt0_Itoa z : fits_int z → ParseInt0 (Itoa z) = Ret z.
Proof.
  intros Hz. assert (Hz' := Hz). unfold fits_int, int_min, int_max in Hz'.
  destruct z as [| p | p]; [done | |];
    destruct (pretty_N_go_head p) as (c & t & E & Hc);
    assert (Hu : has_byte "_" (String c t) = false) by (rewrite <- E; by apply has_byte_pretty_N_go);
    assert (Hd : ∀ num, digits_base 10 num 0 (String c t) = Ret (Z.pos p))
      by (intros num; rewrite <- E; apply digits_base_pretty; lia);
    unfold ParseInt0.
  - rewrite split_sign_unsigned by (auto with carisma lia || by apply has_byte_Itoa).
    change (Itoa (Z.pos p)) with (pretty_N_go (N.pos p) "").
    rewrite E, base_prefix_nonzero, Hd, Hu by done. cbn. by rewrite decide_True.
  - change (Itoa (Z.neg p)) with (String "-" (pretty_N_go (N.pos p) "")).
    cbn [split_sign Ascii.eqb Bool.eqb]. rewrite E, base_prefix_nonzero, Hd, Hu by done.
    cbn [mbind outcome_bind andb]. change (- Z.pos p)%Z with (Z.neg p). by rewrite decide_True.
Qed.

(** ** Settings written as arguments and as members of the file *)

Definition field_of (x : setting) : field :=
  match x with
  | SetBool f _ => FieldBool f
  | SetString f _ => FieldString f
  | SetInt f _ => FieldInt f
  end.

#[export] Instance field_eq_dec : EqDecision field.
Proof. solve_decision. Defined.

(** The name of the flag and the key of a field; the administration port has
    no flag. *)
Definition flag_name (f : field) : option string :=
  fst <$> List.find (λ e, bool_decide (e.2 = f)) flags.
Definition json_key (f : field) : string :=
  match List.find (λ e, bool_decide (e.2 = f)) json_fields with Some e => e.1 | None => "" end.

Definition value_text (x : setting) : string :=
  match x with
  | SetBool _ b => if b then "true" else "false"
  | SetString _ s => s
  | SetInt _ z => Itoa z
  end.

(** [-name=value] *)
Definition as_argument (x : setting) : option string :=
  (λ name, "-" +:+ name +:+ "=" +:+ value_text x) <$> flag_name (field_of x).

Definition as_member (x : setting) : string * json :=
  (json_key (field_of x),
   match x with
   | SetBool _ b => JBool b
   | SetString _ s => JString s
   | SetInt _ z => JNumber (Itoa z)
   end).

(** Numbers are those of an [int]. *)
Definition setting_fits (x : setting) : Prop :=
  match x with SetInt _ z => fits_int z | _ => True end.

Definition assign_all (xs : list setting) (c : Config) : Config :=
  foldl (λ c x, assign_setting x c) c xs.

Lemma names_are_found f name :
  flag_name f = Some name → lookup_flag name = Some f.
Proof. destruct f as [[] | [] | []]; intros [= <-]; done. Qed.

Lemma keys_are_found f : find_field (json_key f) json_fields = Some f.
Proof. by destruct f as [[] | [] | []]; vm_compute. Qed.

(** The name of a flag is read back from its argument. *)
Lemma read_rendered f name v :
  flag_name f = Some name → read_argument ("-" +:+ name +:+ "=" +:+ v) = Flag name (Some v).
Proof. destruct f as [[] | [] | []]; intros [= <-]; done. Qed.

Lemma set_flag_value x c :
  setting_fits x → set_flag (field_of x) (value_text x) c = Parsed (assign_setting x c).
Proof.
  destruct x as [f b | f s | f z]; intros Hx; cbn [set_flag field_of value_text].
  - by destruct b.
  - done.
  - by rewrite ParseInt0_Itoa.
Qed.

Lemma parse_rendered c x arg args :
  setting_fits x → as_argument x = Some arg →
  parse_flags c (arg :: args) = parse_flags (assign_setting x c) args.
Proof.
  unfold as_argument. intros Hx (name & Hname & ->)%fmap_Some.
  cbn [parse_flags]. rewrite (read_rendered _ _ _ Hname), (names_are_found _ _ Hname).
  assert (Hset := set_flag_value x c Hx).
  by destruct (field_of x); rewrite Hset.
Qed.

(** The settings given as arguments are assigned from left to right. *)
Lemma parse_arguments c xs args :
  Forall setting_fits xs → mapM as_argument xs = Some args →
  applyCommandlineFlags c args = Parsed (assign_all xs c).
Proof.
  unfold applyCommandlineFlags. intros Hxs Hargs. apply mapM_Some in Hargs.
  revert c. induction Hargs as [| x arg xs args Hx _ IH]; intros c; [done |].
  apply Forall_cons in Hxs as [Hfit Hxs]. by rewrite (parse_rendered c x), IH.
Qed.

Lemma decode_as_member x : setting_fits x →
  decode_field (field_of x) (as_member x).2 = Ret (Some x).
Proof.
  destruct x as [f b | f s | f z]; intros Hx; [done | done |].
  cbn [decode_field field_of as_member snd]. by rewrite Atoi_Itoa.
Qed.

Lemma decode_as_members c xs :
  Forall setting_fits xs →
  decode_config_members c (map as_member xs) = Ret (assign_all xs c).
Proof.
  intros Hxs. revert c. induction Hxs as [| x xs Hx _ IH]; intros c; [done |].
  assert (Hv := decode_as_member x Hx). unfold as_member in Hv |- * at 1.
  cbn [map decode_config_members snd] in Hv |- *.
  rewrite keys_are_found, Hv. apply IH.
Qed.

(** ** Reading fields *)

Inductive value := ValueBool (b : bool) | ValueString (s : string) | ValueInt (z : Z).

#[export] Instance value_eq_dec : EqDecision value.
Proof. solve_decision. Defined.

Definition get_field (f : field) (c : Config) : value :=
  match f with
  | FieldBool FDebugMode => ValueBool (EnableDebugMode c)
  | FieldBool FEmulate => ValueBool (EmulateContainerRuntime c)
  | FieldBool FCentralMode => ValueBool (EnableCentralMode c)
  | FieldBool FDiscovery => ValueBool (EnableDiscovery c)
  | FieldString FCentralNode => ValueString (CentralNodeHostname c)
  | FieldString FNode => ValueString (NodeHostname c)
  | FieldString FRegistryDomain => ValueString (DefaultContainerRegistryDomain c)
  | FieldInt FStatusMgrPort => ValueInt (StatusMgrPort c)
  | FieldInt FGRPCPort => ValueInt (GRPCPort c)
  | FieldInt FUDPPort => ValueInt (UDPPort c)
  | FieldInt FUDPDelay => ValueInt (UDPDelay c)
  | FieldInt FUDPTimeout => ValueInt (UDPTimeout c)
  | FieldInt FIngressPort => ValueInt (IngressPort c)
  | FieldInt FEgressPort => ValueInt (EgressPort c)
  | FieldInt FAdminPort => ValueInt (AdminPort c)
  end.

Definition setting_value (x : setting) : value :=
  match x with
  | SetBool _ b => ValueBool b
  | SetString _ s => ValueString s
  | SetInt _ z => ValueInt z
  end.

(** The value of the last setting of a field, or [v]. *)
Definition last_value (f : field) (xs : list setting) (v : value) : value :=
  foldl (λ v x, if decide (field_of x = f) then setting_value x else v) v xs.

Lemma get_assign f x c :
  get_field f (assign_setting x c) =
    if decide (field_of x = f) then setting_value x else get_field f c.
Proof. by destruct f as [[] | [] | []], x as [[] ? | [] ? | [] ?]. Qed.

Lemma get_assign_all f xs c :
  get_field f (assign_all xs c) = last_value f xs (get_field f c).
Proof.
  unfold assign_all, last_value. revert c.
  induction xs as [| x xs IH]; intros c; [done |]. cbn [foldl]. by rewrite IH, get_assign.
Qed.

Lemma assign_all_app xs ys c : assign_all (xs ++ ys) c = assign_all ys (assign_all xs c).
Proof. apply foldl_app. Qed.

Lemma get_fix_config f c :
  f = FieldString FCentralNode ∧ EnableCentralMode c = true
  ∨ get_field f (fix_config c) = get_field f c.
Proof.
  unfold fix_config. destruct (EnableCentralMode c) eqn:Hc; [| by right].
  destruct f as [[] | [] | []]; (by left) || (by right).
Qed.

Lemma fix_config_central c :
  EnableCentralMode (fix_config c) = EnableCentralMode c
  ∧ (EnableCentralMode c = true → CentralNodeHostname (fix_config c) = NodeHostname (fix_config c)).
Proof. unfold fix_config. by destruct (EnableCentralMode c) eqn:Hc; cbn; rewrite ?Hc. Qed.

(** No argument changes the administration port. *)
Lemma lookup_flag_admin_port name f : lookup_flag name = Some f → f ≠ FieldInt FAdminPort.
Proof.
  unfold lookup_flag. intros ([n g] & [Hin%list_elem_of_In _]%find_some & ->)%fmap_Some.
  cut (Forall (λ e, e.2 ≠ FieldInt FAdminPort) flags).
  { intros H. by apply (proj1 (Forall_forall _ _) H (n, g)). }
  repeat constructor; done.
Qed.

Lemma set_flag_admin_port f v c c' :
  f ≠ FieldInt FAdminPort → set_flag f v c = Parsed c' → AdminPort c' = AdminPort c.
Proof.
  intros Hf Hc. destruct f as [f | f | f]; cbn [set_flag] in Hc; repeat case_match; simplify_eq;
    try done.
  by destruct f.
Qed.

Lemma parse_flags_admin_port c args c' :
  parse_flags c args = Parsed c' → AdminPort c' = AdminPort c.
Proof.
  cut (∀ n c args, (length args ≤ n)%nat → parse_flags c args = Parsed c' →
         AdminPort c' = AdminPort c); [by eauto |].
  clear c args. induction n as [| n IH]; intros c [| s args] Hn Hc; simpl in Hn; try lia;
    try by injection Hc as <-.
  cbn [parse_flags] in Hc.
  destruct (read_argument s) as [| | | name v]; try (by injection Hc as <- || done).
  destruct (lookup_flag name) as [f |] eqn:Hf; [| done].
  apply lookup_flag_admin_port in Hf.
  assert (Hnext : ∀ v args', (length args' ≤ n)%nat →
    match set_flag f v c with Parsed c => parse_flags c args' | Exit status => Exit status end
      = Parsed c' → AdminPort c' = AdminPort c).
  { intros w args' Hl H. destruct (set_flag f w c) as [d |] eqn:Hd; [| done].
    rewrite (IH d args') by done. by eapply set_flag_admin_port. }
  destruct v as [v |]; [by destruct f; apply (Hnext v args ltac:(lia)) |].
  assert (Hone : match args with
    | [] => Exit 2
    | v :: args => match set_flag f v c with Parsed c => parse_flags c args | Exit s => Exit s end
    end = Parsed c' → AdminPort c' = AdminPort c).
  { destruct args as [| v args]; [done |]. apply Hnext. simpl in Hn. lia. }
  destruct f as [f | f | f]; [| by apply Hone ..].
  rewrite (IH _ args) by (done || lia). done.
Qed.

(** [New] on members and arguments that are settings. *)
Lemma New_settings h content ys xs args :
  Forall setting_fits (ys ++ xs) →
  parse_json content = Some (JObject (map as_member ys)) →
  mapM as_argument xs = Some args →
  ∃ c, New h (Ret tt) (Ret content) args = Ret (Parsed c)
    ∧ (∀ f, get_field f c = last_value f (ys ++ xs) (get_field f (Default h))
            ∨ f = FieldString FCentralNode ∧ EnableCentralMode c = true)
    ∧ (EnableCentralMode c = true → CentralNodeHostname c = NodeHostname c).
Proof.
  intros [Hys Hxs]%Forall_app Hfile Hargs.
  exists (fix_config (assign_all (ys ++ xs) (Default h))). split_and!.
  - unfold New, applyArgumentsFromConfigFileContent. cbn [mbind outcome_bind].
    rewrite Hfile, decode_as_members by done. cbn [mbind outcome_bind].
    by rewrite (parse_arguments _ xs), assign_all_app.
  - intros f. destruct (fix_config_central (assign_all (ys ++ xs) (Default h))) as [-> _].
    rewrite <- get_assign_all.
    destruct (get_fix_config f (assign_all (ys ++ xs) (Default h))); auto.
  - destruct (fix_config_central (assign_all (ys ++ xs) (Default h))) as [-> H]. exact H.
Qed.

(** ** Properties *)

(** C14. Precedence of the sources: when the members of the file and the arguments
    are settings, the program starts, every field has the value of the last
    argument that sets it, else of the last member, else the default, and in
    central mode the node is its own central node. *)
Theorem New_precedence h content ys xs args :
  Forall setting_fits (ys ++ xs) →
  parse_json content = Some (JObject (map as_member ys)) →
  mapM as_argument xs = Some args →
  ∃ c, New h (Ret tt) (Ret content) args = Ret (Parsed c)
    ∧ (∀ f, get_field f c = last_value f (ys ++ xs) (get_field f (Default h))
            ∨ f = FieldString FCentralNode ∧ EnableCentralMode c = true)
    ∧ (EnableCentralMode c = true → CentralNodeHostname c = NodeHostname c).
Proof. apply New_settings. Qed.

Definition witness_settings : list setting :=
  [SetInt FGRPCPort 8042; SetBool FCentralMode true; SetInt FAdminPort 9902].
Definition witness_file : string := MarshalIndent (JObject (map as_member witness_settings)).

Lemma New_precedence_witness :
  ∃ c, New (Ret "hpc-1") (Ret tt) (Ret witness_file) ["-grpc-port=8043"; "-node=hpc-2"]
         = Ret (Parsed c)
    ∧ (∀ f, get_field f c =
              last_value f (witness_settings ++ [SetInt FGRPCPort 8043; SetString FNode "hpc-2"])
                (get_field f (Default (Ret "hpc-1")))
            ∨ f = FieldString FCentralNode ∧ EnableCentralMode c = true)
    ∧ (EnableCentralMode c = true → CentralNodeHostname c = NodeHostname c).
Proof.
  apply New_precedence; [| by vm_compute ..].
  unfold setting_fits, fits_int, int_min, int_max. repeat constructor; cbn; lia.
Defined.

(** The administration port of a started program is that of the file or the
    default, whatever the arguments; in central mode the node is its own
    central node. *)
Theorem New_admin_port h stat content args args' c c' :
  New h stat content args = Ret (Parsed c) →
  New h stat content args' = Ret (Parsed c') →
  AdminPort c = AdminPort c'
  ∧ (EnableCentralMode c = true → CentralNodeHostname c = NodeHostname c).
Proof.
  unfold New. intros (d & Hd & Hc)%bind_Ret_inv (d' & Hd' & Hc')%bind_Ret_inv.
  rewrite Hd in Hd'. injection Hd' as <-.
  destruct (applyCommandlineFlags d args) as [e |] eqn:He; simplify_eq.
  destruct (applyCommandlineFlags d args') as [e' |] eqn:He'; simplify_eq.
  assert (Hfix : ∀ e, AdminPort (fix_config e) = AdminPort e)
    by (intros d0; unfold fix_config; by destruct (EnableCentralMode d0)).
  split.
  - rewrite !Hfix. by rewrite (parse_flags_admin_port _ _ _ He), (parse_flags_admin_port _ _ _ He').
  - destruct (fix_config_central e) as [-> H]. exact H.
Qed.

Lemma New_admin_port_witness :
  let start args := New (Ret "hpc-1") (Ret tt) (Ret witness_file) args in
  ∃ c c', start ["-ingress-port"; "0x1F90"] = Ret (Parsed c) ∧ start [] = Ret (Parsed c')
    ∧ IngressPort c = 8080%Z ∧ AdminPort c = 9902%Z
    ∧ (AdminPort c = AdminPort c'
       ∧ (EnableCentralMode c = true → CentralNodeHostname c = NodeHostname c)).
Proof.
  eexists _, _. do 4 (split; [vm_compute; reflexivity |]).
  apply (New_admin_port (Ret "hpc-1") (Ret tt) (Ret witness_file) ["-ingress-port"; "0x1F90"] []);
    vm_compute; reflexivity.
Defined.
