(* ===== verification/ControlPlaneApp.v ===== *)
(** Package [cmd/carisma-control-plane/app], file [app.go], and the part of
    [RegisterServer] of [xds/server.go] that attaches the xDS server: how the
    program of the control plane is put together and ends.

    The gRPC server is third-party code; the model records the calls the
    program makes of it.  The node registry, the service registry and the xDS
    server start in [ControlPlane.initial], with the mutex and the channels of
    the xDS server shared. *)
From S2P Require Import Prelude GoStrings Json JsonParse Slices NodeRegistry ServiceRegistry Envoy Config ConfigSources Xds ControlPlane.

Local Open Scope list_scope.

Inductive grpc_service :=
| AggregatedDiscoveryService
| ClusterDiscoveryService
| RouteDiscoveryService
| ListenerDiscoveryService
| NodeRegistryService
| ServiceRegistryService
| ServerReflection.

#[export] Instance grpc_service_eq_dec : EqDecision grpc_service.
Proof. solve_decision. Defined.

(** [Serve] has the address that is listened on, or none for a nil listener. *)
Inductive grpc_call :=
| NewGRPCServer (maxConcurrentStreams : Z)
| RegisterService (service : grpc_service)
| Serve (lis : option string)
| Stop.

(** [xdsServer.RegisterServer]: its two goroutines are those of
    [ControlPlane]. *)
Definition RegisterServer : list grpc_call :=
  map RegisterService
    [AggregatedDiscoveryService; ClusterDiscoveryService; RouteDiscoveryService;
     ListenerDiscoveryService].

(** [net.Listen]: its error is only logged. *)
Definition listener (listen : string → outcome unit) (cfg : Config) : option string :=
  let address := JoinHostPort "" (Itoa (GRPCPort cfg)) in
  match listen address with Ret _ => Some address | _ => None end.

Definition setup (cfg : Config) : list grpc_call :=
  NewGRPCServer 1000000 :: RegisterServer
  ++ [RegisterService NodeRegistryService; RegisterService ServiceRegistryService]
  ++ (if EnableDebugMode cfg then [RegisterService ServerReflection] else []).

(** The program after the setup: the goroutine that serves has started or not,
    [Run] has stopped the server, and has returned. *)
Record program := {
  config : Config;
  calls : list grpc_call;
  serving : bool;
  stopped : bool;
  returned : bool;
}.

Inductive start_result :=
| NotStarted
| Exited (status : Z)
| Crashed (p : panic)
| Running (p : program).

(** [Run] up to the [select]. *)
Definition Run (os_Hostname : outcome string) (file_stat : outcome unit)
    (file_content : outcome string) (arguments : list string) : start_result :=
  match New os_Hostname file_stat file_content arguments with
  | Fail err => NotStarted
  | Panic p => Crashed p
  | Ret (Exit status) => Exited status
  | Ret (Parsed cfg) =>
      Running {| config := cfg; calls := setup cfg; serving := false; stopped := false;
                 returned := false |}
  end.

(** The goroutine calls [Serve]; when the context is done [Run] calls [Stop] and
    returns, which ends the program. *)
Inductive run_step (listen : string → outcome unit) : program → program → Prop :=
| step_serve p :
    serving p = false → returned p = false →
    run_step listen p
      {| config := config p; calls := calls p ++ [Serve (listener listen (config p))];
         serving := true; stopped := stopped p; returned := false |}
| step_context_done p :
    stopped p = false → returned p = false →
    run_step listen p
      {| config := config p; calls := calls p ++ [Stop]; serving := serving p; stopped := true;
         returned := false |}
| step_return p :
    stopped p = true → returned p = false →
    run_step listen p
      {| config := config p; calls := calls p; serving := serving p; stopped := true;
         returned := true |}.

(** ** Lemmas *)

(** The calls behind the setup. *)
Definition later_calls (listen : string → outcome unit) (p : program) (l : list grpc_call) : Prop :=
  let serve := Serve (listener listen (config p)) in
  match serving p, stopped p with
  | false, false => l = []
  | true, false => l = [serve]
  | false, true => l = [Stop]
  | true, true => l = [serve; Stop] ∨ l = [Stop; serve]
  end.

Definition program_ok (listen : string → outcome unit) (cfg : Config) (p : program) : Prop :=
  config p = cfg ∧ (∃ l, calls p = setup cfg ++ l ∧ later_calls listen p l)
  ∧ (returned p = true → stopped p = true).

Lemma program_ok_step listen cfg p p' :
  program_ok listen cfg p → run_step listen p p' → program_ok listen cfg p'.
Proof.
  intros (Hcfg & (l & Hl & Hlater) & Hret) Hstep. unfold later_calls in Hlater.
  destruct Hstep as [p Hs Hr | p Hs Hr | p Hs Hr]; rewrite Hs in Hlater.
  - split_and!; [done | | done]. eexists. rewrite Hl, <- app_assoc. split; [done |].
    unfold later_calls. cbn. destruct (stopped p); subst l; [by right | done].
  - split_and!; [done | | done]. eexists. rewrite Hl, <- app_assoc. split; [done |].
    unfold later_calls. cbn. destruct (serving p); subst l; [by left | done].
  - split_and!; [done | | done]. exists l. split; [done |].
    unfold later_calls. cbn. exact Hlater.
Qed.

(** ** Property *)

(** The program registers every service once and before it serves, serves at
    most once, at the configured port - or, when that cannot be listened on,
    with a nil listener - and returns only after it has stopped the server. *)
Theorem control_plane_runs listen h stat content args p0 p :
  Run h stat content args = Running p0 → rtc (run_step listen) p0 p →
  ∃ l, calls p = setup (config p0) ++ l
    ∧ l `sublist_of` [Stop; Serve (listener listen (config p0)); Stop]
    ∧ NoDup (setup (config p0))
    ∧ (∀ addr, listener listen (config p0) = Some addr →
         addr = ":" +:+ Itoa (GRPCPort (config p0)))
    ∧ (returned p = true → Stop ∈ l).
Proof.
  intros Hrun Hsteps.
  assert (Hok0 : program_ok listen (config p0) p0).
  { unfold Run in Hrun. repeat case_match; simplify_eq. split_and!; [done | | done].
    exists []. by rewrite app_nil_r. }
  assert (Hok : program_ok listen (config p0) p).
  { eapply (rtc_invariant (run_step listen) (program_ok listen (config p0)));
      [apply program_ok_step | exact Hsteps | exact Hok0]. }
  destruct Hok as (Hcfg & (l & Hl & Hlater) & Hret). exists l.
  unfold later_calls in Hlater. rewrite Hcfg in Hlater. split_and!; [done | | | |].
  - destruct (serving p), (stopped p); [destruct Hlater as [-> | ->] | subst l ..];
      repeat constructor.
  - unfold setup. destruct (EnableDebugMode (config p0));
      repeat (constructor; [set_solver |]); constructor.
  - intros addr. unfold listener, JoinHostPort. cbn. by destruct (listen _); intros [= <-].
  - intros Hr. rewrite Hret in Hlater by done.
    destruct (serving p); [destruct Hlater as [-> | ->] | subst l]; set_solver.
Qed.
