(* ===== verification/StatusManager.v ===== *)
(** Package [cmd/carisma-status-manager/app], file [app.go]: the status page.

    Every connection has three goroutines: [readMessages] performs the
    commands of the page, [sendStatus] sends the list of containers at once
    and then at every tick, [sendPing] keeps the connection alive.  They share
    the container manager, an instance of the interface [Manager].  What the
    websocket answers - the results of [ReadMessage], [WriteMessage] and
    [WriteControl] - is an input of each loop, one result per call; a loop
    whose inputs are used up waits for the next one. *)
From S2P Require Import Prelude GoStrings Json JsonParse JsonRoundTrip Container Config ConfigSources DebugManager.

Local Open Scope string_scope.

(** A goroutine waits, has returned, or has panicked, which ends the program. *)
Inductive goroutine :=
| Waiting
| Finished
| Crashed (p : panic).

(** ** Commands *)
Record message := {
  Action : string;
  MessageID : string;
}.

(** The members of an object into the fields of a [message]. *)
Fixpoint decode_message_members (m : message) (kvs : list (string * json)) : outcome message :=
  match kvs with
  | [] => Ret m
  | (key, v) :: kvs =>
      if names_field "Action" key then
        match v with
        | JString s => decode_message_members {| Action := s; MessageID := MessageID m |} kvs
        | JNull => decode_message_members m kvs
        | _ => Fail UnmarshalTypeError
        end
      else if names_field "ID" key then
        match v with
        | JString s => decode_message_members {| Action := Action m; MessageID := s |} kvs
        | JNull => decode_message_members m kvs
        | _ => Fail UnmarshalTypeError
        end
      else decode_message_members m kvs
  end.

Definition MessageFromJSON (msgContent : string) : outcome message :=
  match parse_json msgContent with
  | Some JNull => Ret {| Action := ""; MessageID := "" |}
  | Some (JObject kvs) => decode_message_members {| Action := ""; MessageID := "" |} kvs
  | Some _ => Fail UnmarshalTypeError
  | None => Fail SyntaxError
  end.

(** [strings.ToLower] on ASCII letters.  The only other runes it turns into
    ASCII are U+0130 and U+212A, into i and k, which no action contains, so
    the comparison of the result with an action is that of the source. *)
Fixpoint ToLower (s : string) : string :=
  match s with
  | EmptyString => ""
  | String c s => String (to_lower c) (ToLower s)
  end.

Section status_manager.
Context {S : Type} `{Manager S}.

(** One message: an error of the manager is logged. *)
Definition handle_message (msgContent : string) (s : S) : outcome unit * S :=
  match MessageFromJSON msgContent with
  | Ret msg =>
      let action := ToLower (Action msg) in
      let '(r, s) :=
        if action =? "start" then StartContainer (MessageID msg) s
        else if action =? "stop" then StopContainer (MessageID msg) s
        else (Ret (), s) in
      (match r with Panic p => Panic p | _ => Ret () end, s)
  | _ => (Ret (), s)
  end.

(** [readMessages]: ends with the first error of [ReadMessage]; the deferred
    call then closes the connection, also when a panic ends the loop. *)
Record reading := {
  reader_state : goroutine;
  ws_closed : bool;
}.

Fixpoint readMessages (reads : list (outcome string)) (s : S) : reading * S :=
  match reads with
  | [] => ({| reader_state := Waiting; ws_closed := false |}, s)
  | Ret msgContent :: reads =>
      match handle_message msgContent s with
      | (Panic p, s) => ({| reader_state := Crashed p; ws_closed := true |}, s)
      | (_, s) => readMessages reads s
      end
  | Fail _ :: _ => ({| reader_state := Finished; ws_closed := true |}, s)
  | Panic p :: _ => ({| reader_state := Crashed p; ws_closed := true |}, s)
  end.

(** ** Status *)

(** [websocket.ErrCloseSent], and [errors.Is] for it. *)
Definition ErrCloseSent : error := ErrExternal "websocket: close sent".
Definition is_close_sent (err : error) : bool := bool_decide (err = ErrCloseSent).

Definition container_json (c : Container) : json :=
  JObject [("ID", JString (ID c)); ("FirstName", JString (FirstName c));
           ("Image", JString (Container_Image c)); ("Ports", JString (Ports c));
           ("Status", JString (Status c))].

(** The slice of the Docker manager is nil when it is empty, that of the debug
    manager is not. *)
Definition containers_json (nil_slice : bool) (cs : list Container) : json :=
  match cs with
  | [] => if nil_slice then JNull else JArray []
  | _ => JArray (map container_json cs)
  end.

(** The closure of [sendStatus]: its result, and what it writes, given the
    result of the write. *)
Definition sendContainerList (nil_slice : bool) (written : outcome unit) (s : S)
    : outcome unit * S * list string :=
  match Containers s with
  | (Ret containers, s) =>
      (match written with
       | Fail err => if is_close_sent err then Ret () else Fail err
       | r => r
       end, s, [MarshalIndent (containers_json nil_slice containers)])
  | (Fail _, s) => (Ret (), s, [])
  | (Panic p, s) => (Panic p, s, [])
  end.

(** [sendStatus]: one call at once, then one per tick.  [writes] holds, for
    every call, the result of its write. *)
Fixpoint sendStatus (nil_slice : bool) (writes : list (outcome unit)) (s : S)
    : goroutine * S * list string :=
  match writes with
  | [] => (Waiting, s, [])
  | w :: writes =>
      match sendContainerList nil_slice w s with
      | (Ret _, s, out) =>
          let '(r, s, out') := sendStatus nil_slice writes s in (r, s, (out ++ out')%list)
      | (Fail _, s, out) => (Finished, s, out)
      | (Panic p, s, out) => (Crashed p, s, out)
      end
  end.

(** [sendPing]: one ping per tick, until one fails. *)
Fixpoint sendPing (controls : list (outcome unit)) : goroutine :=
  match controls with
  | [] => Waiting
  | Ret _ :: controls => sendPing controls
  | Fail _ :: _ => Finished
  | Panic p :: _ => Crashed p
  end.

(** ** The page and the program *)

(** [handleIndex]: the results of [template.ParseFS] (a nil template on an
    error), [os.Hostname] and [t.Execute].  What is sent is the page for a
    host name and error pages; no error ends the function. *)
Inductive response :=
| Page (hostname : string)
| InternalServerError (err : error).

Definition error_page {A} (m : outcome A) : list response :=
  match m with Fail err => [InternalServerError err] | _ => [] end.

Definition handleIndex (parsed : outcome unit) (os_Hostname : outcome string)
    (execute : string → outcome unit) : outcome unit * list response :=
  let out := (error_page parsed ++ error_page os_Hostname)%list in
  let hostname := match os_Hostname with Ret h => h | _ => "" end in
  match parsed with
  | Ret _ => (Ret (), (out ++ match execute hostname with
                              | Ret _ => [Page hostname]
                              | m => error_page m
                              end)%list)
  | Fail _ => (Panic NilDereference, out)
  | Panic p => (Panic p, out)
  end.

(** [Run]: the configuration, the two ways to make a manager, the assets, and
    the server, which runs until [ListenAndServe] fails.  The result is the
    address that was listened on and the state of the manager, if any. *)
Definition Run (cfg : outcome Config) (debugManager : S) (dockerManager : outcome S)
    (assets : outcome unit) (ListenAndServe : string → S → S) : option string * option S :=
  match cfg with
  | Ret cfg =>
      match (if EmulateContainerRuntime cfg then Ret debugManager else dockerManager) with
      | Ret s =>
          match assets with
          | Ret _ =>
              let addr := ":" +:+ Itoa (StatusMgrPort cfg) in
              (Some addr, Some (Close (ListenAndServe addr s)).2)
          | _ => (None, Some (Close s).2)
          end
      | _ => (None, None)
      end
  | _ => (None, None)
  end.
End status_manager.

(** ** Commands as calls of the manager *)

(** The call a message asks for. *)
Definition command (msgContent : string) : option call :=
  match MessageFromJSON msgContent with
  | Ret msg =>
      let action := ToLower (Action msg) in
      if action =? "start" then Some (CallStart (MessageID msg))
      else if action =? "stop" then Some (CallStop (MessageID msg))
      else None
  | _ => None
  end.

(** The messages before the first error, and whether there is one. *)
Fixpoint until_error (reads : list (outcome string)) : list string * bool :=
  match reads with
  | [] => ([], false)
  | Ret m :: reads => let '(ms, e) := until_error reads in (m :: ms, e)
  | _ :: _ => ([], true)
  end.

(** The message the page sends for a container. *)
Definition page_message (action id : string) : json :=
  JObject [("action", JString action); ("id", JString id)].

Lemma MessageFromJSON_page action id text :
  parse_json text = Some (page_message action id) →
  MessageFromJSON text = Ret {| Action := action; MessageID := id |}.
Proof. unfold MessageFromJSON. by intros ->. Qed.

Lemma command_start id text :
  parse_json text = Some (page_message "start" id) → command text = Some (CallStart id).
Proof. intros Hp. unfold command. by rewrite (MessageFromJSON_page _ _ _ Hp). Qed.

Lemma command_stop id text :
  parse_json text = Some (page_message "stop" id) → command text = Some (CallStop id).
Proof. intros Hp. unfold command. by rewrite (MessageFromJSON_page _ _ _ Hp). Qed.

Section commands.
Context {S : Type} `{Manager S}.

(** Managers whose calls start and stop containers without a panic. *)
Definition calm : Prop :=
  ∀ id (s : S) p, (StartContainer id s).1 ≠ Panic p ∧ (StopContainer id s).1 ≠ Panic p.

Lemma handle_message_command m (s : S) :
  calm → handle_message m s = (Ret (), perform_all (option_list (command m)) s).
Proof.
  intros Hc. unfold handle_message, command.
  destruct (MessageFromJSON m) as [msg | |]; [| done | done].
  cbn zeta. assert (Hc' := Hc (MessageID msg) s).
  destruct (ToLower (Action msg) =? "start"); [| destruct (ToLower (Action msg) =? "stop")]; cbn.
  - destruct (StartContainer (MessageID msg) s) as [[| | p] s']; [done | done |].
    by destruct (proj1 (Hc' p)).
  - destruct (StopContainer (MessageID msg) s) as [[| | p] s']; [done | done |].
    by destruct (proj2 (Hc' p)).
  - done.
Qed.

Lemma perform_all_app cs cs' (s : S) :
  perform_all (cs ++ cs') s = perform_all cs' (perform_all cs s).
Proof. apply foldl_app. Qed.
End commands.

(** ** What the page reads *)

(** The value of a member, as JavaScript looks it up. *)
Definition member (key : string) (kvs : list (string * json)) : option string :=
  match List.find (λ kv, kv.1 =? key) kvs with Some (_, JString s) => Some s | _ => None end.

Definition page_row (v : json) : option Container :=
  match v with
  | JObject kvs =>
      id ← member "ID" kvs; n ← member "FirstName" kvs; i ← member "Image" kvs;
      p ← member "Ports" kvs; st ← member "Status" kvs;
      Some {| ID := id; FirstName := n; Container_Image := i; Ports := p; Status := st |}
  | _ => None
  end.

(** [$.each(JSON.parse(e.data), ...)]: null has no rows. *)
Definition page_rows (text : string) : option (list Container) :=
  match parse_json text with
  | Some JNull => Some []
  | Some (JArray vs) => mapM page_row vs
  | _ => None
  end.

Definition utf8_container (c : Container) : Prop :=
  utf8 (ID c) ∧ utf8 (FirstName c) ∧ utf8 (Container_Image c) ∧ utf8 (Ports c) ∧ utf8 (Status c).

Lemma page_row_container c : page_row (container_json c) = Some c.
Proof. by destruct c. Qed.

Lemma printable_container c : utf8_container c → printable (container_json c).
Proof.
  intros (? & ? & ? & ? & ?). apply printable_object.
  repeat apply Forall_cons_2; try done; (split; [by apply utf8_ascii | done]).
Qed.

Lemma height_containers nil_slice cs : (height (containers_json nil_slice cs) ≤ 2)%nat.
Proof.
  assert (Hcs : (foldr (λ v n, Nat.max (height v) n) 0 (map container_json cs) ≤ 1)%nat).
  { induction cs as [| c cs IH]; cbn -[Nat.max] in *; lia. }
  destruct cs as [| c cs]; [by destruct nil_slice; simpl; lia |].
  change (containers_json nil_slice (c :: cs)) with (JArray (map container_json (c :: cs))).
  cbn [height]. lia.
Qed.

Lemma page_rows_containers nil_slice cs :
  Forall utf8_container cs → page_rows (MarshalIndent (containers_json nil_slice cs)) = Some cs.
Proof.
  intros Hcs. unfold page_rows. rewrite parse_MarshalIndent.
  - destruct cs as [| c cs]; [by destruct nil_slice |]. cbn [containers_json].
    apply mapM_Some, Forall2_fmap_l, Forall_Forall2_diag, Forall_forall.
    intros c' _. apply page_row_container.
  - destruct cs as [| c cs]; [by destruct nil_slice |]. cbn [containers_json].
    apply printable_array, Forall_fmap. eapply Forall_impl; [done |]. apply printable_container.
  - assert (Hh := height_containers nil_slice cs). unfold maxNestingDepth. lia.
Qed.

Section status_lemmas.
Context {S : Type} `{Manager S}.
Implicit Types (s : S) (writes : list (outcome unit)).

(** Listing succeeds. *)
Definition lists : Prop := ∀ s, ∃ cs s', Containers s = (Ret cs, s').

(** A write that does not end the goroutine. *)
Definition tolerated (w : outcome unit) : Prop := w = Ret () ∨ w = Fail ErrCloseSent.

Lemma sendContainerList_tolerated nil_slice w s :
  lists → tolerated w →
  ∃ text, sendContainerList nil_slice w s = (Ret (), perform CallContainers s, [text]).
Proof.
  intros Hl Hw. destruct (Hl s) as (cs & s' & E). unfold sendContainerList. cbn [perform].
  rewrite E. eexists. by destruct Hw as [-> | ->].
Qed.

Lemma sendStatus_tolerated nil_slice writes more s :
  lists → Forall tolerated writes →
  ∃ texts, length texts = length writes
    ∧ sendStatus nil_slice (writes ++ more) s =
        let '(r, s', out) :=
          sendStatus nil_slice more (perform_all (repeat CallContainers (length writes)) s) in
        (r, s', (texts ++ out)%list).
Proof.
  intros Hl Hw. revert s. induction Hw as [| w writes Hw _ IH]; intros s.
  { exists []. split; [done |]. cbn. by destruct (sendStatus nil_slice more s) as [[r s'] out]. }
  destruct (sendContainerList_tolerated nil_slice w s Hl Hw) as [text E].
  destruct (IH (perform CallContainers s)) as (texts & Hlen & Heq).
  exists (text :: texts). split; [simpl; by rewrite Hlen |].
  cbn [app sendStatus]. rewrite E, Heq. cbn [length repeat].
  change (perform_all (CallContainers :: ?cs) s) with (perform_all cs (perform CallContainers s)).
  by destruct (sendStatus nil_slice more _) as [[r s'] out].
Qed.
End status_lemmas.

(** ** Properties *)

(** C19. The commands of the page: whatever arrives, [readMessages] performs on the
    manager exactly the calls that the decodable messages before the first
    read error ask for, in order - in particular the start and stop messages
    of the page - and it closes the connection when and only when a read
    failed. *)
Theorem readMessages_performs {S} `{Manager S} (reads : list (outcome string)) (s : S) :
  calm → (∀ p, Panic p ∉ reads) →
  readMessages reads s =
    ({| reader_state := if (until_error reads).2 then Finished else Waiting;
        ws_closed := (until_error reads).2 |},
     perform_all (omap command (until_error reads).1) s)
  ∧ ∀ id text,
      (parse_json text = Some (page_message "start" id) → command text = Some (CallStart id))
      ∧ (parse_json text = Some (page_message "stop" id) → command text = Some (CallStop id)).
Proof.
  intros Hc Hp. split; [| by eauto using command_start, command_stop].
  revert s. induction reads as [| [m | e | p] reads IH]; intros s; [done | | done |].
  - cbn [readMessages until_error]. rewrite handle_message_command by done.
    rewrite IH by (intros p Hin; apply (Hp p); by right).
    destruct (until_error reads) as [ms e]. cbn [fst snd omap list_omap].
    by destruct (command m).
  - by destruct (Hp p); left.
Qed.

(** The list that is sent reads back on the page as the containers the manager
    listed, an empty list included, whichever way the write ends. *)
Theorem page_shows_containers {S} `{Manager S} nil_slice written (s s' : S) cs :
  Containers s = (Ret cs, s') → Forall utf8_container cs →
  ∃ text, (sendContainerList nil_slice written s).2 = [text]
    ∧ page_rows text = Some cs
    ∧ (sendContainerList nil_slice written s).1.2 = s'.
Proof.
  intros E Hcs. unfold sendContainerList. rewrite E. eexists. split; [done |].
  split; [by apply page_rows_containers | done].
Qed.

(** The life of [sendStatus]: as long as the writes succeed, or fail because a
    close message was sent, the goroutine lists the containers once per tick
    and goes on - also when the connection is gone for good, where [sendPing]
    returns; any other error of a write ends it. *)
Theorem sendStatus_survives_close {S} `{Manager S} nil_slice writes (s : S) err rest pings :
  lists → Forall tolerated writes → err ≠ ErrCloseSent →
  let listed n := perform_all (repeat CallContainers n) s in
  (∃ texts, length texts = length writes
     ∧ sendStatus nil_slice writes s = (Waiting, listed (length writes), texts))
  ∧ (∃ texts, length texts = Datatypes.S (length writes)
     ∧ sendStatus nil_slice (writes ++ Fail err :: rest) s =
         (Finished, listed (Datatypes.S (length writes)), texts))
  ∧ sendPing (Fail ErrCloseSent :: pings) = Finished.
Proof.
  intros Hl Hw Herr listed. split_and!; [| | done].
  - destruct (sendStatus_tolerated nil_slice writes [] s Hl Hw) as (texts & Hlen & E).
    rewrite app_nil_r in E. exists texts. split; [done |]. rewrite E. cbn. by rewrite app_nil_r.
  - destruct (sendStatus_tolerated nil_slice writes (Fail err :: rest) s Hl Hw) as (texts & Hlen & E).
    destruct (Hl (listed (length writes))) as (cs & s' & Ec).
    rewrite E. cbn [sendStatus]. unfold sendContainerList. fold (listed (length writes)).
    rewrite Ec. unfold is_close_sent. rewrite bool_decide_eq_false_2 by done.
    eexists. split; [| do 2 f_equal].
    + rewrite length_app, Hlen. simpl. lia.
    + unfold listed. cbn [repeat]. rewrite repeat_cons, perform_all_app.
      unfold listed in Ec. cbn. by rewrite Ec.
Qed.

(** ** The status manager with the debug manager *)

Definition sample_manager : Manager debugContainerManager :=
  debug_manager list_order port_list_order cyclic_draws.

Lemma debug_calm : @calm _ sample_manager.
Proof.
  intros id d p. split; simpl; unfold debug_StartContainer, debug_StopContainer, debug_set_status;
    by destruct (container d !! id).
Qed.

Lemma debug_lists : @lists _ sample_manager.
Proof. intros d. by do 2 eexists. Qed.

(** One application runs; its identifier is the 64 letters drawn. *)
Definition sample_state : debugContainerManager :=
  @perform_all _ sample_manager [CallPull "app:v1" [] ∅ true] NewDebugContainerManager.
Definition sample_id : string := next_id cyclic_draws NewDebugContainerManager.
Definition sample_reads : list (outcome string) :=
  [Ret "{"; Ret (MarshalIndent (page_message "STOP" sample_id)); Fail EOF;
   Ret (MarshalIndent (page_message "start" sample_id))].

Lemma readMessages_performs_witness :
  (@readMessages _ sample_manager sample_reads sample_state =
    ({| reader_state := if (until_error sample_reads).2 then Finished else Waiting;
        ws_closed := (until_error sample_reads).2 |},
     @perform_all _ sample_manager (omap command (until_error sample_reads).1) sample_state)
   ∧ ∀ id text,
      (parse_json text = Some (page_message "start" id) → command text = Some (CallStart id))
      ∧ (parse_json text = Some (page_message "stop" id) → command text = Some (CallStop id)))
  ∧ omap command (until_error sample_reads).1 = [CallStop sample_id].
Proof.
  split; [| by vm_compute].
  apply (@readMessages_performs _ sample_manager); [exact debug_calm |].
  intros p. unfold sample_reads. rewrite !not_elem_of_cons. split_and!; try done.
  apply not_elem_of_nil.
Defined.

(** The application stopped by the page is listed as exited. *)
Lemma page_shows_containers_witness :
  let stopped := (@readMessages _ sample_manager sample_reads sample_state).2 in
  let cs := [{| ID := sample_id; FirstName := sample_id; Container_Image := "app:v1";
                Ports := ""; Status := statusExited |}] in
  ∃ text, (@sendContainerList _ sample_manager false (Ret ()) stopped).2 = [text]
    ∧ page_rows text = Some cs
    ∧ (@sendContainerList _ sample_manager false (Ret ()) stopped).1.2 =
        (debug_Containers list_order stopped).2.
Proof.
  intros stopped cs. apply (@page_shows_containers _ sample_manager); [by vm_compute |].
  apply Forall_singleton. unfold utf8_container. by split_and!; apply utf8_ascii; vm_compute.
Defined.

Lemma sendStatus_survives_close_witness :
  let listed n := @perform_all _ sample_manager (repeat CallContainers n) sample_state in
  (∃ texts, length texts = 3
     ∧ @sendStatus _ sample_manager false [Ret (); Fail ErrCloseSent; Fail ErrCloseSent] sample_state =
         (Waiting, listed 3, texts))
  ∧ (∃ texts, length texts = 4
     ∧ @sendStatus _ sample_manager false
         ([Ret (); Fail ErrCloseSent; Fail ErrCloseSent] ++ Fail EOF :: [Ret ()]) sample_state =
         (Finished, listed 4, texts))
  ∧ sendPing (Fail ErrCloseSent :: [Ret ()]) = Finished.
Proof.
  apply (@sendStatus_survives_close _ sample_manager false
           [Ret (); Fail ErrCloseSent; Fail ErrCloseSent] sample_state EOF [Ret ()] [Ret ()]);
    [exact debug_lists | | done].
  repeat apply Forall_cons_2; [by left | by right | by right | constructor].
Defined.

(** The manager is closed once the server ends, or when the assets are missing;
    the server never runs without a manager. *)
Example Run_closes :
  @Run _ sample_manager (Ret (assign_setting (SetBool FEmulate true) (Default (Ret "hpc-1"))))
    sample_state (Fail EOF) (Ret ()) (λ _, (@perform _ sample_manager CallContainers))
  = (Some ":8010",
     Some (@perform_all _ sample_manager [CallContainers; CallClose] sample_state)).
Proof. done. Qed.

(** Without the template the handler sends an error page and panics. *)
Example missing_template_panics :
  handleIndex (Fail EOF) (Ret "hpc-1") (λ _, Ret ()) =
    (Panic NilDereference, [InternalServerError EOF]).
Proof. done. Qed.
