(* ===== verification/Connection.v ===== *)
(** A connection of the status page: [handleWebSocket] of
    [cmd/carisma-status-manager/app/app.go] and the three goroutines it starts
    on one websocket and one container manager, as a step relation.

    The websocket is third-party code; what the steps use of it is documented:
    after a close message was sent every write fails with [ErrCloseSent], after
    [Close] with another error; a close message of the peer is answered with
    one, a message over the read limit, too, and both end the reading; a read
    past its deadline fails; a pong calls the pong handler.  Times are in
    nanoseconds. *)
From S2P Require Import Prelude GoStrings Json JsonParse Container Config Orchestrator DebugManager StatusManager.

Local Open Scope list_scope.

Definition Second : Z := 1000000000.
Definition writeWait : Z := 10 * Second.
Definition pongWait : Z := 60 * Second.
Definition pingPeriod : Z := Z.quot (pongWait * 9) 10.
Definition maxMessageSize : Z := 1024.
Definition statusPeriod : Z := 30 * Second.

Section connection.
Context {S : Type} `{Manager S}.
Context (nil_slice : bool).

(** [closed] by [ws.Close()]; [close_sent] when a close message was sent. *)
Record connection := {
  manager : S;
  now : Z;
  read_deadline : Z;
  reader : goroutine;
  sender : goroutine;
  pinger : goroutine;
  closed : bool;
  close_sent : bool;
  lists_sent : list string;
}.

(** [handleWebSocket]: without a connection when the upgrade fails. *)
Definition handleWebSocket (upgraded : outcome unit) (s : S) (t : Z) : option connection :=
  match upgraded with
  | Ret _ =>
      Some {| manager := s; now := t; read_deadline := t + pongWait; reader := Waiting;
              sender := Waiting; pinger := Waiting; closed := false; close_sent := false;
              lists_sent := [] |}
  | _ => None
  end.

Definition set_now (t : Z) (c : connection) : connection :=
  {| manager := manager c; now := t; read_deadline := read_deadline c; reader := reader c;
     sender := sender c; pinger := pinger c; closed := closed c; close_sent := close_sent c;
     lists_sent := lists_sent c |}.

(** The pong handler: [ws.SetReadDeadline(time.Now().Add(pongWait))]. *)
Definition pong (c : connection) : connection :=
  {| manager := manager c; now := now c; read_deadline := now c + pongWait; reader := reader c;
     sender := sender c; pinger := pinger c; closed := closed c; close_sent := close_sent c;
     lists_sent := lists_sent c |}.

(** A message of [readMessages]; a panic runs the deferred call. *)
Definition read_message (msgContent : string) (c : connection) : connection :=
  let '(r, s) := handle_message msgContent (manager c) in
  let crash := match r with Panic p => Some p | _ => None end in
  {| manager := s; now := now c; read_deadline := read_deadline c;
     reader := match crash with Some p => Crashed p | None => reader c end;
     sender := sender c; pinger := pinger c;
     closed := match crash with Some _ => true | None => closed c end;
     close_sent := close_sent c; lists_sent := lists_sent c |}.

(** [ReadMessage] fails; [sent] tells whether a close message was sent for it. *)
Definition end_reading (sent : bool) (c : connection) : connection :=
  {| manager := manager c; now := now c; read_deadline := read_deadline c; reader := Finished;
     sender := sender c; pinger := pinger c; closed := true; close_sent := sent || close_sent c;
     lists_sent := lists_sent c |}.

(** A call of [sendContainerList], the result of its write being [w]. *)
Definition send_list (w : outcome unit) (c : connection) : connection :=
  let '(r, s, out) := sendContainerList nil_slice w (manager c) in
  {| manager := s; now := now c; read_deadline := read_deadline c; reader := reader c;
     sender := match r with Ret _ => sender c | Fail _ => Finished | Panic p => Crashed p end;
     pinger := pinger c; closed := closed c; close_sent := close_sent c;
     lists_sent := lists_sent c ++ out |}.

(** A tick of [sendPing]. *)
Definition ping (w : outcome unit) (c : connection) : connection :=
  {| manager := manager c; now := now c; read_deadline := read_deadline c; reader := reader c;
     sender := sender c;
     pinger := match w with Ret _ => pinger c | Fail _ => Finished | Panic p => Crashed p end;
     closed := closed c; close_sent := close_sent c; lists_sent := lists_sent c |}.

(** What a write to the websocket can return. *)
Definition write_result (c : connection) (w : outcome unit) : Prop :=
  if close_sent c then w = Fail ErrCloseSent
  else (∃ err, w = Fail err ∧ err ≠ ErrCloseSent) ∨ (closed c = false ∧ w = Ret ()).

(** A panic of one goroutine ends the program. *)
Definition crashed (c : connection) : bool :=
  let dead g := match g with Crashed _ => true | _ => false end in
  dead (reader c) || dead (sender c) || dead (pinger c).

Definition can_read (c : connection) : Prop :=
  reader c = Waiting ∧ (now c ≤ read_deadline c)%Z.

Inductive connection_step : connection → connection → Prop :=
| step_time c t : (now c ≤ t)%Z → crashed c = false → connection_step c (set_now t c)
| step_message c msgContent :
    can_read c → crashed c = false → (len msgContent ≤ maxMessageSize)%Z →
    connection_step c (read_message msgContent c)
| step_too_long c msgContent :
    can_read c → crashed c = false → (maxMessageSize < len msgContent)%Z →
    connection_step c (end_reading true c)
| step_pong c : can_read c → crashed c = false → connection_step c (pong c)
| step_peer_closes c :
    can_read c → crashed c = false → connection_step c (end_reading true c)
| step_read_fails c :
    reader c = Waiting → crashed c = false → connection_step c (end_reading false c)
| step_send_list c w :
    sender c = Waiting → crashed c = false → write_result c w → connection_step c (send_list w c)
| step_ping c w :
    pinger c = Waiting → crashed c = false → write_result c w → connection_step c (ping w c).

(** Listing the containers does not panic. *)
Definition lists_calmly : Prop := ∀ (s : S) p, (Containers s).1 ≠ Panic p.

(** ** Lemmas *)

Lemma send_list_close_sent c :
  lists_calmly → sender (send_list (Fail ErrCloseSent) c) = sender c.
Proof.
  intros Hcalm. specialize (Hcalm (manager c)). unfold send_list, sendContainerList.
  destruct (Containers (manager c)) as [[cs | err | p] s]; [| done |].
  - done.
  - by destruct (Hcalm p).
Qed.

(** The reader is the only one to close the connection, and does so when it ends. *)
Definition connection_ok (c : connection) : Prop :=
  (closed c = false ↔ reader c = Waiting) ∧ (close_sent c = true → closed c = true).

Lemma connection_ok_step c c' : connection_ok c → connection_step c c' → connection_ok c'.
Proof.
  intros [Hc Hs] Hstep. unfold connection_ok.
  destruct Hstep as [c t _ _ | c m [Hr _] _ _ | c m [Hr _] _ _ | c [Hr _] _ | c [Hr _] _ | c Hr _
    | c w _ _ _ | c w _ _ _]; cbn; try done.
  - unfold read_message. destruct (handle_message m (manager c)) as [[| | p] s]; cbn; [done | done |].
    split; [done |]. intros E. by apply Hs in E.
  - unfold send_list. by destruct (sendContainerList nil_slice w (manager c)) as [[r s] out].
Qed.

(** Once a close message was sent the sender never ends. *)
Lemma close_sent_step c c' :
  lists_calmly → close_sent c = true → connection_step c c' →
  close_sent c' = true ∧ sender c' = sender c.
Proof.
  intros Hcalm Hs Hstep.
  destruct Hstep as [c t _ _ | c m _ _ _ | c m _ _ _ | c _ _ | c _ _ | c _ _ | c w _ _ Hw | c w _ _ _];
    cbn; try done; try (by rewrite Hs, ?orb_true_r).
  - unfold read_message. by destruct (handle_message m (manager c)) as [[| | p] s].
  - unfold write_result in Hw. rewrite Hs in Hw. subst w. split; [| by apply send_list_close_sent].
    unfold send_list. by destruct (sendContainerList nil_slice _ (manager c)) as [[r s] out].
Qed.

(** ** Property *)

(** C20. The life of a connection.  The connection is closed exactly when
    [readMessages] has ended.  Then the next ping ends [sendPing] and,
    if no close message was sent, the next list that can be made ends
    [sendStatus]; but once a close message was sent - the page was left, or
    sent more than 1024 bytes - [sendStatus] never ends: whatever happens
    afterwards, it waits for its next tick. *)
Theorem connection_lifecycle c0 c upgraded s t :
  lists_calmly → handleWebSocket upgraded s t = Some c0 → rtc connection_step c0 c →
  (closed c = true ↔ reader c ≠ Waiting)
  ∧ (∀ w, closed c = true → write_result c w → pinger (ping w c) = Finished)
  ∧ (∀ w cs s', closed c = true → close_sent c = false → Containers (manager c) = (Ret cs, s') →
       write_result c w → sender (send_list w c) = Finished)
  ∧ (close_sent c = true → sender c = Waiting →
       ∀ c', rtc connection_step c c' → sender c' = Waiting).
Proof.
  intros Hcalm Hws Hr.
  assert (Hok : connection_ok c).
  { eapply (rtc_invariant connection_step connection_ok); [apply connection_ok_step | exact Hr |].
    destruct upgraded; simplify_eq/=. by split. }
  destruct Hok as [Hclosed Hsent]. split_and!.
  - destruct (closed c); destruct (reader c); naive_solver.
  - intros w Hc Hw. unfold write_result in Hw. rewrite Hc in Hw. cbn.
    destruct (close_sent c); [by subst w |]. by destruct Hw as [(err & -> & _) | [? _]].
  - intros w cs s' Hc Hns Hlist Hw. unfold write_result in Hw. rewrite Hns, Hc in Hw.
    destruct Hw as [(err & -> & Herr) | [? _]]; [| done].
    unfold send_list, sendContainerList. rewrite Hlist.
    by assert (is_close_sent err = false) as -> by by apply bool_decide_false.
  - intros Hcs Hsd c' Hrun. clear Hr Hclosed Hsent. revert Hcs Hsd.
    induction Hrun as [c1 | c1 c2 c3 Hstep _ IH]; [done |]. intros Hcs Hsd.
    destruct (close_sent_step c1 c2 Hcalm Hcs Hstep) as [Hcs' Hsd'].
    apply IH; [done | congruence].
Qed.

(** ** Pings

    The pongs to pings at multiples of [pingPeriod], each with its delay. *)
Fixpoint pongs_in_time (ping_time deadline : Z) (delays : list Z) : bool :=
  match delays with
  | [] => true
  | d :: delays =>
      bool_decide (ping_time + d ≤ deadline)%Z
      && pongs_in_time (ping_time + pingPeriod) (ping_time + d + pongWait) delays
  end.

(** A peer that answers every ping within six seconds keeps the connection
    open for ever. *)
Lemma timely_pongs start delays :
  Forall (λ d, 0 ≤ d ≤ pongWait - pingPeriod)%Z delays →
  pongs_in_time (start + pingPeriod) (start + pongWait) delays = true.
Proof.
  assert (Hgen : ∀ t deadline, (t + (pongWait - pingPeriod) ≤ deadline)%Z →
    Forall (λ d, 0 ≤ d ≤ pongWait - pingPeriod)%Z delays → pongs_in_time t deadline delays = true).
  { induction delays as [| d delays IH]; intros t deadline Ht Hd; [done |].
    apply Forall_cons in Hd as [Hd Hds]. cbn [pongs_in_time].
    rewrite bool_decide_true by lia. apply IH; [lia | done]. }
  apply Hgen. lia.
Qed.
End connection.
Arguments connection : clear implicits.

(** The page is left: the list is sent for ever. *)
Definition new_connection : connection (list Container) :=
  {| manager := []; now := 0; read_deadline := pongWait; reader := Waiting; sender := Waiting;
     pinger := Waiting; closed := false; close_sent := false; lists_sent := [] |}.

Lemma connection_lifecycle_witness :
  let c := end_reading true new_connection in
  closed c = true ∧ close_sent c = true ∧ sender c = Waiting
  ∧ (closed c = true ↔ reader c ≠ Waiting)
  ∧ (∀ w, closed c = true → write_result c w → pinger (ping w c) = Finished)
  ∧ (∀ w cs s', closed c = true → close_sent c = false →
       @Containers _ toy_manager (manager c) = (Ret cs, s') →
       write_result c w → sender (@send_list _ toy_manager true w c) = Finished)
  ∧ (close_sent c = true → sender c = Waiting →
       ∀ c', rtc (@connection_step _ toy_manager true) c c' → sender c' = Waiting).
Proof.
  intros c. do 3 (split; [reflexivity |]).
  apply (@connection_lifecycle _ toy_manager true new_connection c (Ret ()) [] 0).
  - intros l p. done.
  - reflexivity.
  - apply rtc_once, step_peer_closes; [split; [reflexivity | by vm_compute] | reflexivity].
Defined.
