(* ===== verification/Startup.v ===== *)
(** Package [cmd/carisma-orchestrator/app], file [app.go], the beginning of
    [Run]: the configuration, the choice of the container manager, and the
    program of [OrchestratorApp] with it.  The two managers keep different
    states: the result says which one the program ran with. *)
From S2P Require Import Prelude GoStrings Json JsonParse Config ConfigSources Envoy Message Broadcast Discovery Container NodeRegistry Orchestrator OrchestratorApp DebugManager DockerManager.

Local Open Scope string_scope.

(** The machine the program is started on: its name, the configuration file
    ([os.Stat] and [os.ReadFile]), the arguments, and the client of a Docker
    engine, if it can be reached ([NewDockerContainerManager]). *)
Record machine (S : Type) := {
  os_Hostname : outcome string;
  file_stat : outcome unit;
  file_content : outcome string;
  arguments : list string;
  engine : outcome S;
}.
Arguments os_Hostname {S} m.
Arguments file_stat {S} m.
Arguments file_content {S} m.
Arguments arguments {S} m.
Arguments engine {S} m.

(** How a run of the program ends: with an error that is logged or a panic
    before there is a manager, in [flag.Parse], or after [Run] with a manager. *)
Inductive ending (S : Type) :=
| NotStarted
| Crashed (p : panic)
| Exited (status : Z)
| Emulated (r : exit * debugContainerManager * list announcement)
| WithDocker (r : exit * S * list announcement).
Arguments NotStarted {S}.
Arguments Crashed {S} p.
Arguments Exited {S} status.
Arguments Emulated {S} r.
Arguments WithDocker {S} r.

Section startup.
Context `{AnyPkg} `{GobPkg} `{ReferencePkg} {S : Type} `{DockerClient S}.
Context (protojson_Format : Bootstrap → string).
Context (order : nat → gmap string virtualContainer → list (string * virtualContainer)).
Context (port_order : PortMap → list (string * list PortBinding)).
Context (Intn : nat → nat).

Definition run_emulated (cfg : Config) (p : peers) :=
  @Run _ _ _ _ (debug_manager order port_order Intn) protojson_Format cfg p NewDebugContainerManager.

Definition run_docker (cfg : Config) (p : peers) (s : S) :=
  @Run _ _ _ _ docker_manager protojson_Format cfg p s.

Definition orchestrator_main (m : machine S) (p : peers) : ending S :=
  match New (os_Hostname m) (file_stat m) (file_content m) (arguments m) with
  | Fail err => NotStarted
  | Panic e => Crashed e
  | Ret (Exit status) => Exited status
  | Ret (Parsed cfg) =>
      if EmulateContainerRuntime cfg then Emulated (run_emulated cfg p)
      else match engine m with
           | Ret s => WithDocker (run_docker cfg p s)
           | Fail err => NotStarted
           | Panic e => Crashed e
           end
  end.

(** Without discovery a node registers at the configured central node. *)
Lemma register_configured cfg p :
  EnableDiscovery cfg = false →
  discovered cfg p = Ret cfg
  ∧ control_plane_target cfg = JoinHostPort (CentralNodeHostname cfg) (Itoa (GRPCPort cfg)).
Proof. intros Hd. unfold discovered. by rewrite Hd. Qed.

(** ** Property *)

(** C36. The program runs as configured: with members of the file and arguments that
    are settings, and discovery switched off, it runs the emulated container
    runtime if this is what the last setting of [EmulateContainerRuntime] says
    and otherwise Docker, if an engine answers; and it registers under its
    configured name at the host and port of the last settings of the central node and the gRPC port - on a
    central node at its own host, whatever was set for the central node. *)
Theorem program_runs_as_configured (m : machine S) p ys xs content :
  Forall setting_fits (ys ++ xs) →
  file_stat m = Ret () → file_content m = Ret content →
  parse_json content = Some (JObject (map as_member ys)) →
  mapM as_argument xs = Some (arguments m) →
  let configured f := last_value f (ys ++ xs) (get_field f (Default (os_Hostname m))) in
  configured (FieldBool FDiscovery) = ValueBool false →
  ∃ cfg host port,
    orchestrator_main m p =
      (if decide (configured (FieldBool FEmulate) = ValueBool true)
       then Emulated (run_emulated cfg p)
       else match engine m with
            | Ret s => WithDocker (run_docker cfg p s)
            | Fail err => NotStarted
            | Panic e => Crashed e
            end)
    ∧ discovered cfg p = Ret cfg
    ∧ register_node cfg p = register_at (JoinHostPort host (Itoa port)) (node_request cfg) p
    ∧ ValueString (Address (node_request cfg)) = configured (FieldString FNode)
    ∧ ValueInt port = configured (FieldInt FGRPCPort)
    ∧ ValueString host =
        (if decide (configured (FieldBool FCentralMode) = ValueBool true)
         then configured (FieldString FNode) else configured (FieldString FCentralNode)).
Proof.
  intros Hfit Hstat Hcontent Hfile Hargs configured Hdisc.
  destruct (New_settings (os_Hostname m) content ys xs (arguments m) Hfit Hfile Hargs)
    as (cfg & Hnew & Hget & Hcentral).
  assert (Hf : ∀ f, f ≠ FieldString FCentralNode → get_field f cfg = configured f).
  { intros f Hne. by destruct (Hget f) as [E | [E _]]. }
  exists cfg, (CentralNodeHostname cfg), (GRPCPort cfg).
  rewrite <- !(Hf (FieldBool _)), <- !(Hf (FieldInt _)), <- (Hf (FieldString FNode)) by done.
  rewrite <- (Hf (FieldBool FDiscovery)) in Hdisc by done. injection Hdisc as Hdisc.
  destruct (register_configured cfg p Hdisc) as [Hdc _]. split_and!; [| done | done | done | done |].
  - unfold orchestrator_main. rewrite Hstat, Hcontent, Hnew. cbn [get_field].
    by destruct (EmulateContainerRuntime cfg).
  - cbn [get_field]. destruct (EnableCentralMode cfg) eqn:Hcm.
    + rewrite decide_True by done. by rewrite Hcentral.
    + rewrite decide_False by done.
      destruct (Hget (FieldString FCentralNode)) as [E | [_ E]]; [exact E | congruence].
Qed.
End startup.

(** ** A central node with the emulated runtime. *)
Definition central_settings : list setting :=
  [SetBool FCentralMode true; SetBool FEmulate true; SetString FCentralNode "elsewhere"].
Definition central_file : string := MarshalIndent (JObject (map as_member central_settings)).
Definition central_machine : machine (list string) :=
  {| os_Hostname := Ret "hpc-1"; file_stat := Ret (); file_content := Ret central_file;
     arguments := ["-grpc-port=8042"]; engine := Fail errTimeout |}.

Lemma program_runs_as_configured_witness :
  let client := toy_client (λ _, Ret "{}") in
  let p := peers_at "hpc-1:8042" [] in
  let configured f :=
    last_value f (central_settings ++ [SetInt FGRPCPort 8042]) (get_field f (Default (Ret "hpc-1"))) in
  let emulated cfg :=
    @run_emulated any_instance sample_gob familiar_reference (λ _, "") list_order port_list_order
      cyclic_draws cfg p in
  let docker cfg s :=
    @run_docker any_instance sample_gob familiar_reference _ client (λ _, "") cfg p s in
  ∃ cfg host port,
    @orchestrator_main any_instance sample_gob familiar_reference _ client (λ _, "") list_order
        port_list_order cyclic_draws central_machine p =
      (if decide (configured (FieldBool FEmulate) = ValueBool true)
       then Emulated (emulated cfg)
       else match engine central_machine with
            | Ret s => WithDocker (docker cfg s)
            | Fail err => NotStarted
            | Panic e => Crashed e
            end)
    ∧ @discovered sample_gob cfg p = Ret cfg
    ∧ register_node cfg p = register_at (JoinHostPort host (Itoa port)) (node_request cfg) p
    ∧ ValueString (Address (node_request cfg)) = configured (FieldString FNode)
    ∧ ValueInt port = configured (FieldInt FGRPCPort)
    ∧ ValueString host =
        (if decide (configured (FieldBool FCentralMode) = ValueBool true)
         then configured (FieldString FNode) else configured (FieldString FCentralNode)).
Proof.
  intros client p configured emulated docker.
  apply (@program_runs_as_configured any_instance sample_gob familiar_reference _ client (λ _, "")
    list_order port_list_order cyclic_draws central_machine p central_settings
    [SetInt FGRPCPort 8042] central_file); [| by vm_compute ..].
  unfold setting_fits, fits_int, int_min, int_max. repeat constructor; cbn; lia.
Defined.
