(* ===== verification/Mesh.v ===== *)
(** The way of an Envoy configuration through the system: the identifier that a
    node gets when it registers goes into the bootstrap message of its Envoy,
    and under this identifier the control plane stores the snapshot of the
    node. *)
From S2P Require Import Prelude GoStrings NodeRegistry Slices ServiceRegistry Envoy Config Xds Container Orchestrator OrchestratorApp.

Local Open Scope string_scope.

(** The bootstrap message names the node and takes everything from the one
    static cluster, the control plane. *)
Lemma EnvoyBootstrapConfig_Ret `{AnyPkg} cfg id boot :
  EnvoyBootstrapConfig cfg id = Ret boot →
  Node_Id boot = id ∧ LdsConfig boot = ads_source ∧ CdsConfig boot = ads_source
  ∧ GrpcServices (AdsConfig boot) = [XDSClusterName]
  ∧ ∃ c, Static_Clusters boot = [c] ∧ Cluster_Name c = XDSClusterName
      ∧ Endpoints (LoadAssignment c) =
          [{| LbEndpoints :=
                [LbEndpoint_Endpoint
                   {| Endpoint_Address :=
                        tcp_address (CentralNodeHostname cfg) (GRPCPort cfg) |}] |}].
Proof.
  intros (http2 & _ & [= <-])%bind_Ret_inv. split_and!; [done .. |]. by eexists.
Qed.

(** The ports of its container a node publishes. *)
Lemma envoy_ports_published cfg q :
  is_Some (envoy_ports cfg !! Itoa q) ↔ q ∈ [AdminPort cfg; EgressPort cfg; IngressPort cfg].
Proof.
  unfold envoy_ports, bind_port. rewrite !lookup_insert_is_Some', lookup_empty, is_Some_alt.
  rewrite !elem_of_cons. split.
  - intros [E | [E | [E | []]]]; unfold Itoa in E; simplify_eq; auto.
  - intros [-> | [-> | [-> | []%elem_of_nil]]]; auto.
Qed.

(** The answer to the [k]-th registration. *)
Lemma register_all_id reqs srv out k req :
  register_all NewNodeRegistryServer reqs = Ret (srv, out) → reqs !! k = Some req →
  length (nodes srv) = length reqs
  ∧ out !! k = Some (addr_of req, {| Id := generateNodeID (Z.of_nat k) |}).
Proof.
  rewrite register_all_eq. intros [= <- <-] Hk. cbn. split; [by rewrite length_map |].
  by rewrite list_lookup_imap, Hk.
Qed.

(** ** Property *)

(** C7. Every node's Envoy finds its snapshot.  Let nodes with the
    configurations [cfgs] register one after the other, and let the control
    plane, with the configuration [ccfg] and no services yet, generate the
    snapshots.  Then there is a snapshot under the identifier in the bootstrap
    message of every node; it has the two listeners and no clusters, and the
    bootstrap message directs Envoy to the configured central node and port
    for it.  The listeners have the ports of the control plane: the port of the
    ingress listener is published on a node exactly if it is one of the ports
    of that node's own configuration. *)
Theorem envoy_finds_its_snapshot `{SnapshotPkg, SlicesPkg}
    (ccfg : Config) (cfgs : list Config) its s ls x srv out :
  register_all NewNodeRegistryServer (map node_request cfgs) = Ret (srv, out) →
  xnodes x = nodes srv →
  (∀ n b ports, ¬ offers s n b ports) →
  (∀ i, services_order s (its i).1 ∧ services_order s (its i).2) →
  makeHTTPListener ccfg = Ret ls →
  (∀ c n sn, (SetSnapshot c n sn).2 = None) →
  (Z.of_nat (length cfgs) ≤ int_max + 1)%Z →
  ∃ x', generateSnapshots x ccfg its = (x', Ret ())
    ∧ ∀ k cfg, cfgs !! k = Some cfg →
        ∃ resp, out !! k = Some (addr_of (node_request cfg), resp)
          ∧ ∀ boot, EnvoyBootstrapConfig cfg (Id resp) = Ret boot →
              (∃ sn, GetSnapshot (cache x') (Node_Id boot) = Some sn
                 ∧ GetResources sn ListenerType ≡ₚ map ResListener ls
                 ∧ GetResources sn ClusterType = [])
              ∧ LdsConfig boot = ads_source ∧ CdsConfig boot = ads_source
              ∧ GrpcServices (AdsConfig boot) = [XDSClusterName]
              ∧ (∃ c, Static_Clusters boot = [c] ∧ Cluster_Name c = XDSClusterName
                  ∧ Endpoints (LoadAssignment c) =
                      [{| LbEndpoints :=
                            [LbEndpoint_Endpoint
                               {| Endpoint_Address :=
                                    tcp_address (CentralNodeHostname cfg) (GRPCPort cfg) |}] |}])
              ∧ (is_Some (envoy_ports cfg !! Itoa (IngressPort ccfg)) ↔
                   IngressPort ccfg ∈ [AdminPort cfg; EgressPort cfg; IngressPort cfg]).
Proof.
  intros Hreg Hx Hno Hord Hls Hset Hlen.
  assert (Hn : length (xnodes x) = length cfgs).
  { rewrite Hx. rewrite register_all_eq in Hreg. injection Hreg as <- _. cbn.
    by rewrite !length_map. }
  destruct (generateSnapshots_no_services x ccfg its s ls) as (c' & Hgen & Hsn & _);
    [done .. | by rewrite Hn |].
  eexists. split; [exact Hgen |]. intros k cfg Hk.
  destruct (register_all_id _ srv out k (node_request cfg) Hreg) as [_ Hout].
  { by rewrite list_lookup_fmap, Hk. }
  eexists. split; [exact Hout |].
  intros boot (-> & Hl & Hc & Hg & Hcl)%EnvoyBootstrapConfig_Ret. split_and!; try done.
  - destruct (Hsn k) as (sn & Hget & _ & Hlis & _ & Hclu).
    { rewrite Hn. by eapply lookup_lt_Some. }
    by exists sn.
  - by rewrite envoy_ports_published.
Qed.

(** Two nodes; the second one has its own ingress port. *)
Definition sample_nodes : list Config :=
  [Default (Ret "hpc-1");
   match Default (Ret "hpc-2") with
   | Build_Config dm em cm ed ch nh sp gp up ud ut _ ep ap rd =>
       Build_Config dm em cm ed ch nh sp gp up ud ut 9999 ep ap rd
   end].

Lemma envoy_finds_its_snapshot_witness :
  let ccfg := Default (Ret "hpc-1") in
  ∃ srv out ls x', register_all NewNodeRegistryServer (map node_request sample_nodes) = Ret (srv, out)
    ∧ generateSnapshots
        {| snapshotVersion := -1; cache := NewSnapshotCache; xnodes := nodes srv |} ccfg
        (λ _, ([], [])) = (x', Ret ())
    ∧ ∀ k cfg, sample_nodes !! k = Some cfg →
        ∃ resp, out !! k = Some (addr_of (node_request cfg), resp)
          ∧ ∀ boot, EnvoyBootstrapConfig cfg (Id resp) = Ret boot →
              (∃ sn, GetSnapshot (cache x') (Node_Id boot) = Some sn
                 ∧ GetResources sn ListenerType ≡ₚ map ResListener ls
                 ∧ GetResources sn ClusterType = [])
              ∧ LdsConfig boot = ads_source ∧ CdsConfig boot = ads_source
              ∧ GrpcServices (AdsConfig boot) = [XDSClusterName]
              ∧ (∃ c, Static_Clusters boot = [c] ∧ Cluster_Name c = XDSClusterName
                  ∧ Endpoints (LoadAssignment c) =
                      [{| LbEndpoints :=
                            [LbEndpoint_Endpoint
                               {| Endpoint_Address :=
                                    tcp_address (CentralNodeHostname cfg) (GRPCPort cfg) |}] |}])
              ∧ (is_Some (envoy_ports cfg !! Itoa (IngressPort ccfg)) ↔
                   IngressPort ccfg ∈ [AdminPort cfg; EgressPort cfg; IngressPort cfg]).
Proof.
  intros ccfg. eexists _, _, _.
  edestruct (envoy_finds_its_snapshot ccfg sample_nodes (λ _, ([], [])) ∅) as (x' & Hgen & Hall).
  - vm_compute. reflexivity.
  - cbn [xnodes nodes]. match goal with |- _ = ?n =>
      instantiate (1 := {| snapshotVersion := -1; cache := NewSnapshotCache; xnodes := n |}) end.
    reflexivity.
  - intros n b ports Ho. unfold offers, lookup2 in Ho. by rewrite lookup_empty in Ho.
  - intros i. split; apply services_order_empty.
  - vm_compute. reflexivity.
  - done.
  - vm_compute. discriminate.
  - exists x'. split; [vm_compute; reflexivity |]. split; [exact Hgen | exact Hall].
Defined.
