(* ===== verification/Logging.v ===== *)
(** Packages [pkg/logging] and [pkg/version] and [cmd/carisma-version/app]: the
    parts with a decision of their own - the stream a message goes to, the
    position printed with it, which calls log anything, and the version that is
    printed.  Formatting and filtering by level is the job of zerolog. *)
From S2P Require Import Prelude GoStrings.

Local Open Scope string_scope.

(** ** [levelWriter]

    The levels of zerolog are integers, [WarnLevel] is 2. *)
Definition DebugLevel : Z := 0.
Definition InfoLevel : Z := 1.
Definition WarnLevel : Z := 2.
Definition ErrorLevel : Z := 3.

Inductive stream := Stdout | Stderr.

Definition WriteLevel (level : Z) (p : string) : stream * string :=
  if decide (level ≤ WarnLevel)%Z then (Stdout, p) else (Stderr, p).

(** ** [CallerMarshalFunc]

    The loop from the end of the name of the file; the byte at index 0 is not
    looked at. *)
Fixpoint shorten_loop (file : string) (i : nat) : outcome string :=
  match i with
  | 0 => Ret file
  | S i' =>
      match String.get i file with
      | None => Panic IndexOutOfRange
      | Some c => if (c =? "/")%char then drop_bytes (i + 1) file else shorten_loop file i'
      end
  end.

Definition CallerMarshalFunc (file : string) (line : Z) : outcome string :=
  short ← shorten_loop file (String.length file - 1);
  Ret (short +:+ ":" +:+ Itoa line).

(** ** Log calls: the messages handed to the logger *)
Definition LogInfo (msg : string) : list (Z * string) := [(InfoLevel, msg)].
Definition LogDbg (msg : string) : list (Z * string) := [(DebugLevel, msg)].

(** The message is empty, the error is a field: [text] is [err.Error()]. *)
Definition LogErr (text : error → string) (err : option error) : list (Z * string) :=
  match err with Some err => [(ErrorLevel, text err)] | None => [] end.

(** [EnableDebugLogs]: the global level of zerolog after the call; before it
    the level is that of debug messages, too. *)
Definition EnableDebugLogs (globalLevel : Z) : Z := DebugLevel.

(** [DebugLevelWriter.Write] *)
Definition DebugLevelWriter_Write (b : string) : list (Z * string) * Z :=
  ([(DebugLevel, b)], len b).

(** ** [carisma-version] *)
Definition end_of_line : string := String (ascii_of_nat 10) "".

Definition version_line (version commit : string) : string :=
  if version =? "DEVELOPMENT"
  then "Running CARISMA built from source based on " +:+ commit +:+ end_of_line
  else "Running CARISMA " +:+ version +:+ end_of_line.

(** ** Lemmas *)

Lemma get_app_r a b k : String.get (String.length a + k) (a +:+ b) = String.get k b.
Proof. induction a as [| x a IH]; simpl; [done | exact IH]. Qed.

Lemma get_no_byte c b k :
  has_byte c b = false → (k < String.length b)%nat →
  ∃ x, String.get k b = Some x ∧ (x =? c)%char = false.
Proof.
  revert k. induction b as [| x b IH]; intros k Hb Hk; simpl in *; [lia |].
  apply orb_false_iff in Hb as [Hx Hb].
  destruct k as [| k]; [by exists x | apply IH; [done | lia]].
Qed.

(** The loop passes over a part without a slash. *)
Lemma shorten_loop_skip a b k :
  has_byte "/" b = false → (k ≤ String.length b)%nat →
  shorten_loop (String a b) k = Ret (String a b).
Proof.
  intros Hb. induction k as [| k IH]; intros Hk; [done |].
  destruct (get_no_byte "/" b k Hb Hk) as (x & Hx & Hs).
  cbn [shorten_loop String.get]. rewrite Hx, Hs. apply IH. lia.
Qed.

Lemma shorten_loop_slash c d b k :
  has_byte "/" b = false → (k ≤ String.length b)%nat →
  shorten_loop (String c (d +:+ String "/" b)) (S (String.length d + k)) = Ret b.
Proof.
  intros Hb. induction k as [| k IH]; intros Hk.
  - cbn [shorten_loop String.get]. rewrite get_app_r. cbn [String.get Ascii.eqb Bool.eqb andb].
    rewrite Nat.add_0_r.
    replace (S (String.length d) + 1) with (String.length (String c d +:+ "/"))
      by (rewrite str_length_app; simpl; lia).
    replace (String c (d +:+ String "/" b)) with ((String c d +:+ "/") +:+ b)
      by (cbn; by rewrite str_app_assoc).
    apply drop_bytes_app.
  - destruct (get_no_byte "/" b k Hb Hk) as (x & Hx & Hs).
    rewrite <- Nat.add_succ_comm in *. cbn [shorten_loop String.get].
    replace (S (String.length d) + k) with (String.length d + S k) by lia.
    rewrite get_app_r. cbn [String.get]. rewrite Hx, Hs.
    replace (String.length d + S k) with (S (String.length d + k)) by lia. apply IH. lia.
Qed.

(** ** Properties *)

(** The position printed with a message is the name of the file behind its last
    slash - a slash that is its first byte stays - and the line; no name of a
    file, the empty one included, makes it panic. *)
Theorem caller_position c d b line :
  has_byte "/" b = false →
  CallerMarshalFunc (String c (d +:+ String "/" b)) line = Ret (b +:+ ":" +:+ Itoa line)
  ∧ CallerMarshalFunc (String c b) line = Ret (String c b +:+ ":" +:+ Itoa line)
  ∧ CallerMarshalFunc "" line = Ret (":" +:+ Itoa line).
Proof.
  intros Hb. unfold CallerMarshalFunc. split_and!; [| | done].
  - cbn [String.length]. rewrite str_length_app. cbn [String.length].
    replace (S (String.length d + S (String.length b)) - 1)
      with (S (String.length d + String.length b)) by lia.
    by rewrite shorten_loop_slash.
  - cbn [String.length]. rewrite Nat.sub_succ, Nat.sub_0_r.
    by rewrite shorten_loop_skip.
Qed.

Lemma caller_position_witness :
  CallerMarshalFunc "/src/app.go" 12 = Ret "app.go:12"
  ∧ CallerMarshalFunc "/app.go" 12 = Ret "/app.go:12" ∧ CallerMarshalFunc "" 12 = Ret ":12".
Proof. apply (caller_position "/" "src" "app.go" 12). done. Defined.

(** Errors go to the standard error, everything else that the program logs to
    the standard output. *)
Theorem streams_of_log_calls text err msg :
  Forall (λ m, (WriteLevel m.1 m.2).1 = Stderr) (LogErr text err)
  ∧ Forall (λ m, (WriteLevel m.1 m.2).1 = Stdout)
      (LogInfo msg ++ LogDbg msg ++ (DebugLevelWriter_Write msg).1)%list.
Proof. split; [destruct err |]; repeat constructor. Qed.
